(* ===== verification/_CoqProject ===== *)
-Q . S2P
Prelude.v
Instants.v
Floats.v
Json.v
JsonParse.v
Sha256.v
HashChain.v
AuditLog.v
Paths.v
GoalContracts.v
GoalRecords.v
GoalSession.v
ModelGateway.v
ApprovalGate.v
QuotaLedger.v
JobQueue.v
CiContinuation.v
MigrationContract.v
MigrationRegistry.v
MigrationExecutor.v
Contracts.v
ExecutionContract.v
ExecutionLedger.v
ExecutionRecovery.v
ExecutionGrants.v
RuntimeContracts.v
RunAuthority.v
RunLease.v
RunLifecycle.v
RunSystem.v
ProviderBindings.v
RunEngine.v
RunSnapshots.v
RunLedger.v
AppendOnly.v
AssistantWork.v
PreviewRoutes.v
