(* ===== verification/Prelude.v ===== *)
(** * StatePort: a verification library for the governed control plane

    StatePort runs user-owned applications under governance: work is proposed,
    approved by a person, executed in a sandbox, reviewed by someone else and
    closed, and every effect is bounded, recorded and bound to what was approved.
    This library models the Python packages that hold those rules
    (src/packages/*/src) and proves what they promise.  Definitions keep the
    code's names; a method is a Definition or Fixpoint that takes the same steps
    in the same order, errors included.

    ** Files and what they model

    - [Prelude] (this file): outcomes, the state-and-error monad [M] with its
      inversion lemmas and [wp] rules, traces of calls, Python strings,
      association lists, counting in finite maps, the tactics.
    - [Json]: JSON values, Python dictionaries, [json.dumps] and UTF-8 encoding,
      [==] and [str()] of values; equal canonical texts come from equal values.
    - [JsonParse]: UTF-8 decoding and [json.loads]; parsing inverts printing.
    - [Sha256], [HashChain]: an executable SHA-256, and hash-chained logs over an
      interface [ChainEvent] that the audit log and the CI workflow implement.
    - [Paths]: slash-separated paths.  [Instants]: times, their stored texts and
      [datetime.fromisoformat]; stored texts compare as times and are read back as
      them.  [Floats]: binary64 numbers, as far as durations and costs need them.
    - [Contracts]: what the validators of the execution host and of the runtime
      contracts share.
    - [AuditLog]: packages/audit-log, log.py.
    - [GoalContracts], [GoalRecords], [GoalSession]: packages/goal-execution,
      contracts.py and service.py: validators and digests, the sixteen records
      (each an instance of the interface [Contract]), the session and the
      registry of instance leases.
    - [ModelGateway]: packages/tool-gateway, gateway.py.
    - [ApprovalGate]: packages/approval-gate, capabilities.py and gate.py.
    - [QuotaLedger]: packages/quota-engine, engine.py and ledger.py.
    - [JobQueue]: packages/governed-runner, jobs.py: the durable queue of jobs and
      the leases of its workers.
    - [CiContinuation]: packages/ci-continuation, machine.py.
    - [MigrationContract], [MigrationRegistry], [MigrationExecutor]:
      packages/lifecycle-migrations, contract.py, registry.py and executor.py.
    - [ExecutionContract], [ExecutionGrants]: packages/execution-host,
      daemon_contract.py (specifications, requests, grants, revocations) and
      grants.py (the verification of a request against the grant store).
    - [ExecutionLedger], [ExecutionRecovery]: packages/execution-host, ledger.py
      with the identity check of engine.py: the durable ledger of workloads and
      deployment operations, and the recovery that compares it with the
      containers of an engine, given as the interface [Engine].
    - [RuntimeContracts]: packages/runtime-contracts, alpha4.py with the field
      validators of contracts.py: the nine typed documents of a managed run.
    - [RunAuthority], [RunLease], [RunLifecycle]: packages/execution-host,
      run_authority.py, run_lease.py and agent_run_lifecycle.py: the owner's grants
      for managed runs, the lease machine with the workspace lock and the
      completion gate, and the lifecycle of one run.  [RunSystem] lets any number
      of processes call the lifecycle on one directory, and crash.
    - [ProviderBindings], [RunEngine]: packages/execution-host, provider_bindings.py
      and run_engine.py: the owner's provider configurations and their handles, the
      service that makes run evidence, and the engine that runs one managed run from
      its checks to its evidence.
    - [RunSnapshots]: packages/governed-runner, state.py: snapshots of an instance,
      their comparison and restoration.  [RunLedger]: ledger.py: the file of planned
      runs, shared by processes that each keep a copy in memory.
    - [AppendOnly]: packages/statedd-core, append_only_policy.py: record streams to
      which only registered migration markers are appended.
    - [AssistantWork]: packages/persistent-app, the stores of assistant_work.py,
      assistant_cancellable_runtime.py and assistant_resilient_runtime.py: the durable
      work an assistant owes to messages, its claims, results, replies and events.
    - [PreviewRoutes]: packages/preview-gateway, contracts.py and registry.py: the
      routes from a service of a capsule to a local port, with the chained receipts
      of every change and the markers of interrupted ones.

    ** How the parts interact

    A session (GoalSession) validates the records of GoalRecords and takes leases
    from a registry that all sessions of the process share.  A run it starts
    reserves quota (QuotaLedger), calls models through a gateway that holds its
    budgets (ModelGateway), asks people for what it may do (ApprovalGate), waits
    for CI (CiContinuation) and is executed by workloads of the execution host:
    the daemon normalizes a request (ExecutionContract), verifies its grant
    (ExecutionGrants), records the workload (ExecutionLedger) and compares the
    record with its containers after a restart (ExecutionRecovery).  A managed agent
    run begins under an owner's grant (RunAuthority) with a lease on its workspace
    (RunLease, over the contract of RuntimeContracts) and performs its effects while
    both are live (RunLifecycle); the engine drives one container with it and settles
    the run into evidence (RunEngine, ProviderBindings).  A governed run captures its
    instance and restores it when it is rolled back (RunSnapshots); its
    plan and status are kept in a ledger (RunLedger).  Jobs wait in a durable queue for
    workers that hold leases of their own (JobQueue), and so does the work of an
    assistant (AssistantWork), whose provider is called at most once for a message.
    Applications are moved between versions by declarative migrations (Migration files);
    the append-only streams of an instance are extended by markers (AppendOnly).  The
    services of an application are reached through registered routes (PreviewRoutes).  All of them record
    JSON documents whose digests bind one record to the next, which is why the
    first group of files makes the encoding and the digest exact.

    ** What the theorems show

    - Records and digests: a digest determines the record up to a collision of
      SHA-256 on the two texts at hand; formats do not overlap; registries and
      audit logs survive being written and read back; a runtime contract is its
      document, whatever the order of its keys; an accepted path stays inside the
      repository.
    - Histories: the audit file only grows and its head fixes all of it; the
      workflow's audit tells its whole history, and an override is never
      presented as a CI pass; the ledger of runs and the store of assistant work only
      reach legal states by legal moves, and what has ended is frozen (a run with a blank
      identifier makes its ledger unreadable for good); an append-only
      stream keeps its ordinary records, and a route its identity and receipts.
    - Authority: a request is authorized exactly when the grant it presents is the
      stored one, live and wide enough; the digest of a grant is that of the
      document in the store; a grant admits one sealed specification per
      workload; and verification raises typed refusals, with four exceptions that are
      named.  A managed run is authorized exactly
      by the grant its owner released, revocation is final, and an effect runs only
      while its grant and its lease are live.
    - Evidence: a run is completed only if its exit, its image and its provider use were
      observed, whatever the daemon answers and whenever the monitor looks; evidence is
      made once, and says completed only when the provider use it requires was marked and
      the process it names ran the pinned image.
    - Exclusion and single use, under any interleaving of calls: one active item
      per instance, leases exactly in the states that hold one, an approval
      decided once, an authorization used once, a deployment effect entered
      once, a version of a workload claimed once, one run per workspace among all
      processes, a run completed once, a lease that ended never live again; only the
      worker that claimed a job last acts on it, and an idempotency key is bound for
      good; an assistant's work is invoked at most once, later claims deliver its result;
      a destination has one active route, and what it resolves to is live.
    - Bounds: gateway budgets and daily quotas are never exceeded, also by calls in
      flight; workload capacity is exceeded by at most one for each call that does not
      check it.
    - Failure: refusals leave the state as it was; a migration takes effect
      completely or not at all and touches nothing else, whatever system calls
      fail; recovery ends only containers that are its own and leaves no workload
      undecided; restoring a snapshot brings back exactly the captured tree, and
      captures are compared exactly; a route cut off between its change and its receipt
      locks the registry of routes (a defect of the code).
    - Algorithms: a migration does what its operations composed say; the
      registry's search ends and finds a shortest path; the queue hands out its jobs
      first in, first out.

    ** Choices and bounds

    - A [string] is a Python [str] with code points below 256; identifiers,
      digests and messages of this code are of that kind.
    - JSON numbers are integers; the documents modelled hold no floats but the
      costs of the quota ledger, which are binary64 values ([SpecFloat]).
    - A dictionary is an association list in insertion order.
    - Clocks, random tokens, provider answers, the engine and SQLite's [SUM] of
      reals are arguments.  The gateway's clock is an integer of nanoseconds.
    - Writes to files fail according to a schedule of faults in the state, before
      or after they took effect; the theorems hold for every schedule.
    - The grant store is one snapshot of its directory, since a verification reads
      each file at most once; [datetime.fromisoformat] is modelled for the extended
      format of dates and times.  The validators of deployment payloads are an
      argument of [validate_request_payload].
    - Locks: a method that holds its lock throughout is one step, and theorems
      about concurrency quantify over all sequences of steps.  So is a transaction
      of the job queue or of the assistant's store, which leaves the tables as they were
      when it raises, a call of the ledger of runs, and a call
      of the run lifecycle; the advisory locks of the kernel are a map from locked
      files to the open file that holds them, which a crash closes.
    - A run of the engine follows a script: the answers of the daemon, the passes of the
      monitor thread between its steps, and arbitrary changes of the shared state by
      others; settling is one step.  Its loops follow the script, which may end too early.
    - The registry of routes is a map from file names to JSON documents, in which a write
      may fail or be the last of its process; its clock is a stream of readings.
    - A tree of files is a finite map from paths to entries, listed in any order; single
      writes may be short.
    - Times are microseconds from the year one (in [AssistantWork] from 1970), within the
      range of [datetime];
      where the code compares or parses stored texts, so does the model.
    - Fuel: the search of the registry has as many rounds as migrations plus one
      ([migration_search_terminates]), the JSON parser twice the length of its
      text plus two (shown enough by the round trip); both are proved, not
      assumed.

    ** Not modelled

    The coordinator and backends of goal execution, the daemon, engines and
    workspaces of the execution host, deployment, updater, release provisioning,
    the portable runtime, the brokers and the rest of the web application are processes,
    sockets, containers and files around the rules above: their correctness is
    that of their input and output, which a functional model would have to
    invent.  Scripts, applications and the web client are glue.  Within modelled
    files, the texts of operating-system and parser errors are left out, and
    permissions, [fsync] and temporary names have no counterpart.

    The bulk of the repository is of that kind.  What is left that holds rules of its own is
    the other declarations of runtime-contracts (typed documents like those of
    RuntimeContracts), the lifecycle plans of statedd-core, which read and write whole
    directory trees, and the conversation store, whose rules are the constraints of its
    tables. *)

From stdpp Require Export strings gmap fin_maps list sorting option pretty.
From Stdlib Require Export ZArith Lia Ascii.

Declare Scope py_scope.
Delimit Scope py_scope with py.

(** ** Outcomes and stateful computations

    A Python call either returns or raises.  [outcome E A] is the result of a
    call that changes nothing; [M S E A] threads a mutable state, and keeps the
    state reached so far when the call raises, as Python does. *)

Inductive outcome (E A : Type) : Type :=
| Ok (a : A)
| Raise (e : E).
Arguments Ok {E A} a.
Arguments Raise {E A} e.

Definition obind {E A B} (o : outcome E A) (k : A -> outcome E B) : outcome E B :=
  match o with Ok a => k a | Raise e => Raise e end.

Definition require {E} (b : bool) (e : E) : outcome E unit :=
  if b then Ok tt else Raise e.

Definition refuse_if {E} (b : bool) (e : E) : outcome E unit :=
  if b then Raise e else Ok tt.

Notation "'let?' x ':=' o 'in' k" := (obind o (fun x => k))
  (at level 10, x binder, k at level 200) : py_scope.
Notation "o '>>?' k" := (obind o (fun _ => k))
  (at level 100, right associativity) : py_scope.

Definition M (S E A : Type) : Type := S -> S * outcome E A.

Definition ret {S E A} (a : A) : M S E A := fun s => (s, Ok a).
Definition raise {S E A} (e : E) : M S E A := fun s => (s, Raise e).
Definition bind {S E A B} (m : M S E A) (k : A -> M S E B) : M S E B :=
  fun s => match m s with
           | (s', Ok a) => k a s'
           | (s', Raise e) => (s', Raise e)
           end.
Definition get {S E} : M S E S := fun s => (s, Ok s).
Definition put {S E} (s : S) : M S E unit := fun _ => (s, Ok tt).
Definition modify {S E} (f : S -> S) : M S E unit := fun s => (f s, Ok tt).
Definition gets {S E A} (f : S -> A) : M S E A := fun s => (s, Ok (f s)).
Definition lift {S E A} (o : outcome E A) : M S E A := fun s => (s, o).
Definition raise_if {S E} (b : bool) (e : E) : M S E unit := lift (refuse_if b e).

Notation "'let*' x ':=' m 'in' k" := (bind m (fun x => k))
  (at level 10, x binder, k at level 200) : py_scope.
Notation "m '>>*' k" := (bind m (fun _ => k))
  (at level 100, right associativity) : py_scope.

Open Scope py_scope.

(** *** Inversion of successful runs *)

Lemma obind_Ok {E A B} (o : outcome E A) (k : A -> outcome E B) b :
  obind o k = Ok b <-> exists a, o = Ok a /\ k a = Ok b.
Proof. destruct o; simpl; naive_solver. Qed.

Lemma require_Ok {E} b (e : E) u : require b e = Ok u <-> b = true.
Proof. destruct b, u; simpl; naive_solver. Qed.

Lemma refuse_if_Ok {E} b (e : E) u : refuse_if b e = Ok u <-> b = false.
Proof. destruct b, u; simpl; naive_solver. Qed.

Lemma bind_Ok {S E A B} (m : M S E A) (k : A -> M S E B) s s' b :
  bind m k s = (s', Ok b) <-> exists s1 a, m s = (s1, Ok a) /\ k a s1 = (s', Ok b).
Proof. unfold bind. destruct (m s) as [s1 [a|e]]; naive_solver. Qed.

Lemma ret_Ok {S E A} (a b : A) (s s' : S) :
  @ret S E A a s = (s', Ok b) <-> s' = s /\ b = a.
Proof. unfold ret. naive_solver. Qed.

Lemma raise_Ok {S E A} (e : E) (s s' : S) (b : A) :
  raise e s = (s', Ok b) <-> False.
Proof. unfold raise. naive_solver. Qed.

Lemma get_Ok {S E} (s s' b : S) : @get S E s = (s', Ok b) <-> s' = s /\ b = s.
Proof. unfold get. naive_solver. Qed.

Lemma put_Ok {S E} (s s' x : S) u : @put S E x s = (s', Ok u) <-> s' = x.
Proof. unfold put. destruct u. naive_solver. Qed.

Lemma modify_Ok {S E} f (s s' : S) u : @modify S E f s = (s', Ok u) <-> s' = f s.
Proof. unfold modify. destruct u. naive_solver. Qed.

Lemma gets_Ok {S E A} (f : S -> A) (s s' : S) a :
  @gets S E A f s = (s', Ok a) <-> s' = s /\ a = f s.
Proof. unfold gets. naive_solver. Qed.

Lemma lift_Ok {S E A} (o : outcome E A) (s s' : S) a :
  lift o s = (s', Ok a) <-> s' = s /\ o = Ok a.
Proof. unfold lift. naive_solver. Qed.

Lemma raise_if_Ok {S E} b (e : E) (s s' : S) u :
  raise_if b e s = (s', Ok u) <-> s' = s /\ b = false.
Proof. unfold raise_if. rewrite lift_Ok, refuse_if_Ok. done. Qed.

(** *** Running a computation forward *)

Lemma bind_run {S E A B} (m : M S E A) (k : A -> M S E B) s s' a :
  m s = (s', Ok a) -> bind m k s = k a s'.
Proof. unfold bind. by intros ->. Qed.

Lemma bind_raises {S E A B} (m : M S E A) (k : A -> M S E B) s s' e :
  m s = (s', Raise e) -> bind m k s = (s', Raise e).
Proof. unfold bind. by intros ->. Qed.

Lemma raise_if_pass {S E} (b : bool) (e : E) (s : S) : b = false -> raise_if b e s = (s, Ok tt).
Proof. by intros ->. Qed.

Lemma raise_if_stop {S E} (b : bool) (e : E) (s : S) : b = true -> raise_if b e s = (s, Raise e).
Proof. by intros ->. Qed.

Lemma bind_get {S E B} (k : S -> M S E B) s : bind get k s = k s s.
Proof. done. Qed.
Lemma bind_gets {S E A B} (f : S -> A) (k : A -> M S E B) s : bind (gets f) k s = k (f s) s.
Proof. done. Qed.
Lemma bind_modify {S E B} (f : S -> S) (k : unit -> M S E B) s : bind (modify f) k s = k tt (f s).
Proof. done. Qed.
Lemma bind_lift_ok {S E A B} (a : A) (k : A -> M S E B) (s : S) : bind (lift (Ok a)) k s = k a s.
Proof. done. Qed.
Lemma bind_ret {S E A B} (a : A) (k : A -> M S E B) (s : S) : bind (ret a) k s = k a s.
Proof. done. Qed.
Lemma bind_raise_if_pass {S E B} (b : bool) (e : E) (k : unit -> M S E B) s :
  b = false -> bind (raise_if b e) k s = k tt s.
Proof. by intros ->. Qed.
Lemma bind_raise_if_stop {S E B} (b : bool) (e : E) (k : unit -> M S E B) s :
  b = true -> bind (raise_if b e) k s = (s, Raise e).
Proof. by intros ->. Qed.

(** [run_m] executes the administrative steps at the head of a computation. *)
Ltac run_m :=
  repeat first
    [ rewrite bind_get | rewrite bind_gets | rewrite bind_modify | rewrite bind_lift_ok
    | rewrite bind_ret ].

(** [inv_ok] takes a successful run apart, down to the conditions that let it
    through. *)
Ltac inv_ok_step :=
  match goal with
  | H : obind _ _ = Ok _ |- _ => apply obind_Ok in H; destruct H as (? & ? & ?)
  | H : require _ _ = Ok _ |- _ => apply require_Ok in H
  | H : refuse_if _ _ = Ok _ |- _ => apply refuse_if_Ok in H
  | H : bind _ _ _ = (_, Ok _) |- _ => apply bind_Ok in H; destruct H as (? & ? & ? & ?)
  | H : ret _ _ = (_, Ok _) |- _ => apply ret_Ok in H; destruct H
  | H : raise _ _ = (_, Ok _) |- _ => apply raise_Ok in H; destruct H
  | H : get _ = (_, Ok _) |- _ => apply get_Ok in H; destruct H
  | H : put _ _ = (_, Ok _) |- _ => apply put_Ok in H
  | H : modify _ _ = (_, Ok _) |- _ => apply modify_Ok in H
  | H : gets _ _ = (_, Ok _) |- _ => apply gets_Ok in H; destruct H
  | H : lift _ _ = (_, Ok _) |- _ => apply lift_Ok in H; destruct H
  | H : raise_if _ _ _ = (_, Ok _) |- _ => apply raise_if_Ok in H; destruct H
  | H : Ok _ = Ok _ |- _ => injection H as H
  | H : Ok _ = Raise _ |- _ => discriminate H
  | H : Raise _ = Ok _ |- _ => discriminate H
  | H : (_, Ok _) = (_, Ok _) |- _ => injection H as ? ?
  | H : (_, Raise _) = (_, Ok _) |- _ => discriminate H
  | H : (_, Ok _) = (_, Raise _) |- _ => discriminate H
  end.
Ltac inv_ok := repeat (inv_ok_step; subst; simpl in *).

(** [split_bool] turns boolean tests of the code into propositions. *)
Ltac split_bool :=
  repeat match goal with
  | H : _ && _ = true |- _ => apply andb_true_iff in H; destruct H
  | H : _ || _ = false |- _ => apply orb_false_iff in H; destruct H
  | H : negb _ = true |- _ => apply negb_true_iff in H
  | H : negb _ = false |- _ => apply negb_false_iff in H
  | H : bool_decide _ = true |- _ => apply bool_decide_eq_true in H
  | H : bool_decide _ = false |- _ => apply bool_decide_eq_false in H
  | H : (_ <=? _)%Z = true |- _ => apply Z.leb_le in H
  | H : (_ <=? _)%Z = false |- _ => apply Z.leb_gt in H
  | H : (_ <? _)%Z = true |- _ => apply Z.ltb_lt in H
  | H : (_ <? _)%Z = false |- _ => apply Z.ltb_ge in H
  | H : (_ =? _)%Z = true |- _ => apply Z.eqb_eq in H
  | H : (_ =? _)%Z = false |- _ => apply Z.eqb_neq in H
  end.

(** *** Weakest preconditions

    [wp m Q R s]: run from [s], [m] either returns a value with [Q] or raises
    with [R].  Both outcomes carry the state reached. *)

Definition wp {S E A} (m : M S E A) (Q : A -> S -> Prop) (R : E -> S -> Prop) (s : S) : Prop :=
  match m s with
  | (s', Ok a) => Q a s'
  | (s', Raise e) => R e s'
  end.

Section wp.
Context {S E A B : Type} (Q : A -> S -> Prop) (R : E -> S -> Prop).

Lemma wp_bind (m : M S E B) (k : B -> M S E A) s :
  wp m (fun b => wp (k b) Q R) R s -> wp (bind m k) Q R s.
Proof. unfold wp, bind. destruct (m s) as [s1 [b|e]]; done. Qed.

Lemma wp_ret a s : Q a s -> wp (ret a) Q R s.
Proof. done. Qed.

Lemma wp_raise e s : R e s -> wp (raise e) Q R s.
Proof. done. Qed.

Lemma wp_lift o s :
  (forall a, o = Ok a -> Q a s) -> (forall e, o = Raise e -> R e s) -> wp (lift o) Q R s.
Proof. unfold wp, lift. destruct o; auto. Qed.

Lemma wp_gets f s : Q (f s) s -> wp (gets f) Q R s.
Proof. done. Qed.

Lemma wp_if (b : bool) (m1 m2 : M S E A) s :
  (b = true -> wp m1 Q R s) -> (b = false -> wp m2 Q R s) -> wp (if b then m1 else m2) Q R s.
Proof. destruct b; auto. Qed.
End wp.

Lemma wp_get {S E} (Q : S -> S -> Prop) (R : E -> S -> Prop) s : Q s s -> wp get Q R s.
Proof. done. Qed.
Lemma wp_put {S E} (Q : unit -> S -> Prop) (R : E -> S -> Prop) x s : Q tt x -> wp (put x) Q R s.
Proof. done. Qed.
Lemma wp_modify {S E} (Q : unit -> S -> Prop) (R : E -> S -> Prop) f s :
  Q tt (f s) -> wp (modify f) Q R s.
Proof. done. Qed.
Lemma wp_raise_if {S E} (Q : unit -> S -> Prop) (R : E -> S -> Prop) b e s :
  (b = true -> R e s) -> (b = false -> Q tt s) -> wp (raise_if b e) Q R s.
Proof. unfold wp, raise_if, lift, refuse_if. destruct b; auto. Qed.

Lemma wp_mono {S E A} (m : M S E A) (Q Q' : A -> S -> Prop) (R R' : E -> S -> Prop) s :
  wp m Q R s -> (forall a s, Q a s -> Q' a s) -> (forall e s, R e s -> R' e s) -> wp m Q' R' s.
Proof. unfold wp. destruct (m s) as [s1 [a|e]]; auto. Qed.

(** What a computation guarantees of the state it leaves, however it ends. *)
Lemma wp_final {S E A} (m : M S E A) (I : S -> Prop) s :
  wp m (fun _ => I) (fun _ => I) s -> I (fst (m s)).
Proof. unfold wp. by destruct (m s) as [s1 [a|e]]. Qed.

(** [wp_step] walks down a computation one command at a time. *)
Ltac wp_step :=
  match goal with
  | |- wp (bind _ _) _ _ _ => apply wp_bind
  | |- wp (ret _) _ _ _ => apply wp_ret
  | |- wp (raise _) _ _ _ => apply wp_raise
  | |- wp get _ _ _ => apply wp_get
  | |- wp (put _) _ _ _ => apply wp_put
  | |- wp (gets _) _ _ _ => apply wp_gets
  | |- wp (modify _) _ _ _ => apply wp_modify
  | |- wp (raise_if _ _) _ _ _ => apply wp_raise_if; intros ?
  | |- wp (lift _) _ _ _ => apply wp_lift; intros ? ?
  | |- wp (if _ then _ else _) _ _ _ => apply wp_if; intros ?
  end.

(** ** Step relations and traces *)

Section traces.
Context {St Lbl : Type} (step : St -> Lbl -> St).

(** The state after a sequence of calls. *)
Definition run_trace (s : St) (tr : list Lbl) : St := foldl step s tr.

Lemma run_trace_invariant (I : St -> Prop) :
  (forall s l, I s -> I (step s l)) ->
  forall tr s, I s -> I (run_trace s tr).
Proof. intros Hstep tr. induction tr as [|l tr IH]; simpl; auto. Qed.

Lemma run_trace_app s tr1 tr2 :
  run_trace s (tr1 ++ tr2) = run_trace (run_trace s tr1) tr2.
Proof. apply foldl_app. Qed.
End traces.

(** ** Python strings

    A [string] stands for a Python [str] whose code points are below 256, one
    character per code point. *)

Definition code (c : ascii) : Z := Z.of_N (N_of_ascii c).

(** [str.isspace] on one code point below 256. *)
Definition py_isspace (c : ascii) : bool :=
  let n := code c in
  ((9 <=? n) && (n <=? 13) || (28 <=? n) && (n <=? 32) || (n =? 133) || (n =? 160))%Z.

Fixpoint py_lstrip (s : string) : string :=
  match s with
  | EmptyString => EmptyString
  | String c s' => if py_isspace c then py_lstrip s' else s
  end.

Fixpoint py_rstrip (s : string) : string :=
  match s with
  | EmptyString => EmptyString
  | String c s' =>
      match py_rstrip s' with
      | EmptyString => if py_isspace c then EmptyString else String c EmptyString
      | r => String c r
      end
  end.

Definition py_strip (s : string) : string := py_rstrip (py_lstrip s).

(** Truth of [s.strip()]. *)
Definition nonblank (s : string) : bool := negb (bool_decide (py_strip s = "")).

Definition py_len (s : string) : Z := Z.of_nat (String.length s).

Fixpoint all_chars (p : ascii -> bool) (s : string) : bool :=
  match s with
  | EmptyString => true
  | String c s' => p c && all_chars p s'
  end.

Fixpoint any_char (p : ascii -> bool) (s : string) : bool :=
  match s with
  | EmptyString => false
  | String c s' => p c || any_char p s'
  end.

(** [s.startswith(p)]. *)
Definition startswith (p s : string) : bool := String.prefix p s.

Definition in_range (lo hi : Z) (c : ascii) : bool :=
  ((lo <=? code c) && (code c <=? hi))%Z.
Definition is_lower (c : ascii) : bool := in_range 97 122 c.
Definition is_upper (c : ascii) : bool := in_range 65 90 c.
Definition is_digit (c : ascii) : bool := in_range 48 57 c.
Definition is_alnum (c : ascii) : bool := is_lower c || is_upper c || is_digit c.
(** [[0-9a-f]] *)
Definition is_hex (c : ascii) : bool := is_digit c || in_range 97 102 c.
Definition one_of (s : string) (c : ascii) : bool :=
  any_char (fun d => bool_decide (c = d)) s.

(** *** Searching without case *)

Definition lower_char (c : ascii) : ascii :=
  if is_upper c then ascii_of_N (Z.to_N (code c + 32)) else c.

Fixpoint lower (s : string) : string :=
  match s with EmptyString => EmptyString | String c r => String (lower_char c) (lower r) end.

Fixpoint has_sub (p s : string) : bool :=
  startswith p s || match s with EmptyString => false | String _ r => has_sub p r end.

Definition optional_separator (a b : string) : list string :=
  [a +:+ b; a +:+ "_" +:+ b; a +:+ "-" +:+ b].

Definition mem (s : string) (l : list string) : bool := bool_decide (s ∈ l).

(** [sorted(set)]. *)
Definition sorted_set (X : gset string) : list string :=
  merge_sort String.le (elements X).

(** [len(set(l)) != len(l)]. *)
Definition has_dups (l : list string) : bool := negb (bool_decide (NoDup l)).

Lemma mem_true s l : mem s l = true <-> s ∈ l.
Proof. unfold mem. apply bool_decide_eq_true. Qed.

Lemma mem_false s l : mem s l = false <-> s ∉ l.
Proof. unfold mem. apply bool_decide_eq_false. Qed.

Lemma sorted_set_elem X s : s ∈ sorted_set X <-> s ∈ X.
Proof.
  unfold sorted_set. rewrite (merge_sort_Permutation String.le).
  apply elem_of_elements.
Qed.

Lemma sorted_set_sorted X : Sorted String.le (sorted_set X).
Proof. apply Sorted_merge_sort, _. Qed.

Lemma sorted_set_NoDup X : NoDup (sorted_set X).
Proof.
  unfold sorted_set. rewrite (merge_sort_Permutation String.le).
  apply NoDup_elements.
Qed.

Lemma all_chars_app p s1 s2 :
  all_chars p (s1 +:+ s2) = all_chars p s1 && all_chars p s2.
Proof.
  induction s1 as [|c s1 IH]; [done|].
  change (String c s1 +:+ s2) with (String c (s1 +:+ s2)). simpl.
  by rewrite IH, andb_assoc.
Qed.

Lemma str_cons_app c s1 s2 : String c s1 +:+ s2 = String c (s1 +:+ s2).
Proof. done. Qed.

Lemma str_nil_app s : "" +:+ s = s.
Proof. done. Qed.

Lemma str_app_assoc s1 s2 s3 : (s1 +:+ s2) +:+ s3 = s1 +:+ (s2 +:+ s3).
Proof.
  induction s1 as [|c s1 IH]; [done|].
  by rewrite !str_cons_app, IH.
Qed.

Lemma str_app_nil_r s : s +:+ "" = s.
Proof. induction s as [|c s IH]; [done|]. by rewrite str_cons_app, IH. Qed.

Lemma str_app_inj_l p s1 s2 : p +:+ s1 = p +:+ s2 -> s1 = s2.
Proof.
  induction p as [|c p IH]; [done|]. rewrite !str_cons_app.
  intros [=]. auto.
Qed.

Lemma substring_all k : String.substring 0 (String.length k) k = k.
Proof. induction k as [|c k IH]; simpl; by rewrite ?IH. Qed.

Lemma str_length_app s1 s2 :
  String.length (s1 +:+ s2) = String.length s1 + String.length s2.
Proof. induction s1 as [|c s1 IH]; [done|]. rewrite str_cons_app. simpl. by rewrite IH. Qed.

Lemma has_dups_false l : has_dups l = false <-> NoDup l.
Proof. unfold has_dups. rewrite negb_false_iff, bool_decide_eq_true. done. Qed.

Lemma existsb_false {A} (p : A -> bool) l :
  existsb p l = false <-> forall x, x ∈ l -> p x = false.
Proof.
  split.
  - intros H x Hx. destruct (p x) eqn:E; [|done]. rewrite <-H. symmetry.
    apply existsb_exists. exists x. by rewrite <-list_elem_of_In.
  - intros H. destruct (existsb p l) eqn:E; [|done].
    apply existsb_exists in E as (x & Hx & Hp). rewrite <-list_elem_of_In in Hx.
    by rewrite H in Hp.
Qed.

(** [set(a).issubset(set(b))] and [set(a) == set(b)] *)
Definition subset_of (a b : list string) : bool := forallb (fun x => mem x b) a.
Definition same_set (a b : list string) : bool := subset_of a b && subset_of b a.

Lemma subset_of_spec a b : subset_of a b = true <-> forall x, x ∈ a -> x ∈ b.
Proof.
  unfold subset_of. rewrite forallb_forall. split; intros H x Hx.
  - apply mem_true, H. by rewrite <-list_elem_of_In.
  - apply mem_true, H. by rewrite list_elem_of_In.
Qed.

Lemma same_set_spec a b : same_set a b = true <-> forall x, x ∈ a <-> x ∈ b.
Proof. unfold same_set. rewrite andb_true_iff, !subset_of_spec. naive_solver. Qed.

(** ** Insertion-ordered dictionaries

    A Python [dict] with string keys whose order matters: assignment replaces in
    place or appends. *)

Section assoc.
Context {V : Type}.

Fixpoint assoc_get (k : string) (d : list (string * V)) : option V :=
  match d with
  | [] => None
  | (k', v) :: d' => if String.eqb k k' then Some v else assoc_get k d'
  end.

Fixpoint assoc_set (k : string) (v : V) (d : list (string * V)) : list (string * V) :=
  match d with
  | [] => [(k, v)]
  | (k', v') :: d' => if String.eqb k k' then (k', v) :: d' else (k', v') :: assoc_set k v d'
  end.

Lemma assoc_get_set_eq k v d : assoc_get k (assoc_set k v d) = Some v.
Proof.
  induction d as [|[k' v'] d IH]; simpl; [by rewrite String.eqb_refl|].
  destruct (String.eqb k k') eqn:E; simpl; by rewrite E.
Qed.

Lemma assoc_get_set_ne k k' v d : k <> k' -> assoc_get k (assoc_set k' v d) = assoc_get k d.
Proof.
  intros Hne. induction d as [|[k1 v1] d IH]; simpl.
  - by rewrite (proj2 (String.eqb_neq k k') Hne).
  - destruct (String.eqb k' k1) eqn:E; simpl.
    + apply String.eqb_eq in E as <-. by rewrite (proj2 (String.eqb_neq k k') Hne).
    + by rewrite IH.
Qed.

Lemma assoc_get_None k d : assoc_get k d = None <-> k ∉ map fst d.
Proof.
  induction d as [|[k' v] d IH]; simpl; [split; [intros _ H; inversion H|done]|].
  rewrite not_elem_of_cons, <-IH. destruct (String.eqb_spec k k'); naive_solver.
Qed.

Lemma assoc_get_elem k v d : assoc_get k d = Some v -> (k, v) ∈ d.
Proof.
  induction d as [|[k' v'] d IH]; simpl; [done|]. destruct (String.eqb_spec k k') as [->|].
  - intros [= ->]. by left.
  - intros. right. auto.
Qed.

(** A dictionary made of its keys *)
Lemma assoc_get_keys (f : string -> V) k l : assoc_get k ((fun p => (p, f p)) <$> l) = if decide (k ∈ l) then Some (f k) else None.
Proof.
  induction l as [|x l IH]; [done|]. rewrite fmap_cons. cbn [assoc_get]. destruct (String.eqb_spec k x) as [->|Hne].
  - by rewrite decide_True by (by left).
  - rewrite IH. apply decide_ext. rewrite elem_of_cons. tauto.
Qed.

Lemma assoc_set_elem k v k' v' d : (k', v') ∈ assoc_set k v d -> (k', v') = (k, v) \/ (k', v') ∈ d.
Proof.
  induction d as [|[k1 v1] d IH]; simpl.
  - intros H%list_elem_of_singleton. by left.
  - destruct (String.eqb_spec k k1) as [->|]; rewrite !elem_of_cons; naive_solver.
Qed.

Lemma assoc_set_keys k v d :
  map fst (assoc_set k v d) = if mem k (map fst d) then map fst d else map fst d ++ [k].
Proof.
  induction d as [|[k1 v1] d IH]; simpl; [done|].
  destruct (String.eqb_spec k k1) as [->|Hne]; simpl.
  - by rewrite (proj2 (mem_true _ _)) by by left.
  - rewrite IH. destruct (mem k (map fst d)) eqn:E.
    + rewrite (proj2 (mem_true _ _)); [done|]. right. by apply mem_true.
    + rewrite (proj2 (mem_false _ _)); [done|]. apply mem_false in E.
      by apply not_elem_of_cons.
Qed.

Lemma assoc_set_NoDup k v d : NoDup (map fst d) -> NoDup (map fst (assoc_set k v d)).
Proof.
  intros H. rewrite assoc_set_keys. destruct (mem k (map fst d)) eqn:E; [done|].
  apply mem_false in E. apply NoDup_app. split; [done|]. split; [|apply NoDup_singleton].
  intros x Hx ->%list_elem_of_singleton. done.
Qed.
End assoc.

(** ** Hints *)

Create HintDb stateport.
#[export] Hint Resolve sorted_set_sorted sorted_set_NoDup : stateport.

(** ** Counting in a map *)

Section counting.
Context {A : Type}.

(** How many values satisfy a test. *)
Definition size_where (P : A -> bool) (t : gmap string A) : nat :=
  size (filter (fun kv => P (snd kv) = true) t).

Lemma size_filter_insert (P : A -> bool) (t : gmap string A) k r :
  t !! k = None ->
  size (filter (fun kv => P (snd kv) = true) (<[k:=r]> t))
  = (size (filter (fun kv => P (snd kv) = true) t) + if P r then 1 else 0)%nat.
Proof.
  intros Hk. destruct (P r) eqn:Hr.
  - rewrite map_filter_insert_True by done. rewrite map_size_insert_None; [lia|].
    apply map_lookup_filter_None. by left.
  - rewrite map_filter_insert_False by (simpl; congruence). rewrite delete_id by done. lia.
Qed.

Lemma size_filter_update (P : A -> bool) (t : gmap string A) k r r' :
  t !! k = Some r -> (P r' = true -> P r = true) ->
  (size (filter (fun kv => P (snd kv) = true) (<[k:=r']> t))
   <= size (filter (fun kv => P (snd kv) = true) t))%nat.
Proof.
  intros Hk HP. rewrite <-(insert_delete_id t k r) at 2 by done.
  rewrite <-insert_delete_eq. rewrite !size_filter_insert by apply lookup_delete_eq.
  destruct (P r') eqn:E; [rewrite HP by done|]; lia.
Qed.

(** An update adds at most the new value. *)
Lemma size_where_insert (P : A -> bool) (t : gmap string A) k r :
  (size_where P (<[k:=r]> t) <= size_where P t + if P r then 1 else 0)%nat.
Proof.
  unfold size_where. rewrite <-insert_delete_eq, size_filter_insert by apply lookup_delete_eq.
  assert (size (filter (fun kv => P (snd kv) = true) (delete k t)) <= size (filter (fun kv => P (snd kv) = true) t))%nat.
  { apply map_subseteq_size, map_filter_strong_subseteq_ext. intros i x [H1 H2].
    rewrite lookup_delete_Some in H2. tauto. }
  lia.
Qed.

Lemma size_filter_list (P : A -> bool) (t : gmap string A) :
  size (filter (fun kv => P (snd kv) = true) t)
  = length (filter (fun kv : string * A => P (snd kv) = true) (map_to_list t)).
Proof.
  induction t as [|k v t Hk IH] using map_ind; [done|].
  rewrite size_filter_insert, map_to_list_insert, IH by done. rewrite filter_cons. cbn [snd].
  case_decide as H; [rewrite H; simpl; lia|]. apply not_true_is_false in H. rewrite H. lia.
Qed.

(** The same count along a list of the keys. *)
Lemma size_where_keys (P : A -> bool) (t : gmap string A) :
  size_where P t
  = length (List.filter (fun k => match t !! k with Some v => P v | None => false end) (sorted_set (dom t))).
Proof.
  unfold size_where.
  set (q := fun k => match t !! k with Some v => P v | None => false end).
  assert (Hp : sorted_set (dom t) ≡ₚ map fst (map_to_list t)).
  { apply NoDup_Permutation; [apply sorted_set_NoDup|apply NoDup_fst_map_to_list|].
    intros k. rewrite sorted_set_elem, elem_of_dom. split.
    - intros [v Hv]. apply list_elem_of_fmap. exists (k, v). split; [done|]. by apply elem_of_map_to_list.
    - intros H. apply list_elem_of_fmap in H as ([k' v] & -> & H). apply elem_of_map_to_list in H. by eexists. }
  assert (Hlen : forall l1 l2 : list string, l1 ≡ₚ l2 -> length (List.filter q l1) = length (List.filter q l2)).
  { intros l1 l2. induction 1 as [|k l1 l2 _ IH|k k' l|l1 l2 l3 _ IH1 _ IH2]; cbn; try done.
    - destruct (q k); cbn; by rewrite IH.
    - by destruct (q k), (q k').
    - by rewrite IH1. }
  rewrite (Hlen _ _ Hp). clear Hp Hlen. rewrite size_filter_list.
  assert (Hin : forall kv, kv ∈ map_to_list t -> t !! fst kv = Some (snd kv))
    by (intros [k v]; apply elem_of_map_to_list).
  induction (map_to_list t) as [|[k v] l IH]; [done|]. cbn [map fst List.filter].
  assert (q k = P v) as -> by (pose proof (Hin (k, v) ltac:(by left)) as Hkv; cbn in Hkv; unfold q; by rewrite Hkv).
  specialize (IH (fun kv Hkv => Hin kv (list_elem_of_further _ _ _ Hkv))).
  rewrite filter_cons. cbn [snd]. case_decide as E; [rewrite E|apply not_true_is_false in E; rewrite E]; cbn;
    by rewrite IH.
Qed.
End counting.

(** *** [List.filter] when every element passes, or none *)

Lemma filter_all {A} (p : A -> bool) l : (forall x, x ∈ l -> p x = true) -> List.filter p l = l.
Proof. intros H. induction l as [|x l IH]; [done|]. cbn. rewrite H, IH; [done| |by left]. intros y Hy. apply H. by right. Qed.

Lemma filter_none {A} (p : A -> bool) l : (forall x, x ∈ l -> p x = false) -> List.filter p l = [].
Proof. intros H. induction l as [|x l IH]; [done|]. cbn. rewrite H, IH; [done| |by left]. intros y Hy. apply H. by right. Qed.
