(* ===== verification/Instants.v ===== *)
(** * Instants and their texts

    The part of Python's [datetime] that the modelled code uses: reading an ISO text
    ([fromisoformat]) and writing a UTC time as the code stores it
    ([isoformat(timespec="microseconds")] with the suffix [Z]).  Times are microseconds
    from the first of January of the year one.  [datetime.fromisoformat] is modelled for
    the extended format, which every supported version of Python accepts; other texts do
    not parse.  The main lemma is that stored texts compare as the times they stand for,
    which is what the SQL of the job queue relies on. *)

From S2P Require Import Prelude.

(** ** Reading *)

(** A [datetime]: its local time in microseconds from the year one, and its offset from
    UTC in microseconds, when it is an aware one. *)
Record datetime := {
  dt_local : Z;
  dt_offset : option Z;
}.

(** [n] decimal digits *)
Fixpoint take_digits (n : nat) (acc : Z) (s : string) : option (Z * string) :=
  match n, s with
  | O, _ => Some (acc, s)
  | S n, String c r => if is_digit c then take_digits n (acc * 10 + (code c - 48)) r else None
  | S _, EmptyString => None
  end.

(** One given character. *)
Definition skip (c : ascii) (s : string) : option string :=
  match s with String d r => if bool_decide (d = c) then Some r else None | EmptyString => None end.

Definition leap (y : Z) : bool :=
  ((y mod 4 =? 0)%Z && negb (y mod 100 =? 0)%Z) || (y mod 400 =? 0)%Z.

Definition days_in_month (y m : Z) : Z :=
  if (m =? 2)%Z then (if leap y then 29 else 28)
  else if existsb (Z.eqb m) [4; 6; 9; 11]%Z then 30 else 31.

(** Days from the first of January of the year one to the first of the month. *)
Definition days_before (y m : Z) : Z :=
  let past := (y - 1)%Z in
  past * 365 + past `div` 4 - past `div` 100 + past `div` 400
  + foldl (fun n k => (n + days_in_month y (Z.of_nat k))%Z) 0%Z (seq 1 (Z.to_nat (m - 1))).

Definition SECOND : Z := 1000000.

Definition parse_date (s : string) : option (Z * string) :=
  '(y, r) ← take_digits 4 0 s;
  r ← skip "-" r;
  '(m, r) ← take_digits 2 0 r;
  r ← skip "-" r;
  '(d, r) ← take_digits 2 0 r;
  if (1 <=? y)%Z && (1 <=? m)%Z && (m <=? 12)%Z && (1 <=? d)%Z && (d <=? days_in_month y m)%Z
  then Some ((days_before y m + (d - 1)) * 86400 * SECOND, r)%Z
  else None.

(** Three or six digits of a fraction, in microseconds. *)
Definition parse_fraction (s : string) : option (Z * string) :=
  match take_digits 6 0 s with
  | Some p => Some p
  | None => '(ms, r) ← take_digits 3 0 s; Some ((ms * 1000)%Z, r)
  end.

(** [HH[:MM[:SS[.fff[fff]]]]]: hours, minutes, seconds, microseconds, and the number of
    characters read. *)
Definition parse_clock (s : string) : option (Z * Z * Z * Z * string) :=
  '(h, r) ← take_digits 2 0 s;
  match skip ":" r with
  | None => Some (h, 0, 0, 0, r)%Z
  | Some r =>
      '(m, r) ← take_digits 2 0 r;
      match skip ":" r with
      | None => Some (h, m, 0, 0, r)%Z
      | Some r =>
          '(sec, r) ← take_digits 2 0 r;
          match skip "." r with
          | None => Some (h, m, sec, 0, r)%Z
          | Some r => '(us, r) ← parse_fraction r; Some (h, m, sec, us, r)
          end
      end
  end.

Definition microseconds (h m s us : Z) : Z := ((h * 3600 + m * 60 + s) * SECOND + us)%Z.

(** [+HH:MM[:SS[.ffffff]]] to the end of the text *)
Definition parse_offset (s : string) : option Z :=
  match s with
  | String c r =>
      if negb (one_of "+-" c) || negb (existsb (Z.eqb (py_len s)) [6; 9; 16]%Z) then None
      else
        '(h, m, sec, us, r) ← parse_clock r;
        let z := microseconds h m sec us in
        if bool_decide (r = "") && (z <? microseconds 24 0 0 0)%Z
        then Some (if bool_decide (c = "-"%char) then - z else z)%Z
        else None
  | EmptyString => None
  end.

(** [datetime.fromisoformat] *)
Definition fromisoformat (s : string) : option datetime :=
  '(day, r) ← parse_date s;
  match r with
  | EmptyString => Some {| dt_local := day; dt_offset := None |}
  | String _ r =>
      '(h, m, sec, us, r) ← parse_clock r;
      if (h <? 24)%Z && (m <? 60)%Z && (sec <? 60)%Z then
        let local := (day + microseconds h m sec us)%Z in
        if bool_decide (r = "") then Some {| dt_local := local; dt_offset := None |}
        else offset ← parse_offset r; Some {| dt_local := local; dt_offset := Some offset |}
      else None
  end.

(** [s.replace("Z", "+00:00")] *)
Fixpoint utc_suffix (s : string) : string :=
  match s with
  | EmptyString => EmptyString
  | String c r => if bool_decide (c = "Z"%char) then "+00:00" +:+ utc_suffix r else String c (utc_suffix r)
  end.

Definition parse_instant (s : string) : option datetime := fromisoformat (utc_suffix s).

(** ** Writing *)

(** [n] in [w] decimal digits. *)
Fixpoint decimal (w : nat) (n : Z) : string :=
  match w with
  | O => ""
  | S w => decimal w (n / 10) +:+ String (ascii_of_N (Z.to_N (48 + n mod 10))) ""
  end.

Definition DAY : Z := 86400 * SECOND.
Definition DAYS_IN_400_YEARS : Z := 146097.

(** The year of a day, counted from the first of January of the year one. *)
Definition year_of (n : Z) : Z :=
  let c := (n mod DAYS_IN_400_YEARS)%Z in
  let n100 := Z.min 3 (c / 36524) in
  let q := (c - n100 * 36524)%Z in
  let n4 := (q / 1461)%Z in
  let r := (q mod 1461)%Z in
  (n / DAYS_IN_400_YEARS * 400 + n100 * 100 + n4 * 4 + Z.min 3 (r / 365) + 1)%Z.

(** The month and the day of the month of the [r]-th day of year [y], from month [m] on. *)
Fixpoint month_of (fuel : nat) (y m r : Z) : Z * Z :=
  match fuel with
  | O => (m, r + 1)%Z
  | S fuel => if (r <? days_in_month y m)%Z then (m, r + 1)%Z else month_of fuel y (m + 1) (r - days_in_month y m)
  end.

Definition date_of (n : Z) : Z * Z * Z :=
  let y := year_of n in
  let '(m, d) := month_of 11 y 1 (n - days_before y 1) in
  (y, m, d).

(** [value.isoformat(timespec="microseconds").replace("+00:00", "Z")] of a UTC time. *)
Definition utc_text (t : Z) : string :=
  let '(y, m, d) := date_of (t / DAY) in
  let us := (t mod DAY)%Z in
  decimal 4 y +:+ "-" +:+ decimal 2 m +:+ "-" +:+ decimal 2 d +:+ "T"
  +:+ decimal 2 (us / (3600 * SECOND)) +:+ ":" +:+ decimal 2 (us / (60 * SECOND) mod 60) +:+ ":"
  +:+ decimal 2 (us / SECOND mod 60) +:+ "." +:+ decimal 6 (us mod SECOND) +:+ "Z".

(** [value.replace(microsecond=0).isoformat().replace("+00:00", "Z")] *)
Definition utc_seconds (t : Z) : string :=
  let '(y, m, d) := date_of (t / DAY) in
  let us := (t mod DAY)%Z in
  decimal 4 y +:+ "-" +:+ decimal 2 m +:+ "-" +:+ decimal 2 d +:+ "T"
  +:+ decimal 2 (us / (3600 * SECOND)) +:+ ":" +:+ decimal 2 (us / (60 * SECOND) mod 60) +:+ ":"
  +:+ decimal 2 (us / SECOND mod 60) +:+ "Z".

(** The times a [datetime] can hold: the years 1 to 9999. *)
Definition LAST_INSTANT : Z := 3652059 * DAY.
Definition instant (t : Z) : Prop := (0 <= t < LAST_INSTANT)%Z.

(** ** Dates *)

Lemma past_days (N a b e : Z) : (0 <= a <= 3)%Z -> (0 <= b <= 24)%Z -> (0 <= e <= 3)%Z ->
  let p := (400 * N + 100 * a + 4 * b + e)%Z in
  (p `div` 4 = 100 * N + 25 * a + b /\ p `div` 100 = 4 * N + a /\ p `div` 400 = N)%Z.
Proof. intros. subst p. repeat split; Z.to_euclidean_division_equations; lia. Qed.

Lemma days_before_year y : days_before y 1 = (365 * (y - 1) + (y - 1) `div` 4 - (y - 1) `div` 100 + (y - 1) `div` 400)%Z.
Proof. unfold days_before. change (seq 1 _) with (@nil nat). cbn [foldl]. lia. Qed.

Lemma leap_true y : leap y = true <-> (y mod 4 = 0 /\ y mod 100 <> 0 \/ y mod 400 = 0)%Z.
Proof. unfold leap. rewrite orb_true_iff, andb_true_iff, negb_true_iff, !Z.eqb_eq, Z.eqb_neq. done. Qed.

Lemma months_cases m : (1 <= m <= 12)%Z ->
  m = 1%Z \/ m = 2%Z \/ m = 3%Z \/ m = 4%Z \/ m = 5%Z \/ m = 6%Z \/ m = 7%Z \/ m = 8%Z \/ m = 9%Z \/ m = 10%Z
  \/ m = 11%Z \/ m = 12%Z.
Proof. lia. Qed.

(** The months before a given one. *)
Ltac compute_months :=
  repeat match goal with |- context [seq 1 (Z.to_nat ?k)] =>
    let l := eval vm_compute in (seq 1 (Z.to_nat k)) in change (seq 1 (Z.to_nat k)) with l end;
  cbn [foldl];
  repeat match goal with |- context [Z.of_nat ?k] =>
    let z := eval vm_compute in (Z.of_nat k) in change (Z.of_nat k) with z end.

Lemma days_before_next y m : (1 <= m <= 11)%Z -> days_before y (m + 1) = (days_before y m + days_in_month y m)%Z.
Proof.
  intros Hm. unfold days_before.
  destruct (months_cases m) as [->|[->|[->|[->|[->|[->|[->|[->|[->|[->|[->| ->]]]]]]]]]]]; [lia|..|lia];
    compute_months; lia.
Qed.

Lemma days_before_next_year y : days_before (y + 1) 1 = (days_before y 12 + 31)%Z.
Proof.
  rewrite days_before_year. unfold days_before. compute_months. unfold days_in_month.
  cbn [Z.eqb Pos.eqb existsb orb]. destruct (leap y) eqn:E.
  - apply leap_true in E. Z.to_euclidean_division_equations. lia.
  - assert (~ (y mod 4 = 0 /\ y mod 100 <> 0 \/ y mod 400 = 0)%Z) by (rewrite <-leap_true; congruence).
    Z.to_euclidean_division_equations. lia.
Qed.

Lemma days_in_month_positive y m : (0 < days_in_month y m)%Z.
Proof. unfold days_in_month. destruct (_ =? _)%Z; [by destruct (leap y)|by destruct (existsb _ _)]. Qed.

Lemma days_in_month_bound y m : (0 < days_in_month y m <= 31)%Z.
Proof.
  split; [apply days_in_month_positive|]. unfold days_in_month.
  destruct (_ =? _)%Z; [by destruct (leap y)|by destruct (existsb _ _)].
Qed.

Lemma year_of_spec n : (0 <= n)%Z -> (days_before (year_of n) 1 <= n < days_before (year_of n + 1) 1)%Z.
Proof.
  intros Hn. rewrite !days_before_year. unfold year_of, DAYS_IN_400_YEARS. cbv zeta.
  set (N := (n / 146097)%Z). set (c := (n mod 146097)%Z).
  assert (Hc : (n = 146097 * N + c /\ 0 <= c < 146097)%Z).
  { subst N c. Z.to_euclidean_division_equations. lia. }
  set (a := Z.min 3 (c / 36524)).
  assert (Ha : (0 <= a <= 3 /\ 36524 * a <= c /\ (a < 3 -> c < 36524 * (a + 1)))%Z).
  { subst a. Z.to_euclidean_division_equations. lia. }
  set (q := (c - a * 36524)%Z) in *. set (b := (q / 1461)%Z). set (r := (q mod 1461)%Z).
  assert (Hb : (q = 1461 * b + r /\ 0 <= r < 1461 /\ 0 <= b <= 24)%Z).
  { subst b r. Z.to_euclidean_division_equations. lia. }
  set (e := Z.min 3 (r / 365)).
  assert (He : (0 <= e <= 3 /\ 365 * e <= r /\ (e < 3 -> r < 365 * (e + 1)))%Z).
  { subst e. Z.to_euclidean_division_equations. lia. }
  replace (N * 400 + a * 100 + b * 4 + e + 1 - 1)%Z with (400 * N + 100 * a + 4 * b + e)%Z by lia.
  replace (N * 400 + a * 100 + b * 4 + e + 1 + 1 - 1)%Z with (400 * N + 100 * a + 4 * b + e + 1)%Z by lia.
  assert (Hq : q = (c - a * 36524)%Z) by done.
  clearbody N c a b r e q. split.
  - destruct (past_days N a b e) as (-> & -> & ->); lia.
  - Z.to_euclidean_division_equations. lia.
Qed.

Lemma month_of_spec fuel y m r : (1 <= m)%Z -> (m + Z.of_nat fuel = 12)%Z ->
  (0 <= r < days_before (y + 1) 1 - days_before y m)%Z ->
  let '(m', d) := month_of fuel y m r in
  (1 <= m' <= 12 /\ 1 <= d <= days_in_month y m' /\ days_before y m' + (d - 1) = days_before y m + r)%Z.
Proof.
  revert m r. induction fuel as [|fuel IH]; intros m r Hm Hf Hr; cbn [month_of].
  - replace m with 12%Z in * by lia. rewrite days_before_next_year in Hr.
    change (days_in_month y 12) with 31%Z. lia.
  - destruct (Z.ltb_spec r (days_in_month y m)) as [Hlt|Hge]; [lia|].
    pose proof (days_before_next y m ltac:(lia)) as Hn. specialize (IH (m + 1) (r - days_in_month y m))%Z.
    destruct (month_of _ _ _ _) as [m' d]. lia.
Qed.

Record valid_date (y m d : Z) : Prop := {
  valid_month : (1 <= m <= 12)%Z;
  valid_day : (1 <= d <= days_in_month y m)%Z;
}.

(** The day that a date stands for. *)
Definition day_number (y m d : Z) : Z := (days_before y m + (d - 1))%Z.

Lemma date_of_spec n : (0 <= n)%Z -> exists y m d, date_of n = (y, m, d) /\ valid_date y m d /\ day_number y m d = n.
Proof.
  intros Hn. unfold date_of. pose proof (year_of_spec n Hn) as Hy.
  pose proof (month_of_spec 11 (year_of n) 1 (n - days_before (year_of n) 1) ltac:(lia) ltac:(lia) ltac:(lia)) as H.
  destruct (month_of _ _ _ _) as [m d]. exists (year_of n), m, d. destruct H as (Hm & Hd & E).
  split; [done|]. split; [by split|]. unfold day_number. lia.
Qed.

(** *** The order of dates is that of their days *)

Lemma days_before_months y m k : (1 <= m)%Z -> (m + Z.of_nat k <= 12)%Z ->
  (days_before y m <= days_before y (m + Z.of_nat k))%Z.
Proof.
  intros Hm. induction k as [|k IH]; intros Hk; [by rewrite Z.add_0_r|].
  replace (m + Z.of_nat (S k))%Z with (m + Z.of_nat k + 1)%Z by lia. rewrite days_before_next by lia.
  pose proof (days_in_month_positive y (m + Z.of_nat k)). lia.
Qed.

Lemma days_before_years y k : (1 <= y)%Z -> (days_before y 1 <= days_before (y + Z.of_nat k) 1)%Z.
Proof.
  intros Hy. induction k as [|k IH]; [by rewrite Z.add_0_r|].
  replace (y + Z.of_nat (S k))%Z with (y + Z.of_nat k + 1)%Z by lia. rewrite days_before_next_year.
  pose proof (days_before_months (y + Z.of_nat k) 1 11 ltac:(lia) ltac:(lia)) as H.
  change (1 + Z.of_nat 11)%Z with 12%Z in H. lia.
Qed.

Lemma month_fits y m d : valid_date y m d -> (days_before y 1 <= day_number y m d < days_before (y + 1) 1)%Z.
Proof.
  intros [Hm Hd]. unfold day_number. rewrite days_before_next_year.
  pose proof (days_before_months y 1 (Z.to_nat (m - 1)) ltac:(lia) ltac:(lia)) as H1.
  rewrite Z2Nat.id in H1 by lia. replace (1 + (m - 1))%Z with m in H1 by lia.
  destruct (decide (m = 12%Z)) as [->|Hne].
  - change (days_in_month y 12) with 31%Z in Hd. lia.
  - pose proof (days_before_months y (m + 1) (Z.to_nat (11 - m)) ltac:(lia) ltac:(lia)) as H2.
    rewrite Z2Nat.id in H2 by lia. replace (m + 1 + (11 - m))%Z with 12%Z in H2 by lia.
    rewrite days_before_next in H2 by lia. lia.
Qed.

(** Comparison of what comes first, then of the rest. *)
Definition then_compare (c1 c2 : comparison) : comparison := match c1 with Eq => c2 | c => c end.

Lemma day_number_year y1 m1 d1 y2 m2 d2 : (1 <= y1)%Z -> (y1 < y2)%Z ->
  valid_date y1 m1 d1 -> valid_date y2 m2 d2 -> (day_number y1 m1 d1 < day_number y2 m2 d2)%Z.
Proof.
  intros H1 Hlt V1%month_fits V2%month_fits.
  pose proof (days_before_years (y1 + 1) (Z.to_nat (y2 - y1 - 1)) ltac:(lia)) as H.
  rewrite Z2Nat.id in H by lia. replace (y1 + 1 + (y2 - y1 - 1))%Z with y2 in H by lia. lia.
Qed.

Lemma day_number_month y m1 d1 m2 d2 : (m1 < m2)%Z -> valid_date y m1 d1 -> valid_date y m2 d2 ->
  (day_number y m1 d1 < day_number y m2 d2)%Z.
Proof.
  intros Hlt [Hm1 Hd1] [Hm2 Hd2]. unfold day_number.
  pose proof (days_before_months y (m1 + 1) (Z.to_nat (m2 - m1 - 1)) ltac:(lia) ltac:(lia)) as H.
  rewrite Z2Nat.id in H by lia. replace (m1 + 1 + (m2 - m1 - 1))%Z with m2 in H by lia.
  rewrite days_before_next in H by lia. lia.
Qed.

Lemma compare_dates y1 m1 d1 y2 m2 d2 : (1 <= y1)%Z -> (1 <= y2)%Z -> valid_date y1 m1 d1 -> valid_date y2 m2 d2 ->
  then_compare (y1 ?= y2)%Z (then_compare (m1 ?= m2)%Z (d1 ?= d2)%Z) = (day_number y1 m1 d1 ?= day_number y2 m2 d2)%Z.
Proof.
  intros H1 H2 V1 V2. symmetry. destruct (Z.compare_spec y1 y2) as [->|Hlt|Hlt]; cbn [then_compare].
  - destruct (Z.compare_spec m1 m2) as [->|Hlt|Hlt]; cbn [then_compare].
    + unfold day_number. destruct (Z.compare_spec d1 d2); [apply Z.compare_eq_iff|apply Z.compare_lt_iff|apply Z.compare_gt_iff]; lia.
    + by apply Z.compare_lt_iff, day_number_month.
    + by apply Z.compare_gt_iff, day_number_month.
  - by apply Z.compare_lt_iff, day_number_year.
  - by apply Z.compare_gt_iff, day_number_year.
Qed.

(** ** Texts *)

Lemma compare_digits a b : (0 <= a < 10)%Z -> (0 <= b < 10)%Z ->
  Ascii.compare (ascii_of_N (Z.to_N (48 + a))) (ascii_of_N (Z.to_N (48 + b))) = (a ?= b)%Z.
Proof.
  intros Ha Hb. unfold Ascii.compare. rewrite !N_ascii_embedding by lia.
  rewrite Z2N.inj_compare by lia. destruct (Z.compare_spec a b);
    [apply Z.compare_eq_iff|apply Z.compare_lt_iff|apply Z.compare_gt_iff]; lia.
Qed.

Lemma compare_div k a b : (0 < k)%Z -> then_compare (a / k ?= b / k)%Z (a mod k ?= b mod k)%Z = (a ?= b)%Z.
Proof.
  intros Hk. pose proof (Z_div_mod_eq_full a k). pose proof (Z_div_mod_eq_full b k).
  pose proof (Z.mod_pos_bound a k Hk). pose proof (Z.mod_pos_bound b k Hk). symmetry.
  destruct (Z.compare_spec (a / k) (b / k)) as [E|E|E]; cbn [then_compare].
  - destruct (Z.compare_spec (a mod k) (b mod k)); [apply Z.compare_eq_iff|apply Z.compare_lt_iff|apply Z.compare_gt_iff]; nia.
  - apply Z.compare_lt_iff. nia.
  - apply Z.compare_gt_iff. nia.
Qed.

Lemma compare_then a b s t c : c = (a ?= b)%Z -> then_compare c (String.compare s t) = then_compare (a ?= b)%Z (String.compare s t).
Proof. by intros ->. Qed.

Lemma then_assoc a b c : then_compare (then_compare a b) c = then_compare a (then_compare b c).
Proof. by destruct a. Qed.

Lemma compare_decimal w a b s t : (0 <= a < 10 ^ Z.of_nat w)%Z -> (0 <= b < 10 ^ Z.of_nat w)%Z ->
  String.compare (decimal w a +:+ s) (decimal w b +:+ t) = then_compare (a ?= b)%Z (String.compare s t).
Proof.
  revert a b s t. induction w as [|w IH]; intros a b s t Ha Hb.
  - change (Z.of_nat 0) with 0%Z in Ha, Hb. replace a with 0%Z by lia. by replace b with 0%Z by lia.
  - cbn [decimal]. rewrite !str_app_assoc.
    assert (Hw : (10 ^ Z.of_nat (S w) = 10 * 10 ^ Z.of_nat w)%Z) by (rewrite Nat2Z.inj_succ, Z.pow_succ_r by lia; done).
    rewrite IH by (split; [apply Z.div_pos|apply Z.div_lt_upper_bound]; lia).
    rewrite <-(compare_div 10 a b) by lia. rewrite then_assoc. f_equal. rewrite !str_cons_app. cbn [String.compare].
    rewrite compare_digits by (apply Z.mod_pos_bound; lia).
    by destruct (a mod 10 ?= b mod 10)%Z.
Qed.

Lemma compare_char c s t : String.compare (String c "" +:+ s) (String c "" +:+ t) = String.compare s t.
Proof. rewrite !str_cons_app, !str_nil_app. cbn [String.compare]. unfold Ascii.compare. by rewrite N.compare_refl. Qed.

Lemma year_bounds y m d : valid_date y m d -> (0 <= day_number y m d < 3652059)%Z -> (1 <= y <= 9999)%Z.
Proof.
  intros V Hn. apply month_fits in V. rewrite !days_before_year in V. Z.to_euclidean_division_equations. lia.
Qed.

(** The digits of the time of day: hours, minutes, seconds, microseconds. *)
Lemma compare_clock a b :
  then_compare (a / (3600 * SECOND) ?= b / (3600 * SECOND))%Z
    (then_compare (a / (60 * SECOND) mod 60 ?= b / (60 * SECOND) mod 60)%Z
       (then_compare (a / SECOND mod 60 ?= b / SECOND mod 60)%Z (a mod SECOND ?= b mod SECOND)%Z)) = (a ?= b)%Z.
Proof.
  rewrite <-(compare_div SECOND a b) by (unfold SECOND; lia).
  rewrite <-(compare_div 60 (a / SECOND) (b / SECOND)) by lia.
  rewrite <-(compare_div 60 (a / SECOND / 60) (b / SECOND / 60)) by lia.
  rewrite !Z.div_div, !then_assoc by (unfold SECOND; lia).
  by replace (SECOND * 60 * 60)%Z with (3600 * SECOND)%Z by lia; replace (SECOND * 60)%Z with (60 * SECOND)%Z by lia.
Qed.

Lemma clock_fields u : (0 <= u < 86400 * 1000000)%Z ->
  (0 <= u / (3600 * SECOND) < 100 /\ 0 <= u / (60 * SECOND) mod 60 < 100 /\ 0 <= u / SECOND mod 60 < 100
   /\ 0 <= u mod SECOND < 1000000)%Z.
Proof. intros Hu. unfold SECOND. repeat split; Z.to_euclidean_division_equations; lia. Qed.

(** Stored times compare, as texts, in the order of time. *)
Lemma compare_utc_text a b : instant a -> instant b -> String.compare (utc_text a) (utc_text b) = (a ?= b)%Z.
Proof.
  unfold instant, LAST_INSTANT. intros Ha Hb.
  assert (HD : (0 < DAY)%Z) by (unfold DAY, SECOND; lia). unfold utc_text.
  pose proof (Z.mod_pos_bound a DAY HD) as Ca. pose proof (Z.mod_pos_bound b DAY HD) as Cb.
  assert (Na : (0 <= a / DAY < 3652059)%Z) by (split; [apply Z.div_pos|apply Z.div_lt_upper_bound]; lia).
  assert (Nb : (0 <= b / DAY < 3652059)%Z) by (split; [apply Z.div_pos|apply Z.div_lt_upper_bound]; lia).
  destruct (date_of_spec (a / DAY)) as (y1 & m1 & d1 & -> & V1 & E1); [lia|].
  destruct (date_of_spec (b / DAY)) as (y2 & m2 & d2 & -> & V2 & E2); [lia|].
  pose proof (year_bounds y1 m1 d1 V1 ltac:(lia)) as Y1. pose proof (year_bounds y2 m2 d2 V2 ltac:(lia)) as Y2.
  destruct (days_in_month_bound y1 m1) as [_ B1], (days_in_month_bound y2 m2) as [_ B2].
  pose proof (valid_month _ _ _ V1). pose proof (valid_day _ _ _ V1). pose proof (valid_month _ _ _ V2). pose proof (valid_day _ _ _ V2).
  set (u := (a mod DAY)%Z) in *. set (v := (b mod DAY)%Z) in *.
  unfold DAY, SECOND in Ca, Cb.
  destruct (clock_fields _ Ca) as (? & ? & ? & ?), (clock_fields _ Cb) as (? & ? & ? & ?).
  rewrite compare_decimal, compare_char, compare_decimal, compare_char, compare_decimal, compare_char, compare_decimal,
    compare_char, compare_decimal, compare_char, compare_decimal, compare_char, compare_decimal by (cbn; lia).
  assert (Z0 : String.compare "Z" "Z" = Eq) by done. rewrite Z0.
  assert (R : forall c, then_compare c Eq = c) by by intros []. rewrite R.
  rewrite compare_clock. rewrite <-(compare_div DAY a b), <-E1, <-E2, <-compare_dates by (lia || done).
  by rewrite !then_assoc.
Qed.

Lemma utc_text_leb a b : instant a -> instant b -> String.leb (utc_text a) (utc_text b) = (a <=? b)%Z.
Proof. intros Ha Hb. unfold String.leb, Z.leb. by rewrite compare_utc_text. Qed.

(** ** Reading back what was written *)

Lemma code_digit d : (0 <= d < 10)%Z -> code (ascii_of_N (Z.to_N (48 + d))) = (48 + d)%Z.
Proof. intros Hd. unfold code. rewrite N_ascii_embedding by lia. lia. Qed.

Lemma is_digit_of d : (0 <= d < 10)%Z -> is_digit (ascii_of_N (Z.to_N (48 + d))) = true.
Proof. intros Hd. unfold is_digit, in_range. rewrite code_digit by done. apply andb_true_iff. split; apply Z.leb_le; lia. Qed.

Lemma take_decimal w k acc n s : (0 <= n < 10 ^ Z.of_nat w)%Z ->
  take_digits (w + k) acc (decimal w n +:+ s) = take_digits k (acc * 10 ^ Z.of_nat w + n) s.
Proof.
  revert k acc n s. induction w as [|w IH]; intros k acc n s Hn.
  - change (Z.of_nat 0) with 0%Z in *. cbn [Nat.add decimal]. rewrite str_nil_app. f_equal. lia.
  - assert (Hw : (10 ^ Z.of_nat (S w) = 10 * 10 ^ Z.of_nat w)%Z) by (rewrite Nat2Z.inj_succ, Z.pow_succ_r by lia; done).
    cbn [decimal]. rewrite str_app_assoc, str_cons_app, str_nil_app. replace (S w + k) with (w + S k) by lia.
    rewrite IH by (split; [apply Z.div_pos|apply Z.div_lt_upper_bound]; lia). cbn [take_digits].
    pose proof (Z.mod_pos_bound n 10 ltac:(lia)). rewrite is_digit_of, code_digit by lia. f_equal.
    rewrite Hw. pose proof (Z_div_mod_eq_full n 10). lia.
Qed.

Lemma take_all w n s : (0 <= n < 10 ^ Z.of_nat w)%Z -> take_digits w 0 (decimal w n +:+ s) = Some (n, s).
Proof. intros Hn. pose proof (take_decimal w 0 0 n s Hn) as H. rewrite Nat.add_0_r in H. by rewrite H. Qed.

Lemma suffix_decimal w n s : (0 <= n < 10 ^ Z.of_nat w)%Z -> utc_suffix (decimal w n +:+ s) = decimal w n +:+ utc_suffix s.
Proof.
  revert n s. induction w as [|w IH]; intros n s Hn; [done|].
  assert (Hw : (10 ^ Z.of_nat (S w) = 10 * 10 ^ Z.of_nat w)%Z) by (rewrite Nat2Z.inj_succ, Z.pow_succ_r by lia; done).
  cbn [decimal]. rewrite !str_app_assoc, !str_cons_app, !str_nil_app.
  rewrite IH by (split; [apply Z.div_pos|apply Z.div_lt_upper_bound]; lia). cbn [utc_suffix].
  pose proof (Z.mod_pos_bound n 10 ltac:(lia)) as Hd. rewrite bool_decide_eq_false_2; [done|].
  intros E. apply (f_equal code) in E. rewrite code_digit in E by done. change (code "Z") with 90%Z in E. lia.
Qed.

Lemma suffix_char c s : c <> "Z"%char -> utc_suffix (String c "" +:+ s) = String c "" +:+ utc_suffix s.
Proof. intros Hc. rewrite !str_cons_app, !str_nil_app. cbn [utc_suffix]. by rewrite bool_decide_eq_false_2. Qed.

Lemma read_date y m d s : (0 <= y < 10000)%Z -> (1 <= y)%Z -> valid_date y m d ->
  parse_date (decimal 4 y +:+ "-" +:+ decimal 2 m +:+ "-" +:+ decimal 2 d +:+ s) = Some (day_number y m d * 86400 * SECOND, s)%Z.
Proof.
  intros Hy Hy1 V. pose proof (valid_month _ _ _ V). pose proof (valid_day _ _ _ V).
  destruct (days_in_month_bound y m) as [_ B]. unfold parse_date.
  rewrite take_all by (cbn; lia). cbn [mbind option_bind skip]. rewrite str_cons_app, str_nil_app. cbn [skip]. rewrite bool_decide_eq_true_2 by done.
  cbn [mbind option_bind]. rewrite take_all by (cbn; lia). cbn [mbind option_bind]. rewrite str_cons_app, str_nil_app. cbn [skip].
  rewrite bool_decide_eq_true_2 by done. cbn [mbind option_bind]. rewrite take_all by (cbn; lia). cbn [mbind option_bind].
  repeat (rewrite (proj2 (Z.leb_le _ _)) by lia). done.
Qed.

Lemma read_clock h mi sec us s : (0 <= h < 100)%Z -> (0 <= mi < 100)%Z -> (0 <= sec < 100)%Z -> (0 <= us < 1000000)%Z ->
  parse_clock (decimal 2 h +:+ ":" +:+ decimal 2 mi +:+ ":" +:+ decimal 2 sec +:+ "." +:+ decimal 6 us +:+ s) = Some (h, mi, sec, us, s).
Proof.
  intros. unfold parse_clock. rewrite take_all by (cbn; lia). cbn [mbind option_bind]. rewrite str_cons_app, str_nil_app. cbn [skip].
  rewrite bool_decide_eq_true_2 by done. cbn [mbind option_bind]. rewrite take_all by (cbn; lia). cbn [mbind option_bind].
  rewrite str_cons_app, str_nil_app. cbn [skip]. rewrite bool_decide_eq_true_2 by done. rewrite take_all by (cbn; lia).
  cbn [mbind option_bind]. rewrite str_cons_app, str_nil_app. cbn [skip]. rewrite bool_decide_eq_true_2 by done.
  unfold parse_fraction. rewrite take_all by (cbn; lia). done.
Qed.

(** A stored time is read back as the time it was. *)
Lemma parse_utc_text t : instant t -> parse_instant (utc_text t) = Some {| dt_local := t; dt_offset := Some 0%Z |}.
Proof.
  unfold instant, LAST_INSTANT. intros Ht. assert (HD : (0 < DAY)%Z) by (unfold DAY, SECOND; lia). unfold utc_text, parse_instant.
  pose proof (Z.mod_pos_bound t DAY HD) as C. assert (N : (0 <= t / DAY < 3652059)%Z) by (split; [apply Z.div_pos|apply Z.div_lt_upper_bound]; lia).
  destruct (date_of_spec (t / DAY)) as (y & m & d & -> & V & E); [lia|].
  pose proof (year_bounds y m d V ltac:(lia)) as Y. destruct (days_in_month_bound y m) as [_ B].
  pose proof (valid_month _ _ _ V). pose proof (valid_day _ _ _ V). pose proof (Z_div_mod_eq_full t DAY) as Et.
  set (u := (t mod DAY)%Z) in *. assert (C' : (0 <= u < 86400 * 1000000)%Z) by (unfold DAY, SECOND in C; lia).
  destruct (clock_fields _ C') as (? & ? & ? & ?).
  assert (Hh : (u / (3600 * SECOND) < 24)%Z) by (unfold SECOND; Z.to_euclidean_division_equations; lia).
  assert (Hm : (u / (60 * SECOND) mod 60 < 60)%Z) by (apply Z.mod_pos_bound; lia).
  assert (Hs : (u / SECOND mod 60 < 60)%Z) by (apply Z.mod_pos_bound; lia).
  rewrite suffix_decimal, suffix_char, suffix_decimal, suffix_char, suffix_decimal, suffix_char, suffix_decimal, suffix_char,
    suffix_decimal, suffix_char, suffix_decimal, suffix_char, suffix_decimal by (done || (cbn; lia)).
  change (utc_suffix "Z") with "+00:00". unfold fromisoformat. rewrite read_date by (done || lia). cbn [mbind option_bind].
  rewrite str_cons_app, str_nil_app, read_clock by lia. cbn [mbind option_bind].
  rewrite !(proj2 (Z.ltb_lt _ _)) by lia. cbn [andb]. rewrite bool_decide_eq_false_2 by done.
  change (parse_offset "+00:00") with (Some 0%Z). cbn [mbind option_bind]. f_equal. f_equal.
  unfold microseconds, SECOND in *. rewrite E, Et. fold u. unfold DAY, SECOND in *. clearbody u. clear - C'.
  Z.to_euclidean_division_equations. lia.
Qed.
