(* ===== verification/Floats.v ===== *)
(** * Numbers of Python

    IEEE binary64 values ([SpecFloat]), ints beside them, the comparisons of the code, and
    the conversion of a number of seconds into a [timedelta]. *)

From Stdlib Require Export SpecFloat.
From S2P Require Import Prelude.

Abbreviation f64 := spec_float.
Definition f64_add : f64 -> f64 -> f64 := SFadd 53 1024.
Definition f64_of_Z (z : Z) : f64 := binary_normalize 53 1024 z 0 false.
Definition zero64 : f64 := S754_zero false.

#[export] Instance spec_float_eq_dec : EqDecision spec_float.
Proof. solve_decision. Defined.

Definition is_finite (f : f64) : bool :=
  match f with S754_zero _ | S754_finite _ _ _ => true | _ => false end.
Definition is_negative (f : f64) : bool := SFltb f zero64.

(** What a caller passes where a number is expected. *)
Inductive number := PInt (z : Z) | PFloat (f : f64) | NotANumber.

Definition check_float {E} (f : f64) (e : E) : outcome E f64 :=
  match f with S754_infinity _ => Raise e | _ => Ok f end.

(** [f > z] for a float and an int: Python compares the exact values. *)
Definition float_gt_int (f : f64) (z : Z) : bool :=
  match f with
  | S754_zero _ => (z <? 0)%Z
  | S754_infinity s => negb s
  | S754_nan => false
  | S754_finite s m e =>
      let v := if s then Z.neg m else Z.pos m in
      if (0 <=? e)%Z then (z <? v * 2 ^ e)%Z else (z * 2 ^ (- e) <? v)%Z
  end.

Definition float_gt (f : f64) (limit : number) : bool :=
  match limit with
  | PInt z => float_gt_int f z
  | PFloat g => SFltb g f
  | NotANumber => false
  end.

(** ** [timedelta(seconds=value)] *)

(** [modf]: the integral part, and the fraction, which is exact. *)
Definition modf (f : f64) : Z * f64 :=
  match f with
  | S754_finite s m e =>
      if (0 <=? e)%Z then ((if s then Z.neg m else Z.pos m) * 2 ^ e, zero64)%Z
      else
        let scale := (2 ^ (- e))%Z in
        let frac := binary_normalize 53 1024 (Z.pos m mod scale) e false in
        if s then (- (Z.pos m / scale), SFopp frac)%Z else (Z.pos m / scale, frac)%Z
  | _ => (0%Z, zero64)
  end.

(** [x + f] to the nearest integer, halves to the even one; [f] is a fraction. *)
Definition round_half_even (x : Z) (f : f64) : Z :=
  match f with
  | S754_finite s m e =>
      let d := (if s then -1 else 1)%Z in
      match (2 * Z.pos m ?= 2 ^ (- e))%Z with
      | Lt => x
      | Gt => (x + d)%Z
      | Eq => if Z.even x then x else (x + d)%Z
      end
  | _ => x
  end.

Definition MICROSECONDS : f64 := f64_of_Z 1000000.

(** The microseconds of a delta: whole seconds exactly, the fraction in floating point;
    [None] is an [OverflowError]. *)
Definition timedelta_seconds (value : f64) : option Z :=
  let '(whole, frac) := modf value in
  let '(us, rest) := modf (SFmul 53 1024 MICROSECONDS frac) in
  let total := round_half_even (whole * 1000000 + us) rest in
  let days := (total / 86400000000)%Z in
  if (-999999999 <=? days)%Z && (days <=? 999999999)%Z then Some total else None.

(** ** Lemmas on numbers *)

Lemma SFeqb_finite f : is_finite f = true -> SFeqb f f = true.
Proof.
  unfold SFeqb, SFcompare. destruct f as [[]| | |s m e]; try done. intros _.
  rewrite Z.compare_refl. change (Pos.compare_cont Eq m m) with (Pos.compare m m).
  rewrite Pos.compare_refl. by destruct s.
Qed.

Lemma round_aux_sign prec emax m e l :
  is_negative (binary_round_aux prec emax false m e l) = false.
Proof.
  unfold binary_round_aux. destruct (shr_fexp prec emax m e l) as [mrs' e'].
  destruct (shr_fexp prec emax _ e' loc_Exact) as [mrs'' e''].
  destruct (shr_m mrs''); try done. by destruct (e'' <=? emax - prec)%Z.
Qed.

Lemma f64_of_Z_nonneg z : (0 <= z)%Z -> is_negative (f64_of_Z z) = false.
Proof.
  intros Hz. unfold f64_of_Z, binary_normalize. destruct z as [|p|p]; [done| |lia].
  unfold binary_round. match goal with |- context [let (_, _) := ?x in _] => destruct x end. apply round_aux_sign.
Qed.

