(* ===== verification/Json.v ===== *)
(** * JSON values, Python dictionaries, and [json.dumps]

    The records this program persists and hashes are JSON values.  A Python
    [dict] is an association list in insertion order ([dict_set] replaces in
    place or appends, as [d[k] = v] does).  [dumps] is
    [json.dumps(v, sort_keys=True, separators=(",", ":"))] with both settings of
    [ensure_ascii]; [encode] is [str.encode("utf-8")].  Numbers are integers.
    The main theorem is that the encoding is unambiguous: equal encoded texts
    come from values that are equal up to the order of keys. *)

From S2P Require Import Prelude.

Inductive json : Type :=
| JNull
| JBool (b : bool)
| JInt (z : Z)
| JStr (s : string)
| JArr (l : list json)
| JObj (fields : list (string * json)).

(** ** Induction and decidable equality *)

Section json_ind.
Variable P : json -> Prop.
Hypothesis Hnull : P JNull.
Hypothesis Hbool : forall b, P (JBool b).
Hypothesis Hint_ : forall z, P (JInt z).
Hypothesis Hstr : forall s, P (JStr s).
Hypothesis Harr : forall l, Forall P l -> P (JArr l).
Hypothesis Hobj : forall fs, Forall (fun kv => P (snd kv)) fs -> P (JObj fs).

Fixpoint json_rich_ind (j : json) : P j :=
  match j with
  | JNull => Hnull
  | JBool b => Hbool b
  | JInt z => Hint_ z
  | JStr s => Hstr s
  | JArr l =>
      Harr l ((fix go (l : list json) : Forall P l :=
                 match l with
                 | [] => Forall_nil_2 _
                 | x :: l' => Forall_cons_2 _ _ _ (json_rich_ind x) (go l')
                 end) l)
  | JObj fs =>
      Hobj fs ((fix go (l : list (string * json)) : Forall (fun kv => P (snd kv)) l :=
                  match l with
                  | [] => Forall_nil_2 _
                  | x :: l' => Forall_cons_2 _ _ _ (json_rich_ind (snd x)) (go l')
                  end) fs)
  end.
End json_ind.

Fixpoint json_eqb (a b : json) {struct a} : bool :=
  match a, b with
  | JNull, JNull => true
  | JBool x, JBool y => Bool.eqb x y
  | JInt x, JInt y => (x =? y)%Z
  | JStr x, JStr y => String.eqb x y
  | JArr l1, JArr l2 =>
      (fix go (l1 l2 : list json) {struct l1} : bool :=
         match l1, l2 with
         | [], [] => true
         | x :: l1', y :: l2' => json_eqb x y && go l1' l2'
         | _, _ => false
         end) l1 l2
  | JObj l1, JObj l2 =>
      (fix go (l1 l2 : list (string * json)) {struct l1} : bool :=
         match l1, l2 with
         | [], [] => true
         | (k1, x) :: l1', (k2, y) :: l2' => String.eqb k1 k2 && json_eqb x y && go l1' l2'
         | _, _ => false
         end) l1 l2
  | _, _ => false
  end.

Lemma json_eqb_eq a b : json_eqb a b = true <-> a = b.
Proof.
  revert b. induction a as [|b|z|s|l IH|fs IH] using json_rich_ind; intros [|b'|z'|s'|l'|fs'];
    simpl; try (split; congruence).
  - rewrite Bool.eqb_true_iff. split; congruence.
  - rewrite Z.eqb_eq. split; congruence.
  - rewrite String.eqb_eq. split; congruence.
  - enough (Hgo : forall l', (fix go (l1 l2 : list json) {struct l1} : bool :=
         match l1, l2 with
         | [], [] => true
         | x :: l1', y :: l2' => json_eqb x y && go l1' l2'
         | _, _ => false
         end) l l' = true <-> l = l') by (rewrite Hgo; split; congruence).
    clear l'. induction IH as [|x l Hx _ IHl]; intros [|y l']; try (split; congruence).
    rewrite andb_true_iff, Hx, IHl. split; [intros [-> ->]; done | intros [= -> ->]; done].
  - enough (Hgo : forall fs', (fix go (l1 l2 : list (string * json)) {struct l1} : bool :=
         match l1, l2 with
         | [], [] => true
         | (k1, x) :: l1', (k2, y) :: l2' => String.eqb k1 k2 && json_eqb x y && go l1' l2'
         | _, _ => false
         end) fs fs' = true <-> fs = fs') by (rewrite Hgo; split; congruence).
    clear fs'. induction IH as [|[k x] l Hx _ IHl]; intros [|[k' y] l']; try (split; congruence).
    simpl in Hx. rewrite !andb_true_iff, String.eqb_eq, Hx, IHl.
    split; [intros [[-> ->] ->]; done | intros [= -> -> ->]; done].
Qed.

#[export] Instance json_eq_dec : EqDecision json.
Proof.
  intros a b. destruct (json_eqb a b) eqn:E.
  - left. by apply json_eqb_eq.
  - right. intros ->. assert (json_eqb b b = true) by by apply json_eqb_eq. congruence.
Defined.

(** ** Python dictionaries *)

Abbreviation dict := (list (string * json)).

Fixpoint dict_get (k : string) (d : dict) : option json :=
  match d with
  | [] => None
  | (k', v) :: d' => if String.eqb k k' then Some v else dict_get k d'
  end.

Fixpoint dict_set (k : string) (v : json) (d : dict) : dict :=
  match d with
  | [] => [(k, v)]
  | (k', v') :: d' => if String.eqb k k' then (k', v) :: d' else (k', v') :: dict_set k v d'
  end.

(** [d.update(e)], also [{**d, **e}]. *)
Definition dict_update (d e : dict) : dict :=
  foldl (fun acc kv => dict_set (fst kv) (snd kv) acc) d e.

Definition dict_keys (d : dict) : list string := map fst d.
Definition dict_has (k : string) (d : dict) : bool := mem k (dict_keys d).
Definition dict_filter (p : string -> bool) (d : dict) : dict :=
  List.filter (fun kv => p (fst kv)) d.

Lemma dict_get_set_eq k v d : dict_get k (dict_set k v d) = Some v.
Proof.
  induction d as [|[k' v'] d IH]; simpl.
  - by rewrite String.eqb_refl.
  - destruct (String.eqb k k') eqn:E; simpl; rewrite E; done.
Qed.

Lemma dict_get_set_ne k k' v d : k <> k' -> dict_get k (dict_set k' v d) = dict_get k d.
Proof.
  intros Hne. induction d as [|[k1 v1] d IH]; simpl.
  - by rewrite (proj2 (String.eqb_neq k k') Hne).
  - destruct (String.eqb k' k1) eqn:E; simpl.
    + apply String.eqb_eq in E as <-. by rewrite (proj2 (String.eqb_neq k k') Hne).
    + by rewrite IH.
Qed.

Lemma dict_get_update k d e :
  k ∉ dict_keys e -> dict_get k (dict_update d e) = dict_get k d.
Proof.
  unfold dict_update. revert d. induction e as [|[k1 v1] e IH]; intros d Hk; [done|].
  simpl in *. apply not_elem_of_cons in Hk as [Hne Hk].
  rewrite IH by done. by apply dict_get_set_ne.
Qed.

Lemma dict_has_get k d : dict_has k d = true <-> is_Some (dict_get k d).
Proof.
  unfold dict_has, dict_keys. rewrite mem_true. induction d as [|[k' v] d IH]; simpl.
  - split; [intros H; inversion H | intros [? ?]; done].
  - rewrite elem_of_cons, IH. destruct (String.eqb k k') eqn:E.
    + apply String.eqb_eq in E. split; [by eexists | by left].
    + apply String.eqb_neq in E. split; [intros [?|?]; done | by right].
Qed.

Lemma dict_filter_get p k d : p k = true -> dict_get k (dict_filter p d) = dict_get k d.
Proof.
  intros Hp. induction d as [|[k' v] d IH]; [done|]. simpl.
  destruct (p k') eqn:E; simpl; destruct (String.eqb k k') eqn:E'; try done.
  apply String.eqb_eq in E'. congruence.
Qed.

(** ** Key order and Python equality *)

Definition field_le (a b : string * json) : Prop := String.le (fst a) (fst b).
#[export] Instance field_le_dec : RelDecision field_le.
Proof. intros a b. unfold field_le. apply _. Defined.

Definition sort_fields (l : dict) : dict := merge_sort field_le l.

(** What [sort_keys=True] makes of a value: the keys of every object in order. *)
Fixpoint norm (j : json) : json :=
  match j with
  | JArr l => JArr ((fix go (l : list json) : list json :=
                       match l with [] => [] | x :: l' => norm x :: go l' end) l)
  | JObj fs => JObj (sort_fields
                 ((fix go (l : dict) : dict :=
                     match l with [] => [] | (k, x) :: l' => (k, norm x) :: go l' end) fs))
  | _ => j
  end.

(** [True == 1] and [False == 0] in Python. *)
Fixpoint unbool (j : json) : json :=
  match j with
  | JBool b => JInt (if b then 1 else 0)
  | JArr l => JArr ((fix go (l : list json) : list json :=
                       match l with [] => [] | x :: l' => unbool x :: go l' end) l)
  | JObj fs => JObj ((fix go (l : dict) : dict :=
                     match l with [] => [] | (k, x) :: l' => (k, unbool x) :: go l' end) fs)
  | _ => j
  end.

(** [a == b] in Python: dictionaries ignore order, booleans equal integers. *)
Definition py_eq (a b : json) : Prop := norm (unbool a) = norm (unbool b).
#[export] Instance py_eq_dec : RelDecision py_eq.
Proof. intros a b. unfold py_eq. apply _. Defined.
Definition py_eqb (a b : json) : bool := bool_decide (py_eq a b).

#[export] Instance py_eq_equiv : Equivalence py_eq.
Proof. split; unfold py_eq; intros ?; congruence. Qed.

Lemma py_eqb_refl a : py_eqb a a = true.
Proof. by apply bool_decide_eq_true. Qed.

Lemma py_eqb_str s t : py_eqb (JStr s) (JStr t) = bool_decide (s = t).
Proof.
  unfold py_eqb, py_eq. simpl. apply bool_decide_ext. split; congruence.
Qed.

Lemma py_eqb_int x y : py_eqb (JInt x) (JInt y) = (x =? y)%Z.
Proof.
  unfold py_eqb, py_eq. simpl. destruct (Z.eqb_spec x y) as [->|Hne].
  - by apply bool_decide_eq_true.
  - apply bool_decide_eq_false. congruence.
Qed.

Lemma py_eq_str_l s j : py_eq (JStr s) j -> j = JStr s.
Proof. unfold py_eq. destruct j; simpl; congruence. Qed.

(** ** [json.dumps]

    Written with the text that follows as an argument, so that no string is
    taken apart twice. *)

(** The double quote. *)
Definition dq : ascii := "034"%char.

Definition hex_digit (n : Z) : ascii :=
  ascii_of_N (Z.to_N (if n <? 10 then 48 + n else 87 + n))%Z.

(** One character of a JSON string; [a] is [ensure_ascii]. *)
Definition esc_char (a : bool) (c : ascii) (k : string) : string :=
  let n := code c in
  if (n =? 34)%Z then String "\" (String dq k)
  else if (n =? 92)%Z then String "\" (String "\" k)
  else if (n =? 10)%Z then String "\" (String "n" k)
  else if (n =? 13)%Z then String "\" (String "r" k)
  else if (n =? 9)%Z then String "\" (String "t" k)
  else if (n =? 12)%Z then String "\" (String "f" k)
  else if (n =? 8)%Z then String "\" (String "b" k)
  else if (n <? 32)%Z || (a && (126 <? n)%Z) then
    String "\" (String "u" (String "0" (String "0"
      (String (hex_digit (n / 16)) (String (hex_digit (n mod 16)) k)))))
  else String c k.

Fixpoint esc (a : bool) (s k : string) : string :=
  match s with
  | EmptyString => String dq k
  | String c s' => esc_char a c (esc a s' k)
  end.

Definition quote (a : bool) (s k : string) : string := String dq (esc a s k).

Fixpoint render (a : bool) (j : json) (k : string) {struct j} : string :=
  match j with
  | JNull => "null" +:+ k
  | JBool true => "true" +:+ k
  | JBool false => "false" +:+ k
  | JInt z => pretty z +:+ k
  | JStr s => quote a s k
  | JArr l =>
      String "[" ((fix go (l : list json) (first : bool) : string :=
        match l with
        | [] => String "]" k
        | x :: l' =>
            if first then render a x (go l' false)
            else String "," (render a x (go l' false))
        end) l true)
  | JObj fs =>
      String "{" ((fix go (l : dict) (first : bool) : string :=
        match l with
        | [] => String "}" k
        | (kk, x) :: l' =>
            let body := quote a kk (String ":" (render a x (go l' false))) in
            if first then body else String "," body
        end) fs true)
  end.

Definition dumps (a : bool) (j : json) : string := render a (norm j) "".

(** [str.encode("utf-8")] on code points below 256. *)
Fixpoint encode (s : string) : string :=
  match s with
  | EmptyString => EmptyString
  | String c s' =>
      let n := code c in
      if (n <? 128)%Z then String c (encode s')
      else String (ascii_of_N (Z.to_N (192 + n / 64)))
             (String (ascii_of_N (Z.to_N (128 + n mod 64))) (encode s'))
  end.


Example dumps_ex :
  dumps true (JObj [("b", JArr [JInt (-3); JBool true]); ("a", JNull)])
  = String "{" (quote true "a" (":null," +:+ quote true "b" ":[-3,true]}")).
Proof. vm_compute. reflexivity. Qed.

(** ** The encoding is unambiguous *)

(** Reading back one character of a string body. *)
Definition from_hex (c : ascii) : Z := if is_digit c then (code c - 48)%Z else (code c - 87)%Z.

Definition unesc (s : string) : option (ascii * string) :=
  match s with
  | EmptyString => None
  | String c s1 =>
      if decide (c = dq) then None
      else if decide (c = "\"%char) then
        match s1 with
        | EmptyString => None
        | String d k =>
            if decide (d = "u"%char) then
              match k with
              | String _ (String _ (String h1 (String h2 k'))) =>
                  Some (ascii_of_N (Z.to_N (16 * from_hex h1 + from_hex h2)), k')
              | _ => None
              end
            else Some (if decide (d = "n"%char) then "010"%char
                       else if decide (d = "r"%char) then "013"%char
                       else if decide (d = "t"%char) then "009"%char
                       else if decide (d = "f"%char) then "012"%char
                       else if decide (d = "b"%char) then "008"%char
                       else d, k)
        end
      else Some (c, s1)
  end.

Lemma unesc_esc_char a c k : unesc (esc_char a c k) = Some (c, k).
Proof. destruct a, c as [[] [] [] [] [] [] [] []]; vm_compute; reflexivity. Qed.

Lemma unesc_dq k : unesc (String dq k) = None.
Proof. reflexivity. Qed.

Lemma esc_inj a s1 s2 k1 k2 : esc a s1 k1 = esc a s2 k2 -> s1 = s2 /\ k1 = k2.
Proof.
  revert s2. induction s1 as [|c1 s1 IH]; intros [|c2 s2] H; simpl in H.
  - by injection H.
  - apply (f_equal unesc) in H. by rewrite unesc_dq, unesc_esc_char in H.
  - apply (f_equal unesc) in H. by rewrite unesc_dq, unesc_esc_char in H.
  - apply (f_equal unesc) in H. rewrite !unesc_esc_char in H. injection H as -> H.
    apply IH in H as [-> ->]. done.
Qed.

Lemma quote_inj a s1 s2 k1 k2 : quote a s1 k1 = quote a s2 k2 -> s1 = s2 /\ k1 = k2.
Proof. intros [= H]. by apply esc_inj in H. Qed.

(** Decimal integers: what follows one never continues it. *)
Definition num_char (c : ascii) : bool := is_digit c || bool_decide (c = "-"%char).
Definition ends_num (k : string) : Prop :=
  match k with EmptyString => True | String c _ => num_char c = false end.

Lemma pretty_N_go_num x s : all_chars num_char s = true -> all_chars num_char (pretty_N_go x s) = true.
Proof.
  revert s. induction (N.lt_wf_0 x) as [x _ IH]; intros s Hs.
  assert (x = 0 \/ 0 < x)%N as [->|Hx] by lia; [done|].
  rewrite pretty_N_go_step by done. apply IH; [by apply N.div_lt|].
  simpl. rewrite Hs, andb_true_r. unfold pretty_N_char. repeat case_match; done.
Qed.

Lemma pretty_N_num (x : N) : all_chars num_char (pretty x) = true.
Proof. unfold pretty, pretty_N. case_decide; [done|]. by apply pretty_N_go_num. Qed.

Lemma pretty_Z_num (z : Z) : all_chars num_char (pretty z) = true.
Proof.
  unfold pretty, pretty_Z. destruct z; [done|apply pretty_N_num|].
  rewrite str_cons_app. apply pretty_N_num.
Qed.

Lemma pretty_Z_nonempty (z : Z) : exists c r, pretty z = String c r.
Proof.
  destruct (pretty z) as [|c r] eqn:E; [|eauto].
  exfalso. revert E. unfold pretty, pretty_Z. destruct z as [|p|p]; [done| |done].
  unfold pretty, pretty_positive, pretty, pretty_N. case_decide; [done|].
  assert (Hlen : forall x s, String.length s <= String.length (pretty_N_go x s)).
  { intros x. induction (N.lt_wf_0 x) as [x _ IH]; intros s.
    assert (x = 0 \/ 0 < x)%N as [->|Hx] by lia; [done|].
    rewrite pretty_N_go_step by done.
    etrans; [|apply IH, N.div_lt; done]. simpl. lia. }
  rewrite pretty_N_go_step by done. intros E.
  specialize (Hlen (N.pos p `div` 10)%N (String (pretty_N_char (N.pos p `mod` 10)) "")).
  rewrite E in Hlen. simpl in Hlen. lia.
Qed.

Lemma num_span s1 s2 k1 k2 :
  all_chars num_char s1 = true -> all_chars num_char s2 = true ->
  ends_num k1 -> ends_num k2 -> s1 +:+ k1 = s2 +:+ k2 -> s1 = s2 /\ k1 = k2.
Proof.
  revert s2. induction s1 as [|c1 s1 IH]; intros [|c2 s2] H1 H2 Hk1 Hk2 H;
    rewrite ?str_cons_app, ?str_nil_app in H; simpl in *; split_bool.
  - done.
  - subst k1. simpl in Hk1. congruence.
  - subst k2. simpl in Hk2. congruence.
  - injection H as -> H. apply IH in H as [-> ->]; done.
Qed.

(** The two inner loops of [render], named. *)
Definition elems (a : bool) (k : string) : list json -> bool -> string :=
  fix go (l : list json) (first : bool) : string :=
    match l with
    | [] => String "]" k
    | x :: l' =>
        if first then render a x (go l' false)
        else String "," (render a x (go l' false))
    end.

Definition members (a : bool) (k : string) : dict -> bool -> string :=
  fix go (l : dict) (first : bool) : string :=
    match l with
    | [] => String "}" k
    | (kk, x) :: l' =>
        let body := quote a kk (String ":" (render a x (go l' false))) in
        if first then body else String "," body
    end.

Lemma render_arr a l k : render a (JArr l) k = String "[" (elems a k l true).
Proof. reflexivity. Qed.
Lemma render_obj a fs k : render a (JObj fs) k = String "{" (members a k fs true).
Proof. reflexivity. Qed.
Lemma elems_cons a k x l first :
  elems a k (x :: l) first
  = if first then render a x (elems a k l false)
    else String "," (render a x (elems a k l false)).
Proof. reflexivity. Qed.
Lemma members_cons a k kk x l first :
  members a k ((kk, x) :: l) first
  = let body := quote a kk (String ":" (render a x (members a k l false))) in
    if first then body else String "," body.
Proof. reflexivity. Qed.

(** What kind of value a text starts with. *)
Inductive kind := KNull | KTrue | KFalse | KNum | KStr | KArr | KObj | KOther.

Definition kind_of (s : string) : kind :=
  match s with
  | EmptyString => KOther
  | String c _ =>
      if decide (c = "n"%char) then KNull
      else if decide (c = "t"%char) then KTrue
      else if decide (c = "f"%char) then KFalse
      else if decide (c = dq) then KStr
      else if decide (c = "["%char) then KArr
      else if decide (c = "{"%char) then KObj
      else if num_char c then KNum
      else KOther
  end.

Definition json_kind (j : json) : kind :=
  match j with
  | JNull => KNull | JBool true => KTrue | JBool false => KFalse | JInt _ => KNum
  | JStr _ => KStr | JArr _ => KArr | JObj _ => KObj
  end.

Lemma num_char_kind c r : num_char c = true -> kind_of (String c r) = KNum.
Proof. destruct c as [[] [] [] [] [] [] [] []]; vm_compute; congruence. Qed.

Lemma render_kind a j k : kind_of (render a j k) = json_kind j.
Proof.
  destruct j as [|[]|z|s|l|fs]; try reflexivity.
  simpl. destruct (pretty_Z_nonempty z) as (c & r & E).
  pose proof (pretty_Z_num z) as Hn. rewrite E in *. simpl in Hn. split_bool.
  rewrite str_cons_app. by apply num_char_kind.
Qed.

Lemma render_not_end a j k c r :
  render a j k = String c r -> c <> "]"%char.
Proof.
  intros H ->. pose proof (render_kind a j k) as Hk. rewrite H in Hk.
  destruct j as [|[]| | | |]; discriminate Hk.
Qed.

Lemma elems_ends a k l : ends_num (elems a k l false).
Proof. destruct l; done. Qed.
Lemma members_ends a k l : ends_num (members a k l false).
Proof. destruct l as [|[]]; done. Qed.

Definition inj_at (a : bool) (j1 : json) : Prop :=
  forall j2 k1 k2, ends_num k1 -> ends_num k2 ->
    render a j1 k1 = render a j2 k2 -> j1 = j2 /\ k1 = k2.

Lemma elems_inj a l1 :
  Forall (inj_at a) l1 ->
  forall l2 first k1 k2, elems a k1 l1 first = elems a k2 l2 first -> l1 = l2 /\ k1 = k2.
Proof.
  induction 1 as [|x1 l1 Hx _ IH]; intros [|x2 l2] first k1 k2; rewrite ?elems_cons.
  - intros [= ->]. done.
  - destruct first; simpl; intros H; [|discriminate].
    symmetry in H. by apply render_not_end in H.
  - destruct first; simpl; intros H; [|discriminate]. by apply render_not_end in H.
  - intros H.
    assert (render a x1 (elems a k1 l1 false) = render a x2 (elems a k2 l2 false)) as H'
      by (destruct first; congruence).
    apply Hx in H' as [-> H']; [|apply elems_ends..].
    apply IH in H' as [-> ->]. done.
Qed.

Lemma members_inj a l1 :
  Forall (fun kv => inj_at a (snd kv)) l1 ->
  forall l2 first k1 k2, members a k1 l1 first = members a k2 l2 first -> l1 = l2 /\ k1 = k2.
Proof.
  induction 1 as [|[kk1 x1] l1 Hx _ IH]; intros [|[kk2 x2] l2] first k1 k2;
    rewrite ?members_cons; simpl.
  - intros [= ->]. done.
  - destruct first; discriminate.
  - destruct first; discriminate.
  - intros H.
    assert (quote a kk1 (String ":" (render a x1 (members a k1 l1 false)))
            = quote a kk2 (String ":" (render a x2 (members a k2 l2 false)))) as H'
      by (destruct first; congruence).
    apply quote_inj in H' as [-> [= H']].
    apply Hx in H' as [Heq H']; [|apply members_ends..]. simpl in Heq. subst x2.
    apply IH in H' as [-> ->]. done.
Qed.

Lemma render_inj a j1 : inj_at a j1.
Proof.
  induction j1 as [|b|z|s|l IH|fs IH] using json_rich_ind; intros j2 k1 k2 H1 H2 H;
    pose proof (f_equal kind_of H) as Hk; rewrite !render_kind in Hk;
    destruct j2 as [|b2|z2|s2|l2|fs2];
    try (destruct b); try (destruct b2); try discriminate Hk; simpl in Hk; clear Hk.
  - apply str_app_inj_l in H. done.
  - apply str_app_inj_l in H. done.
  - apply str_app_inj_l in H. done.
  - apply num_span in H as [H ->]; try done; try apply pretty_Z_num.
    apply (inj pretty) in H as ->. done.
  - apply quote_inj in H as [-> ->]. done.
  - rewrite !render_arr in H. injection H as H. by apply elems_inj in H as [-> ->].
  - rewrite !render_obj in H. injection H as H. by apply members_inj in H as [-> ->].
Qed.

Lemma dumps_inj a j1 j2 : dumps a j1 = dumps a j2 -> norm j1 = norm j2.
Proof. intros H. by apply render_inj in H as [? _]. Qed.

Lemma dumps_norm a j1 j2 : norm j1 = norm j2 -> dumps a j1 = dumps a j2.
Proof. unfold dumps. by intros ->. Qed.

Lemma encode_inj s1 s2 : encode s1 = encode s2 -> s1 = s2.
Proof.
  revert s2. induction s1 as [|c1 s1 IH]; intros [|c2 s2]; simpl.
  - done.
  - by destruct (_ <? _)%Z.
  - by destruct (_ <? _)%Z.
  - assert (Hhi : forall c, (code c <? 128)%Z = false ->
      (192 <= code (ascii_of_N (Z.to_N (192 + code c / 64))))%Z).
    { intros [[] [] [] [] [] [] [] []]; vm_compute; congruence. }
    assert (Hinv : forall c, (code c <? 128)%Z = false ->
      ascii_of_N (Z.to_N (64 * (code (ascii_of_N (Z.to_N (192 + code c / 64))) - 192)
        + (code (ascii_of_N (Z.to_N (128 + code c mod 64))) - 128))) = c).
    { intros [[] [] [] [] [] [] [] []]; vm_compute; congruence. }
    destruct (code c1 <? 128)%Z eqn:E1, (code c2 <? 128)%Z eqn:E2; intros H.
    + injection H as -> H. f_equal. auto.
    + injection H as -> _. specialize (Hhi _ E2). apply Z.ltb_lt in E1. lia.
    + injection H as <- _. specialize (Hhi _ E1). apply Z.ltb_lt in E2. lia.
    + injection H as Hh Hl H. f_equal; [|by auto].
      rewrite <-(Hinv c1 E1), <-(Hinv c2 E2). by rewrite Hh, Hl.
Qed.

(** ** Values a Python program can hold: no dictionary has a key twice *)

Inductive wf_json : json -> Prop :=
| wf_null : wf_json JNull
| wf_bool b : wf_json (JBool b)
| wf_int z : wf_json (JInt z)
| wf_str s : wf_json (JStr s)
| wf_arr l : Forall wf_json l -> wf_json (JArr l)
| wf_obj fs : NoDup (dict_keys fs) -> Forall (fun kv => wf_json (snd kv)) fs -> wf_json (JObj fs).

Fixpoint wf_jsonb (j : json) : bool :=
  match j with
  | JArr l => (fix go (l : list json) : bool :=
                 match l with [] => true | x :: l' => wf_jsonb x && go l' end) l
  | JObj fs => bool_decide (NoDup (dict_keys fs))
      && (fix go (l : dict) : bool :=
            match l with [] => true | (_, x) :: l' => wf_jsonb x && go l' end) fs
  | _ => true
  end.

Lemma wf_jsonb_wf j : wf_jsonb j = true -> wf_json j.
Proof.
  induction j as [|b|z|s|l IH|fs IH] using json_rich_ind; simpl; intros Hw; constructor.
  - induction IH as [|x l Hx _ IHl]; [constructor|].
    apply andb_true_iff in Hw as [? ?]. constructor; auto.
  - apply andb_true_iff in Hw as [Hw _]. by apply bool_decide_eq_true in Hw.
  - apply andb_true_iff in Hw as [_ Hw].
    induction IH as [|[k x] l Hx _ IHl]; [constructor|].
    apply andb_true_iff in Hw as [? ?]. constructor; auto.
Qed.

#[export] Instance string_le_trans : Transitive String.le.
Proof. apply _. Qed.

#[export] Instance field_le_trans : Transitive field_le.
Proof. intros a b c. unfold field_le. by transitivity (fst b). Qed.
#[export] Instance field_le_total : Total field_le.
Proof. intros a b. unfold field_le. apply (total String.le). Qed.

Definition norm_fields (fs : dict) : dict := map (fun kv => (fst kv, norm (snd kv))) fs.

Lemma norm_arr l : norm (JArr l) = JArr (map norm l).
Proof. reflexivity. Qed.

Lemma norm_obj fs : norm (JObj fs) = JObj (sort_fields (norm_fields fs)).
Proof.
  simpl. f_equal. f_equal. induction fs as [|[k x] fs IH]; [done|]. simpl. by rewrite IH.
Qed.

Lemma norm_fields_keys fs : dict_keys (norm_fields fs) = dict_keys fs.
Proof. unfold dict_keys, norm_fields. by rewrite map_map. Qed.

Lemma sort_fields_perm fs : sort_fields fs ≡ₚ fs.
Proof. apply merge_sort_Permutation. Qed.

Lemma keys_functional (fs : dict) k x1 x2 :
  NoDup (dict_keys fs) -> (k, x1) ∈ fs -> (k, x2) ∈ fs -> x1 = x2.
Proof.
  intros Hnd [i Hi]%list_elem_of_lookup [j Hj]%list_elem_of_lookup.
  assert (i = j) as ->; [|congruence].
  eapply (NoDup_lookup _ _ _ k Hnd); unfold dict_keys.
  - by rewrite list_lookup_fmap, Hi.
  - by rewrite list_lookup_fmap, Hj.
Qed.

Lemma sort_fields_unique fs1 fs2 :
  NoDup (dict_keys fs1) -> fs1 ≡ₚ fs2 -> sort_fields fs1 = sort_fields fs2.
Proof.
  intros Hnd Hp. apply (Sorted_unique_strong field_le).
  - intros [k1 x1] [k2 x2] H1 H2 Hle1 Hle2. unfold field_le in *. simpl in *.
    assert (k1 = k2) as -> by by apply (anti_symm String.le).
    rewrite sort_fields_perm in H1. rewrite sort_fields_perm, <-Hp in H2.
    f_equal. by eapply keys_functional.
  - apply Sorted_merge_sort, _.
  - apply Sorted_merge_sort, _.
  - by rewrite !sort_fields_perm.
Qed.

Lemma norm_wf j : wf_json j -> wf_json (norm j).
Proof.
  induction j as [|b|z|s|l IH|fs IH] using json_rich_ind; intros Hw; try exact Hw.
  - rewrite norm_arr. inversion Hw as [| | | |? Hl|]; subst. constructor.
    rewrite Forall_forall in *. intros x Hx. apply list_elem_of_fmap in Hx as (y & -> & Hy). auto.
  - rewrite norm_obj. inversion Hw as [| | | | |? Hnd Hfs]; subst. constructor.
    + unfold dict_keys at 1. rewrite sort_fields_perm.
      change (NoDup (dict_keys (norm_fields fs))). by rewrite norm_fields_keys.
    + rewrite sort_fields_perm. unfold norm_fields. rewrite Forall_forall in *.
      intros x Hx. apply list_elem_of_fmap in Hx as (y & -> & Hy). simpl. auto.
Qed.

Lemma norm_idem j : wf_json j -> norm (norm j) = norm j.
Proof.
  induction j as [|b|z|s|l IH|fs IH] using json_rich_ind; intros Hw; try done.
  - rewrite !norm_arr, map_map. inversion Hw as [| | | |? Hl|]; subst. f_equal.
    apply map_ext_Forall. rewrite Forall_forall in *. auto.
  - inversion Hw as [| | | | |? Hnd Hfs]; subst. rewrite !norm_obj. f_equal.
    assert (Hid : norm_fields (norm_fields fs) = norm_fields fs).
    { unfold norm_fields. rewrite map_map. apply map_ext_Forall.
      rewrite Forall_forall in *. intros [k x] Hx. simpl. f_equal.
      by apply (IH (k, x)); [|apply (Hfs (k, x))]. }
    symmetry. apply sort_fields_unique; [by rewrite norm_fields_keys|].
    rewrite <-Hid at 1. unfold norm_fields at 1 3. symmetry. apply Permutation_map, sort_fields_perm.
Qed.

(** ** Reading a dictionary does not see the order of its keys *)

Lemma dict_get_elem k x (fs : dict) : dict_get k fs = Some x -> (k, x) ∈ fs.
Proof.
  induction fs as [|[k' x'] fs IH]; simpl; [done|].
  destruct (String.eqb k k') eqn:E.
  - apply String.eqb_eq in E as ->. intros [= ->]. by left.
  - intros H. right. auto.
Qed.

Lemma elem_dict_get k x (fs : dict) : NoDup (dict_keys fs) -> (k, x) ∈ fs -> dict_get k fs = Some x.
Proof.
  intros Hnd Hin. assert (Hs : is_Some (dict_get k fs)).
  { apply dict_has_get. unfold dict_has. rewrite mem_true. apply list_elem_of_fmap. by exists (k, x). }
  destruct Hs as [y Hy]. rewrite Hy. f_equal.
  eapply keys_functional; [done| |done]. by apply dict_get_elem.
Qed.

Lemma dict_get_perm k (fs1 fs2 : dict) :
  NoDup (dict_keys fs1) -> fs1 ≡ₚ fs2 -> dict_get k fs1 = dict_get k fs2.
Proof.
  intros Hnd Hp.
  assert (Hnd2 : NoDup (dict_keys fs2)) by (unfold dict_keys; by rewrite <-Hp).
  apply option_eq. intros x. split; intros H%dict_get_elem; apply elem_dict_get; try done.
  - by rewrite <-Hp.
  - by rewrite Hp.
Qed.

Lemma dict_get_norm_fields k fs : dict_get k (norm_fields fs) = norm <$> dict_get k fs.
Proof. induction fs as [|[k' x] fs IH]; simpl; [done|]. by destruct (String.eqb k k'). Qed.

Lemma dict_get_sort_norm k fs :
  NoDup (dict_keys fs) -> dict_get k (sort_fields (norm_fields fs)) = norm <$> dict_get k fs.
Proof.
  intros Hnd. rewrite <-dict_get_norm_fields. symmetry. apply dict_get_perm.
  - by rewrite norm_fields_keys.
  - by rewrite sort_fields_perm.
Qed.

Definition unbool_fields (fs : dict) : dict := map (fun kv => (fst kv, unbool (snd kv))) fs.

Lemma unbool_obj fs : unbool (JObj fs) = JObj (unbool_fields fs).
Proof. simpl. f_equal. induction fs as [|[k x] fs IH]; [done|]. simpl. by rewrite IH. Qed.

Lemma unbool_fields_keys fs : dict_keys (unbool_fields fs) = dict_keys fs.
Proof. unfold dict_keys, unbool_fields. by rewrite map_map. Qed.

Lemma unbool_wf j : wf_json j -> wf_json (unbool j).
Proof.
  induction j as [|b|z|s|l IH|fs IH] using json_rich_ind; intros Hw; try exact Hw.
  - constructor.
  - change (wf_json (JArr (map unbool l))).
    inversion Hw as [| | | |? Hl|]; subst. constructor.
    rewrite Forall_forall in *. intros x Hx. apply list_elem_of_fmap in Hx as (y & -> & Hy). auto.
  - rewrite unbool_obj. inversion Hw as [| | | | |? Hnd Hfs]; subst. constructor.
    + by rewrite unbool_fields_keys.
    + unfold unbool_fields. rewrite Forall_forall in *.
      intros x Hx. apply list_elem_of_fmap in Hx as (y & -> & Hy). simpl. auto.
Qed.

Lemma sort_fields_map (f : json -> json) (fs : dict) :
  NoDup (dict_keys fs) ->
  sort_fields (map (fun kv => (fst kv, f (snd kv))) fs)
  = map (fun kv => (fst kv, f (snd kv))) (sort_fields fs).
Proof.
  intros Hnd. set (g := fun kv : string * json => (fst kv, f (snd kv))).
  assert (Hk : forall l, dict_keys (map g l) = dict_keys l).
  { intros l. unfold dict_keys. by rewrite map_map. }
  apply (Sorted_unique_strong field_le).
  - intros [k1 x1] [k2 x2] H1 H2 Hle1 Hle2. unfold field_le in *. simpl in *.
    assert (k1 = k2) as -> by by apply (anti_symm String.le).
    rewrite sort_fields_perm in H1. rewrite sort_fields_perm in H2.
    f_equal. eapply keys_functional; [|done|done]. by rewrite Hk.
  - apply Sorted_merge_sort, _.
  - apply (Sorted_fmap g field_le field_le); [intros a b; done|apply Sorted_merge_sort, _].
  - rewrite sort_fields_perm. apply Permutation_map. by rewrite sort_fields_perm.
Qed.

Lemma norm_unbool j : wf_json j -> norm (unbool j) = unbool (norm j).
Proof.
  induction j as [|b|z|s|l IH|fs IH] using json_rich_ind; intros Hw; try done.
  - change (JArr (map norm (map unbool l)) = JArr (map unbool (map norm l))).
    inversion Hw as [| | | |? Hl|]; subst. f_equal. rewrite !map_map.
    apply map_ext_Forall. rewrite Forall_forall in *. auto.
  - inversion Hw as [| | | | |? Hnd Hfs]; subst.
    rewrite unbool_obj, !norm_obj, unbool_obj. f_equal. unfold unbool_fields at 2.
    rewrite <-sort_fields_map by (by rewrite norm_fields_keys). f_equal.
    unfold norm_fields, unbool_fields. rewrite !map_map. apply map_ext_Forall.
    rewrite Forall_forall in *. intros [k x] Hx. simpl. f_equal.
    by apply (IH (k, x)); [|apply (Hfs (k, x))].
Qed.

Lemma py_eqb_norm_l j : wf_json j -> py_eqb (norm j) j = true.
Proof.
  intros Hw. apply bool_decide_eq_true. unfold py_eq.
  rewrite !norm_unbool, norm_idem by auto using norm_wf. done.
Qed.

(** *** Objects with the same entries *)

Lemma dict_entry k x (fs : dict) : NoDup (dict_keys fs) -> (k, x) ∈ fs <-> dict_get k fs = Some x.
Proof. intros Hnd. split; [by apply elem_dict_get|apply dict_get_elem]. Qed.

Lemma NoDup_entries (fs : dict) : NoDup (dict_keys fs) -> NoDup fs.
Proof. unfold dict_keys. apply NoDup_fmap_1. Qed.

Lemma dict_perm_ext (fs1 fs2 : dict) :
  NoDup (dict_keys fs1) -> NoDup (dict_keys fs2) ->
  (forall k, dict_get k fs1 = dict_get k fs2) -> fs1 ≡ₚ fs2.
Proof.
  intros H1 H2 Hget. apply NoDup_Permutation; [by apply NoDup_entries..|].
  intros [k x]. by rewrite !dict_entry, Hget.
Qed.

Lemma norm_ext (fs1 fs2 : dict) :
  NoDup (dict_keys fs1) -> NoDup (dict_keys fs2) ->
  (forall k, norm <$> dict_get k fs1 = norm <$> dict_get k fs2) ->
  norm (JObj fs1) = norm (JObj fs2).
Proof.
  intros H1 H2 Hget. rewrite !norm_obj. f_equal. apply sort_fields_unique.
  - by rewrite norm_fields_keys.
  - apply dict_perm_ext; rewrite ?norm_fields_keys; [done..|].
    intros k. by rewrite !dict_get_norm_fields.
Qed.

Lemma dict_get_unbool k fs : dict_get k (unbool_fields fs) = unbool <$> dict_get k fs.
Proof. induction fs as [|[k' x] fs IH]; simpl; [done|]. by destruct (String.eqb k k'). Qed.

Lemma py_eq_ext (fs1 fs2 : dict) :
  NoDup (dict_keys fs1) -> NoDup (dict_keys fs2) ->
  (forall k, option_Forall2 py_eq (dict_get k fs1) (dict_get k fs2)) ->
  py_eq (JObj fs1) (JObj fs2).
Proof.
  intros H1 H2 Hget. unfold py_eq. rewrite !unbool_obj. apply norm_ext.
  - by rewrite unbool_fields_keys.
  - by rewrite unbool_fields_keys.
  - intros k. rewrite !dict_get_unbool. destruct (Hget k) as [x y Hxy|]; [|done].
    simpl. f_equal. exact Hxy.
Qed.

Lemma dict_get_filter p k fs : dict_get k (dict_filter p fs) = if p k then dict_get k fs else None.
Proof.
  induction fs as [|[k' x] fs IH]; simpl; [by destruct (p k)|].
  destruct (p k') eqn:E; simpl; destruct (String.eqb_spec k k') as [->|Hne]; rewrite ?E in *; auto.
Qed.

Lemma dict_filter_keys p fs : dict_keys (dict_filter p fs) = List.filter p (dict_keys fs).
Proof.
  induction fs as [|[k x] fs IH]; simpl; [done|]. destruct (p k); simpl; by rewrite IH.
Qed.

Lemma dict_filter_NoDup p fs : NoDup (dict_keys fs) -> NoDup (dict_keys (dict_filter p fs)).
Proof.
  rewrite dict_filter_keys. induction 1 as [|k l Hk Hl IH]; simpl; [constructor|].
  destruct (p k); [|done]. constructor; [|done]. rewrite list_elem_of_In, filter_In, <-list_elem_of_In. naive_solver.
Qed.

Lemma sorted_fields_keys fs : dict_keys (sort_fields fs) ≡ₚ dict_keys fs.
Proof. unfold dict_keys. by rewrite sort_fields_perm. Qed.

Lemma dict_set_keys k v d :
  dict_keys (dict_set k v d) = if mem k (dict_keys d) then dict_keys d else dict_keys d ++ [k].
Proof.
  induction d as [|[k1 v1] d IH]; simpl; [done|].
  destruct (String.eqb_spec k k1) as [->|Hne]; simpl.
  - by rewrite (proj2 (mem_true _ _)) by by left.
  - rewrite IH. destruct (mem k (dict_keys d)) eqn:E.
    + rewrite (proj2 (mem_true _ _)); [done|]. right. by apply mem_true.
    + rewrite (proj2 (mem_false _ _)); [done|]. apply mem_false in E. by apply not_elem_of_cons.
Qed.

Lemma dict_set_NoDup k v d : NoDup (dict_keys d) -> NoDup (dict_keys (dict_set k v d)).
Proof.
  intros H. rewrite dict_set_keys. destruct (mem k (dict_keys d)) eqn:E; [done|].
  apply mem_false in E. apply NoDup_app. split; [done|]. split; [|apply NoDup_singleton].
  intros x Hx ->%list_elem_of_singleton. done.
Qed.

Lemma wf_json_obj fs : wf_json (JObj fs) <-> NoDup (dict_keys fs) /\ Forall (fun kv => wf_json (snd kv)) fs.
Proof. split; [intros H; inversion H; done|intros [? ?]; by constructor]. Qed.

Lemma wf_dict_set k v d : wf_json (JObj d) -> wf_json v -> wf_json (JObj (dict_set k v d)).
Proof.
  rewrite !wf_json_obj. intros [Hnd Hf] Hv. split; [by apply dict_set_NoDup|].
  clear Hnd. induction Hf as [|[k1 v1] d H1 Hf IH]; simpl; [by repeat constructor|].
  destruct (String.eqb k k1); by constructor.
Qed.

Lemma wf_dict_update d e :
  wf_json (JObj d) -> Forall (fun kv => wf_json (snd kv)) e -> wf_json (JObj (dict_update d e)).
Proof.
  intros Hd He. revert d Hd. unfold dict_update.
  induction He as [|[k v] e Hv He IH]; intros d Hd; simpl; [done|]. apply IH. by apply wf_dict_set.
Qed.

(** ** [str(value)] of a parsed JSON value

    A string is itself; anything else is its [repr]. *)

Definition repr_char (q c : ascii) (k : string) : string :=
  let n := code c in
  if (n =? 92)%Z then String "\" (String "\" k)
  else if bool_decide (c = q) then String "\" (String q k)
  else if (n =? 9)%Z then String "\" (String "t" k)
  else if (n =? 10)%Z then String "\" (String "n" k)
  else if (n =? 13)%Z then String "\" (String "r" k)
  else if ((n <? 32) || (127 <=? n) && (n <=? 160) || (n =? 173))%Z
       then String "\" (String "x" (String (hex_digit (n / 16)) (String (hex_digit (n mod 16)) k)))
  else String c k.

Definition repr_str (s : string) : string :=
  let has c := any_char (fun d => bool_decide (d = c)) s in
  let q := if has "'"%char && negb (has dq) then dq else "'"%char in
  String q ((fix go (s : string) : string :=
               match s with EmptyString => String q "" | String c s' => repr_char q c (go s') end) s).

Fixpoint repr (j : json) {struct j} : string :=
  match j with
  | JNull => "None"
  | JBool true => "True"
  | JBool false => "False"
  | JInt z => pretty z
  | JStr s => repr_str s
  | JArr l =>
      "[" +:+ (fix go (l : list json) (first : bool) : string :=
         match l with
         | [] => "]"
         | x :: l' => (if first then "" else ", ") +:+ repr x +:+ go l' false
         end) l true
  | JObj fs =>
      "{" +:+ (fix go (l : dict) (first : bool) : string :=
         match l with
         | [] => "}"
         | (kk, x) :: l' => (if first then "" else ", ") +:+ repr_str kk +:+ ": " +:+ repr x +:+ go l' false
         end) fs true
  end.

Definition py_str (j : json) : string := match j with JStr s => s | _ => repr j end.

Example py_str_ex :
  py_str (JArr [JStr "it's"; JObj [("a", JNull)]; JBool true])
  = "[" +:+ String dq ("it's" +:+ String dq ", {'a': None}, True]").
Proof. vm_compute. reflexivity. Qed.

(** [f"{a_list_of_strings}"] *)
Definition repr_list (l : list string) : string := repr (JArr (map JStr l)).

(** [d.get(key)]: an absent key reads as [None]. *)
Definition key_json (key : string) (fs : dict) : json := default JNull (dict_get key fs).

Lemma key_json_some k fs v : dict_get k fs = Some v -> key_json k fs = v.
Proof. unfold key_json. by intros ->. Qed.
