(* ===== verification/JsonParse.v ===== *)
(** * Reading text back: UTF-8 and [json.loads]

    [utf8_decode] is [bytes.decode("utf-8")] in its strict mode, into code points.
    [loads] is [json.loads] on texts whose characters are below 256 and whose
    numbers are integers; any other text is read as [None], as a malformed one.
    The fuel of the parser is twice the length of the text, plus two: every two
    nested calls consume a character.  The theorem is that parsing inverts
    [dumps] up to the order of keys. *)

From S2P Require Import Prelude Json.

(** ** UTF-8 *)

Definition byte_of (c : ascii) : N := N_of_ascii c.
Definition continuation (b : N) : bool := ((128 <=? b) && (b <=? 191))%N.

Fixpoint utf8_decode (s : string) : option (list N) :=
  match s with
  | EmptyString => Some []
  | String c0 r0 =>
      let b0 := byte_of c0 in
      if (b0 <? 128)%N then cons b0 <$> utf8_decode r0
      else match r0 with
      | EmptyString => None
      | String c1 r1 =>
          let b1 := byte_of c1 in
          if (194 <=? b0)%N && (b0 <=? 223)%N && continuation b1
          then cons ((b0 - 192) * 64 + (b1 - 128))%N <$> utf8_decode r1
          else match r1 with
          | EmptyString => None
          | String c2 r2 =>
              let b2 := byte_of c2 in
              if (224 <=? b0)%N && (b0 <=? 239)%N && continuation b1 && continuation b2
                 && negb ((b0 =? 224) && (b1 <? 160))%N && negb ((b0 =? 237) && (160 <=? b1))%N
              then cons ((b0 - 224) * 4096 + (b1 - 128) * 64 + (b2 - 128))%N <$> utf8_decode r2
              else match r2 with
              | EmptyString => None
              | String c3 r3 =>
                  let b3 := byte_of c3 in
                  if (240 <=? b0)%N && (b0 <=? 244)%N && continuation b1 && continuation b2 && continuation b3
                     && negb ((b0 =? 240) && (b1 <? 144))%N && negb ((b0 =? 244) && (144 <=? b1))%N
                  then cons ((b0 - 240) * 262144 + (b1 - 128) * 4096 + (b2 - 128) * 64 + (b3 - 128))%N
                         <$> utf8_decode r3
                  else None
              end
          end
      end
  end.

Definition chr (n : N) : ascii := ascii_of_N n.

Definition utf8_char (n : N) (k : string) : string :=
  if (n <? 128)%N then String (chr n) k
  else if (n <? 2048)%N then String (chr (192 + n / 64)) (String (chr (128 + n mod 64)) k)
  else if (n <? 65536)%N
  then String (chr (224 + n / 4096)) (String (chr (128 + n / 64 mod 64)) (String (chr (128 + n mod 64)) k))
  else String (chr (240 + n / 262144)) (String (chr (128 + n / 4096 mod 64))
         (String (chr (128 + n / 64 mod 64)) (String (chr (128 + n mod 64)) k))).

Definition utf8_encode (l : list N) : string := foldr utf8_char "" l.

(** The code points of a [string]. *)
Fixpoint codes (s : string) : list N :=
  match s with EmptyString => [] | String c s' => byte_of c :: codes s' end.

Fixpoint of_codes (l : list N) : option string :=
  match l with
  | [] => Some ""
  | n :: l' => if (n <? 256)%N then String (chr n) <$> of_codes l' else None
  end.

Lemma of_codes_codes s : of_codes (codes s) = Some s.
Proof.
  induction s as [|c s IH]; [done|]. cbn [codes of_codes].
  assert (H : (byte_of c <? 256)%N = true) by (by destruct c as [[] [] [] [] [] [] [] []]).
  rewrite H, IH. unfold chr, byte_of. by rewrite ascii_N_embedding.
Qed.

Lemma decode_encode_char c k :
  utf8_decode (encode (String c "") +:+ k) = cons (byte_of c) <$> utf8_decode k.
Proof. by destruct c as [[] [] [] [] [] [] [] []]. Qed.

Lemma encode_cons c s : encode (String c s) = encode (String c "") +:+ encode s.
Proof. cbn. by destruct (code c <? 128)%Z. Qed.

Lemma utf8_decode_encode s : utf8_decode (encode s) = Some (codes s).
Proof.
  induction s as [|c s IH]; [done|]. rewrite encode_cons, decode_encode_char, IH. done.
Qed.

(** ** [json.loads] *)

Definition is_ws (c : ascii) : bool := mem (String c "") [" "; String "009" ""; String "010" ""; String "013" ""].

Fixpoint skip_ws (s : string) : string :=
  match s with
  | EmptyString => EmptyString
  | String c r => if is_ws c then skip_ws r else s
  end.

Definition hex_value (c : ascii) : option N :=
  let n := byte_of c in
  if is_digit c then Some (n - 48)%N
  else if in_range 97 102 c then Some (n - 87)%N
  else if in_range 65 70 c then Some (n - 55)%N
  else None.

Definition simple_escape (c : ascii) : option ascii :=
  if bool_decide (c = dq) then Some dq
  else if bool_decide (c = "\"%char) then Some "\"%char
  else if bool_decide (c = "/"%char) then Some "/"%char
  else if bool_decide (c = "b"%char) then Some "008"%char
  else if bool_decide (c = "f"%char) then Some "012"%char
  else if bool_decide (c = "n"%char) then Some "010"%char
  else if bool_decide (c = "r"%char) then Some "013"%char
  else if bool_decide (c = "t"%char) then Some "009"%char
  else None.

Definition push (c : ascii) (o : option (string * string)) : option (string * string) :=
  match o with Some (s, r) => Some (String c s, r) | None => None end.

(** The rest of a string literal after its opening quote. *)
Fixpoint parse_str (s : string) : option (string * string) :=
  match s with
  | EmptyString => None
  | String c r =>
      if bool_decide (c = dq) then Some ("", r)
      else if bool_decide (c = "\"%char) then
        match r with
        | EmptyString => None
        | String d r1 =>
            if bool_decide (d = "u"%char) then
              match r1 with
              | String h1 (String h2 (String h3 (String h4 r2))) =>
                  match hex_value h1, hex_value h2, hex_value h3, hex_value h4 with
                  | Some 0%N, Some 0%N, Some x, Some y => push (chr (16 * x + y)) (parse_str r2)
                  | _, _, _, _ => None
                  end
              | _ => None
              end
            else match simple_escape d with
                 | Some e => push e (parse_str r1)
                 | None => None
                 end
        end
      else if (code c <? 32)%Z then None
      else push c (parse_str r)
  end.

Fixpoint digits (acc : Z) (s : string) : Z * string :=
  match s with
  | EmptyString => (acc, "")
  | String c r => if is_digit c then digits (acc * 10 + (code c - 48))%Z r else (acc, s)
  end.

(** A fraction or an exponent makes the number a float. *)
Definition integer_ends (r : string) : bool :=
  match r with EmptyString => true | String c _ => negb (one_of ".eE" c) end.

Definition natural (s : string) : option (Z * string) :=
  match s with
  | EmptyString => None
  | String c r =>
      if bool_decide (c = "0"%char) then (if integer_ends r then Some (0%Z, r) else None)
      else if is_digit c then
        let '(z, r') := digits 0 s in if integer_ends r' then Some (z, r') else None
      else None
  end.

Definition integer (s : string) : option (Z * string) :=
  match s with
  | String c r =>
      if bool_decide (c = "-"%char)
      then match natural r with Some (z, r') => Some ((- z)%Z, r') | None => None end
      else natural s
  | EmptyString => None
  end.

Definition literal (word : string) (v : json) (s : string) : option (json * string) :=
  if String.prefix word s
  then Some (v, String.substring (String.length word) (String.length s - String.length word) s)
  else None.

Fixpoint value (fuel : nat) (s : string) {struct fuel} : option (json * string) :=
  match fuel with
  | O => None
  | S f =>
      match s with
      | EmptyString => None
      | String c r =>
          if bool_decide (c = dq) then
            match parse_str r with Some (t, r') => Some (JStr t, r') | None => None end
          else if bool_decide (c = "["%char) then
            match skip_ws r with
            | String d r' => if bool_decide (d = "]"%char) then Some (JArr [], r') else elements f (String d r') []
            | EmptyString => None
            end
          else if bool_decide (c = "{"%char) then
            match skip_ws r with
            | String d r' => if bool_decide (d = "}"%char) then Some (JObj [], r') else fields f (String d r') []
            | EmptyString => None
            end
          else if bool_decide (c = "n"%char) then literal "null" JNull s
          else if bool_decide (c = "t"%char) then literal "true" (JBool true) s
          else if bool_decide (c = "f"%char) then literal "false" (JBool false) s
          else match integer s with Some (z, r') => Some (JInt z, r') | None => None end
      end
  end
with elements (fuel : nat) (s : string) (acc : list json) {struct fuel} : option (json * string) :=
  match fuel with
  | O => None
  | S f =>
      match value f s with
      | None => None
      | Some (v, r) =>
          match skip_ws r with
          | String c r' =>
              if bool_decide (c = "]"%char) then Some (JArr (acc ++ [v]), r')
              else if bool_decide (c = ","%char) then elements f (skip_ws r') (acc ++ [v])
              else None
          | EmptyString => None
          end
      end
  end
with fields (fuel : nat) (s : string) (acc : dict) {struct fuel} : option (json * string) :=
  match fuel with
  | O => None
  | S f =>
      match s with
      | String q r =>
          if negb (bool_decide (q = dq)) then None
          else match parse_str r with
          | None => None
          | Some (k, r) =>
              match skip_ws r with
              | String c r =>
                  if negb (bool_decide (c = ":"%char)) then None
                  else match value f (skip_ws r) with
                  | None => None
                  | Some (v, r) =>
                      match skip_ws r with
                      | String c r' =>
                          if bool_decide (c = "}"%char) then Some (JObj (dict_set k v acc), r')
                          else if bool_decide (c = ","%char) then fields f (skip_ws r') (dict_set k v acc)
                          else None
                      | EmptyString => None
                      end
                  end
              | EmptyString => None
              end
          end
      | EmptyString => None
      end
  end.

Definition loads (s : string) : option json :=
  match value (2 * String.length s + 2) (skip_ws s) with
  | Some (v, r) => if bool_decide (skip_ws r = "") then Some v else None
  | None => None
  end.

Example loads_ex : loads (" {" +:+ quote true "a" " : [1, -20 ,null], " +:+ quote true "b" ":{}} ")
  = Some (JObj [("a", JArr [JInt 1; JInt (-20); JNull]); ("b", JObj [])]).
Proof. vm_compute. reflexivity. Qed.

(** ** Parsing inverts printing *)

Lemma parse_esc_char a c k : parse_str (esc_char a c k) = push c (parse_str k).
Proof. destruct a, c as [[] [] [] [] [] [] [] []]; reflexivity. Qed.

Lemma parse_esc a s k : parse_str (esc a s k) = Some (s, k).
Proof. induction s as [|c s IH]; simpl; [done|]. by rewrite parse_esc_char, IH. Qed.

(** *** Integers *)

(** What may follow a value in a printed text: a separator, or a line feed. *)
Definition closing (c : ascii) : bool := one_of (String "010" ",]}") c.
Definition ends_value (k : string) : Prop :=
  match k with EmptyString => True | String c _ => closing c = true end.

Lemma closing_char c : closing c = true -> is_digit c = false /\ one_of ".eE" c = false.
Proof. destruct c as [[] [] [] [] [] [] [] []]; vm_compute; done. Qed.

Lemma ends_value_integer k : ends_value k -> integer_ends k = true.
Proof. destruct k as [|c k]; [done|]. intros [_ H]%closing_char. simpl. by rewrite H. Qed.

Lemma digits_stop acc k : ends_value k -> digits acc k = (acc, k).
Proof. destruct k as [|c k]; [done|]. intros [H _]%closing_char. simpl. by rewrite H. Qed.

Lemma digit_char d : (d < 10)%N ->
  is_digit (pretty_N_char d) = true /\ (code (pretty_N_char d) - 48)%Z = Z.of_N d
  /\ (d <> 0%N -> pretty_N_char d <> "0"%char).
Proof.
  intros Hd. assert (d = 0 \/ d = 1 \/ d = 2 \/ d = 3 \/ d = 4 \/ d = 5 \/ d = 6 \/ d = 7 \/ d = 8 \/ d = 9)%N
    as Hc by lia.
  by repeat (destruct Hc as [->|Hc]); [..|subst d].
Qed.

Lemma digits_pretty x s k : digits 0 (pretty_N_go x s +:+ k) = digits (Z.of_N x) (s +:+ k).
Proof.
  revert s. induction (N.lt_wf_0 x) as [x _ IH]; intros s.
  assert (x = 0 \/ 0 < x)%N as [->|Hx] by lia; [done|].
  rewrite pretty_N_go_step by done. rewrite IH by (by apply N.div_lt).
  rewrite str_cons_app. cbn [digits].
  destruct (digit_char (x `mod` 10)) as (-> & -> & _); [by apply N.mod_lt|].
  f_equal. rewrite (N.div_mod x 10) at 3 by done. lia.
Qed.

Lemma pretty_head x s : (0 < x)%N ->
  exists c r, pretty_N_go x s = String c r /\ is_digit c = true /\ c <> "0"%char.
Proof.
  revert s. induction (N.lt_wf_0 x) as [x _ IH]; intros s Hx. rewrite pretty_N_go_step by done.
  destruct (N.eq_0_gt_0_cases (x / 10)) as [E|Hp].
  - rewrite E. exists (pretty_N_char (x `mod` 10)), s.
    destruct (digit_char (x `mod` 10)) as (Hd & _ & H0); [by apply N.mod_lt|].
    split; [done|]. split; [done|]. apply H0.
    pose proof (N.div_mod x 10 ltac:(done)). lia.
  - apply IH; [by apply N.div_lt|done].
Qed.

Lemma natural_pretty (x : N) k : ends_value k -> natural (pretty x +:+ k) = Some (Z.of_N x, k).
Proof.
  intros Hk. unfold pretty, pretty_N. case_decide as Hx.
  - subst x. simpl. by rewrite ends_value_integer.
  - destruct (pretty_head x "") as (c & r & E & Hd & H0); [lia|].
    pose proof (digits_pretty x "" k) as Hs. rewrite str_nil_app, (digits_stop _ k Hk) in Hs.
    rewrite E, str_cons_app in Hs |- *. cbn [natural].
    rewrite bool_decide_false by done. by rewrite Hd, Hs, ends_value_integer.
Qed.

Lemma integer_pretty (z : Z) k : ends_value k -> integer (pretty z +:+ k) = Some (z, k).
Proof.
  intros Hk.
  assert (Hpos : forall x : N, integer (pretty x +:+ k) = natural (pretty x +:+ k)).
  { intros x. destruct (pretty_Z_nonempty (Z.of_N x)) as (c & r & E).
    assert (pretty x = String c r /\ c <> "-"%char) as [-> Hc].
    { unfold pretty, pretty_N in *. destruct x as [|p]; [by injection E as <- <-|].
      unfold pretty_Z, pretty, pretty_positive, pretty, pretty_N in E. cbn [Z.of_N] in E.
      case_decide; [done|]. split; [done|]. intros ->.
      destruct (pretty_head (N.pos p) "") as (c & r' & E' & Hd & _); [lia|].
      rewrite E in E'. injection E' as <- _. done. }
    rewrite str_cons_app. cbn [integer]. by rewrite bool_decide_false. }
  destruct z as [|p|p].
  - apply (natural_pretty 0) in Hk as Hn. rewrite <-(Hpos 0%N) in Hn. exact Hn.
  - change (integer (pretty (N.pos p) +:+ k) = Some (Z.pos p, k)).
    by rewrite Hpos, natural_pretty.
  - change (integer (String "-" (pretty (N.pos p)) +:+ k) = Some (Z.neg p, k)).
    rewrite str_cons_app. cbn [integer]. rewrite bool_decide_true by done.
    by rewrite natural_pretty.
Qed.

(** *** Values *)

Lemma kind_not_ws c r : kind_of (String c r) <> KOther -> is_ws c = false.
Proof. destruct c as [[] [] [] [] [] [] [] []]; vm_compute; congruence. Qed.

Lemma skip_ws_render a j k : skip_ws (render a j k) = render a j k.
Proof.
  destruct (render a j k) as [|c r] eqn:E; [done|]. simpl.
  rewrite (kind_not_ws c r); [done|]. rewrite <-E, render_kind. by destruct j as [|[]| | | |].
Qed.

(** How deep the parser goes on a value. *)
Fixpoint depth (j : json) : nat :=
  match j with
  | JArr l => S ((fix go (l : list json) : nat := match l with [] => 0 | x :: l' => S (depth x + go l') end) l)
  | JObj fs => S ((fix go (l : dict) : nat := match l with [] => 0 | (_, x) :: l' => S (depth x + go l') end) fs)
  | _ => 1
  end.

Definition depths (l : list json) : nat := foldr (fun x n => S (depth x + n)) 0 l.

Lemma depth_arr l : depth (JArr l) = S (depths l).
Proof. reflexivity. Qed.
Lemma depth_obj fs : depth (JObj fs) = S (depths (map snd fs)).
Proof. simpl. f_equal. induction fs as [|[k x] l IH]; simpl; [done|]. by rewrite IH. Qed.

Lemma esc_length a s k : String.length k < String.length (esc a s k).
Proof.
  induction s as [|c s IH]; simpl; [lia|]. etrans; [exact IH|].
  unfold esc_char. repeat case_match; simpl; lia.
Qed.

Lemma elems_length a k l first :
  Forall (fun j => forall k, depth j + String.length k <= String.length (render a j k)) l ->
  depths l + String.length k < String.length (elems a k l first) + (if first then 1 else 0).
Proof.
  intros Hl. revert first. induction Hl as [|x l Hx _ IH]; intros first; [destruct first; simpl; lia|].
  rewrite elems_cons. specialize (IH false). specialize (Hx (elems a k l false)). simpl depths.
  destruct first; simpl in *; lia.
Qed.

Lemma members_length a k fs first :
  Forall (fun kv => forall k, depth (snd kv) + String.length k <= String.length (render a (snd kv) k)) fs ->
  depths (map snd fs) + String.length k < String.length (members a k fs first).
Proof.
  intros Hl. revert first. induction Hl as [|[kk x] l Hx _ IH]; intros first; [destruct first; simpl; lia|].
  rewrite members_cons. specialize (IH false). specialize (Hx (members a k l false)). simpl in *.
  pose proof (esc_length a kk (String ":" (render a x (members a k l false)))) as He.
  destruct first; simpl in *; lia.
Qed.

Lemma depth_length a j k : depth j + String.length k <= String.length (render a j k).
Proof.
  revert k. induction j as [|b|z|s|l IH|fs IH] using json_rich_ind; intros k.
  - cbn [render depth]. rewrite str_length_app. simpl. lia.
  - destruct b; cbn [render depth]; rewrite str_length_app; simpl; lia.
  - cbn [render depth]. rewrite str_length_app.
    destruct (pretty_Z_nonempty z) as (c & r & ->). simpl. lia.
  - simpl. pose proof (esc_length a s k). lia.
  - rewrite depth_arr, render_arr. pose proof (elems_length a k l true IH). simpl in *. lia.
  - rewrite depth_obj, render_obj. pose proof (members_length a k fs true IH). simpl in *. lia.
Qed.

Lemma value_number f c r : num_char c = true ->
  value (S f) (String c r) = match integer (String c r) with Some (z, r') => Some (JInt z, r') | None => None end.
Proof.
  intros H. cbn [value].
  by rewrite !bool_decide_eq_false_2 by (intros ->; discriminate H).
Qed.

Lemma literal_app w v k : literal w v (w +:+ k) = Some (v, k).
Proof.
  assert (Hp : String.prefix w (w +:+ k) = true).
  { induction w as [|c w IH]; [by destruct k|]. rewrite str_cons_app. simpl. by case_match. }
  unfold literal. rewrite Hp, str_length_app. replace (_ - _) with (String.length k) by lia.
  assert (Hs : forall n, String.substring (String.length w) n (w +:+ k) = String.substring 0 n k).
  { intros n. clear Hp. induction w as [|c w IH]; [done|]. rewrite str_cons_app. simpl. apply IH. }
  by rewrite Hs, substring_all.
Qed.

Lemma dict_set_fresh k v d : k ∉ dict_keys d -> dict_set k v d = d ++ [(k, v)].
Proof.
  induction d as [|[k' v'] d IH]; simpl; [done|]. intros [Hne Hk]%not_elem_of_cons.
  rewrite (proj2 (String.eqb_neq k k') Hne). by rewrite IH.
Qed.

Lemma elems_ends_value a k l : ends_value (elems a k l false).
Proof. by destruct l. Qed.
Lemma members_ends_value a k l : ends_value (members a k l false).
Proof. by destruct l as [|[]]. Qed.

Section read_back.
Variable a : bool.
#[local] Arguments members : simpl never.
#[local] Arguments elems : simpl never.

Definition reads_back (j : json) : Prop :=
  forall fuel k, depth j <= fuel -> ends_value k -> value fuel (render a j k) = Some (j, k).

Lemma elements_read x l acc fuel k :
  reads_back x -> Forall reads_back l -> depths (x :: l) <= fuel ->
  elements fuel (render a x (elems a k l false)) acc = Some (JArr (acc ++ x :: l), k).
Proof.
  intros Hx Hl. revert x Hx acc fuel. induction Hl as [|y l Hy _ IH]; intros x Hx acc [|fuel] Hf;
    simpl in Hf; try lia; cbn [elements]; rewrite Hx by (lia || apply elems_ends_value).
  - done.
  - rewrite elems_cons. simpl. rewrite skip_ws_render, IH by (done || simpl; lia).
    by rewrite <-app_assoc.
Qed.

Lemma fields_read kk x fs acc fuel k :
  reads_back x -> Forall (fun kv => reads_back (snd kv)) fs ->
  NoDup (dict_keys acc ++ kk :: dict_keys fs) -> depths (x :: map snd fs) <= fuel ->
  fields fuel (quote a kk (String ":" (render a x (members a k fs false)))) acc
  = Some (JObj (acc ++ (kk, x) :: fs), k).
Proof.
  intros Hx Hl. revert kk x Hx acc fuel. induction Hl as [|[k2 y] l Hy _ IH]; intros kk x Hx acc [|fuel] Hnd Hf;
    simpl in Hf; try lia; unfold quote; cbn [fields]; rewrite bool_decide_true by done; cbn [negb];
    rewrite parse_esc; simpl; rewrite skip_ws_render, Hx by (lia || done || apply members_ends_value);
    (assert (Hk : kk ∉ dict_keys acc) by (apply NoDup_app in Hnd as (_ & Hd & _); intros Hin; by apply (Hd kk); [|left]));
    rewrite dict_set_fresh by done.
  - done.
  - rewrite members_cons. simpl. unfold quote in IH. rewrite IH; [by rewrite <-app_assoc|done| |simpl; lia].
    unfold dict_keys in *. rewrite map_app, <-app_assoc. exact Hnd.
Qed.

Lemma value_read j : wf_json j -> reads_back j.
Proof.
  induction j as [|b|z|s|l IH|fs IH] using json_rich_ind; intros Hw [|fuel] k Hf Hk;
    try (simpl in Hf; lia).
  - apply (literal_app "null").
  - destruct b; [apply (literal_app "true")|apply (literal_app "false")].
  - cbn [render]. destruct (pretty_Z_nonempty z) as (c & r & E).
    pose proof (pretty_Z_num z) as Hn. pose proof (integer_pretty z k Hk) as Hi.
    rewrite E, str_cons_app in *. simpl in Hn. split_bool. by rewrite value_number, Hi.
  - cbn. by rewrite parse_esc.
  - inversion Hw as [| | | |? Hl|]; subst. rewrite depth_arr in Hf. rewrite render_arr.
    destruct l as [|x l]; [done|]. rewrite elems_cons. cbn [value].
    rewrite !bool_decide_false by done. rewrite skip_ws_render.
    inversion IH; inversion Hl; subst.
    destruct (render a x (elems a k l false)) as [|c r] eqn:E.
    { apply (f_equal kind_of) in E. rewrite render_kind in E. by destruct x as [|[]| | | |]. }
    rewrite bool_decide_true by done. rewrite bool_decide_false by (by eapply render_not_end).
    rewrite <-E. apply (elements_read x l []); [auto| |simpl in *; lia].
    rewrite !Forall_forall in *. auto.
  - apply wf_json_obj in Hw as [Hnd Hl]. rewrite depth_obj in Hf. rewrite render_obj.
    destruct fs as [|[kk x] fs]; [done|]. rewrite members_cons. cbn [value].
    rewrite !bool_decide_false by done. inversion IH; inversion Hl; subst.
    rewrite bool_decide_true by done.
    apply (fields_read kk x fs []); [by apply H1| |done|simpl in *; lia].
    rewrite !Forall_forall in *. auto.
Qed.
End read_back.

(** What follows a printed value is untouched. *)
Lemma esc_app a s k k' : esc a s k +:+ k' = esc a s (k +:+ k').
Proof.
  assert (Hc : forall c k, esc_char a c k +:+ k' = esc_char a c (k +:+ k'))
    by (intros c k0; unfold esc_char; by repeat case_match).
  induction s as [|c s IH]; simpl; [done|]. by rewrite Hc, IH.
Qed.

Lemma quote_app a s k k' : quote a s k +:+ k' = quote a s (k +:+ k').
Proof. unfold quote. by rewrite str_cons_app, esc_app. Qed.

Lemma render_app a j k k' : render a j k +:+ k' = render a j (k +:+ k').
Proof.
  revert k. induction j as [|b|z|s|l IH|fs IH] using json_rich_ind; intros k;
    try (cbn [render]; by rewrite ?str_app_assoc).
  - destruct b; cbn [render]; by rewrite str_app_assoc.
  - apply quote_app.
  - rewrite !render_arr, str_cons_app. f_equal. generalize true.
    induction IH as [|x l Hx _ IHl]; intros first; [done|]. rewrite !elems_cons.
    destruct first; rewrite ?str_cons_app, Hx, IHl; done.
  - rewrite !render_obj, str_cons_app. f_equal. generalize true.
    induction IH as [|[kk x] l Hx _ IHl]; intros first; [done|]. rewrite !members_cons. simpl in Hx.
    destruct first; cbn zeta iota; rewrite ?str_cons_app, quote_app, str_cons_app, Hx, IHl; done.
Qed.

(** A text written with a final line feed or without one. *)
Lemma loads_dumps a j k : wf_json j -> ends_value k -> skip_ws k = "" ->
  loads (dumps a j +:+ k) = Some (norm j).
Proof.
  intros Hw Hk Hs. unfold loads, dumps. rewrite render_app, str_nil_app, skip_ws_render.
  rewrite (value_read a (norm j) (norm_wf _ Hw)); [by rewrite Hs, bool_decide_eq_true_2| |done].
  pose proof (depth_length a (norm j) k). lia.
Qed.
