(* ===== verification/Sha256.v ===== *)
(** * SHA-256, as [hashlib.sha256(data).hexdigest()] computes it

    An executable SHA-256 on byte strings, so that digests in the models are the
    program's digests and witnesses can be evaluated.  Nothing is assumed of the
    function beyond what is computed; where a property needs that distinct
    documents get distinct digests it says so of the documents at hand
    ([collision_free]). *)

From S2P Require Import Prelude Json.

Local Open Scope N_scope.

Definition w32 (x : N) : N := N.land x 0xffffffff.
Definition add32 (x y : N) : N := w32 (x + y).
Definition rotr (n x : N) : N := N.lor (N.shiftr x n) (w32 (N.shiftl x (32 - n))).

Definition ch (x y z : N) : N := N.lxor (N.land x y) (N.land (N.lxor x 0xffffffff) z).
Definition maj (x y z : N) : N := N.lxor (N.lxor (N.land x y) (N.land x z)) (N.land y z).
Definition big_sigma0 (x : N) : N := N.lxor (N.lxor (rotr 2 x) (rotr 13 x)) (rotr 22 x).
Definition big_sigma1 (x : N) : N := N.lxor (N.lxor (rotr 6 x) (rotr 11 x)) (rotr 25 x).
Definition small_sigma0 (x : N) : N := N.lxor (N.lxor (rotr 7 x) (rotr 18 x)) (N.shiftr x 3).
Definition small_sigma1 (x : N) : N := N.lxor (N.lxor (rotr 17 x) (rotr 19 x)) (N.shiftr x 10).

(** The first 32 bits of the fractional part of the [r]-th root of [p]. *)
Fixpoint root_bits (fuel : nat) (pow : N) (n lo hi : N) : N :=
  match fuel with
  | O => lo
  | S f =>
      let mid := (lo + hi) / 2 in
      if mid ^ pow <=? n then root_bits f pow n mid hi else root_bits f pow n lo mid
  end.

Definition primes64 : list N :=
  [2; 3; 5; 7; 11; 13; 17; 19; 23; 29; 31; 37; 41; 43; 47; 53; 59; 61; 67; 71; 73; 79; 83;
   89; 97; 101; 103; 107; 109; 113; 127; 131; 137; 139; 149; 151; 157; 163; 167; 173; 179;
   181; 191; 193; 197; 199; 211; 223; 227; 229; 233; 239; 241; 251; 257; 263; 269; 271; 277;
   281; 283; 293; 307; 311].

Definition round_constants : list N :=
  Eval vm_compute in
    map (fun p => w32 (root_bits 40 3 (p * 2 ^ 96) 0 (2 ^ 36))) primes64.

Definition initial_hash : list N :=
  Eval vm_compute in
    map (fun p => w32 (root_bits 40 2 (p * 2 ^ 64) 0 (2 ^ 37))) (take 8 primes64).

(** Message schedule: the list holds the words computed so far, newest first. *)
Fixpoint schedule (n : nat) (ws : list N) : list N :=
  match n with
  | O => ws
  | S n' =>
      let t i := nth i ws 0 in
      schedule n' (add32 (add32 (small_sigma1 (t 1%nat)) (t 6%nat))
                         (add32 (small_sigma0 (t 14%nat)) (t 15%nat)) :: ws)
  end.

Definition round (st : list N) (kw : N * N) : list N :=
  match st with
  | [a; b; c; d; e; f; g; h] =>
      let t1 := add32 (add32 h (big_sigma1 e)) (add32 (ch e f g) (add32 (fst kw) (snd kw))) in
      let t2 := add32 (big_sigma0 a) (maj a b c) in
      [add32 t1 t2; a; b; c; add32 d t1; e; f; g]
  | _ => st
  end.

Definition compress (st block : list N) : list N :=
  let ws := rev (schedule 48 (rev block)) in
  zip_with add32 st (foldl round st (zip round_constants ws)).

Fixpoint bytes_of (s : string) : list N :=
  match s with
  | EmptyString => []
  | String c s' => N_of_ascii c :: bytes_of s'
  end.

(** [n] as [k] big-endian bytes. *)
Fixpoint be_bytes (k : nat) (n : N) : list N :=
  match k with
  | O => []
  | S k' => N.land (N.shiftr n (8 * N.of_nat k')) 255 :: be_bytes k' n
  end.

Definition pad (l : list N) : list N :=
  let len := N.of_nat (length l) in
  let zeros := N.to_nat ((119 - len mod 64) mod 64) in
  l ++ 128 :: repeat 0 zeros ++ be_bytes 8 (8 * len).

Fixpoint words_of (l : list N) : list N :=
  match l with
  | a :: b :: c :: d :: l' =>
      N.lor (N.shiftl a 24) (N.lor (N.shiftl b 16) (N.lor (N.shiftl c 8) d)) :: words_of l'
  | _ => []
  end.

Fixpoint blocks (fuel : nat) (st ws : list N) : list N :=
  match fuel, ws with
  | S f, _ :: _ => blocks f (compress st (take 16 ws)) (drop 16 ws)
  | _, _ => st
  end.

Definition nibble (n : N) : ascii := hex_digit (Z.of_N (N.land n 15)).

(** A 32-bit word as eight hexadecimal digits, before [k]. *)
Definition hex_word (n : N) (k : string) : string :=
  foldr (fun i acc => String (nibble (N.shiftr n (4 * i))) acc) k [7; 6; 5; 4; 3; 2; 1; 0].

(** [hashlib.sha256(data).hexdigest()] *)
Definition sha256_hex (data : string) : string :=
  let ws := words_of (pad (bytes_of data)) in
  foldr hex_word "" (blocks (length ws) initial_hash ws).

Example sha256_abc :
  sha256_hex "abc" = "ba7816bf8f01cfea414140de5dae2223b00361a396177a9cb410ff61f20015ad".
Proof. vm_compute. reflexivity. Qed.

Example sha256_two_blocks :
  sha256_hex "abcdbcdecdefdefgefghfghighijhijkijkljklmklmnlmnomnopnopq"
  = "248d6a61d20638b8e5c026930c3e6039a33ce45964ff2167f6ecedd419db06c1".
Proof. vm_compute. reflexivity. Qed.

Example sha256_empty :
  sha256_hex "" = "e3b0c44298fc1c149afbf4c8996fb92427ae41e4649b934ca495991b7852b855".
Proof. vm_compute. reflexivity. Qed.

(** ** Shape of a digest *)

Lemma length_round st kw : length (round st kw) = length st.
Proof. destruct st as [|? [|? [|? [|? [|? [|? [|? [|? [|]]]]]]]]]; reflexivity. Qed.

Lemma length_rounds kws : forall st, length (foldl round st kws) = length st.
Proof. induction kws as [|kw kws IH]; intros st; simpl; [done|]. by rewrite IH, length_round. Qed.

Lemma length_compress st block : length (compress st block) = length st.
Proof. unfold compress. rewrite length_zip_with, length_rounds. lia. Qed.

Lemma length_blocks fuel : forall st ws, length (blocks fuel st ws) = length st.
Proof.
  induction fuel as [|f IH]; intros st [|w ws]; simpl; try done.
  by rewrite IH, length_compress.
Qed.

Lemma nibble_hex n : is_hex (nibble n) = true.
Proof.
  unfold nibble. assert (Hlt : N.land n 15 < 16).
  { change 15 with (N.ones 4). rewrite N.land_ones. apply N.mod_lt. done. }
  revert Hlt. generalize (N.land n 15). intros m Hlt.
  assert (Hm : m = 0 \/ m = 1 \/ m = 2 \/ m = 3 \/ m = 4 \/ m = 5 \/ m = 6 \/ m = 7 \/ m = 8
    \/ m = 9 \/ m = 10 \/ m = 11 \/ m = 12 \/ m = 13 \/ m = 14 \/ m = 15) by lia.
  repeat destruct Hm as [->|Hm]; try reflexivity. subst m. reflexivity.
Qed.

Lemma hex_word_hex n k : all_chars is_hex (hex_word n k) = all_chars is_hex k.
Proof.
  unfold hex_word. generalize [7; 6; 5; 4; 3; 2; 1; 0]. intros l.
  induction l as [|i l IH]; [reflexivity|].
  cbn [foldr all_chars]. rewrite nibble_hex. exact IH.
Qed.

Lemma hex_word_length n k : String.length (hex_word n k) = (8 + String.length k)%nat.
Proof. reflexivity. Qed.

Lemma sha256_hex_hex data : all_chars is_hex (sha256_hex data) = true.
Proof.
  unfold sha256_hex. induction (blocks _ _ _) as [|x l IH]; [done|].
  cbn [foldr]. rewrite hex_word_hex. exact IH.
Qed.

Lemma sha256_hex_length data : String.length (sha256_hex data) = 64%nat.
Proof.
  unfold sha256_hex.
  assert (H : forall l, String.length (foldr hex_word "" l) = (8 * length l)%nat).
  { induction l as [|x l IH]; [done|]. cbn [foldr]. rewrite hex_word_length, IH. cbn [length]. lia. }
  rewrite H, length_blocks. reflexivity.
Qed.

(** No two of these documents collide. *)
Definition collision_free (docs : list string) : Prop :=
  forall d1 d2, d1 ∈ docs -> d2 ∈ docs -> sha256_hex d1 = sha256_hex d2 -> d1 = d2.

Lemma collision_free_same d : collision_free [d; d].
Proof.
  intros d1 d2 H1 H2 _. rewrite !elem_of_cons in H1, H2.
  destruct H1 as [->|[->|[]%not_elem_of_nil]], H2 as [->|[->|[]%not_elem_of_nil]]; done.
Qed.

Lemma collision_free_dups docs : collision_free (remove_dups docs) -> collision_free docs.
Proof. intros H d1 d2 H1 H2. apply H; by rewrite elem_of_remove_dups. Qed.

Lemma collision_free_compute docs :
  NoDup (map sha256_hex docs) -> collision_free docs.
Proof.
  intros Hnd d1 d2 H1 H2 Heq.
  apply list_elem_of_lookup in H1 as [i Hi], H2 as [j Hj].
  assert (i = j) as ->; [|congruence].
  eapply (NoDup_lookup _ _ _ (sha256_hex d1) Hnd).
  - by rewrite list_lookup_fmap, Hi.
  - by rewrite list_lookup_fmap, Hj, Heq.
Qed.
