(* ===== verification/HashChain.v ===== *)
(** * Hash-chained logs

    Both the audit log and the continuation workflow keep an append-only list of
    events, each holding its position, the hash of its predecessor and the
    SHA-256 of a canonical JSON payload that includes both.  [ChainEvent] is the
    interface such an event offers; the theorems about verification and tampering
    are proved once against it. *)

From S2P Require Import Prelude Json Sha256.

Class ChainEvent (E : Type) := {
  ce_sequence : E -> json;
  ce_previous : E -> json;
  ce_hash : E -> json;
  ce_payload : E -> dict;
}.

(** The hashed payload determines the predecessor's hash. *)
Class ChainEventLaws (E : Type) `{ChainEvent E} := {
  ce_payload_previous : forall a b,
    norm (JObj (ce_payload a)) = norm (JObj (ce_payload b)) ->
    norm (ce_previous a) = norm (ce_previous b);
}.

Section chain.
Context {E : Type} `{ChainEvent E}.

(** The text that is hashed: [json.dumps(payload, sort_keys=True,
    separators=(",", ":")).encode()]. *)
Definition chain_document (e : E) : string := encode (dumps true (JObj (ce_payload e))).

Definition expected_hash (e : E) : json :=
  JStr ("sha256:" +:+ sha256_hex (chain_document e)).

(** The verification loop of both components. *)
Fixpoint verify_from (index : Z) (previous : json) (events : list E) : bool :=
  match events with
  | [] => true
  | e :: rest =>
      if negb (py_eqb (ce_sequence e) (JInt index))
         || negb (py_eqb (ce_previous e) previous)
         || negb (py_eqb (ce_hash e) (expected_hash e))
      then false
      else verify_from (index + 1) (ce_hash e) rest
  end.

(** The hash a new event is chained to. *)
Definition head_hash (previous : json) (events : list E) : json :=
  match last events with Some e => ce_hash e | None => previous end.

Definition link_ok (index : Z) (previous : json) (e : E) : bool :=
  py_eqb (ce_sequence e) (JInt index) && py_eqb (ce_previous e) previous
  && py_eqb (ce_hash e) (expected_hash e).

Lemma verify_from_cons i p e l :
  verify_from i p (e :: l) = link_ok i p e && verify_from (i + 1) (ce_hash e) l.
Proof.
  simpl. unfold link_ok.
  destruct (py_eqb (ce_sequence e) _), (py_eqb (ce_previous e) _), (py_eqb (ce_hash e) _);
    reflexivity.
Qed.

Lemma head_hash_cons p e l : head_hash p (e :: l) = head_hash (ce_hash e) l.
Proof. unfold head_hash. destruct l as [|e' l]; [done|]. rewrite last_cons_cons. 
  destruct (last (e' :: l)) eqn:E1; [done|]. by apply last_None in E1. Qed.

Lemma verify_from_app i p l1 l2 :
  verify_from i p (l1 ++ l2)
  = verify_from i p l1 && verify_from (i + Z.of_nat (length l1)) (head_hash p l1) l2.
Proof.
  revert i p. induction l1 as [|e l1 IH]; intros i p.
  - simpl. unfold head_hash. simpl. by rewrite Z.add_0_r.
  - rewrite <-app_comm_cons, !verify_from_cons, IH, head_hash_cons.
    rewrite andb_assoc. simpl length.
    by replace (i + Z.of_nat (S (length l1)))%Z with (i + 1 + Z.of_nat (length l1))%Z by lia.
Qed.

Lemma verify_from_snoc i p l e :
  verify_from i p (l ++ [e])
  = verify_from i p l && link_ok (i + Z.of_nat (length l)) (head_hash p l) e.
Proof. rewrite verify_from_app, verify_from_cons. simpl. by rewrite andb_true_r. Qed.

Lemma link_ok_hash i p e :
  link_ok i p e = true -> ce_hash e = expected_hash e.
Proof.
  unfold link_ok. intros. split_bool.
  match goal with H : py_eqb (ce_hash e) _ = true |- _ => 
    unfold py_eqb in H; apply bool_decide_eq_true in H; symmetry in H;
    unfold expected_hash in H; apply py_eq_str_l in H; exact H end.
Qed.

Lemma link_ok_previous i s e :
  link_ok i (JStr s) e = true -> ce_previous e = JStr s.
Proof.
  unfold link_ok. intros. split_bool.
  match goal with H : py_eqb (ce_previous e) _ = true |- _ => 
    unfold py_eqb in H; apply bool_decide_eq_true in H; symmetry in H;
    apply py_eq_str_l in H; exact H end.
Qed.

(** An event built the way the components build it extends a verified chain. *)
Lemma verify_append i p l e :
  verify_from i p l = true ->
  ce_sequence e = JInt (i + Z.of_nat (length l)) ->
  ce_previous e = head_hash p l ->
  ce_hash e = expected_hash e ->
  verify_from i p (l ++ [e]) = true.
Proof.
  intros Hv Hs Hp Hh. rewrite verify_from_snoc, Hv. unfold link_ok.
  by rewrite Hs, Hp, <-Hh, !py_eqb_refl.
Qed.

(** Every prefix of a verified chain is verified. *)
Lemma verify_prefix i p l1 l2 :
  verify_from i p (l1 ++ l2) = true -> verify_from i p l1 = true.
Proof. rewrite verify_from_app. intros. by split_bool. Qed.

Lemma head_hash_str i s l :
  verify_from i (JStr s) l = true -> exists t, head_hash (JStr s) l = JStr t.
Proof.
  induction l as [|e l _] using rev_ind; [by eexists|].
  rewrite verify_from_snoc. intros. split_bool. unfold head_hash.
  rewrite last_snoc. eexists. by eapply link_ok_hash.
Qed.

Context `{!ChainEventLaws E}.

(** Two events of two logs record the same thing. *)
Definition same_record (a b : E) : Prop :=
  norm (JObj (ce_payload a)) = norm (JObj (ce_payload b)) /\ ce_hash a = ce_hash b.

(** Tamper evidence: the head hash of a verified log, with its length, fixes
    every record in it. *)
Lemma head_fixes_records i s l1 l2 :
  verify_from i (JStr s) l1 = true ->
  verify_from i (JStr s) l2 = true ->
  length l1 = length l2 ->
  head_hash (JStr s) l1 = head_hash (JStr s) l2 ->
  collision_free (map chain_document l1 ++ map chain_document l2) ->
  Forall2 same_record l1 l2.
Proof.
  revert l2. induction l1 as [|a l1 IH] using rev_ind; intros l2 H1 H2 Hlen Hhead Hcf.
  - destruct l2; [constructor | simpl in Hlen; lia].
  - destruct l2 as [|b l2 _] using rev_ind; [rewrite length_app in Hlen; simpl in Hlen; lia|].
    rewrite !length_app in Hlen. simpl in Hlen.
    assert (Hl : length l1 = length l2) by lia.
    rewrite verify_from_snoc in H1, H2. split_bool.
    match goal with
    | Ha : link_ok _ _ a = true, Hb : link_ok _ _ b = true,
      Hv1 : verify_from _ _ l1 = true, Hv2 : verify_from _ _ l2 = true |- _ =>
        pose proof (link_ok_hash _ _ _ Ha) as Hha; pose proof (link_ok_hash _ _ _ Hb) as Hhb;
        destruct (head_hash_str _ _ _ Hv1) as [t1 Ht1];
        destruct (head_hash_str _ _ _ Hv2) as [t2 Ht2];
        rewrite Ht1 in Ha; rewrite Ht2 in Hb;
        apply link_ok_previous in Ha; apply link_ok_previous in Hb;
        rename Ha into Hpa, Hb into Hpb, Hv1 into Hv1, Hv2 into Hv2
    end.
    unfold head_hash in Hhead. rewrite !last_snoc in Hhead.
    assert (Hp : norm (JObj (ce_payload a)) = norm (JObj (ce_payload b))).
    { apply (dumps_inj true), encode_inj. apply Hcf.
      - rewrite map_app. set_solver.
      - rewrite !map_app. set_solver.
      - rewrite Hha, Hhb in Hhead. injection Hhead as Hhead. exact Hhead. }
    pose proof (ce_payload_previous a b Hp) as Hprev. rewrite Hpa, Hpb in Hprev.
    injection Hprev as ->.
    apply Forall2_app; [|by repeat constructor].
    apply IH; try done; [congruence|].
    intros d1 d2 Hd1 Hd2. apply Hcf; rewrite !map_app; set_solver.
Qed.
End chain.
