(* ===== verification/AuditLog.v ===== *)
(** * The append-only audit log (packages/audit-log)

    [AuditLog] in audit_log/log.py keeps its events in memory and, when it has a
    path, in a file with one JSON object per line that is re-read and verified
    under an exclusive lock before each append.  The model's state is the file
    and the in-memory list of one [AuditLog] object; a line of the file is the
    value [json.loads] gives for it, or [None] for a line that does not parse. *)

From S2P Require Import Prelude Json Sha256 HashChain.


Inductive error :=
| ValueError (message : string)
| KeyError (key : string)
| TypeError
| AttributeError
| JSONDecodeError.

(** The decoder does not check types, so the fields are JSON values. *)
Record audit_event := AuditEvent {
  sequence : json;
  event_type : json;
  actor : json;
  subject : json;
  timestamp : json;
  data : json;
  previous_hash : json;
  hash : json;
}.

Definition to_dict (e : audit_event) : dict :=
  [("sequence", sequence e); ("eventType", event_type e); ("actor", actor e);
   ("subject", subject e); ("timestamp", timestamp e); ("data", data e);
   ("previousHash", previous_hash e); ("hash", hash e)].

Inductive log_file :=
| FAbsent
| FSymlink
| FLines (lines : list (option json)).

Record audit_log := MkLog {
  has_path : bool;
  lock_unsafe : bool;   (** the lock path or the parent directory is a symlink *)
  file : log_file;
  events : list audit_event;
}.

Abbreviation op := (M audit_log error).

Definition set_events (l : audit_log) (es : list audit_event) : audit_log :=
  MkLog (has_path l) (lock_unsafe l) (file l) es.

Definition set_file (l : audit_log) (f : log_file) : audit_log :=
  MkLog (has_path l) (lock_unsafe l) f (events l).

(** The hashed fields; [_append_current] and [verify] build the same object. *)
Definition payload (e : audit_event) : dict :=
  [("sequence", sequence e); ("eventType", event_type e); ("actor", actor e);
   ("subject", subject e); ("timestamp", timestamp e); ("data", data e);
   ("previousHash", previous_hash e)].

#[export] Instance audit_chain : ChainEvent audit_event := {|
  ce_sequence := sequence;
  ce_previous := previous_hash;
  ce_hash := hash;
  ce_payload := payload;
|}.

(** [json.dumps(payload, sort_keys=True, separators=(",", ":")).encode()] *)
Definition digest (p : dict) : string := sha256_hex (encode (dumps true (JObj p))).

Fixpoint verify_loop (index : Z) (previous : json) (es : list audit_event) : bool :=
  match es with
  | [] => true
  | event :: rest =>
      let expected := JStr ("sha256:" +:+ digest (payload event)) in
      if negb (py_eqb (sequence event) (JInt index))
         || negb (py_eqb (previous_hash event) previous)
         || negb (py_eqb (hash event) expected)
      then false
      else verify_loop (index + 1) (hash event) rest
  end.

Definition verify_events (es : list audit_event) : bool := verify_loop 1 (JStr "genesis") es.
Definition verify (l : audit_log) : bool := verify_events (events l).

(** [data[key]] on a parsed line. *)
Definition index_key (d : json) (k : string) : outcome error json :=
  match d with
  | JObj fs => match dict_get k fs with Some v => Ok v | None => Raise (KeyError k) end
  | _ => Raise TypeError
  end.

Definition decode (line : option json) : outcome error audit_event :=
  match line with
  | None => Raise JSONDecodeError
  | Some d =>
      let? sequence := index_key d "sequence" in
      let? event_type := index_key d "eventType" in
      let? actor := index_key d "actor" in
      let? subject := index_key d "subject" in
      let? timestamp := index_key d "timestamp" in
      let? data := index_key d "data" in
      let? previous_hash := index_key d "previousHash" in
      let? hash := index_key d "hash" in
      Ok (AuditEvent sequence event_type actor subject timestamp data previous_hash hash)
  end.

Fixpoint decode_all (lines : list (option json)) : outcome error (list audit_event) :=
  match lines with
  | [] => Ok []
  | line :: rest =>
      let? e := decode line in
      let? es := decode_all rest in
      Ok (e :: es)
  end.

Definition load : op unit :=
  let* l := get in
  if negb (has_path l) || (match file l with FAbsent => true | _ => false end)
  then modify (fun l => set_events l [])
  else
    match file l with
    | FSymlink => raise (ValueError "audit log path may not be a symlink")
    | FLines lines =>
        let* es := lift (decode_all lines) in
        modify (fun l => set_events l es) >>*
        let* l := get in
        raise_if (negb (verify l)) (ValueError "audit log integrity check failed")
    | FAbsent => ret tt
    end.

(** [AuditLog(path)] *)
Definition open_log (path : bool) (lock : bool) (f : log_file) : audit_log * outcome error unit :=
  let fresh := MkLog path lock f [] in
  if path && ((match f with FSymlink => true | _ => false end) || lock)
  then (fresh, Raise (ValueError "audit log paths may not be symlinks"))
  else if path && (match f with FAbsent => false | _ => true end)
  then load fresh
  else (fresh, Ok tt).

Definition with_write_lock {A} (body : op A) : op A :=
  let* l := get in
  if negb (has_path l) then body
  else raise_if (lock_unsafe l) (ValueError "audit log paths may not be symlinks") >>* body.

Definition append_line (line : json) (f : log_file) : log_file :=
  match f with
  | FAbsent => FLines [Some line]
  | FLines lines => FLines (lines ++ [Some line])
  | FSymlink => FSymlink
  end.

Definition append_current (event_type actor subject timestamp : string) (data : option dict)
    : op audit_event :=
  let* l := get in
  let previous := match last (events l) with Some e => hash e | None => JStr "genesis" end in
  let sequence := JInt (Z.of_nat (length (events l)) + 1) in
  let data := JObj (match data with Some d => d | None => [] end) in
  let payload :=
    [("sequence", sequence); ("eventType", JStr event_type); ("actor", JStr actor);
     ("subject", JStr subject); ("timestamp", JStr timestamp); ("data", data);
     ("previousHash", previous)] in
  let event := AuditEvent sequence (JStr event_type) (JStr actor) (JStr subject)
                 (JStr timestamp) data previous (JStr ("sha256:" +:+ digest payload)) in
  modify (fun l => set_events l (events l ++ [event])) >>*
  modify (fun l => if has_path l
                   then set_file l (append_line (norm (JObj (to_dict event))) (file l))
                   else l) >>*
  ret event.

Definition required_text (event_type actor subject timestamp : string) : bool :=
  forallb nonblank [event_type; actor; subject; timestamp].

Definition append (event_type actor subject timestamp : string) (data : option dict)
    : op audit_event :=
  raise_if (negb (required_text event_type actor subject timestamp))
    (ValueError "event_type, actor, subject, and timestamp are required") >>*
  with_write_lock
    (let* l := get in
     (if has_path l then load else ret tt) >>*
     append_current event_type actor subject timestamp data).

(** [event.data.get(key) == data[key]] for all keys, left to right. *)
Fixpoint correlates (d : json) (wanted : dict) (keys : list string) : outcome error bool :=
  match keys with
  | [] => Ok true
  | k :: rest =>
      match d with
      | JObj fs =>
          if py_eqb (default JNull (dict_get k fs)) (default JNull (dict_get k wanted))
          then correlates d wanted rest
          else Ok false
      | _ => Raise AttributeError
      end
  end.

Fixpoint find_correlated (event_type : string) (wanted : dict) (keys : list string)
    (es : list audit_event) : outcome error (option audit_event) :=
  match es with
  | [] => Ok None
  | e :: rest =>
      if py_eqb (AuditLog.event_type e) (JStr event_type) then
        let? hit := correlates (AuditLog.data e) wanted keys in
        if hit then Ok (Some e) else find_correlated event_type wanted keys rest
      else find_correlated event_type wanted keys rest
  end.

Definition append_once (event_type actor subject timestamp : string) (data : dict)
    (correlation_keys : list string) : op (audit_event * bool) :=
  raise_if (negb (required_text event_type actor subject timestamp))
    (ValueError "event_type, actor, subject, and timestamp are required") >>*
  raise_if (bool_decide (correlation_keys = [])
            || negb (forallb (fun k => dict_has k data) correlation_keys))
    (ValueError "correlation_keys must name fields present in data") >>*
  with_write_lock
    (let* l := get in
     (if has_path l then load else ret tt) >>*
     let* es := gets events in
     let* found := lift (find_correlated event_type data correlation_keys es) in
     match found with
     | Some e => ret (e, true)
     | None =>
         let* e := append_current event_type actor subject timestamp (Some data) in
         ret (e, false)
     end).

(** The [events] property. *)
Definition read_events : op (list audit_event) :=
  let* l := get in
  (if has_path l then load else ret tt) >>*
  gets events.

(** ** What the file holds *)

Definition file_events (f : log_file) : option (list audit_event) :=
  match f with
  | FAbsent => Some []
  | FSymlink => None
  | FLines lines => match decode_all lines with Ok es => Some es | Raise _ => None end
  end.

(** A file that loads and verifies to [es]. *)
Definition holds (f : log_file) (es : list audit_event) : Prop :=
  file_events f = Some es /\ verify_events es = true.

(** An event as it comes back from the file. *)
Definition norm_event (e : audit_event) : audit_event :=
  AuditEvent (norm (sequence e)) (norm (event_type e)) (norm (actor e)) (norm (subject e))
    (norm (timestamp e)) (norm (data e)) (norm (previous_hash e)) (norm (hash e)).

Lemma verify_events_chain es : verify_events es = verify_from 1 (JStr "genesis") es.
Proof. reflexivity. Qed.

Lemma decode_to_dict e : decode (Some (norm (JObj (to_dict e)))) = Ok (norm_event e).
Proof. rewrite norm_obj. reflexivity. Qed.

Lemma decode_all_app ls1 ls2 :
  decode_all (ls1 ++ ls2)
  = let? es1 := decode_all ls1 in let? es2 := decode_all ls2 in Ok (es1 ++ es2).
Proof.
  induction ls1 as [|l ls1 IH]; simpl.
  - by destruct (decode_all ls2).
  - destruct (decode l); simpl; [|done]. rewrite IH.
    destruct (decode_all ls1); simpl; [|done]. by destruct (decode_all ls2).
Qed.

Lemma file_events_append f es e :
  file_events f = Some es ->
  file_events (append_line (norm (JObj (to_dict e))) f) = Some (es ++ [norm_event e]).
Proof.
  unfold file_events, append_line. destruct f as [| |ls]; intros H; try discriminate.
  - injection H as <-. cbn [decode_all]. by rewrite decode_to_dict.
  - rewrite decode_all_app. destruct (decode_all ls) as [es'|]; [|discriminate].
    injection H as ->. cbn [decode_all]. by rewrite decode_to_dict.
Qed.

#[export] Instance audit_chain_laws : ChainEventLaws audit_event.
Proof.
  constructor. intros a b Hn. rewrite !norm_obj in Hn.
  unfold payload, norm_fields, sort_fields in Hn. simpl ce_payload in Hn.
  unfold payload in Hn. cbn in Hn. injection Hn. intros. done.
Qed.

Lemma event_doc_norm e :
  wf_json (data e) -> wf_json (sequence e) -> wf_json (event_type e) -> wf_json (actor e) ->
  wf_json (subject e) -> wf_json (timestamp e) -> wf_json (previous_hash e) ->
  chain_document (norm_event e) = chain_document e.
Proof.
  intros. unfold chain_document. f_equal. apply dumps_norm. rewrite !norm_obj. f_equal.
  simpl. unfold norm_fields. simpl. by rewrite !norm_idem by done.
Qed.

(** ** Running the operations *)

Lemma load_holds l es :
  has_path l = true -> holds (file l) es -> load l = (set_events l es, Ok tt).
Proof.
  destruct l as [p u f mem]. simpl. intros -> [Hf Hv]. unfold load, bind, get. simpl.
  destruct f as [| |lines]; simpl in *; try discriminate.
  - injection Hf as <-. done.
  - destruct (decode_all lines) as [es'|]; [|discriminate]. injection Hf as ->.
    simpl. unfold raise_if, refuse_if, lift, modify, verify. simpl. by rewrite Hv.
Qed.

(** The event [append_current] builds after [es]. *)
Definition next_event (es : list audit_event) (ty ac su ts : string) (data : dict) : audit_event :=
  let previous := match last es with Some e => hash e | None => JStr "genesis" end in
  let sequence := JInt (Z.of_nat (length es) + 1) in
  let e := AuditEvent sequence (JStr ty) (JStr ac) (JStr su) (JStr ts) (JObj data) previous JNull in
  AuditEvent sequence (JStr ty) (JStr ac) (JStr su) (JStr ts) (JObj data) previous
    (JStr ("sha256:" +:+ digest (payload e))).

Definition or_empty (data : option dict) : dict := match data with Some d => d | None => [] end.

Definition after_append (l : audit_log) (e : audit_event) : audit_log :=
  MkLog (has_path l) (lock_unsafe l)
    (if has_path l then append_line (norm (JObj (to_dict e))) (file l) else file l)
    (events l ++ [e]).

Lemma append_current_run l ty ac su ts d :
  let e := next_event (events l) ty ac su ts (or_empty d) in
  append_current ty ac su ts d l = (after_append l e, Ok e).
Proof. destruct l as [[] u f mem]; reflexivity. Qed.

Lemma next_event_verifies es ty ac su ts d :
  verify_events es = true -> verify_events (es ++ [next_event es ty ac su ts d]) = true.
Proof.
  intros Hv. rewrite verify_events_chain in *. apply verify_append; [done|simpl|done|done].
  f_equal. lia.
Qed.

Lemma next_event_previous es ty ac su ts d :
  verify_events es = true -> exists s, previous_hash (next_event es ty ac su ts d) = JStr s.
Proof.
  rewrite verify_events_chain. intros Hv. simpl.
  apply (head_hash_str _ _ _ Hv).
Qed.

Lemma norm_next_event_verifies es ty ac su ts d :
  wf_json (JObj d) -> verify_events es = true ->
  verify_events (es ++ [norm_event (next_event es ty ac su ts d)]) = true.
Proof.
  intros Hd Hv. pose proof (next_event_previous es ty ac su ts d Hv) as [s Hs].
  pose proof (next_event_verifies es ty ac su ts d Hv) as Hn.
  rewrite verify_events_chain in Hv, Hn |- *. rewrite verify_from_snoc in Hn |- *.
  rewrite Hv in Hn |- *. simpl andb in Hn |- *.
  set (e := next_event es ty ac su ts d) in *.
  assert (Hdoc : chain_document (norm_event e) = chain_document e).
  { apply event_doc_norm; try exact (wf_str _); try exact (wf_int _); [exact Hd|].
    rewrite Hs. constructor. }
  assert (Hseq : ce_sequence (norm_event e) = ce_sequence e) by reflexivity.
  assert (Hhash : ce_hash (norm_event e) = ce_hash e) by reflexivity.
  assert (Hprev : ce_previous (norm_event e) = ce_previous e).
  { change (norm (previous_hash e) = previous_hash e). by rewrite Hs. }
  unfold link_ok, expected_hash in *. by rewrite Hdoc, Hseq, Hhash, Hprev.
Qed.

Lemma with_write_lock_run {A} (body : op A) l :
  lock_unsafe l = false -> with_write_lock body l = body l.
Proof.
  intros Hu. unfold with_write_lock. run_m. destruct (has_path l); cbn [negb]; [|done].
  by rewrite bind_raise_if_pass.
Qed.

Lemma append_holds l ty ac su ts d es :
  has_path l = true -> lock_unsafe l = false ->
  required_text ty ac su ts = true -> holds (file l) es ->
  let e := next_event es ty ac su ts (or_empty d) in
  append ty ac su ts d l = (after_append (set_events l es) e, Ok e).
Proof.
  intros Hp Hu Hr Hh e. unfold append. rewrite bind_raise_if_pass by (by rewrite Hr).
  rewrite with_write_lock_run by done. run_m. rewrite Hp.
  rewrite (bind_run _ _ _ _ _ (load_holds l es Hp Hh)).
  apply (append_current_run (set_events l es)).
Qed.

Lemma holds_append l ty ac su ts d es :
  has_path l = true -> wf_json (JObj d) -> holds (file l) es ->
  let e := next_event es ty ac su ts d in
  holds (file (after_append (set_events l es) e)) (es ++ [norm_event e]).
Proof.
  intros Hp Hd [Hf Hv] e. unfold holds, after_append. cbn [file has_path set_events]. rewrite Hp.
  split; [by apply file_events_append | by apply norm_next_event_verifies].
Qed.

(** ** Several [AuditLog] objects on one file *)

Inductive call :=
| CAppend (ty ac su ts : string) (data : option dict)
| CAppendOnce (ty ac su ts : string) (data : dict) (keys : list string)
| CEvents.

Definition call_data (c : call) : dict :=
  match c with CAppend _ _ _ _ d => or_empty d | CAppendOnce _ _ _ _ d _ => d | CEvents => [] end.

Definition run_call (c : call) (l : audit_log) : audit_log :=
  match c with
  | CAppend ty ac su ts d => fst (append ty ac su ts d l)
  | CAppendOnce ty ac su ts d ks => fst (append_once ty ac su ts d ks l)
  | CEvents => fst (read_events l)
  end.

(** The shared file and the memory of each process; the lock makes a call one step. *)
Record world := World { shared : log_file; memory : nat -> list audit_event }.

Definition world_step (w : world) (ic : nat * call) : world :=
  let l := run_call (snd ic) (MkLog true false (shared w) (memory w (fst ic))) in
  World (file l) (fun j => if decide (j = fst ic) then events l else memory w j).

(** What one call does to a file that holds a verified log. *)

Lemma append_refused l ty ac su ts d :
  required_text ty ac su ts = false ->
  append ty ac su ts d l
  = (l, Raise (ValueError "event_type, actor, subject, and timestamp are required")).
Proof. intros Hr. unfold append. by rewrite bind_raise_if_stop by (by rewrite Hr). Qed.

(** What [append_once] demands of its arguments. *)
Definition once_args_ok (ty ac su ts : string) (d : dict) (keys : list string) : bool :=
  required_text ty ac su ts && negb (bool_decide (keys = []))
  && forallb (fun k => dict_has k d) keys.

Lemma append_once_refused l ty ac su ts d keys :
  once_args_ok ty ac su ts d keys = false ->
  exists message, append_once ty ac su ts d keys l = (l, Raise (ValueError message)).
Proof.
  unfold once_args_ok, append_once. intros Hr.
  destruct (required_text ty ac su ts); [|by eexists; rewrite bind_raise_if_stop].
  rewrite bind_raise_if_pass by done. simpl in Hr.
  eexists. rewrite bind_raise_if_stop; [done|].
  destruct (bool_decide (keys = [])); [done|]. simpl in *. by rewrite Hr.
Qed.

Lemma append_once_holds l ty ac su ts d keys es :
  has_path l = true -> lock_unsafe l = false -> holds (file l) es ->
  once_args_ok ty ac su ts d keys = true ->
  let e := next_event es ty ac su ts d in
  append_once ty ac su ts d keys l =
    match find_correlated ty d keys es with
    | Ok (Some e') => (set_events l es, Ok (e', true))
    | Ok None => (after_append (set_events l es) e, Ok (e, false))
    | Raise err => (set_events l es, Raise err)
    end.
Proof.
  intros Hp Hu Hh Ha e. unfold once_args_ok in Ha.
  apply andb_true_iff in Ha as [[Hr Hne]%andb_true_iff Hk]. apply negb_true_iff in Hne.
  unfold append_once. rewrite bind_raise_if_pass by (by rewrite Hr).
  rewrite bind_raise_if_pass by (by rewrite Hne, Hk).
  rewrite with_write_lock_run by done. run_m. rewrite Hp.
  rewrite (bind_run _ _ _ _ _ (load_holds l es Hp Hh)). run_m.
  change (events (set_events l es)) with es.
  destruct (find_correlated ty d keys es) as [[e'|]|err]; try done.
  run_m. by rewrite (bind_run _ _ _ _ _ (append_current_run (set_events l es) ty ac su ts (Some d))).
Qed.

Lemma read_events_holds l es :
  has_path l = true -> holds (file l) es -> read_events l = (set_events l es, Ok es).
Proof.
  intros Hp Hh. unfold read_events. run_m. rewrite Hp.
  by rewrite (bind_run _ _ _ _ _ (load_holds l es Hp Hh)).
Qed.

Lemma run_call_holds l c es :
  has_path l = true -> lock_unsafe l = false -> wf_json (JObj (call_data c)) ->
  holds (file l) es ->
  exists es', holds (file (run_call c l)) (es ++ es') /\ length es' <= 1.
Proof.
  intros Hp Hu Hd Hh. 
  assert (Hsame : exists es', holds (file l) (es ++ es') /\ length es' <= 1).
  { exists []. rewrite app_nil_r. split; [done|simpl; lia]. }
  destruct c as [ty ac su ts d|ty ac su ts d keys|]; simpl in *.
  - destruct (required_text ty ac su ts) eqn:Hr; [|by rewrite append_refused].
    rewrite (append_holds l ty ac su ts d es) by done. eexists [_]. split; [|simpl; lia].
    by apply holds_append.
  - destruct (once_args_ok ty ac su ts d keys) eqn:Ha.
    2: { destruct (append_once_refused l ty ac su ts d keys Ha) as [m ->]. done. }
    rewrite (append_once_holds l ty ac su ts d keys es) by done.
    destruct (find_correlated ty d keys es) as [[e'|]|err]; try done.
    eexists [_]. split; [|simpl; lia]. by apply holds_append.
  - by rewrite (read_events_holds l es).
Qed.

(** C1 Append-only under concurrency: however several processes with stale memories
    interleave [append], [append_once] and [events] on one log file, the file
    always loads and verifies, and its records are the earlier ones followed by
    new ones, at most one per call; every process then reads exactly them. *)
Theorem audit_file_grows w es tr :
  holds (shared w) es ->
  Forall (fun ic => wf_json (JObj (call_data (snd ic)))) tr ->
  exists es', holds (shared (run_trace world_step w tr)) (es ++ es')
    /\ length es' <= length tr
    /\ forall mem, snd (read_events (MkLog true false (shared (run_trace world_step w tr)) mem))
                   = Ok (es ++ es').
Proof.
  revert w es. induction tr as [|[i c] tr IH]; intros w es Hh Hall.
  - exists []. rewrite app_nil_r. split_and!; [done|simpl; lia|].
    intros mem. by rewrite (read_events_holds _ es).
  - apply Forall_cons in Hall as [Hc Hall]. simpl.
    destruct (run_call_holds (MkLog true false (shared w) (memory w i)) c es)
      as (es1 & Hh1 & Hl1); try done.
    destruct (IH (world_step w (i, c)) (es ++ es1)) as (es2 & Hh2 & Hl2 & Hr2); try done.
    exists (es1 ++ es2). rewrite app_assoc, length_app. split_and!; try done. lia.
Qed.

(** A record survives a restart: after a successful [append], opening the same
    file again succeeds and yields the old records and the new one (its nested
    keys in sorted order), and both the memory and the file verify. *)
Theorem append_survives_reopen l ty ac su ts d es :
  has_path l = true -> lock_unsafe l = false -> wf_json (JObj (or_empty d)) ->
  required_text ty ac su ts = true -> holds (file l) es ->
  exists l' e,
    append ty ac su ts d l = (l', Ok e)
    /\ verify l' = true
    /\ events l' = es ++ [e]
    /\ py_eqb (sequence e) (JInt (Z.of_nat (length es) + 1)) = true
    /\ previous_hash e = head_hash (JStr "genesis") es
    /\ open_log true false (file l')
       = (MkLog true false (file l') (es ++ [norm_event e]), Ok tt).
Proof.
  intros Hp Hu Hd Hr Hh. exists (after_append (set_events l es) (next_event es ty ac su ts (or_empty d))).
  eexists. split; [by apply append_holds|]. split_and!.
  - unfold verify, after_append. cbn [events set_events]. apply next_event_verifies, Hh.
  - done.
  - apply py_eqb_refl.
  - done.
  - pose proof (holds_append l ty ac su ts (or_empty d) es Hp Hd Hh) as Hh'.
    cbv zeta in Hh'. set (f := file (after_append _ _)) in *. unfold open_log.
    destruct f as [| |ls] eqn:Ef.
    + exfalso. revert Ef. unfold f, after_append. cbn [file has_path set_events]. rewrite Hp.
      by destruct (file l).
    + destruct Hh' as [Hc _]. discriminate Hc.
    + cbn [andb orb]. exact (load_holds (MkLog true false (FLines ls) []) _ eq_refl Hh').
Qed.

(** C2 Tamper evidence: two log files that both load and verify, with the same number
    of records and the same last hash, record the same events in the same order,
    unless the hashed documents collide under SHA-256. *)
Theorem audit_head_fixes_log f1 f2 es1 es2 :
  holds f1 es1 -> holds f2 es2 -> length es1 = length es2 ->
  head_hash (JStr "genesis") es1 = head_hash (JStr "genesis") es2 ->
  collision_free (map chain_document es1 ++ map chain_document es2) ->
  Forall2 (fun a b => norm (JObj (payload a)) = norm (JObj (payload b)) /\ hash a = hash b) es1 es2.
Proof.
  intros [_ H1] [_ H2] Hl Hh Hc. rewrite verify_events_chain in H1, H2.
  apply (head_fixes_records _ _ _ _ H1 H2 Hl Hh Hc).
Qed.

Lemma correlates_self d keys :
  wf_json (JObj d) -> correlates (norm (JObj d)) d keys = Ok true.
Proof.
  intros Hd. inversion Hd as [| | | | |? Hnd Hfs]; subst.
  induction keys as [|k keys IH]; [done|]. rewrite norm_obj in *. cbn [correlates].
  rewrite dict_get_sort_norm by done.
  assert (Hv : py_eqb (default JNull (norm <$> dict_get k d)) (default JNull (dict_get k d)) = true).
  { destruct (dict_get k d) as [v|] eqn:Hk; [|reflexivity].
    apply py_eqb_norm_l. rewrite Forall_forall in Hfs.
    apply (Hfs (k, v)). by apply dict_get_elem. }
  by rewrite Hv.
Qed.

Lemma find_correlated_app ty d keys es1 es2 :
  find_correlated ty d keys es1 = Ok None ->
  find_correlated ty d keys (es1 ++ es2) = find_correlated ty d keys es2.
Proof.
  induction es1 as [|e es1 IH]; [done|]. simpl.
  destruct (py_eqb (event_type e) (JStr ty)); [|done].
  destruct (correlates (data e) d keys) as [[]|]; simpl; try done.
Qed.

(** [append_once] records a correlated event once: when a first call succeeded,
    any later call for the same type, data and keys, from any process and after any
    other calls, reports the duplicate and leaves the file unchanged. *)
Theorem append_once_idempotent l ty ac su ts d keys es l1 e1 dup ts' ac' su' mem' :
  has_path l = true -> lock_unsafe l = false -> wf_json (JObj d) -> holds (file l) es ->
  append_once ty ac su ts d keys l = (l1, Ok (e1, dup)) ->
  required_text ty ac' su' ts' = true ->
  exists l2 e2,
    append_once ty ac' su' ts' d keys (MkLog true false (file l1) mem') = (l2, Ok (e2, true))
    /\ file l2 = file l1
    /\ (dup = true -> file l1 = file l /\ e2 = e1)
    /\ (dup = false -> e2 = norm_event e1).
Proof.
  intros Hp Hu Hd Hh H Hr'.
  destruct (once_args_ok ty ac su ts d keys) eqn:Ha.
  2: { destruct (append_once_refused l ty ac su ts d keys Ha) as [m Hm]. congruence. }
  assert (Ha' : once_args_ok ty ac' su' ts' d keys = true).
  { pose proof Ha as [[_ Hne]%andb_true_iff Hk]%andb_true_iff.
    unfold once_args_ok. by rewrite Hr', Hne, Hk. }
  rewrite (append_once_holds l ty ac su ts d keys es) in H by done.
  destruct (find_correlated ty d keys es) as [[e'|]|err] eqn:Hfind;
    [injection H as <- <- <- | injection H as <- <- <- | discriminate H].
  - eexists _, e'. rewrite (append_once_holds _ _ _ _ _ _ _ es) by done. by rewrite Hfind.
  - pose proof (holds_append l ty ac su ts d es Hp Hd Hh) as Hh'.
    eexists _, _. rewrite (append_once_holds (MkLog true false _ mem') _ _ _ _ _ _ _ eq_refl eq_refl Hh' Ha').
    rewrite find_correlated_app by done. cbn [find_correlated].
    change (event_type (norm_event _)) with (JStr ty). rewrite py_eqb_refl.
    change (data (norm_event _)) with (norm (JObj d)). rewrite correlates_self by done.
    simpl. done.
Qed.

(** ** Witnesses *)

Definition sample_data : dict := [("runId", JStr "run-1"); ("attempt", JInt 2)].
Definition sample_log : audit_log := MkLog true false FAbsent [].

Lemma audit_file_grows_witness :
  exists es', holds (shared (run_trace world_step (World FAbsent (fun _ => []))
                [(0, CAppend "run.created" "owner" "run-1" "t0" (Some sample_data));
                 (1, CAppendOnce "run.created" "owner" "run-1" "t1" sample_data ["runId"])]))
              ([] ++ es')
    /\ length es' <= 2
    /\ forall mem, snd (read_events (MkLog true false (shared (run_trace world_step
          (World FAbsent (fun _ => []))
          [(0, CAppend "run.created" "owner" "run-1" "t0" (Some sample_data));
           (1, CAppendOnce "run.created" "owner" "run-1" "t1" sample_data ["runId"])])) mem))
        = Ok ([] ++ es').
Proof.
  apply (audit_file_grows (World FAbsent (fun _ => [])) []).
  - split; reflexivity.
  - repeat (apply Forall_cons_2; [apply wf_jsonb_wf; vm_compute; reflexivity|]). apply Forall_nil_2.
Defined.

Lemma append_survives_reopen_witness :
  exists l' e,
    append "run.created" "owner" "run-1" "t0" (Some sample_data) sample_log = (l', Ok e)
    /\ verify l' = true
    /\ events l' = [] ++ [e]
    /\ py_eqb (sequence e) (JInt (Z.of_nat 0 + 1)) = true
    /\ previous_hash e = head_hash (JStr "genesis") []
    /\ open_log true false (file l')
       = (MkLog true false (file l') ([] ++ [norm_event e]), Ok tt).
Proof.
  apply (append_survives_reopen sample_log); try reflexivity.
  - apply wf_jsonb_wf. vm_compute. reflexivity.
  - split; reflexivity.
Defined.

Definition sample_events : list audit_event :=
  Eval vm_compute in events (run_call (CAppend "run.created" "owner" "run-1" "t0" (Some sample_data)) sample_log).
Definition sample_file : log_file :=
  Eval vm_compute in file (run_call (CAppend "run.created" "owner" "run-1" "t0" (Some sample_data)) sample_log).
Definition sample_loaded : list audit_event :=
  Eval vm_compute in default [] (file_events sample_file).

Lemma audit_head_fixes_log_witness :
  Forall2 (fun a b => norm (JObj (payload a)) = norm (JObj (payload b)) /\ hash a = hash b)
    sample_loaded sample_loaded.
Proof.
  apply (audit_head_fixes_log sample_file sample_file); try (split; vm_compute; reflexivity);
    try reflexivity.
  intros d1 d2 H1 H2 _. simpl in H1, H2.
  apply elem_of_cons in H1 as [->|H1]; apply elem_of_cons in H2 as [->|H2]; try reflexivity.
  - apply list_elem_of_singleton in H2 as ->. reflexivity.
  - apply list_elem_of_singleton in H1 as ->. reflexivity.
  - apply list_elem_of_singleton in H1 as ->. apply list_elem_of_singleton in H2 as ->. reflexivity.
Defined.

Lemma append_once_idempotent_witness :
  exists l2 e2,
    append_once "run.created" "other" "run-1" "t9" sample_data ["runId"]
      (MkLog true false
        (file (fst (append_once "run.created" "owner" "run-1" "t0" sample_data ["runId"] sample_log)))
        []) = (l2, Ok (e2, true))
    /\ file l2 = file (fst (append_once "run.created" "owner" "run-1" "t0" sample_data ["runId"] sample_log))
    /\ (false = true ->
         file (fst (append_once "run.created" "owner" "run-1" "t0" sample_data ["runId"] sample_log))
           = file sample_log
         /\ e2 = next_event [] "run.created" "owner" "run-1" "t0" sample_data)
    /\ (false = false -> e2 = norm_event (next_event [] "run.created" "owner" "run-1" "t0" sample_data)).
Proof.
  apply (append_once_idempotent sample_log "run.created" "owner" "run-1" "t0" sample_data ["runId"] []
           _ _ false "t9" "other" "run-1" []); try reflexivity.
  - apply wf_jsonb_wf. vm_compute. reflexivity.
  - split; reflexivity.
Defined.

