(* ===== verification/Paths.v ===== *)
(** * Slash-separated paths

    Splitting a path at its slashes and joining the parts again, shared by the
    components that validate repository-relative paths. *)

From S2P Require Import Prelude.

(** [s.split("/")]; the accumulator holds the current part. *)
Fixpoint split_slash (acc s : string) : list string :=
  match s with
  | EmptyString => [acc]
  | String c rest =>
      if bool_decide (c = "/"%char) then acc :: split_slash "" rest
      else split_slash (acc +:+ String c "") rest
  end.

(** ["/".join(parts)] *)
Fixpoint join_slash (parts : list string) : string :=
  match parts with
  | [] => ""
  | [p] => p
  | p :: rest => p +:+ String "/" (join_slash rest)
  end.

Definition no_slash (s : string) : Prop := any_char (fun c => bool_decide (c = "/"%char)) s = false.

Lemma any_char_app p s t : any_char p (s +:+ t) = any_char p s || any_char p t.
Proof.
  induction s as [|c s IH]; [done|]. rewrite str_cons_app. simpl. by rewrite IH, orb_assoc.
Qed.

Lemma split_slash_nonempty acc s : split_slash acc s <> [].
Proof. revert acc. induction s as [|c s IH]; intros acc; simpl; [done|]. by case_bool_decide. Qed.

Lemma join_slash_cons p parts :
  parts <> [] -> join_slash (p :: parts) = p +:+ String "/" (join_slash parts).
Proof. by destruct parts. Qed.

Lemma split_slash_join acc s : join_slash (split_slash acc s) = acc +:+ s.
Proof.
  revert acc. induction s as [|c s IH]; intros acc; cbn [split_slash];
    [cbn [join_slash]; by rewrite str_app_nil_r|].
  case_bool_decide as Hc.
  - subst c. rewrite join_slash_cons by apply split_slash_nonempty. by rewrite IH.
  - rewrite IH, str_app_assoc. done.
Qed.

Lemma split_slash_no_slash acc s : no_slash acc -> Forall no_slash (split_slash acc s).
Proof.
  revert acc. induction s as [|c s IH]; intros acc Hacc; simpl; [by constructor|].
  case_bool_decide as Hc.
  - constructor; [done|]. by apply IH.
  - apply IH. unfold no_slash. rewrite any_char_app, Hacc. simpl.
    by rewrite bool_decide_eq_false_2.
Qed.

Lemma split_slash_inj s t : split_slash "" s = split_slash "" t -> s = t.
Proof. intros H. apply (f_equal join_slash) in H. by rewrite !split_slash_join in H. Qed.
