(* ===== verification/GoalContracts.v ===== *)
(** * Goal-execution contracts (packages/goal-execution, contracts.py)

    The immutable records that bind one governed slice of work, each with the
    validation its [__post_init__] runs, its [to_dict], and the digest computed
    from it.  The constructor [mkX] builds the bare record; [X_post_init] is the
    check Python runs before the object exists.  Checks of the form
    [isinstance(value, str)] hold by typing here.  Errors are the messages of
    [GoalContractError]. *)

From S2P Require Import Prelude Json Sha256 Paths.

(** ** Field validators *)

Definition checked := outcome string.

(** [_canonical] and [canonical_digest] *)
Definition canonical (value : json) : string := dumps false value.
Definition canonical_digest (value : json) : string :=
  "sha256:" +:+ sha256_hex (encode (canonical value)).

Definition control_char (c : ascii) : bool :=
  (code c <? 32)%Z && negb (bool_decide (c = "010"%char)) && negb (bool_decide (c = "009"%char)).

Definition text (value label : string) (maximum : Z) : checked string :=
  refuse_if (negb (nonblank value) || (maximum <? py_len value)%Z)
    (label +:+ " must be a non-empty bounded string") >>?
  refuse_if (any_char control_char value) (label +:+ " contains control characters") >>?
  Ok (py_strip value).

(** [^[A-Za-z0-9][A-Za-z0-9._:-]{0,127}$] *)
Definition ID_fullmatch (s : string) : bool :=
  match s with
  | EmptyString => false
  | String c rest =>
      is_alnum c && all_chars (fun c => is_alnum c || one_of "._:-" c) rest
      && (py_len rest <=? 127)%Z
  end.

(** [^sha256:[0-9a-f]{64}$] *)
Definition DIGEST_fullmatch (s : string) : bool :=
  startswith "sha256:" s && (py_len s =? 71)%Z
  && all_chars is_hex (String.substring 7 64 s).

(** [^[0-9a-f]{40,64}$] *)
Definition GIT_SHA_fullmatch (s : string) : bool :=
  all_chars is_hex s && (40 <=? py_len s)%Z && (py_len s <=? 64)%Z.

(** [^[a-z][a-z0-9._-]{1,127}$] *)
Definition PERMISSION_fullmatch (s : string) : bool :=
  match s with
  | EmptyString => false
  | String c rest =>
      is_lower c && all_chars (fun c => is_lower c || is_digit c || one_of "._-" c) rest
      && (1 <=? py_len rest)%Z && (py_len rest <=? 127)%Z
  end.

Definition SIDE_EFFECTS : list string := ["none"; "idempotent"; "compensated"; "external"; "unknown"].
Definition SAFE_SIDE_EFFECTS : list string := ["none"; "idempotent"].
Definition REVIEW_DISPOSITIONS : list string :=
  ["accepted"; "accepted_with_bounded_followups"; "rejected_with_reproduced_defects"].
Definition CLOSURE_STATUSES : list string := ["closed"; "reopened"; "stopped"].

Definition identifier (value label : string) : checked string :=
  let? result := text value label 128 in
  refuse_if (negb (ID_fullmatch result)) (label +:+ " is not a safe identifier") >>?
  Ok result.

Definition digest_text (value label : string) : checked string :=
  let? result := text value label 71 in
  refuse_if (negb (DIGEST_fullmatch result)) (label +:+ " must be a sha256 digest") >>?
  Ok result.

Definition git_sha (value label : string) : checked string :=
  let? result := text value label 64 in
  refuse_if (negb (GIT_SHA_fullmatch result)) (label +:+ " must be an immutable Git SHA") >>?
  Ok result.

(** [tuple(f(value) for value in values)]: the first error wins. *)
Fixpoint each {A B} (f : A -> checked B) (values : list A) : checked (list B) :=
  match values with
  | [] => Ok []
  | v :: rest => let? r := f v in let? rs := each f rest in Ok (r :: rs)
  end.

Definition bounded_unique (nonempty : bool) (result : list string) : bool :=
  negb ((128 <? Z.of_nat (length result))%Z || (nonempty && bool_decide (result = []))
        || has_dups result).

Definition items (values : list string) (label : string) (identifiers nonempty : bool)
    : checked (list string) :=
  let? result := each (fun v => if identifiers then identifier v label else text v label 512) values in
  require (bounded_unique nonempty result) (label +:+ " must be a unique bounded sequence") >>?
  Ok result.

Definition permissions (values : list string) (label : string) : checked (list string) :=
  let? result := items values label false true in
  refuse_if (existsb (fun v => negb (PERMISSION_fullmatch v)) result)
    (label +:+ " contains an invalid permission") >>?
  Ok (merge_sort String.le result).

(** [s.replace("\\", "/")] *)
Fixpoint slashes (s : string) : string :=
  match s with
  | EmptyString => EmptyString
  | String c rest => String (if bool_decide (c = "\"%char) then "/"%char else c) (slashes rest)
  end.

Definition safe_relative_path (value label : string) : checked string :=
  let? result := text value label 512 in
  let parts := split_slash "" (slashes result) in
  refuse_if (startswith "/" result || any_char (fun c => bool_decide (c = "\"%char)) result
             || existsb (fun part => mem part [""; "."; ".."]) parts)
    (label +:+ " must be a repository-relative non-traversing path") >>?
  Ok result.

Definition paths (values : list string) (label : string) (nonempty : bool)
    : checked (list string) :=
  let? result := each (fun v => safe_relative_path v label) values in
  require (bounded_unique nonempty result) (label +:+ " must be a unique bounded path sequence") >>?
  Ok result.

(** *** Credential-like field names

    [_SECRET_FIELD.search(key)] with [re.IGNORECASE]. *)

Definition SECRET_FIELD_search (key : string) : bool :=
  existsb (fun p => has_sub p (lower key))
    (optional_separator "api" "key"
     ++ ["authorization"; "cookie"; "credential"; "password"; "secret"]
     ++ optional_separator "access" "token" ++ optional_separator "refresh" "token"
     ++ optional_separator "private" "key").

Fixpoint no_secret_fields (value : json) (location : string) {struct value} : checked unit :=
  match value with
  | JObj fs =>
      (fix go (fs : dict) : checked unit :=
         match fs with
         | [] => Ok tt
         | (key, item) :: rest =>
             refuse_if (SECRET_FIELD_search key)
               ("credential-like field is forbidden at " +:+ location +:+ "." +:+ key) >>?
             no_secret_fields item (location +:+ "." +:+ key) >>?
             go rest
         end) fs
  | JArr l =>
      (fix go (l : list json) (index : nat) : checked unit :=
         match l with
         | [] => Ok tt
         | item :: rest =>
             no_secret_fields item (location +:+ "[" +:+ pretty index +:+ "]") >>?
             go rest (S index)
         end) l 0
  | _ => Ok tt
  end.

(** The field names of a value, as the search sees them. *)
Fixpoint secret_free (value : json) : bool :=
  match value with
  | JObj fs =>
      (fix go (fs : dict) : bool :=
         match fs with
         | [] => true
         | (key, item) :: rest => negb (SECRET_FIELD_search key) && secret_free item && go rest
         end) fs
  | JArr l =>
      (fix go (l : list json) : bool :=
         match l with [] => true | item :: rest => secret_free item && go rest end) l
  | _ => true
  end.

(** ** The interface of a contract *)

(** What every contract offers the rest of the package: a dictionary that names
    its format, holds every field of the record, and has no field name that
    looks like a credential. *)
Class Contract (A : Type) := {
  format : string;
  to_dict : A -> dict;
  post_init : A -> checked unit;
  to_dict_format : forall a, exists rest, to_dict a = ("formatVersion", JStr format) :: rest;
  to_dict_keys : forall a, NoDup (dict_keys (to_dict a));
  to_dict_secret_free : forall a, secret_free (JObj (to_dict a)) = true;
  to_dict_faithful : forall a b, norm (JObj (to_dict a)) = norm (JObj (to_dict b)) -> a = b;
}.

(** The [digest] property. *)
Definition contract_digest {A} `{Contract A} (a : A) : checked string :=
  let value := JObj (to_dict a) in
  no_secret_fields value "$" >>? Ok (canonical_digest value).

(** Its value, which is always defined ([contract_digest_Ok]). *)
Definition digest {A} `{Contract A} (a : A) : string := canonical_digest (JObj (to_dict a)).

(** A value Python can hold passed its checks. *)
Definition valid {A} `{Contract A} (a : A) : Prop := post_init a = Ok tt.

Definition validb {A} `{Contract A} (a : A) : bool :=
  match post_init a with Ok _ => true | Raise _ => false end.

Lemma validb_valid {A} `{Contract A} (a : A) : validb a = true -> valid a.
Proof. unfold validb, valid. by destruct (post_init a) as [[]|]. Qed.

(** ** Lemmas *)

Lemma secret_free_Ok value : secret_free value = true ->
  forall location, no_secret_fields value location = Ok tt.
Proof.
  induction value as [|b|z|s|l IH|fs IH] using json_rich_ind; intros Hs location; try reflexivity.
  - simpl in *. generalize 0. induction IH as [|x l Hx _ IHl]; intros i; [done|].
    split_bool. rewrite Hx by done. simpl. auto.
  - simpl in *. induction IH as [|[k x] fs Hx _ IHl]; [done|].
    split_bool. simpl in *.
    match goal with H : SECRET_FIELD_search _ = false |- _ => rewrite H end. simpl.
    rewrite Hx by done. simpl. auto.
Qed.

Lemma contract_digest_Ok {A} `{Contract A} (a : A) : contract_digest a = Ok (digest a).
Proof. unfold contract_digest. by rewrite (secret_free_Ok _ (to_dict_secret_free a)). Qed.

Lemma canonical_digest_inj v w :
  canonical_digest v = canonical_digest w ->
  collision_free [encode (canonical v); encode (canonical w)] -> norm v = norm w.
Proof.
  intros Heq Hcf. unfold canonical_digest in Heq. apply str_app_inj_l in Heq.
  apply (dumps_inj false), encode_inj. apply Hcf; [left|right; left|done].
Qed.

Lemma contract_digest_inv {A B} `{Contract A} `{Contract B} (a : A) (b : B) :
  contract_digest a = contract_digest b -> digest a = digest b.
Proof. rewrite !contract_digest_Ok. generalize (digest a) (digest b). by intros ? ? [=]. Qed.

Definition jstrs (l : list string) : json := JArr (map JStr l).
Definition jopt (o : option string) : json :=
  match o with Some s => JStr s | None => JNull end.

Lemma jstrs_inj l1 l2 : norm (jstrs l1) = norm (jstrs l2) -> l1 = l2.
Proof.
  unfold jstrs. rewrite !norm_arr, !map_map. intros [= H].
  revert l2 H. induction l1 as [|s l1 IH]; intros [|t l2] [=]; f_equal; auto.
Qed.

Lemma jopt_inj o1 o2 : norm (jopt o1) = norm (jopt o2) -> o1 = o2.
Proof. destruct o1, o2; simpl; congruence. Qed.

Lemma jarr_inj {A} (f : A -> json) l1 l2 :
  (forall a b, norm (f a) = norm (f b) -> a = b) ->
  norm (JArr (map f l1)) = norm (JArr (map f l2)) -> l1 = l2.
Proof.
  intros Hf. rewrite !norm_arr, !map_map. intros [= H].
  revert l2 H. induction l1 as [|s l1 IH]; intros [|t l2] [=]; f_equal; auto.
Qed.

Lemma secret_free_strs l : secret_free (jstrs l) = true.
Proof. induction l; done. Qed.

Lemma secret_free_opt o : secret_free (jopt o) = true.
Proof. by destruct o. Qed.

Lemma secret_free_map {A} (f : A -> json) l :
  (forall a, secret_free (f a) = true) -> secret_free (JArr (map f l)) = true.
Proof. intros Hf. induction l as [|a l IH]; simpl; [done|]. by rewrite Hf. Qed.

Lemma secret_free_cons k x fs :
  SECRET_FIELD_search k = false -> secret_free x = true -> secret_free (JObj fs) = true ->
  secret_free (JObj ((k, x) :: fs)) = true.
Proof. simpl. intros -> -> ->. done. Qed.

(** Objects with the same keys in the same order agree field by field. *)
Lemma same_fields fs1 fs2 :
  dict_keys fs1 = dict_keys fs2 -> NoDup (dict_keys fs1) ->
  norm (JObj fs1) = norm (JObj fs2) -> map norm (map snd fs1) = map norm (map snd fs2).
Proof.
  intros Hk Hnd. rewrite !norm_obj. intros [= H].
  assert (Hget : forall k, norm <$> dict_get k fs1 = norm <$> dict_get k fs2).
  { intros k. rewrite <-!dict_get_sort_norm by congruence. by rewrite H. }
  clear H. revert fs2 Hk Hget.
  induction fs1 as [|[k x] fs1 IH]; intros [|[k2 y] fs2] [=]; [done|]. subst k2.
  intros Hget. apply NoDup_cons in Hnd as [Hnin Hnd]. simpl. f_equal.
  - specialize (Hget k). simpl in Hget. rewrite String.eqb_refl in Hget. by injection Hget.
  - apply IH; [done..|]. intros k'. specialize (Hget k'). simpl in Hget.
    destruct (String.eqb_spec k' k) as [Heq|]; [subst k'|done].
    assert (Hno : forall fs, k ∉ dict_keys fs -> dict_get k fs = None).
    { intros fs Hn. destruct (dict_get k fs) eqn:E; [|done]. exfalso. apply Hn, mem_true, dict_has_get. by rewrite E. }
    rewrite (Hno fs1), (Hno fs2); [done| |done].
    unfold dict_keys in *. by match goal with H : map fst fs1 = map fst fs2 |- _ => rewrite <-H end.
Qed.

Lemma same_format (f g : string) (d e r1 r2 : dict) :
  d = ("formatVersion", JStr f) :: r1 -> e = ("formatVersion", JStr g) :: r2 ->
  NoDup (dict_keys d) -> NoDup (dict_keys e) -> norm (JObj d) = norm (JObj e) -> f = g.
Proof.
  intros Hd He Hnd Hne. rewrite !norm_obj. intros [= Heq].
  apply (f_equal (dict_get "formatVersion")) in Heq.
  rewrite !dict_get_sort_norm in Heq by done. subst. simpl in Heq. congruence.
Qed.

(** A string that is its own [strip] passes [_text] as it is. *)
Lemma text_plain s label maximum :
  py_strip s = s -> s <> "" -> any_char control_char s = false -> (py_len s <= maximum)%Z ->
  text s label maximum = Ok s.
Proof.
  intros Hs Hne Hc Hl. unfold text, nonblank. rewrite Hs, Hc.
  rewrite bool_decide_eq_false_2 by done. simpl.
  replace (maximum <? py_len s)%Z with false by (symmetry; apply Z.ltb_ge; done). done.
Qed.

Lemma strip_no_space s : all_chars (fun c => negb (py_isspace c)) s = true -> py_strip s = s.
Proof.
  intros Hs. unfold py_strip.
  assert (Hl : py_lstrip s = s).
  { destruct s as [|c s]; [done|]. simpl in *. split_bool.
    match goal with H : py_isspace c = false |- _ => by rewrite H end. }
  rewrite Hl. clear Hl. induction s as [|c s IH]; [done|]. simpl in *. split_bool.
  rewrite IH by done. destruct s; [|done].
  match goal with H : py_isspace c = false |- _ => by rewrite H end.
Qed.

Lemma all_chars_impl (p q : ascii -> bool) s :
  (forall c, p c = true -> q c = true) -> all_chars p s = true -> all_chars q s = true.
Proof.
  intros Hpq. induction s as [|c s IH]; simpl; [done|]. intros. split_bool.
  rewrite Hpq, IH; done.
Qed.

Lemma all_chars_none (p q : ascii -> bool) s :
  (forall c, p c = true -> q c = false) -> all_chars p s = true -> any_char q s = false.
Proof.
  intros Hpq. induction s as [|c s IH]; simpl; [done|]. intros. split_bool.
  rewrite Hpq, IH; done.
Qed.

Lemma digest_text_sha256 h label :
  all_chars is_hex h = true -> String.length h = 64%nat ->
  digest_text ("sha256:" +:+ h) label = Ok ("sha256:" +:+ h).
Proof.
  intros Hh Hlen. unfold digest_text.
  assert (Hplain : all_chars (fun c => is_hex c || one_of "sha256:" c) ("sha256:" +:+ h) = true).
  { rewrite all_chars_app. apply andb_true_iff. split; [reflexivity|].
    eapply all_chars_impl; [|exact Hh]. intros c Hc. by rewrite Hc. }
  rewrite text_plain.
  - cbn [obind]. unfold DIGEST_fullmatch.
    assert (Hsub : String.substring 7 64 ("sha256:" +:+ h) = h).
    { rewrite <-Hlen. clear. change (String.substring 0 (String.length h) h = h).
      induction h as [|c h IH]; [done|]. simpl. by rewrite IH. }
    rewrite Hsub, Hh. unfold py_len. rewrite str_length_app, Hlen.
    assert (Hpre : forall p t, startswith p (p +:+ t) = true).
    { intros p t. unfold startswith. induction p as [|c p IH]; [by destruct t|].
      rewrite str_cons_app. simpl. by destruct (ascii_dec c c). }
    rewrite Hpre. reflexivity.
  - apply strip_no_space. eapply all_chars_impl; [|exact Hplain].
    intros [[] [] [] [] [] [] [] []]; vm_compute; congruence.
  - done.
  - eapply all_chars_none; [|exact Hplain].
    intros [[] [] [] [] [] [] [] []]; vm_compute; congruence.
  - unfold py_len. rewrite str_length_app, Hlen. done.
Qed.

Lemma canonical_digest_text v label :
  digest_text (canonical_digest v) label = Ok (canonical_digest v).
Proof. apply digest_text_sha256; [apply sha256_hex_hex|apply sha256_hex_length]. Qed.

(** *** Path components *)

Lemma slashes_id s : any_char (fun c => bool_decide (c = "\"%char)) s = false -> slashes s = s.
Proof.
  induction s as [|c s IH]; simpl; [done|]. intros. split_bool.
  rewrite IH by done. by rewrite bool_decide_eq_false_2.
Qed.

Lemma refused_part part : mem part [""; "."; ".."] = false -> part <> "" /\ part <> "." /\ part <> "..".
Proof. rewrite mem_false, !not_elem_of_cons. naive_solver. Qed.

(** The directory depth after each component of a path, from the root down:
    [..] climbs, [.] and the empty component stay. *)
Fixpoint depth_from (d : Z) (parts : list string) : list Z :=
  match parts with
  | [] => []
  | p :: rest =>
      let d' := if bool_decide (p = "..") then (d - 1)%Z
                else if mem p [""; "."] then d else (d + 1)%Z in
      d' :: depth_from d' rest
  end.

Lemma depth_from_plain d parts :
  Forall (fun p => p <> "" /\ p <> "." /\ p <> "..") parts ->
  Forall (fun d' => d < d')%Z (depth_from d parts).
Proof.
  intros H. revert d. induction H as [|p parts (H1 & H2 & H3) _ IH]; intros d; simpl; [done|].
  rewrite bool_decide_eq_false_2 by done.
  replace (mem p [""; "."]) with false
    by (symmetry; apply mem_false; rewrite !not_elem_of_cons; auto using not_elem_of_nil).
  constructor; [lia|]. eapply Forall_impl; [apply IH|]. simpl. lia.
Qed.

(** A path the contracts accept is relative and stays below the repository
    root: it is its components joined by slashes, none of them empty, a dot or
    a double dot, so the depth reached after every component is positive. *)
Theorem safe_relative_path_stays_inside (value label p : string) :
  safe_relative_path value label = Ok p ->
  p = py_strip value /\
  exists parts, p = join_slash parts /\ Forall no_slash parts /\
    Forall (fun part => part <> "" /\ part <> "." /\ part <> "..") parts /\
    Forall (fun d => 0 < d)%Z (depth_from 0 parts).
Proof.
  unfold safe_relative_path, text. intros H. inv_ok. split_bool.
  split; [done|]. exists (split_slash "" (py_strip value)).
  rewrite slashes_id in * by done.
  assert (Hparts : Forall (fun part => part <> "" /\ part <> "." /\ part <> "..")
                     (split_slash "" (py_strip value))).
  { apply Forall_forall. intros part Hin. apply refused_part.
    match goal with H : existsb _ _ = false |- _ => rename H into He end.
    destruct (mem part [""; "."; ".."]) eqn:E; [|done].
    exfalso. enough (existsb (fun part => mem part [""; "."; ".."]) (split_slash "" (py_strip value)) = true) by congruence.
    apply existsb_exists. exists part. by rewrite <-list_elem_of_In. }
  split; [by rewrite split_slash_join|]. split; [by apply split_slash_no_slash|].
  split; [done|]. by apply depth_from_plain.
Qed.

Lemma safe_relative_path_stays_inside_witness :
  safe_relative_path " docs/plan.md" "scope" = Ok "docs/plan.md" /\
  exists parts, "docs/plan.md" = join_slash parts /\
    Forall (fun d => 0 < d)%Z (depth_from 0 parts).
Proof.
  split; [vm_compute; reflexivity|].
  destruct (safe_relative_path_stays_inside " docs/plan.md" "scope" "docs/plan.md") as [_ (l & ? & _ & _ & ?)];
    [vm_compute; reflexivity|eauto].
Defined.

(** *** Tactics that discharge the interface for one record type *)

Lemma jstr_inj s t : norm (JStr s) = norm (JStr t) -> s = t.
Proof. by intros [=]. Qed.
Lemma jint_inj s t : norm (JInt s) = norm (JInt t) -> s = t.
Proof. by intros [=]. Qed.
Lemma jbool_inj s t : norm (JBool s) = norm (JBool t) -> s = t.
Proof. by intros [=]. Qed.

Lemma cons_eq {A} (x y : A) l m : x :: l = y :: m -> x = y /\ l = m.
Proof. by intros [=]. Qed.

Ltac same_fields_in H :=
  apply same_fields in H;
  [ cbn [map snd] in H;
    repeat (apply cons_eq in H; destruct H as [? H]); clear H
  | reflexivity | refine (bool_decide_unpack _ _); vm_compute; exact I ].

(** Further injections, extended by the files that add record types. *)
Ltac split_extra := fail.

Ltac split_fields :=
  repeat match goal with
  | H : norm (JStr _) = norm (JStr _) |- _ => apply jstr_inj in H
  | H : norm (JInt _) = norm (JInt _) |- _ => apply jint_inj in H
  | H : norm (JBool _) = norm (JBool _) |- _ => apply jbool_inj in H
  | H : norm (jstrs _) = norm (jstrs _) |- _ => apply jstrs_inj in H
  | H : norm (jopt _) = norm (jopt _) |- _ => apply jopt_inj in H
  | H : norm (JObj [(_, _)]) = norm (JObj _) |- _ => same_fields_in H
  | H : norm (JObj (_ :: _ :: _)) = norm (JObj _) |- _ => same_fields_in H
  | _ => split_extra
  end.

(** Equal dictionaries come from equal records. *)
Ltac faithful :=
  intros a b Hfields;
  match type of Hfields with norm (JObj (?f _)) = _ => unfold f in Hfields end;
  same_fields_in Hfields; split_fields; destruct a, b; simpl in *; subst; try reflexivity.

Ltac secret_free :=
  intros [];
  repeat (apply secret_free_cons; [vm_compute; reflexivity| |]);
  try reflexivity; try apply secret_free_strs; try apply secret_free_opt.
