(* ===== verification/GoalRecords.v ===== *)
(** * The goal-execution records (packages/goal-execution, contracts.py)

    Each record with its [__post_init__] and [to_dict], and the proof that it
    implements the [Contract] interface.  The default values of the Python
    classes are the callers' business. *)

From S2P Require Import Prelude Json Sha256 GoalContracts.

Inductive OrchestratorMode := OFF | ADVISORY | ASSISTED | MANAGED_APPROVED_QUEUE.
#[export] Instance OrchestratorMode_eq_dec : EqDecision OrchestratorMode.
Proof. solve_decision. Defined.

Definition mode_value (m : OrchestratorMode) : string :=
  match m with
  | OFF => "off"
  | ADVISORY => "advisory"
  | ASSISTED => "assisted"
  | MANAGED_APPROVED_QUEUE => "managed_approved_queue"
  end.

(** [tuple(OrchestratorMode)] *)
Definition all_modes : list OrchestratorMode := [OFF; ADVISORY; ASSISTED; MANAGED_APPROVED_QUEUE].

Definition required_stops : list string :=
  ["ambiguous_scope"; "permission_increase"; "critical_review_failed"; "base_drift";
   "budget_exceeded"; "external_side_effect"; "next_item_unapproved"].

Definition full_rerun_reasons : list string :=
  ["controlled_benchmark"; "material_defect"; "unsafe_execution"; "irrecoverable_provenance";
   "explicit_human_request"].

(** *** [GoalBudget] *)
Record GoalBudget := mkGoalBudget {
  gb_token : Z;
  gb_cost_minor : Z;
  gb_time_seconds : Z;
  gb_steps : Z;
}.
#[export] Instance GoalBudget_eq_dec : EqDecision GoalBudget.
Proof. solve_decision. Defined.

Definition budget_values (p : GoalBudget) : list (string * Z) := [
  ("token", gb_token p);
  ("costMinor", gb_cost_minor p);
  ("timeSeconds", gb_time_seconds p);
  ("steps", gb_steps p)].

Definition budget_to_dict (p : GoalBudget) : dict :=
  map (fun kv => (fst kv, JInt (snd kv))) (budget_values p).

Definition GoalBudget_post_init (p : GoalBudget) : checked unit :=
  each (fun kv => refuse_if (snd kv <? 0)%Z
                    ("budget " +:+ fst kv +:+ " must be a non-negative integer"))
    (budget_values p) >>?
  Ok tt.

Definition fits_within (p ceiling : GoalBudget) : bool :=
  forallb (fun '((_, x), (_, y)) => (x <=? y)%Z)
    (zip (budget_values p) (budget_values ceiling)).

(** *** [GoalExecutionIntent] *)
Record GoalExecutionIntent := mkGoalExecutionIntent {
  gi_intent_id : string;
  gi_application_id : string;
  gi_instance_id : string;
  gi_requested_by : string;
  gi_text : string;
  gi_requested_mode : OrchestratorMode;
  gi_proposal_only : bool;
  gi_canonical_state_effect : string;
}.

Definition GoalExecutionIntent_post_init (p : GoalExecutionIntent) : checked unit :=
  identifier (gi_intent_id p) "intent id" >>?
  identifier (gi_application_id p) "application id" >>?
  identifier (gi_instance_id p) "instance id" >>?
  identifier (gi_requested_by p) "requesting actor" >>?
  text (gi_text p) "intent text" 4000 >>?
  refuse_if (negb (gi_proposal_only p) || negb (bool_decide (gi_canonical_state_effect p = "none")))
    "natural-language intent may only create a noncanonical proposal" >>?
  Ok tt.

Definition GoalExecutionIntent_to_dict (p : GoalExecutionIntent) : dict := [
  ("formatVersion", JStr "stateport.goal-execution/v1");
  ("intentId", JStr (gi_intent_id p));
  ("applicationId", JStr (gi_application_id p));
  ("instanceId", JStr (gi_instance_id p));
  ("requestedBy", JStr (gi_requested_by p));
  ("text", JStr (gi_text p));
  ("requestedMode", JStr (mode_value (gi_requested_mode p)));
  ("proposalOnly", JBool (gi_proposal_only p));
  ("canonicalStateEffect", JStr (gi_canonical_state_effect p))].

(** *** [OrchestratorProfile] *)
Record OrchestratorProfile := mkOrchestratorProfile {
  op_profile_id : string;
  op_application_id : string;
  op_orchestrator_actor : string;
  op_mode : OrchestratorMode;
  op_capability : string;
  op_goal_domain : string;
  op_maximum_active_items : Z;
  op_may_self_approve : bool;
  op_background_loop : bool;
}.

Definition OrchestratorProfile_post_init (p : OrchestratorProfile) : checked unit :=
  identifier (op_profile_id p) "orchestrator profile id" >>?
  identifier (op_application_id p) "application id" >>?
  identifier (op_orchestrator_actor p) "orchestrator actor" >>?
  refuse_if (negb (mem (op_capability p) ["goal_execution"; "cto_orchestration"]))
    "orchestrator profile must use a governed goal capability" >>?
  identifier (op_goal_domain p) "goal domain" >>?
  refuse_if (negb (op_maximum_active_items p =? 1)%Z)
    "exactly one approved item may be active" >>?
  refuse_if (op_may_self_approve p || op_background_loop p)
    "self-approval and background backlog loops are forbidden" >>?
  Ok tt.

Definition OrchestratorProfile_to_dict (p : OrchestratorProfile) : dict := [
  ("formatVersion", JStr "stateport.orchestrator-profile/v1");
  ("profileId", JStr (op_profile_id p));
  ("applicationId", JStr (op_application_id p));
  ("orchestratorActor", JStr (op_orchestrator_actor p));
  ("mode", JStr (mode_value (op_mode p)));
  ("capability", JStr (op_capability p));
  ("goalDomain", JStr (op_goal_domain p));
  ("maximumActiveItems", JInt (op_maximum_active_items p));
  ("maySelfApprove", JBool (op_may_self_approve p));
  ("backgroundLoop", JBool (op_background_loop p))].

Definition required_capabilities (p : OrchestratorProfile) : list string :=
  if bool_decide (op_capability p = "cto_orchestration")
  then ["goal_execution"; "cto_orchestration"]
  else ["goal_execution"].

(** *** [CtoModePolicy] *)
Record CtoModePolicy := mkCtoModePolicy {
  cp_default_mode : OrchestratorMode;
  cp_allowed_modes : list OrchestratorMode;
  cp_require_explicit_approval : bool;
  cp_require_independent_review : bool;
  cp_maximum_active_items : Z;
  cp_routing_deviation_invalidates_output : bool;
  cp_stop_conditions : list string;
  cp_full_rerun_allowed_only_for : list string;
}.

Definition CtoModePolicy_post_init (p : CtoModePolicy) : checked unit :=
  refuse_if (negb (bool_decide (cp_default_mode p = ADVISORY)))
    "CTO mode must default to advisory" >>?
  refuse_if (negb (bool_decide (cp_allowed_modes p = all_modes)))
    "CTO policy must explicitly support all four governed modes" >>?
  refuse_if (negb (cp_require_explicit_approval p) || negb (cp_require_independent_review p))
    "approval and independent review are mandatory" >>?
  refuse_if (negb (cp_maximum_active_items p =? 1)%Z)
    "CTO policy permits one active approved item" >>?
  refuse_if (cp_routing_deviation_invalidates_output p)
    "model identity alone may not invalidate correct output" >>?
  let? stops := items (cp_stop_conditions p) "stop conditions" true true in
  refuse_if (negb (subset_of required_stops stops))
    "CTO policy is missing mandatory stop conditions" >>?
  refuse_if (negb (same_set (cp_full_rerun_allowed_only_for p) full_rerun_reasons))
    "CTO policy has an unsafe full-rerun rule" >>?
  Ok tt.

Definition CtoModePolicy_to_dict (p : CtoModePolicy) : dict := [
  ("formatVersion", JStr "stateport.cto-mode-policy/v1");
  ("defaultMode", JStr (mode_value (cp_default_mode p)));
  ("allowedModes", jstrs (map mode_value (cp_allowed_modes p)));
  ("requireExplicitApproval", JBool (cp_require_explicit_approval p));
  ("requireIndependentReview", JBool (cp_require_independent_review p));
  ("maximumActiveItems", JInt (cp_maximum_active_items p));
  ("routingDeviation", JObj [("invalidatesOutput", JBool (cp_routing_deviation_invalidates_output p))]);
  ("stopConditions", jstrs (cp_stop_conditions p));
  ("fullRerunAllowedOnlyFor", jstrs (cp_full_rerun_allowed_only_for p))].

(** *** [GoalItem] *)
Record GoalItem := mkGoalItem {
  it_item_id : string;
  it_domain : string;
  it_objective : string;
  it_user_value : string;
  it_dependencies : list string;
  it_scope : list string;
  it_exclusions : list string;
  it_owner_role : string;
  it_required_permissions : list string;
  it_acceptance_criteria : list string;
  it_validation_commands : list string;
  it_side_effect_class : string;
  it_evidence_requirements : list string;
  it_status : string;
}.

Definition GoalItem_post_init (p : GoalItem) : checked unit :=
  identifier (it_item_id p) "goal item id" >>?
  identifier (it_domain p) "goal domain" >>?
  text (it_objective p) "goal objective" 500 >>?
  text (it_user_value p) "goal user value" 500 >>?
  items (it_dependencies p) "goal dependencies" true false >>?
  items (it_scope p) "goal scope" false true >>?
  items (it_exclusions p) "goal exclusions" false true >>?
  identifier (it_owner_role p) "goal owner role" >>?
  permissions (it_required_permissions p) "permissions" >>?
  items (it_acceptance_criteria p) "acceptance criteria" false true >>?
  items (it_validation_commands p) "validation commands" false true >>?
  refuse_if (negb (mem (it_side_effect_class p) SIDE_EFFECTS))
    "goal side-effect class is unsupported" >>?
  items (it_evidence_requirements p) "evidence requirements" false true >>?
  refuse_if (negb (bool_decide (it_status p = "proposed")))
    "bootstrap may only create proposed goal items" >>?
  Ok tt.

Definition GoalItem_to_dict (p : GoalItem) : dict := [
  ("formatVersion", JStr "stateport.goal-item/v1");
  ("itemId", JStr (it_item_id p));
  ("domain", JStr (it_domain p));
  ("objective", JStr (it_objective p));
  ("userValue", JStr (it_user_value p));
  ("dependencies", jstrs (it_dependencies p));
  ("scope", jstrs (it_scope p));
  ("exclusions", jstrs (it_exclusions p));
  ("ownerRole", JStr (it_owner_role p));
  ("requiredPermissions", jstrs (it_required_permissions p));
  ("acceptanceCriteria", jstrs (it_acceptance_criteria p));
  ("validationCommands", jstrs (it_validation_commands p));
  ("sideEffectClass", JStr (it_side_effect_class p));
  ("evidenceRequirements", jstrs (it_evidence_requirements p));
  ("status", JStr (it_status p))].

(** *** [ProjectBootstrapManifest] *)
Record ProjectBootstrapManifest := mkProjectBootstrapManifest {
  bm_manifest_id : string;
  bm_application_id : string;
  bm_instance_id : string;
  bm_intent_digest : string;
  bm_originating_mode : OrchestratorMode;
  bm_orchestrator_profile_digest : string;
  bm_repository_relative_path : string;
  bm_repository_digest : string;
  bm_base_commit : string;
  bm_base_tree : string;
  bm_state_snapshot_digest : string;
  bm_privacy_classification : string;
  bm_inspected_files : list string;
  bm_architecture_boundaries : list string;
  bm_source_of_truth_map : list string;
  bm_risks : list string;
  bm_goal_items : list GoalItem;
  bm_proposal_only : bool;
  bm_network_used : bool;
  bm_canonical_state_effect : string;
}.

Definition ProjectBootstrapManifest_post_init (p : ProjectBootstrapManifest) : checked unit :=
  identifier (bm_manifest_id p) "bootstrap manifest id" >>?
  identifier (bm_application_id p) "application id" >>?
  identifier (bm_instance_id p) "instance id" >>?
  digest_text (bm_intent_digest p) "intent digest" >>?
  digest_text (bm_orchestrator_profile_digest p) "bootstrap orchestrator profile digest" >>?
  safe_relative_path (bm_repository_relative_path p) "repository relative path" >>?
  digest_text (bm_repository_digest p) "repository digest" >>?
  git_sha (bm_base_commit p) "base commit" >>?
  git_sha (bm_base_tree p) "base tree" >>?
  digest_text (bm_state_snapshot_digest p) "state snapshot digest" >>?
  refuse_if (negb (bool_decide (bm_privacy_classification p = "public_safe")))
    "bootstrap fixture must be explicitly public-safe" >>?
  each (fun path => safe_relative_path path "inspected file") (bm_inspected_files p) >>?
  refuse_if (bool_decide (bm_inspected_files p = [])
     || has_dups (bm_inspected_files p))
    "inspected files must be non-empty and unique" >>?
  items (bm_architecture_boundaries p) "architecture boundaries" false true >>?
  items (bm_source_of_truth_map p) "source-of-truth map" false true >>?
  items (bm_risks p) "risk register" false true >>?
  refuse_if (let n := Z.of_nat (length (bm_goal_items p)) in negb ((1 <=? n) && (n <=? 7))%Z)
    "bootstrap must produce a short strategic goal list" >>?
  let ids := map it_item_id (bm_goal_items p) in
  refuse_if (has_dups ids)
    "bootstrap goal item ids must be unique" >>?
  refuse_if (existsb (fun item => negb (subset_of (it_dependencies item) ids)) (bm_goal_items p))
    "goal dependencies must reference this bootstrap manifest" >>?
  refuse_if (negb (bm_proposal_only p) || bm_network_used p
     || negb (bool_decide (bm_canonical_state_effect p = "none")))
    "bootstrap inspection must remain offline and proposal-only" >>?
  Ok tt.

Definition ProjectBootstrapManifest_to_dict (p : ProjectBootstrapManifest) : dict := [
  ("formatVersion", JStr "stateport.project-bootstrap-manifest/v1");
  ("manifestId", JStr (bm_manifest_id p));
  ("applicationId", JStr (bm_application_id p));
  ("instanceId", JStr (bm_instance_id p));
  ("intentDigest", JStr (bm_intent_digest p));
  ("originatingMode", JStr (mode_value (bm_originating_mode p)));
  ("orchestratorProfileDigest", JStr (bm_orchestrator_profile_digest p));
  ("repository", JObj [("relativePath", JStr (bm_repository_relative_path p));
     ("digest", JStr (bm_repository_digest p)); ("baseCommit", JStr (bm_base_commit p));
     ("baseTree", JStr (bm_base_tree p));
     ("stateSnapshotDigest", JStr (bm_state_snapshot_digest p))]);
  ("privacyClassification", JStr (bm_privacy_classification p));
  ("inspectedFiles", jstrs (bm_inspected_files p));
  ("architectureBoundaries", jstrs (bm_architecture_boundaries p));
  ("sourceOfTruthMap", jstrs (bm_source_of_truth_map p));
  ("risks", jstrs (bm_risks p));
  ("goalItems", JArr (map (fun item => JObj (GoalItem_to_dict item)) (bm_goal_items p)));
  ("proposalOnly", JBool (bm_proposal_only p));
  ("networkUsed", JBool (bm_network_used p));
  ("canonicalStateEffect", JStr (bm_canonical_state_effect p))].

(** *** [GoalProposal] *)
Record GoalProposal := mkGoalProposal {
  gp_proposal_id : string;
  gp_manifest_digest : string;
  gp_intent_digest : string;
  gp_originating_mode : OrchestratorMode;
  gp_orchestrator_profile_digest : string;
  gp_proposed_by : string;
  gp_item_ids : list string;
  gp_recommended_item_id : string;
  gp_ambiguities : list string;
  gp_approval_status : string;
  gp_canonical_state_effect : string;
  gp_next_item_requires_new_approval : bool;
}.

Definition GoalProposal_post_init (p : GoalProposal) : checked unit :=
  identifier (gp_proposal_id p) "goal proposal id" >>?
  digest_text (gp_manifest_digest p) "bootstrap manifest digest" >>?
  digest_text (gp_intent_digest p) "proposal intent digest" >>?
  digest_text (gp_orchestrator_profile_digest p) "proposal orchestrator profile digest" >>?
  identifier (gp_proposed_by p) "proposal actor" >>?
  let? item_ids := items (gp_item_ids p) "proposal item ids" true true in
  identifier (gp_recommended_item_id p) "recommended item id" >>?
  refuse_if (negb (mem (gp_recommended_item_id p) item_ids))
    "recommended item must be present in the proposal" >>?
  items (gp_ambiguities p) "proposal ambiguities" false false >>?
  refuse_if (negb (bool_decide (gp_approval_status p = "unapproved"))
     || negb (bool_decide (gp_canonical_state_effect p = "none")))
    "a proposal cannot approve itself or alter canonical state" >>?
  refuse_if (negb (gp_next_item_requires_new_approval p))
    "every next item requires a new explicit approval" >>?
  Ok tt.

Definition GoalProposal_to_dict (p : GoalProposal) : dict := [
  ("formatVersion", JStr "stateport.goal-proposal/v1");
  ("proposalId", JStr (gp_proposal_id p));
  ("manifestDigest", JStr (gp_manifest_digest p));
  ("intentDigest", JStr (gp_intent_digest p));
  ("originatingMode", JStr (mode_value (gp_originating_mode p)));
  ("orchestratorProfileDigest", JStr (gp_orchestrator_profile_digest p));
  ("proposedBy", JStr (gp_proposed_by p));
  ("itemIds", jstrs (gp_item_ids p));
  ("recommendedItemId", JStr (gp_recommended_item_id p));
  ("ambiguities", jstrs (gp_ambiguities p));
  ("approvalStatus", JStr (gp_approval_status p));
  ("canonicalStateEffect", JStr (gp_canonical_state_effect p));
  ("nextItemRequiresNewApproval", JBool (gp_next_item_requires_new_approval p))].

(** *** [SlicePlan] *)
Record SlicePlan := mkSlicePlan {
  sp_plan_id : string;
  sp_application_id : string;
  sp_instance_id : string;
  sp_item_id : string;
  sp_manifest_digest : string;
  sp_proposal_digest : string;
  sp_intent_digest : string;
  sp_originating_mode : OrchestratorMode;
  sp_orchestrator_profile_digest : string;
  sp_base_commit : string;
  sp_base_tree : string;
  sp_state_snapshot_digest : string;
  sp_required_permissions : list string;
  sp_side_effect_class : string;
  sp_maximum_budget : GoalBudget;
  sp_validation_commands : list string;
  sp_contract_versions : list string;
  sp_proposed_by : string;
  sp_network_policy : string;
  sp_approval_required : bool;
}.

Definition SlicePlan_post_init (p : SlicePlan) : checked unit :=
  identifier (sp_plan_id p) "slice plan id" >>?
  identifier (sp_application_id p) "application id" >>?
  identifier (sp_instance_id p) "instance id" >>?
  identifier (sp_item_id p) "goal item id" >>?
  digest_text (sp_manifest_digest p) "manifest digest" >>?
  digest_text (sp_proposal_digest p) "proposal digest" >>?
  digest_text (sp_intent_digest p) "slice intent digest" >>?
  digest_text (sp_orchestrator_profile_digest p) "slice orchestrator profile digest" >>?
  git_sha (sp_base_commit p) "base commit" >>?
  git_sha (sp_base_tree p) "base tree" >>?
  digest_text (sp_state_snapshot_digest p) "state snapshot digest" >>?
  permissions (sp_required_permissions p) "permissions" >>?
  refuse_if (negb (mem (sp_side_effect_class p) SIDE_EFFECTS))
    "slice side-effect class is unsupported" >>?
  items (sp_validation_commands p) "slice validation commands" false true >>?
  items (sp_contract_versions p) "slice contract versions" false true >>?
  identifier (sp_proposed_by p) "slice proposer" >>?
  refuse_if (negb (bool_decide (sp_network_policy p = "disabled")) || negb (sp_approval_required p))
    "this bounded slice must be offline and approval-bound" >>?
  Ok tt.

Definition SlicePlan_to_dict (p : SlicePlan) : dict := [
  ("formatVersion", JStr "stateport.slice-plan/v1");
  ("planId", JStr (sp_plan_id p));
  ("applicationId", JStr (sp_application_id p));
  ("instanceId", JStr (sp_instance_id p));
  ("itemId", JStr (sp_item_id p));
  ("manifestDigest", JStr (sp_manifest_digest p));
  ("proposalDigest", JStr (sp_proposal_digest p));
  ("intentDigest", JStr (sp_intent_digest p));
  ("originatingMode", JStr (mode_value (sp_originating_mode p)));
  ("orchestratorProfileDigest", JStr (sp_orchestrator_profile_digest p));
  ("baseCommit", JStr (sp_base_commit p));
  ("baseTree", JStr (sp_base_tree p));
  ("stateSnapshotDigest", JStr (sp_state_snapshot_digest p));
  ("requiredPermissions", jstrs (sp_required_permissions p));
  ("sideEffectClass", JStr (sp_side_effect_class p));
  ("maximumBudget", JObj (budget_to_dict (sp_maximum_budget p)));
  ("validationCommands", jstrs (sp_validation_commands p));
  ("contractVersions", jstrs (sp_contract_versions p));
  ("proposedBy", JStr (sp_proposed_by p));
  ("networkPolicy", JStr (sp_network_policy p));
  ("approvalRequired", JBool (sp_approval_required p))].

(** *** [DelegationPlan] *)
Record DelegationPlan := mkDelegationPlan {
  dp_plan_id : string;
  dp_item_id : string;
  dp_implementer_actor : string;
  dp_reviewer_actor : string;
  dp_intended_profile : string;
  dp_actual_profile : string;
  dp_read_scope : list string;
  dp_write_scope : list string;
  dp_routing_deviation_reason : option string;
  dp_routing_deviation_invalidates_output : bool;
  dp_independent_read_only_review : bool;
}.

Definition DelegationPlan_post_init (p : DelegationPlan) : checked unit :=
  identifier (dp_plan_id p) "delegation plan id" >>?
  identifier (dp_item_id p) "goal item id" >>?
  identifier (dp_implementer_actor p) "implementer actor" >>?
  identifier (dp_reviewer_actor p) "reviewer actor" >>?
  refuse_if (bool_decide (dp_implementer_actor p = dp_reviewer_actor p))
    "implementer and independent reviewer must differ" >>?
  identifier (dp_intended_profile p) "intended profile" >>?
  identifier (dp_actual_profile p) "actual profile" >>?
  paths (dp_read_scope p) "delegation read scope" true >>?
  paths (dp_write_scope p) "delegation write scope" true >>?
  let deviated := negb (bool_decide (dp_intended_profile p = dp_actual_profile p)) in
  refuse_if (negb (Bool.eqb deviated (bool_decide (is_Some (dp_routing_deviation_reason p)))))
    "routing deviations require an exact reason and exact matches do not" >>?
  match dp_routing_deviation_reason p with
  | Some reason => text reason "routing deviation reason" 500 >>? Ok tt
  | None => Ok tt
  end >>?
  refuse_if (dp_routing_deviation_invalidates_output p)
    "routing deviation alone may not invalidate output" >>?
  refuse_if (negb (dp_independent_read_only_review p))
    "delegated work requires independent read-only review" >>?
  Ok tt.

Definition routing_deviated (p : DelegationPlan) : bool :=
  negb (bool_decide (dp_intended_profile p = dp_actual_profile p)).

Definition DelegationPlan_to_dict (p : DelegationPlan) : dict := [
  ("formatVersion", JStr "stateport.delegation-plan/v1");
  ("planId", JStr (dp_plan_id p));
  ("itemId", JStr (dp_item_id p));
  ("implementerActor", JStr (dp_implementer_actor p));
  ("reviewerActor", JStr (dp_reviewer_actor p));
  ("intendedProfile", JStr (dp_intended_profile p));
  ("actualProfile", JStr (dp_actual_profile p));
  ("readScope", jstrs (dp_read_scope p));
  ("writeScope", jstrs (dp_write_scope p));
  ("routingDeviation", JObj [("occurred", JBool (routing_deviated p));
     ("reason", jopt (dp_routing_deviation_reason p));
     ("invalidatesOutput", JBool (dp_routing_deviation_invalidates_output p))]);
  ("independentReadOnlyReview", JBool (dp_independent_read_only_review p))].

(** *** [AcceptanceContract] *)
Record AcceptanceContract := mkAcceptanceContract {
  ac_contract_id : string;
  ac_item_id : string;
  ac_criteria : list string;
  ac_validation_commands : list string;
  ac_required_contract_versions : list string;
  ac_require_clean_repository : bool;
  ac_require_receipt : bool;
}.

Definition AcceptanceContract_post_init (p : AcceptanceContract) : checked unit :=
  identifier (ac_contract_id p) "acceptance contract id" >>?
  identifier (ac_item_id p) "goal item id" >>?
  items (ac_criteria p) "acceptance criteria" false true >>?
  items (ac_validation_commands p) "acceptance validation commands" false true >>?
  items (ac_required_contract_versions p) "required contract versions" false true >>?
  refuse_if (negb (ac_require_clean_repository p) || negb (ac_require_receipt p))
    "clean repository and closure receipt are mandatory" >>?
  Ok tt.

Definition AcceptanceContract_to_dict (p : AcceptanceContract) : dict := [
  ("formatVersion", JStr "stateport.acceptance-contract/v1");
  ("contractId", JStr (ac_contract_id p));
  ("itemId", JStr (ac_item_id p));
  ("criteria", jstrs (ac_criteria p));
  ("validationCommands", jstrs (ac_validation_commands p));
  ("requiredContractVersions", jstrs (ac_required_contract_versions p));
  ("requireCleanRepository", JBool (ac_require_clean_repository p));
  ("requireReceipt", JBool (ac_require_receipt p))].

(** *** [ReviewRequirement] *)
Record ReviewRequirement := mkReviewRequirement {
  rr_requirement_id : string;
  rr_item_id : string;
  rr_acceptance_contract_digest : string;
  rr_reviewer_actor : string;
  rr_bind_exact_commit : bool;
  rr_bind_exact_tree : bool;
  rr_bind_exact_tests : bool;
  rr_bind_exact_contract_versions : bool;
  rr_independent_read_only : bool;
  rr_workspace_isolation : string;
  rr_critical : bool;
}.

Definition ReviewRequirement_post_init (p : ReviewRequirement) : checked unit :=
  identifier (rr_requirement_id p) "review requirement id" >>?
  identifier (rr_item_id p) "goal item id" >>?
  digest_text (rr_acceptance_contract_digest p) "acceptance contract digest" >>?
  identifier (rr_reviewer_actor p) "reviewer actor" >>?
  refuse_if (negb (forallb id [rr_bind_exact_commit p; rr_bind_exact_tree p; rr_bind_exact_tests p;
     rr_bind_exact_contract_versions p; rr_independent_read_only p; rr_critical p]))
    "high-risk closure requires exact independent critical review" >>?
  refuse_if (negb (bool_decide (rr_workspace_isolation p = "clean_detached_read_only_worktree")))
    "independent review requires an exact clean detached read-only worktree" >>?
  Ok tt.

Definition ReviewRequirement_to_dict (p : ReviewRequirement) : dict := [
  ("formatVersion", JStr "stateport.review-requirement/v1");
  ("requirementId", JStr (rr_requirement_id p));
  ("itemId", JStr (rr_item_id p));
  ("acceptanceContractDigest", JStr (rr_acceptance_contract_digest p));
  ("reviewerActor", JStr (rr_reviewer_actor p));
  ("bindExactCommit", JBool (rr_bind_exact_commit p));
  ("bindExactTree", JBool (rr_bind_exact_tree p));
  ("bindExactTests", JBool (rr_bind_exact_tests p));
  ("bindExactContractVersions", JBool (rr_bind_exact_contract_versions p));
  ("independentReadOnly", JBool (rr_independent_read_only p));
  ("workspaceIsolation", JStr (rr_workspace_isolation p));
  ("critical", JBool (rr_critical p))].

(** *** [ApprovalRecord] *)
Record ApprovalRecord := mkApprovalRecord {
  ar_approval_id : string;
  ar_application_id : string;
  ar_instance_id : string;
  ar_item_id : string;
  ar_plan_digest : string;
  ar_intent_digest : string;
  ar_originating_mode : OrchestratorMode;
  ar_orchestrator_profile_digest : string;
  ar_policy_digest : string;
  ar_delegation_plan_digest : string;
  ar_acceptance_contract_digest : string;
  ar_contract_versions : list string;
  ar_approver_actor : string;
  ar_base_commit : string;
  ar_base_tree : string;
  ar_state_snapshot_digest : string;
  ar_instance_lease_id : string;
  ar_instance_lease_generation : Z;
  ar_approved_permissions : list string;
  ar_approved_side_effect_class : string;
  ar_approved_budget : GoalBudget;
  ar_status : string;
  ar_explicit : bool;
}.

Definition ApprovalRecord_post_init (p : ApprovalRecord) : checked unit :=
  identifier (ar_approval_id p) "approval id" >>?
  identifier (ar_application_id p) "approved application id" >>?
  identifier (ar_instance_id p) "approved instance id" >>?
  identifier (ar_item_id p) "goal item id" >>?
  digest_text (ar_plan_digest p) "plan digest" >>?
  digest_text (ar_intent_digest p) "approved intent digest" >>?
  digest_text (ar_orchestrator_profile_digest p) "orchestrator profile digest" >>?
  digest_text (ar_policy_digest p) "goal execution policy digest" >>?
  digest_text (ar_delegation_plan_digest p) "delegation plan digest" >>?
  digest_text (ar_acceptance_contract_digest p) "acceptance contract digest" >>?
  items (ar_contract_versions p) "approved contract versions" false true >>?
  identifier (ar_approver_actor p) "approver actor" >>?
  git_sha (ar_base_commit p) "approved base commit" >>?
  git_sha (ar_base_tree p) "approved base tree" >>?
  digest_text (ar_state_snapshot_digest p) "approved state snapshot digest" >>?
  identifier (ar_instance_lease_id p) "instance approval lease id" >>?
  refuse_if ((ar_instance_lease_generation p <? 1)%Z)
    "instance approval lease generation must be positive" >>?
  permissions (ar_approved_permissions p) "approved permissions" >>?
  refuse_if (negb (mem (ar_approved_side_effect_class p) SAFE_SIDE_EFFECTS))
    "unsafe side effects cannot receive this bounded approval" >>?
  refuse_if (negb (bool_decide (ar_status p = "approved")) || negb (ar_explicit p))
    "execution requires an explicit approved record" >>?
  Ok tt.

Definition ApprovalRecord_to_dict (p : ApprovalRecord) : dict := [
  ("formatVersion", JStr "stateport.goal-approval/v1");
  ("approvalId", JStr (ar_approval_id p));
  ("applicationId", JStr (ar_application_id p));
  ("instanceId", JStr (ar_instance_id p));
  ("itemId", JStr (ar_item_id p));
  ("planDigest", JStr (ar_plan_digest p));
  ("intentDigest", JStr (ar_intent_digest p));
  ("originatingMode", JStr (mode_value (ar_originating_mode p)));
  ("orchestratorProfileDigest", JStr (ar_orchestrator_profile_digest p));
  ("policyDigest", JStr (ar_policy_digest p));
  ("delegationPlanDigest", JStr (ar_delegation_plan_digest p));
  ("acceptanceContractDigest", JStr (ar_acceptance_contract_digest p));
  ("contractVersions", jstrs (ar_contract_versions p));
  ("approverActor", JStr (ar_approver_actor p));
  ("baseCommit", JStr (ar_base_commit p));
  ("baseTree", JStr (ar_base_tree p));
  ("stateSnapshotDigest", JStr (ar_state_snapshot_digest p));
  ("instanceLeaseId", JStr (ar_instance_lease_id p));
  ("instanceLeaseGeneration", JInt (ar_instance_lease_generation p));
  ("approvedPermissions", jstrs (ar_approved_permissions p));
  ("approvedSideEffectClass", JStr (ar_approved_side_effect_class p));
  ("approvedBudget", JObj (budget_to_dict (ar_approved_budget p)));
  ("status", JStr (ar_status p));
  ("explicit", JBool (ar_explicit p))].

(** *** [ExecutionResult] *)
Record ExecutionResult := mkExecutionResult {
  er_result_id : string;
  er_item_id : string;
  er_plan_digest : string;
  er_implementer_actor : string;
  er_functional_commit : string;
  er_functional_tree : string;
  er_test_result_digest : string;
  er_contract_versions : list string;
  er_actual_permissions : list string;
  er_side_effect_class : string;
  er_used_budget : GoalBudget;
  er_tests_passed : bool;
  er_repository_clean : bool;
  er_external_side_effects_observed : bool;
}.

Definition ExecutionResult_post_init (p : ExecutionResult) : checked unit :=
  identifier (er_result_id p) "execution result id" >>?
  identifier (er_item_id p) "goal item id" >>?
  digest_text (er_plan_digest p) "plan digest" >>?
  identifier (er_implementer_actor p) "implementer actor" >>?
  git_sha (er_functional_commit p) "functional commit" >>?
  git_sha (er_functional_tree p) "functional tree" >>?
  digest_text (er_test_result_digest p) "test result digest" >>?
  items (er_contract_versions p) "execution contract versions" false true >>?
  permissions (er_actual_permissions p) "actual permissions" >>?
  refuse_if (negb (mem (er_side_effect_class p) SIDE_EFFECTS))
    "execution side-effect class is unsupported" >>?
  Ok tt.

Definition ExecutionResult_to_dict (p : ExecutionResult) : dict := [
  ("formatVersion", JStr "stateport.goal-execution-result/v1");
  ("resultId", JStr (er_result_id p));
  ("itemId", JStr (er_item_id p));
  ("planDigest", JStr (er_plan_digest p));
  ("implementerActor", JStr (er_implementer_actor p));
  ("functionalCommit", JStr (er_functional_commit p));
  ("functionalTree", JStr (er_functional_tree p));
  ("testResultDigest", JStr (er_test_result_digest p));
  ("contractVersions", jstrs (er_contract_versions p));
  ("actualPermissions", jstrs (er_actual_permissions p));
  ("sideEffectClass", JStr (er_side_effect_class p));
  ("usedBudget", JObj (budget_to_dict (er_used_budget p)));
  ("testsPassed", JBool (er_tests_passed p));
  ("repositoryClean", JBool (er_repository_clean p));
  ("externalSideEffectsObserved", JBool (er_external_side_effects_observed p))].

(** *** [ReviewWorkspaceIsolation] *)
Record ReviewWorkspaceIsolation := mkReviewWorkspaceIsolation {
  ri_evidence_id : string;
  ri_reviewer_actor : string;
  ri_implementation_workspace_digest : string;
  ri_review_workspace_digest : string;
  ri_functional_commit : string;
  ri_functional_tree : string;
  ri_verifier_id : string;
  ri_workspace_isolation : string;
  ri_head_detached : bool;
  ri_workspace_clean : bool;
  ri_filesystem_read_only : bool;
  ri_separate_from_implementation : bool;
}.

Definition ReviewWorkspaceIsolation_post_init (p : ReviewWorkspaceIsolation) : checked unit :=
  identifier (ri_evidence_id p) "review isolation evidence id" >>?
  identifier (ri_reviewer_actor p) "review isolation actor" >>?
  digest_text (ri_implementation_workspace_digest p) "implementation workspace digest" >>?
  digest_text (ri_review_workspace_digest p) "review workspace digest" >>?
  refuse_if (bool_decide (ri_implementation_workspace_digest p = ri_review_workspace_digest p))
    "review and implementation workspaces must have distinct identities" >>?
  git_sha (ri_functional_commit p) "isolated review commit" >>?
  git_sha (ri_functional_tree p) "isolated review tree" >>?
  refuse_if (negb (bool_decide (ri_verifier_id p = "stateport.review-workspace-verifier.v1")))
    "review isolation verifier is unsupported" >>?
  refuse_if (negb (bool_decide (ri_workspace_isolation p = "clean_detached_read_only_worktree")))
    "review isolation must be clean, detached and read-only" >>?
  refuse_if (negb (forallb id [ri_head_detached p; ri_workspace_clean p; ri_filesystem_read_only p;
     ri_separate_from_implementation p]))
    "review isolation evidence must prove every isolation property" >>?
  Ok tt.

Definition ReviewWorkspaceIsolation_to_dict (p : ReviewWorkspaceIsolation) : dict := [
  ("formatVersion", JStr "stateport.review-workspace-isolation/v1");
  ("evidenceId", JStr (ri_evidence_id p));
  ("reviewerActor", JStr (ri_reviewer_actor p));
  ("implementationWorkspaceDigest", JStr (ri_implementation_workspace_digest p));
  ("reviewWorkspaceDigest", JStr (ri_review_workspace_digest p));
  ("functionalCommit", JStr (ri_functional_commit p));
  ("functionalTree", JStr (ri_functional_tree p));
  ("verifierId", JStr (ri_verifier_id p));
  ("workspaceIsolation", JStr (ri_workspace_isolation p));
  ("headDetached", JBool (ri_head_detached p));
  ("workspaceClean", JBool (ri_workspace_clean p));
  ("filesystemReadOnly", JBool (ri_filesystem_read_only p));
  ("separateFromImplementation", JBool (ri_separate_from_implementation p))].

(** *** [ReviewRecord] *)
Record ReviewRecord := mkReviewRecord {
  rv_review_id : string;
  rv_item_id : string;
  rv_reviewer_actor : string;
  rv_functional_commit : string;
  rv_functional_tree : string;
  rv_test_result_digest : string;
  rv_acceptance_contract_digest : string;
  rv_isolation_evidence_digest : string;
  rv_contract_versions : list string;
  rv_disposition : string;
  rv_critical_findings : list string;
  rv_read_only : bool;
  rv_workspace_identity : string;
  rv_workspace_clean : bool;
  rv_owned_original_implementation : bool;
}.

Definition ReviewRecord_post_init (p : ReviewRecord) : checked unit :=
  identifier (rv_review_id p) "review id" >>?
  identifier (rv_item_id p) "goal item id" >>?
  identifier (rv_reviewer_actor p) "reviewer actor" >>?
  git_sha (rv_functional_commit p) "reviewed commit" >>?
  git_sha (rv_functional_tree p) "reviewed tree" >>?
  digest_text (rv_test_result_digest p) "reviewed test result digest" >>?
  digest_text (rv_acceptance_contract_digest p) "reviewed acceptance contract digest" >>?
  digest_text (rv_isolation_evidence_digest p) "review isolation evidence digest" >>?
  items (rv_contract_versions p) "reviewed contract versions" false true >>?
  refuse_if (negb (mem (rv_disposition p) REVIEW_DISPOSITIONS))
    "review disposition is unsupported" >>?
  items (rv_critical_findings p) "critical review findings" false false >>?
  refuse_if (negb (rv_read_only p))
    "independent acceptance must be read-only" >>?
  refuse_if (negb (bool_decide (rv_workspace_identity p = "clean_detached_read_only_worktree")))
    "review workspace must use the exact clean detached read-only isolation" >>?
  refuse_if (negb (rv_workspace_clean p) || rv_owned_original_implementation p)
    "independent acceptance requires a clean workspace and separate ownership" >>?
  refuse_if (negb (bool_decide (rv_disposition p = "rejected_with_reproduced_defects"))
     && negb (bool_decide (rv_critical_findings p = [])))
    "accepted review cannot contain critical findings" >>?
  refuse_if (bool_decide (rv_disposition p = "rejected_with_reproduced_defects")
     && negb (negb (bool_decide (rv_critical_findings p = []))))
    "rejection requires a concrete reproduced defect" >>?
  Ok tt.

Definition ReviewRecord_to_dict (p : ReviewRecord) : dict := [
  ("formatVersion", JStr "stateport.goal-review/v1");
  ("reviewId", JStr (rv_review_id p));
  ("itemId", JStr (rv_item_id p));
  ("reviewerActor", JStr (rv_reviewer_actor p));
  ("functionalCommit", JStr (rv_functional_commit p));
  ("functionalTree", JStr (rv_functional_tree p));
  ("testResultDigest", JStr (rv_test_result_digest p));
  ("acceptanceContractDigest", JStr (rv_acceptance_contract_digest p));
  ("isolationEvidenceDigest", JStr (rv_isolation_evidence_digest p));
  ("contractVersions", jstrs (rv_contract_versions p));
  ("disposition", JStr (rv_disposition p));
  ("criticalFindings", jstrs (rv_critical_findings p));
  ("readOnly", JBool (rv_read_only p));
  ("workspaceIdentity", JStr (rv_workspace_identity p));
  ("workspaceClean", JBool (rv_workspace_clean p));
  ("ownedOriginalImplementation", JBool (rv_owned_original_implementation p))].

Definition accepted (p : ReviewRecord) : bool :=
  mem (rv_disposition p) ["accepted"; "accepted_with_bounded_followups"].

(** *** [ClosureDecision] *)
Record ClosureDecision := mkClosureDecision {
  cd_decision_id : string;
  cd_item_id : string;
  cd_decided_by : string;
  cd_status : string;
  cd_functional_commit : string;
  cd_functional_tree : string;
  cd_test_result_digest : string;
  cd_review_digest : string;
  cd_reasons : list string;
}.

Definition ClosureDecision_post_init (p : ClosureDecision) : checked unit :=
  identifier (cd_decision_id p) "closure decision id" >>?
  identifier (cd_item_id p) "goal item id" >>?
  identifier (cd_decided_by p) "closure authority" >>?
  refuse_if (negb (mem (cd_status p) CLOSURE_STATUSES))
    "closure status is unsupported" >>?
  git_sha (cd_functional_commit p) "closure commit" >>?
  git_sha (cd_functional_tree p) "closure tree" >>?
  digest_text (cd_test_result_digest p) "closure test result digest" >>?
  digest_text (cd_review_digest p) "closure review digest" >>?
  items (cd_reasons p) "closure reasons" false true >>?
  Ok tt.

Definition ClosureDecision_to_dict (p : ClosureDecision) : dict := [
  ("formatVersion", JStr "stateport.closure-decision/v1");
  ("decisionId", JStr (cd_decision_id p));
  ("itemId", JStr (cd_item_id p));
  ("decidedBy", JStr (cd_decided_by p));
  ("status", JStr (cd_status p));
  ("functionalCommit", JStr (cd_functional_commit p));
  ("functionalTree", JStr (cd_functional_tree p));
  ("testResultDigest", JStr (cd_test_result_digest p));
  ("reviewDigest", JStr (cd_review_digest p));
  ("reasons", jstrs (cd_reasons p))].

(** *** [GoalExecutionReceipt] *)
Record GoalExecutionReceipt := mkGoalExecutionReceipt {
  gr_receipt_id : string;
  gr_application_id : string;
  gr_instance_id : string;
  gr_item_id : string;
  gr_approval_digest : string;
  gr_execution_result_digest : string;
  gr_review_digest : string;
  gr_closure_decision_digest : string;
  gr_routing_deviation_retained : bool;
  gr_next_item_status : string;
  gr_canonical_state_effect : string;
}.

Definition GoalExecutionReceipt_post_init (p : GoalExecutionReceipt) : checked unit :=
  identifier (gr_receipt_id p) "receipt id" >>?
  identifier (gr_application_id p) "application id" >>?
  identifier (gr_instance_id p) "instance id" >>?
  identifier (gr_item_id p) "goal item id" >>?
  digest_text (gr_approval_digest p) "approval digest" >>?
  digest_text (gr_execution_result_digest p) "execution result digest" >>?
  digest_text (gr_review_digest p) "review digest" >>?
  digest_text (gr_closure_decision_digest p) "closure decision digest" >>?
  refuse_if (negb (bool_decide (gr_next_item_status p = "stopped_unapproved")))
    "receipt must stop before an unapproved next item" >>?
  refuse_if (negb (bool_decide (gr_canonical_state_effect p = "none")))
    "this provider-free proof cannot mutate canonical state" >>?
  Ok tt.

Definition GoalExecutionReceipt_to_dict (p : GoalExecutionReceipt) : dict := [
  ("formatVersion", JStr "stateport.goal-execution-receipt/v1");
  ("receiptId", JStr (gr_receipt_id p));
  ("applicationId", JStr (gr_application_id p));
  ("instanceId", JStr (gr_instance_id p));
  ("itemId", JStr (gr_item_id p));
  ("approvalDigest", JStr (gr_approval_digest p));
  ("executionResultDigest", JStr (gr_execution_result_digest p));
  ("reviewDigest", JStr (gr_review_digest p));
  ("closureDecisionDigest", JStr (gr_closure_decision_digest p));
  ("routingDeviationRetained", JBool (gr_routing_deviation_retained p));
  ("nextItemStatus", JStr (gr_next_item_status p));
  ("canonicalStateEffect", JStr (gr_canonical_state_effect p))].

(** ** The interface, implemented by every record *)

Lemma mode_value_inj m1 m2 : mode_value m1 = mode_value m2 -> m1 = m2.
Proof. destruct m1, m2; simpl; congruence. Qed.

Lemma modes_inj l1 l2 : map mode_value l1 = map mode_value l2 -> l1 = l2.
Proof.
  revert l2. induction l1 as [|m l1 IH]; intros [|m2 l2] [=]; [done|].
  f_equal; [by apply mode_value_inj|auto].
Qed.

Lemma budget_inj b1 b2 :
  norm (JObj (budget_to_dict b1)) = norm (JObj (budget_to_dict b2)) -> b1 = b2.
Proof.
  unfold budget_to_dict, budget_values. cbn [map fst snd]. intros H. same_fields_in H.
  split_fields. destruct b1, b2. simpl in *. by subst.
Qed.

Lemma budget_secret_free b : secret_free (JObj (budget_to_dict b)) = true.
Proof. reflexivity. Qed.

Lemma goal_items_inj l1 l2 :
  norm (JArr (map (fun item => JObj (GoalItem_to_dict item)) l1))
  = norm (JArr (map (fun item => JObj (GoalItem_to_dict item)) l2)) -> l1 = l2.
Proof. apply jarr_inj. faithful. Qed.

Lemma goal_items_secret_free l :
  secret_free (JArr (map (fun item => JObj (GoalItem_to_dict item)) l)) = true.
Proof. apply secret_free_map. secret_free. Qed.

Ltac split_extra ::=
  match goal with
  | H : norm (JObj (budget_to_dict _)) = _ |- _ => apply budget_inj in H
  | H : norm (JArr (map _ _)) = norm (JArr (map _ _)) |- _ => apply goal_items_inj in H
  | H : mode_value _ = mode_value _ |- _ => apply mode_value_inj in H
  | H : map mode_value _ = map mode_value _ |- _ => apply modes_inj in H
  end.

Ltac contract :=
  match goal with
  | |- forall _, exists _, _ => intros []; eexists; reflexivity
  | |- forall _, NoDup _ => intros []; refine (bool_decide_unpack _ _); vm_compute; exact I
  | |- forall _, secret_free _ = true => secret_free; apply goal_items_secret_free
  | |- forall _ _, _ -> _ = _ => faithful
  end.

#[export] Instance GoalExecutionIntent_contract : Contract GoalExecutionIntent.
Proof.
  refine {| format := "stateport.goal-execution/v1"; to_dict := GoalExecutionIntent_to_dict; post_init := GoalExecutionIntent_post_init |}; contract.
Defined.

#[export] Instance OrchestratorProfile_contract : Contract OrchestratorProfile.
Proof.
  refine {| format := "stateport.orchestrator-profile/v1"; to_dict := OrchestratorProfile_to_dict; post_init := OrchestratorProfile_post_init |}; contract.
Defined.

#[export] Instance CtoModePolicy_contract : Contract CtoModePolicy.
Proof.
  refine {| format := "stateport.cto-mode-policy/v1"; to_dict := CtoModePolicy_to_dict; post_init := CtoModePolicy_post_init |}; contract.
Defined.

#[export] Instance GoalItem_contract : Contract GoalItem.
Proof.
  refine {| format := "stateport.goal-item/v1"; to_dict := GoalItem_to_dict; post_init := GoalItem_post_init |}; contract.
Defined.

#[export] Instance ProjectBootstrapManifest_contract : Contract ProjectBootstrapManifest.
Proof.
  refine {| format := "stateport.project-bootstrap-manifest/v1"; to_dict := ProjectBootstrapManifest_to_dict; post_init := ProjectBootstrapManifest_post_init |}; contract.
Defined.

#[export] Instance GoalProposal_contract : Contract GoalProposal.
Proof.
  refine {| format := "stateport.goal-proposal/v1"; to_dict := GoalProposal_to_dict; post_init := GoalProposal_post_init |}; contract.
Defined.

#[export] Instance SlicePlan_contract : Contract SlicePlan.
Proof.
  refine {| format := "stateport.slice-plan/v1"; to_dict := SlicePlan_to_dict; post_init := SlicePlan_post_init |}; contract.
Defined.

#[export] Instance DelegationPlan_contract : Contract DelegationPlan.
Proof.
  refine {| format := "stateport.delegation-plan/v1"; to_dict := DelegationPlan_to_dict; post_init := DelegationPlan_post_init |}; contract.
Defined.

#[export] Instance AcceptanceContract_contract : Contract AcceptanceContract.
Proof.
  refine {| format := "stateport.acceptance-contract/v1"; to_dict := AcceptanceContract_to_dict; post_init := AcceptanceContract_post_init |}; contract.
Defined.

#[export] Instance ReviewRequirement_contract : Contract ReviewRequirement.
Proof.
  refine {| format := "stateport.review-requirement/v1"; to_dict := ReviewRequirement_to_dict; post_init := ReviewRequirement_post_init |}; contract.
Defined.

#[export] Instance ApprovalRecord_contract : Contract ApprovalRecord.
Proof.
  refine {| format := "stateport.goal-approval/v1"; to_dict := ApprovalRecord_to_dict; post_init := ApprovalRecord_post_init |}; contract.
Defined.

#[export] Instance ExecutionResult_contract : Contract ExecutionResult.
Proof.
  refine {| format := "stateport.goal-execution-result/v1"; to_dict := ExecutionResult_to_dict; post_init := ExecutionResult_post_init |}; contract.
Defined.

#[export] Instance ReviewWorkspaceIsolation_contract : Contract ReviewWorkspaceIsolation.
Proof.
  refine {| format := "stateport.review-workspace-isolation/v1"; to_dict := ReviewWorkspaceIsolation_to_dict; post_init := ReviewWorkspaceIsolation_post_init |}; contract.
Defined.

#[export] Instance ReviewRecord_contract : Contract ReviewRecord.
Proof.
  refine {| format := "stateport.goal-review/v1"; to_dict := ReviewRecord_to_dict; post_init := ReviewRecord_post_init |}; contract.
Defined.

#[export] Instance ClosureDecision_contract : Contract ClosureDecision.
Proof.
  refine {| format := "stateport.closure-decision/v1"; to_dict := ClosureDecision_to_dict; post_init := ClosureDecision_post_init |}; contract.
Defined.

#[export] Instance GoalExecutionReceipt_contract : Contract GoalExecutionReceipt.
Proof.
  refine {| format := "stateport.goal-execution-receipt/v1"; to_dict := GoalExecutionReceipt_to_dict; post_init := GoalExecutionReceipt_post_init |}; contract.
Defined.

(** ** Digests *)

Section digests.
Context {A B : Type} `{Contract A} `{Contract B}.

(** The document whose hash is the digest. *)
Definition digest_document {X} `{Contract X} (x : X) : string :=
  encode (canonical (JObj (to_dict x))).

(** Every contract has a digest, and the digest is one the contracts'
    own [_digest] validator accepts unchanged: binding one contract inside
    another never fails for the digest's form. *)
Theorem contract_digest_accepted (a : A) (label : string) :
  exists d, contract_digest a = Ok d /\ digest_text d label = Ok d.
Proof.
  exists (digest a). split; [apply contract_digest_Ok|].
  apply canonical_digest_text.
Qed.

(** C5 A digest identifies the contract it was computed from: two records of
    one type with the same digest are equal in every field, unless SHA-256
    collides on their two documents. *)
Theorem contract_digest_binds (a b : A) :
  contract_digest a = contract_digest b ->
  collision_free [digest_document a; digest_document b] -> a = b.
Proof.
  intros Hd%contract_digest_inv Hcf.
  apply to_dict_faithful. exact (canonical_digest_inj _ _ Hd Hcf).
Qed.

(** Digests of records of different formats differ: a digest of a plan can
    not be passed off as one of a review, say. *)
Theorem contract_digest_separates (a : A) (b : B) :
  contract_digest a = contract_digest b ->
  collision_free [digest_document a; digest_document b] ->
  format (A := A) = format (A := B).
Proof.
  intros Hd%contract_digest_inv Hcf.
  pose proof (canonical_digest_inj _ _ Hd Hcf) as Hn. clear Hd.
  destruct (to_dict_format a) as [r1 H1], (to_dict_format b) as [r2 H2].
  exact (same_format _ _ _ _ _ _ H1 H2 (to_dict_keys a) (to_dict_keys b) Hn).
Qed.
End digests.

(** *** A sample *)

Definition sample_intent : GoalExecutionIntent :=
  mkGoalExecutionIntent "intent-1" "app-1" "instance-1" "user:alice" "tidy the README"
    ASSISTED true "none".

Example sample_intent_valid : validb sample_intent = true.
Proof. vm_compute. reflexivity. Qed.

Lemma contract_digest_binds_witness :
  collision_free [digest_document sample_intent; digest_document sample_intent]
  /\ sample_intent = sample_intent.
Proof. split; [apply collision_free_same|]. apply contract_digest_binds; [done|apply collision_free_same].
Defined.

Lemma contract_digest_separates_witness :
  collision_free [digest_document sample_intent; digest_document sample_intent]
  /\ format (A := GoalExecutionIntent) = format (A := GoalExecutionIntent).
Proof. split; [apply collision_free_same|]. apply (contract_digest_separates sample_intent sample_intent); [done|apply collision_free_same].
Defined.


(** ** Budgets *)

Lemma fits_within_spec a b :
  fits_within a b = true <->
  (gb_token a <= gb_token b /\ gb_cost_minor a <= gb_cost_minor b /\
   gb_time_seconds a <= gb_time_seconds b /\ gb_steps a <= gb_steps b)%Z.
Proof.
  unfold fits_within. cbn. rewrite !andb_true_iff, !Z.leb_le. tauto.
Qed.

(** [fits_within] is a partial order on budgets, componentwise; so the
    budget a result used fits every ceiling that the approval it was checked
    against fits. *)
Theorem fits_within_partial_order :
  (forall a b, fits_within a b = true <->
     (gb_token a <= gb_token b /\ gb_cost_minor a <= gb_cost_minor b /\
      gb_time_seconds a <= gb_time_seconds b /\ gb_steps a <= gb_steps b)%Z) /\
  PartialOrder (fun a b => fits_within a b = true).
Proof.
  split; [exact fits_within_spec|].
  split; [split|].
  - intros a. apply fits_within_spec. lia.
  - intros a b c. rewrite !fits_within_spec. lia.
  - intros [] []. rewrite !fits_within_spec. simpl. intros. f_equal; lia.
Qed.

(** ** Bootstrap manifests *)

(** C6 A bootstrap manifest that exists lists one to seven goals with distinct
    ids, every dependency of a goal is a goal of the same manifest, and it claims
    neither network use nor an effect on canonical state. *)
Theorem bootstrap_manifest_closed (m : ProjectBootstrapManifest) :
  valid m ->
  (1 <= length (bm_goal_items m) <= 7)%nat /\
  NoDup (map it_item_id (bm_goal_items m)) /\
  (forall item d, item ∈ bm_goal_items m -> d ∈ it_dependencies item ->
     exists other, other ∈ bm_goal_items m /\ it_item_id other = d) /\
  bm_proposal_only m = true /\ bm_network_used m = false /\
  bm_canonical_state_effect m = "none".
Proof.
  unfold valid. cbn [post_init ProjectBootstrapManifest_contract].
  unfold ProjectBootstrapManifest_post_init. cbv zeta. intros H.
  repeat (inv_ok_step; subst).
  split_bool. repeat split; try done; try lia; [by apply has_dups_false|].
  intros item d Hitem Hd.
  match goal with H : existsb _ _ = false |- _ => rename H into Hdeps end.
  rewrite existsb_false in Hdeps. specialize (Hdeps item Hitem).
  apply negb_false_iff in Hdeps. rewrite subset_of_spec in Hdeps.
  apply Hdeps, list_elem_of_fmap in Hd as (other & -> & ?). eauto.
Qed.

Definition hex_digest (c : string) : string :=
  "sha256:" +:+ foldr (fun _ s => c +:+ s) "" (seq 0 64).
Definition hex_sha (c : string) : string := foldr (fun _ s => c +:+ s) "" (seq 0 40).

Definition sample_item : GoalItem :=
  mkGoalItem "item-1" "development" "tidy the README" "readers find the entry point" []
    ["README.md"] ["src"] "implementer" ["docs.write"] ["links resolve"] ["make docs"]
    "none" ["test log"] "proposed".

Definition sample_profile : OrchestratorProfile :=
  mkOrchestratorProfile "profile-1" "app-1" "orchestrator:o" ASSISTED "goal_execution"
    "development" 1 false false.

Definition sample_manifest : ProjectBootstrapManifest := Eval vm_compute in
  mkProjectBootstrapManifest "manifest-1" "app-1" "instance-1" (digest sample_intent) ASSISTED
    (digest sample_profile) "fixtures/app" (hex_digest "a") (hex_sha "b") (hex_sha "c")
    (hex_digest "d") "public_safe" ["actions.yaml"; "application.yaml"] ["docs only"]
    ["application.yaml"] ["stale links"] [sample_item] true false "none".

Lemma bootstrap_manifest_closed_witness :
  valid sample_manifest /\ NoDup (map it_item_id (bm_goal_items sample_manifest)).
Proof.
  assert (H : valid sample_manifest) by (vm_compute; reflexivity).
  split; [exact H|]. destruct (bootstrap_manifest_closed sample_manifest H) as (_ & Hnd & _).
  exact Hnd.
Defined.

(** ** Spelling of actors

    The validators strip a value and check the stripped text, but the record
    keeps the text it was given, and identities are compared as given. *)

Definition padded_delegation : DelegationPlan :=
  mkDelegationPlan "plan-1" "item-1" "agent:x" "agent:x " "fast" "fast" ["docs"] ["docs"]
    None false true.

(** The separation of implementer and reviewer is one of spelling: there is
    a valid delegation plan whose two actors are the same identifier once
    stripped, as the validators strip it. *)
Theorem delegation_separation_is_by_spelling :
  exists p, valid p /\
  identifier (dp_implementer_actor p) "implementer actor"
  = identifier (dp_reviewer_actor p) "implementer actor" /\
  dp_implementer_actor p <> dp_reviewer_actor p.
Proof. exists padded_delegation. repeat split; vm_compute; congruence. Qed.
