(* ===== verification/GoalSession.v ===== *)
(** * The goal-execution session (packages/goal-execution, service.py)

    The registry of instance approval leases, shared by every session of a
    process, and the session that takes one proposed item through approval,
    execution, review and closure.  A method runs on the pair of a session and
    the registry, and keeps what it changed before it raises.  [digest c] stands
    for the [digest] property, which never raises ([contract_digest_Ok]).
    [GovernanceRefusal] keeps its code, message and terminal flag. *)

From S2P Require Import Prelude Json Sha256 GoalContracts GoalRecords.

(** ** States, refusals and leases *)

Inductive GoalExecutionState :=
| PROPOSAL_READY | APPROVED | EXECUTING | AWAITING_REVIEW | REVIEWED | CLOSED | STOPPED.
#[export] Instance GoalExecutionState_eq_dec : EqDecision GoalExecutionState.
Proof. solve_decision. Defined.

Definition state_value (s : GoalExecutionState) : string :=
  match s with
  | PROPOSAL_READY => "proposal_ready"
  | APPROVED => "approved"
  | EXECUTING => "executing"
  | AWAITING_REVIEW => "awaiting_independent_review"
  | REVIEWED => "independently_reviewed"
  | CLOSED => "closed"
  | STOPPED => "stopped"
  end.

Inductive failure :=
| GovernanceRefusal (code message : string) (terminal : bool)
| GoalContractError (message : string)
| ValueError (message : string)
| AssertionError
| GuardFailed (message : string).

Record StopRecord := mkStopRecord {
  st_code : string;
  st_message : string;
  st_state_before_stop : string;
}.

Definition StopRecord_to_dict (r : StopRecord) : dict := [
  ("formatVersion", JStr "stateport.goal-execution-stop/v1");
  ("code", JStr (st_code r));
  ("message", JStr (st_message r));
  ("stateBeforeStop", JStr (st_state_before_stop r))].

Record InstanceApprovalLease := mkInstanceApprovalLease {
  lease_id : string;
  lease_generation : Z;
  lease_application_id : string;
  lease_instance_id : string;
  lease_plan_digest : string;
  lease_base_commit : string;
  lease_base_tree : string;
  lease_state_snapshot_digest : string;
}.
#[export] Instance InstanceApprovalLease_eq_dec : EqDecision InstanceApprovalLease.
Proof. solve_decision. Defined.

Definition lease_to_dict (l : InstanceApprovalLease) : dict := [
  ("formatVersion", JStr "stateport.goal-instance-approval-lease/v1");
  ("leaseId", JStr (lease_id l));
  ("generation", JInt (lease_generation l));
  ("applicationId", JStr (lease_application_id l));
  ("instanceId", JStr (lease_instance_id l));
  ("planDigest", JStr (lease_plan_digest l));
  ("baseCommit", JStr (lease_base_commit l));
  ("baseTree", JStr (lease_base_tree l));
  ("stateSnapshotDigest", JStr (lease_state_snapshot_digest l))].

Definition lease_key (l : InstanceApprovalLease) : string * string :=
  (lease_application_id l, lease_instance_id l).

(** ** The registry *)

Record Registry := mkRegistry {
  active : gmap (string * string) (InstanceApprovalLease * string);
  generations : gmap (string * string) Z;
  owner_sequence : Z;
}.

Definition empty_registry : Registry := mkRegistry ∅ ∅ 0.

Definition owner_name (n : Z) : string := "goal-session-" +:+ pretty n.

Definition allocate_owner (r : Registry) : Registry * string :=
  let n := (owner_sequence r + 1)%Z in
  (mkRegistry (active r) (generations r) n, owner_name n).

(** [canonical_digest(seed).split(":", 1)[1][:24]] *)
Definition short_digest (seed : dict) : string :=
  String.substring 7 24 (canonical_digest (JObj seed)).

Definition acquire (owner application_id instance_id plan_digest base_commit base_tree
    state_snapshot_digest : string) (r : Registry) : Registry * option InstanceApprovalLease :=
  let key := (application_id, instance_id) in
  match active r !! key with
  | Some _ => (r, None)
  | None =>
      let generation := (default 0 (generations r !! key) + 1)%Z in
      let seed := [
        ("applicationId", JStr application_id);
        ("instanceId", JStr instance_id);
        ("generation", JInt generation);
        ("planDigest", JStr plan_digest);
        ("baseCommit", JStr base_commit);
        ("baseTree", JStr base_tree);
        ("stateSnapshotDigest", JStr state_snapshot_digest)] in
      let lease := mkInstanceApprovalLease ("instance-lease-" +:+ short_digest seed) generation
        application_id instance_id plan_digest base_commit base_tree state_snapshot_digest in
      (mkRegistry (<[key := (lease, owner)]> (active r)) (<[key := generation]> (generations r))
         (owner_sequence r), Some lease)
  end.

Definition is_active (lease : InstanceApprovalLease) (owner : string) (r : Registry) : bool :=
  bool_decide (active r !! lease_key lease = Some (lease, owner)).

Definition release (lease : InstanceApprovalLease) (owner : string) (r : Registry) : Registry * bool :=
  if is_active lease owner r
  then (mkRegistry (delete (lease_key lease) (active r)) (generations r) (owner_sequence r), true)
  else (r, false).

Definition active_for (application_id instance_id : string) (r : Registry)
    : option InstanceApprovalLease :=
  fst <$> active r !! (application_id, instance_id).

(** ** The session *)

(** The contracts a session is built from; they never change. *)
Record Setup := mkSetup {
  profile : OrchestratorProfile;
  policy : CtoModePolicy;
  manifest : ProjectBootstrapManifest;
  proposal : GoalProposal;
  plan : SlicePlan;
  delegation : DelegationPlan;
  acceptance : AcceptanceContract;
  review_requirement : ReviewRequirement;
  capabilities : gset string;
}.

Record Session := mkSession {
  setup : Setup;
  effective_capabilities : list string;
  effective_policy_digest : string;
  lease_owner : string;
  instance_lease : option InstanceApprovalLease;
  state : GoalExecutionState;
  approval : option ApprovalRecord;
  execution_result : option ExecutionResult;
  review : option ReviewRecord;
  closure : option ClosureDecision;
  receipt : option GoalExecutionReceipt;
  stop_record : option StopRecord;
}.

Definition with_lease l (s : Session) : Session :=
  mkSession (setup s) (effective_capabilities s) (effective_policy_digest s) (lease_owner s) l
    (state s) (approval s) (execution_result s) (review s) (closure s) (receipt s) (stop_record s).
Definition with_state st (s : Session) : Session :=
  mkSession (setup s) (effective_capabilities s) (effective_policy_digest s) (lease_owner s)
    (instance_lease s) st (approval s) (execution_result s) (review s) (closure s) (receipt s)
    (stop_record s).
Definition with_approval a (s : Session) : Session :=
  mkSession (setup s) (effective_capabilities s) (effective_policy_digest s) (lease_owner s)
    (instance_lease s) (state s) a (execution_result s) (review s) (closure s) (receipt s)
    (stop_record s).
Definition with_result r (s : Session) : Session :=
  mkSession (setup s) (effective_capabilities s) (effective_policy_digest s) (lease_owner s)
    (instance_lease s) (state s) (approval s) r (review s) (closure s) (receipt s) (stop_record s).
Definition with_review r (s : Session) : Session :=
  mkSession (setup s) (effective_capabilities s) (effective_policy_digest s) (lease_owner s)
    (instance_lease s) (state s) (approval s) (execution_result s) r (closure s) (receipt s)
    (stop_record s).
Definition with_closure c r (s : Session) : Session :=
  mkSession (setup s) (effective_capabilities s) (effective_policy_digest s) (lease_owner s)
    (instance_lease s) (state s) (approval s) (execution_result s) (review s) c r (stop_record s).
Definition with_stop r (s : Session) : Session :=
  mkSession (setup s) (effective_capabilities s) (effective_policy_digest s) (lease_owner s)
    (instance_lease s) (state s) (approval s) (execution_result s) (review s) (closure s)
    (receipt s) r.

(** [__init__]: the checks, in order. *)
Definition check_setup (u : Setup) : outcome string unit :=
  let '(mkSetup profile policy manifest proposal plan delegation acceptance requirement caps) := u in
  refuse_if (negb (bool_decide (op_mode profile ∈ cp_allowed_modes policy)))
    "orchestrator mode is not permitted by policy" >>?
  refuse_if (negb (bool_decide (op_application_id profile = bm_application_id manifest))
             || negb (bool_decide (sp_application_id plan = bm_application_id manifest)))
    "orchestrator, manifest and plan application identities differ" >>?
  refuse_if (negb (bool_decide (sp_instance_id plan = bm_instance_id manifest)))
    "manifest and plan instance identities differ" >>?
  refuse_if (negb (bool_decide (sp_manifest_digest plan = digest manifest))
             || negb (bool_decide (gp_manifest_digest proposal = digest manifest)))
    "bootstrap manifest identity does not match the proposal or slice" >>?
  refuse_if (negb (bool_decide (sp_proposal_digest plan = digest proposal)))
    "slice plan is not bound to the proposal" >>?
  refuse_if (negb (
      bool_decide (bm_intent_digest manifest = gp_intent_digest proposal)
      && bool_decide (gp_intent_digest proposal = sp_intent_digest plan)
      && (bool_decide (bm_originating_mode manifest = gp_originating_mode proposal)
          && bool_decide (gp_originating_mode proposal = sp_originating_mode plan)
          && bool_decide (sp_originating_mode plan = op_mode profile))
      && (bool_decide (bm_orchestrator_profile_digest manifest = gp_orchestrator_profile_digest proposal)
          && bool_decide (gp_orchestrator_profile_digest proposal = sp_orchestrator_profile_digest plan)
          && bool_decide (sp_orchestrator_profile_digest plan = digest profile))))
    "originating intent, mode and profile require a fresh governed proposal" >>?
  refuse_if (negb (bool_decide (sp_item_id plan = gp_recommended_item_id proposal)))
    "this bounded session may contain only the recommended item" >>?
  match List.find (fun item => bool_decide (it_item_id item = sp_item_id plan)) (bm_goal_items manifest) with
  | None => Raise "slice item is not present in the bootstrap manifest"
  | Some selected_item =>
      refuse_if (negb (bool_decide (it_domain selected_item = op_goal_domain profile)))
        "orchestrator profile and goal item domains differ"
  end >>?
  refuse_if (negb (bool_decide (dp_item_id delegation = sp_item_id plan))
             || negb (bool_decide (ac_item_id acceptance = sp_item_id plan))
             || negb (bool_decide (rr_item_id requirement = sp_item_id plan)))
    "goal execution contracts are bound to different items" >>?
  refuse_if (negb (bool_decide (rr_acceptance_contract_digest requirement = digest acceptance)))
    "review requirement is not bound to the acceptance contract" >>?
  refuse_if (negb (bool_decide (rr_reviewer_actor requirement = dp_reviewer_actor delegation)))
    "delegation and review requirement name different reviewers" >>?
  refuse_if (mem (dp_reviewer_actor delegation)
               [op_orchestrator_actor profile; sp_proposed_by plan; dp_implementer_actor delegation])
    "independent reviewer may not own proposal, orchestration or implementation" >>?
  refuse_if (negb (bool_decide (ac_required_contract_versions acceptance = sp_contract_versions plan)))
    "acceptance contract versions do not match the slice plan" >>?
  let missing := list_to_set (required_capabilities profile) ∖ caps in
  refuse_if (negb (bool_decide (missing = ∅)))
    ("independently resolved goal capabilities are required: "
       +:+ String.concat ", " (sorted_set missing)).

Definition new_session (u : Setup) : M Registry failure Session := fun r =>
  match check_setup u with
  | Raise e => (r, Raise (ValueError e))
  | Ok _ =>
      let effective := sorted_set (capabilities u) in
      let '(r', owner) := allocate_owner r in
      (r', Ok (mkSession u effective
        (canonical_digest (JObj [
           ("goalExecutionPolicy", JObj (to_dict (policy u)));
           ("effectiveCapabilities", jstrs effective)]))
        owner None PROPOSAL_READY None None None None None None))
  end.

(** *** Refusals and the lease *)

Definition Run (A : Type) := M (Session * Registry) failure A.

Definition self : Run Session := gets fst.
Definition on_session (f : Session -> Session) : Run unit := modify (fun '(s, r) => (f s, r)).
Definition on_registry {A} (f : Registry -> Registry * A) : Run A :=
  fun '(s, r) => let '(r', a) := f r in ((s, r'), Ok a).

Definition release_instance_lease : Run unit :=
  let* s := self in
  match instance_lease s with
  | None => ret tt
  | Some lease =>
      on_registry (release lease (lease_owner s)) >>*
      on_session (with_lease None)
  end.

Definition ended (st : GoalExecutionState) : bool :=
  bool_decide (st ∈ [CLOSED; STOPPED]).

Definition refuse {A} (code message : string) (terminal : bool) : Run A :=
  let* s := self in
  (if terminal && negb (ended (state s)) then
     let prior := state_value (state s) in
     on_session (with_state STOPPED) >>*
     on_session (with_stop (Some (mkStopRecord code message prior))) >>*
     release_instance_lease
   else ret tt) >>*
  raise (GovernanceRefusal code message terminal).

Definition refuse_when (b : bool) (code message : string) (terminal : bool) : Run unit :=
  if b then refuse code message terminal else ret tt.

Definition require_instance_lease : Run InstanceApprovalLease :=
  let* s := self in
  let* r := gets snd in
  match instance_lease s with
  | Some lease =>
      if is_active lease (lease_owner s) r then ret lease
      else refuse "instance_approval_lease_lost"
             "the instance-scoped approval lease is no longer active" true
  | None => refuse "instance_approval_lease_lost"
              "the instance-scoped approval lease is no longer active" true
  end.

Definition expect (expected : GoalExecutionState) : Run unit :=
  let* s := self in
  refuse_when (negb (bool_decide (state s = expected))) "invalid_state_transition"
    ("operation requires " +:+ state_value expected +:+ "; current state is "
       +:+ state_value (state s)) false.

Definition asserted {A} (o : option A) : Run A :=
  match o with Some a => ret a | None => raise AssertionError end.

(** Building a contract: its checks run before it exists. *)
Definition construct {A} `{Contract A} (a : A) : Run A :=
  match post_init a with
  | Ok _ => ret a
  | Raise e => raise (GoalContractError e)
  end.

(** *** Operations *)

Definition set_minus (a b : list string) : bool := negb (subset_of a b).

(** The approval [approve] builds, before its checks run. *)
Definition approval_record (u : Setup) (policy_digest : string) (lease : InstanceApprovalLease)
    (actor base_commit base_tree snapshot_digest : string) (permissions : list string)
    (effect : string) (budget : GoalBudget) : ApprovalRecord :=
  let approval_seed := [
    ("plan", JStr (digest (plan u)));
    ("intent", JStr (sp_intent_digest (plan u)));
    ("originatingMode", JStr (mode_value (sp_originating_mode (plan u))));
    ("profile", JStr (digest (profile u)));
    ("policy", JStr policy_digest);
    ("delegation", JStr (digest (delegation u)));
    ("acceptance", JStr (digest (acceptance u)));
    ("actor", JStr actor);
    ("baseCommit", JStr base_commit);
    ("baseTree", JStr base_tree);
    ("state", JStr snapshot_digest);
    ("instanceLease", JObj (lease_to_dict lease))] in
  mkApprovalRecord ("approval-" +:+ short_digest approval_seed)
    (sp_application_id (plan u)) (sp_instance_id (plan u)) (sp_item_id (plan u))
    (digest (plan u)) (sp_intent_digest (plan u)) (sp_originating_mode (plan u))
    (digest (profile u)) policy_digest (digest (delegation u)) (digest (acceptance u))
    (sp_contract_versions (plan u)) actor base_commit base_tree snapshot_digest
    (lease_id lease) (lease_generation lease) (merge_sort String.le permissions) effect budget
    "approved" true.

Definition approve (actor expected_plan_digest current_base_commit current_base_tree
    current_state_snapshot_digest : string) (approved_permissions : list string)
    (approved_side_effect_class : string) (approved_budget : GoalBudget) : Run ApprovalRecord :=
  expect PROPOSAL_READY >>*
  let* s := self in
  let u := setup s in
  refuse_when (bool_decide (op_mode (profile u) ∈ [OFF; ADVISORY]))
    "mode_does_not_permit_execution"
    (mode_value (op_mode (profile u)) +:+ " mode may propose but may not approve execution") false >>*
  refuse_when (negb (bool_decide (gp_ambiguities (proposal u) = []))) "ambiguous_scope"
    "ambiguous scope requires human clarification" true >>*
  refuse_when (mem actor [op_orchestrator_actor (profile u); sp_proposed_by (plan u);
                          dp_implementer_actor (delegation u); dp_reviewer_actor (delegation u)])
    "self_approval_forbidden" "work owners and reviewers may not approve their own slice" false >>*
  refuse_when (negb (bool_decide (expected_plan_digest = digest (plan u))))
    "plan_identity_mismatch" "approval does not bind the exact slice plan" false >>*
  refuse_when (negb (bool_decide (current_base_commit = sp_base_commit (plan u)))
               || negb (bool_decide (current_base_tree = sp_base_tree (plan u))))
    "base_drift" "repository base changed before approval" true >>*
  refuse_when (negb (bool_decide (current_state_snapshot_digest = sp_state_snapshot_digest (plan u))))
    "base_drift" "canonical state snapshot changed before approval" true >>*
  refuse_when (set_minus approved_permissions (sp_required_permissions (plan u)))
    "permission_increase" "approval attempted to add permissions" true >>*
  refuse_when (negb (same_set approved_permissions (sp_required_permissions (plan u))))
    "approval_binding_mismatch" "approval must bind the plan's exact permission set" false >>*
  refuse_when (negb (mem approved_side_effect_class SAFE_SIDE_EFFECTS))
    "external_side_effect" "external or unknown effects require a different governed path" true >>*
  refuse_when (negb (bool_decide (approved_side_effect_class = sp_side_effect_class (plan u))))
    "approval_binding_mismatch" "approval must bind the plan's exact side-effect class" false >>*
  refuse_when (negb (bool_decide (approved_budget = sp_maximum_budget (plan u))))
    "approval_binding_mismatch" "approval must bind the plan's exact budget" false >>*
  let* acquired := on_registry (acquire (lease_owner s) (sp_application_id (plan u))
    (sp_instance_id (plan u)) (digest (plan u)) current_base_commit current_base_tree
    current_state_snapshot_digest) in
  match acquired with
  | None => refuse "instance_approval_conflict" "another approved item already owns this instance" false
  | Some lease =>
      on_session (with_lease (Some lease)) >>*
      let record := approval_record u (effective_policy_digest s) lease actor current_base_commit
        current_base_tree current_state_snapshot_digest approved_permissions
        approved_side_effect_class approved_budget in
      match post_init record with
      | Raise e => release_instance_lease >>* raise (GoalContractError e)
      | Ok _ =>
          on_session (with_approval (Some record)) >>*
          on_session (with_state APPROVED) >>*
          ret record
      end
  end.

Definition begin_execution (actor current_base_commit current_base_tree
    current_state_snapshot_digest current_orchestrator_profile_digest current_policy_digest
    current_delegation_plan_digest : string) (actual_permissions : list string)
    (side_effect_class : string) (current_budget_ceiling : GoalBudget)
    (ambiguity_detected : bool) : Run unit :=
  let* s0 := self in
  refuse_when (bool_decide (approval s0 = None)) "unapproved_item"
    "execution requires an explicit exact approval" false >>*
  expect APPROVED >>*
  let* s := self in
  let u := setup s in
  let* a := asserted (approval s) in
  let* lease := require_instance_lease in
  refuse_when (negb (bool_decide (lease_id lease = ar_instance_lease_id a))
               || negb (bool_decide (lease_generation lease = ar_instance_lease_generation a)))
    "instance_approval_lease_lost" "approval and instance lease identities differ" true >>*
  refuse_when (negb (bool_decide (actor = dp_implementer_actor (delegation u))))
    "implementer_identity_mismatch" "execution actor does not match the delegation plan" false >>*
  refuse_when ambiguity_detected "ambiguous_scope" "execution discovered ambiguous scope" true >>*
  refuse_when (negb (bool_decide (current_base_commit = ar_base_commit a))
               || negb (bool_decide (current_base_tree = ar_base_tree a))
               || negb (bool_decide (current_state_snapshot_digest = ar_state_snapshot_digest a)))
    "base_drift" "approved repository or state identity drifted" true >>*
  refuse_when
    (negb (bool_decide (current_orchestrator_profile_digest = ar_orchestrator_profile_digest a))
     || negb (bool_decide (current_policy_digest = ar_policy_digest a))
     || negb (bool_decide (current_delegation_plan_digest = ar_delegation_plan_digest a)))
    "policy_drift" "approved profile, policy or delegation identity drifted" true >>*
  refuse_when (set_minus actual_permissions (ar_approved_permissions a))
    "permission_increase" "execution attempted to gain permissions" true >>*
  refuse_when (negb (mem side_effect_class SAFE_SIDE_EFFECTS)
               || negb (bool_decide (side_effect_class = ar_approved_side_effect_class a)))
    "external_side_effect" "execution side-effect boundary changed" true >>*
  refuse_when (negb (fits_within (ar_approved_budget a) current_budget_ceiling))
    "budget_exceeded" "current budget no longer covers the approved slice" true >>*
  on_session (with_state EXECUTING).

Definition record_execution (result : ExecutionResult) : Run unit :=
  expect EXECUTING >>*
  let* s := self in
  let u := setup s in
  let* a := asserted (approval s) in
  require_instance_lease >>*
  refuse_when (negb (bool_decide (er_item_id result = sp_item_id (plan u)))
               || negb (bool_decide (er_plan_digest result = digest (plan u))))
    "execution_identity_mismatch" "execution result is not bound to the approved item and plan" true >>*
  refuse_when (negb (bool_decide (er_implementer_actor result = dp_implementer_actor (delegation u))))
    "implementer_identity_mismatch" "execution result names an unexpected implementer" true >>*
  refuse_when (set_minus (er_actual_permissions result) (ar_approved_permissions a))
    "permission_increase" "execution result records unapproved permissions" true >>*
  refuse_when (er_external_side_effects_observed result
               || negb (mem (er_side_effect_class result) SAFE_SIDE_EFFECTS)
               || negb (bool_decide (er_side_effect_class result = ar_approved_side_effect_class a)))
    "external_side_effect" "execution observed an unapproved external side effect" true >>*
  refuse_when (negb (fits_within (er_used_budget result) (ar_approved_budget a)))
    "budget_exceeded" "execution exceeded the approved budget" true >>*
  refuse_when (negb (bool_decide (er_contract_versions result = sp_contract_versions (plan u))))
    "contract_version_mismatch" "execution used different contract versions" true >>*
  refuse_when (negb (er_tests_passed result) || negb (er_repository_clean result))
    "acceptance_failed" "execution did not pass validation with a clean repository" true >>*
  on_session (with_result (Some result)) >>*
  on_session (with_state AWAITING_REVIEW).

(** [verify] is [verify_review_workspace] at the two worktrees: it gets the
    reviewer and the expected commit and tree, and returns isolation evidence or
    raises. *)
Definition submit_review (rv : ReviewRecord)
    (verify : string -> string -> string -> outcome string ReviewWorkspaceIsolation) : Run unit :=
  expect AWAITING_REVIEW >>*
  let* s := self in
  let u := setup s in
  let* er := asserted (execution_result s) in
  let* a := asserted (approval s) in
  require_instance_lease >>*
  refuse_when (mem (rv_reviewer_actor rv)
                 [op_orchestrator_actor (profile u); sp_proposed_by (plan u);
                  dp_implementer_actor (delegation u); ar_approver_actor a]
               || negb (bool_decide (rv_reviewer_actor rv = rr_reviewer_actor (review_requirement u))))
    "reviewer_not_independent" "reviewer does not satisfy role separation" true >>*
  match verify (rv_reviewer_actor rv) (er_functional_commit er) (er_functional_tree er) with
  | Raise _ => refuse "review_isolation_invalid"
                 "StatePort could not verify the required review-workspace isolation" true
  | Ok isolation =>
      let exact_binding :=
        bool_decide (rv_item_id rv = er_item_id er)
        && bool_decide (rv_functional_commit rv = er_functional_commit er)
        && bool_decide (rv_functional_tree rv = er_functional_tree er)
        && bool_decide (rv_test_result_digest rv = er_test_result_digest er)
        && bool_decide (rv_acceptance_contract_digest rv = digest (acceptance u))
        && bool_decide (rv_contract_versions rv = er_contract_versions er)
        && bool_decide (rv_isolation_evidence_digest rv = digest isolation)
        && bool_decide (ri_reviewer_actor isolation = rv_reviewer_actor rv)
        && bool_decide (ri_functional_commit isolation = rv_functional_commit rv)
        && bool_decide (ri_functional_tree isolation = rv_functional_tree rv)
        && bool_decide (ri_workspace_isolation isolation = rr_workspace_isolation (review_requirement u)) in
      refuse_when (negb exact_binding) "review_binding_mismatch"
        "review must bind the exact commit, tree, tests, acceptance contract and versions" true >>*
      on_session (with_review (Some rv)) >>*
      refuse_when (negb (accepted rv)) "critical_review_failed"
        "independent critical review reproduced a defect" true >>*
      on_session (with_state REVIEWED)
  end.

(** [closure_guard] is the outcome of the callback, [None] when there is none. *)
Definition close (decided_by : string) (closure_guard : option (outcome string bool))
    : Run (ClosureDecision * GoalExecutionReceipt) :=
  expect REVIEWED >>*
  require_instance_lease >>*
  let* s := self in
  let u := setup s in
  let* a := asserted (approval s) in
  let* er := asserted (execution_result s) in
  let* rv := asserted (review s) in
  refuse_when (mem decided_by
                 [op_orchestrator_actor (profile u); sp_proposed_by (plan u);
                  dp_implementer_actor (delegation u); rv_reviewer_actor rv; ar_approver_actor a])
    "closure_authority_not_independent" "closure authority must be independent of slice roles" false >>*
  let closure_seed := [
    ("itemId", JStr (sp_item_id (plan u)));
    ("result", JStr (digest er));
    ("review", JStr (digest rv));
    ("decidedBy", JStr decided_by)] in
  let* closure := construct (mkClosureDecision ("closure-" +:+ short_digest closure_seed)
    (sp_item_id (plan u)) decided_by "closed" (er_functional_commit er) (er_functional_tree er)
    (er_test_result_digest er) (digest rv)
    ["acceptance criteria passed"; "independent exact-identity review accepted"]) in
  let receipt_seed := [
    ("approval", JStr (digest a));
    ("execution", JStr (digest er));
    ("review", JStr (digest rv));
    ("closure", JStr (digest closure))] in
  let* receipt := construct (mkGoalExecutionReceipt ("receipt-" +:+ short_digest receipt_seed)
    (sp_application_id (plan u)) (sp_instance_id (plan u)) (sp_item_id (plan u)) (digest a)
    (digest er) (digest rv) (digest closure) (routing_deviated (delegation u))
    "stopped_unapproved" "none") in
  match closure_guard with
  | Some (Raise e) => raise (GuardFailed e)
  | Some (Ok false) => refuse "base_drift" "repository identity changed at the closure boundary" true
  | Some (Ok true) | None => ret tt
  end >>*
  on_session (with_closure (Some closure) (Some receipt)) >>*
  on_session (with_state CLOSED) >>*
  release_instance_lease >>*
  ret (closure, receipt).

Definition request_next_item (item_id : string) : Run unit :=
  refuse "next_item_unapproved"
    "the protocol stops before the next item; prepare and approve a fresh exact slice" false.

Definition stop (code message : string) : Run unit := refuse code message true.

Definition jcontract {A} `{Contract A} (o : option A) : json :=
  match o with Some a => JObj (to_dict a) | None => JNull end.

Definition snapshot (s : Session) : dict := [
  ("formatVersion", JStr "stateport.goal-execution-session/v1");
  ("state", JStr (state_value (state s)));
  ("mode", JStr (mode_value (op_mode (profile (setup s)))));
  ("effectiveCapabilities", jstrs (effective_capabilities s));
  ("effectivePolicyDigest", JStr (effective_policy_digest s));
  ("itemId", JStr (sp_item_id (plan (setup s))));
  ("proposalDigest", JStr (digest (proposal (setup s))));
  ("planDigest", JStr (digest (plan (setup s))));
  ("approval", jcontract (approval s));
  ("instanceApprovalLease",
     match instance_lease s with Some l => JObj (lease_to_dict l) | None => JNull end);
  ("executionResult", jcontract (execution_result s));
  ("review", jcontract (review s));
  ("closure", jcontract (closure s));
  ("receipt", jcontract (receipt s));
  ("stop", match stop_record s with Some r => JObj (StopRecord_to_dict r) | None => JNull end);
  ("nextItemRequiresNewApproval", JBool true);
  ("backgroundLoop", JBool false);
  ("canonicalStateEffect", JStr "none")].

(** ** Many sessions over one registry *)

Inductive Op :=
| Approve (actor plan_digest commit tree snapshot : string) (permissions : list string)
    (effect : string) (budget : GoalBudget)
| Begin (actor commit tree snapshot profile policy delegation : string)
    (permissions : list string) (effect : string) (ceiling : GoalBudget) (ambiguous : bool)
| RecordExecution (result : ExecutionResult)
| SubmitReview (rv : ReviewRecord)
    (verify : string -> string -> string -> outcome string ReviewWorkspaceIsolation)
| Close (decided_by : string) (guard : option (outcome string bool))
| RequestNext (item_id : string)
| Stop (code message : string).

Definition run_op (o : Op) : Run unit :=
  match o with
  | Approve a p c t n ps e b => approve a p c t n ps e b >>* ret tt
  | Begin a c t n pr po d ps e b amb => begin_execution a c t n pr po d ps e b amb
  | RecordExecution r => record_execution r
  | SubmitReview rv v => submit_review rv v
  | Close d g => close d g >>* ret tt
  | RequestNext i => request_next_item i
  | Stop c m => stop c m
  end.

Record World := mkWorld { registry : Registry; sessions : list Session }.
Definition empty_world : World := mkWorld empty_registry [].

Inductive Call := Create (u : Setup) | On (i : nat) (o : Op).

Definition world_step (w : World) (c : Call) : World :=
  match c with
  | Create u =>
      match new_session u (registry w) with
      | (r, Ok s) => mkWorld r (sessions w ++ [s])
      | (r, Raise _) => mkWorld r (sessions w)
      end
  | On i o =>
      match sessions w !! i with
      | None => w
      | Some s => let '((s', r), _) := run_op o (s, registry w) in
                  mkWorld r (<[i := s']> (sessions w))
      end
  end.

(** ** What a session promises *)

Definition holding (st : GoalExecutionState) : bool :=
  bool_decide (st ∈ [APPROVED; EXECUTING; AWAITING_REVIEW; REVIEWED]).

Definition plan_key (u : Setup) : string * string :=
  (sp_application_id (plan u), sp_instance_id (plan u)).

(** The lease and the state agree. *)
Definition lease_ok (s : Session) (r : Registry) : Prop :=
  match instance_lease s with
  | Some l => holding (state s) = true /\ lease_key l = plan_key (setup s) /\
      active r !! lease_key l = Some (l, lease_owner s)
  | None => holding (state s) = false
  end /\
  forall k l, active r !! k = Some (l, lease_owner s) -> instance_lease s = Some l /\ k = lease_key l.

(** The approval binds the exact plan, by someone outside the work. *)
Definition approval_bound (u : Setup) (a : ApprovalRecord) : Prop :=
  ar_plan_digest a = digest (plan u) /\
  (ar_approver_actor a ∉ [op_orchestrator_actor (profile u); sp_proposed_by (plan u);
    dp_implementer_actor (delegation u); dp_reviewer_actor (delegation u)]) /\
  (ar_base_commit a = sp_base_commit (plan u) /\ ar_base_tree a = sp_base_tree (plan u) /\
   ar_state_snapshot_digest a = sp_state_snapshot_digest (plan u)) /\
  (forall p, p ∈ ar_approved_permissions a <-> p ∈ sp_required_permissions (plan u)) /\
  ar_approved_side_effect_class a = sp_side_effect_class (plan u) /\
  sp_side_effect_class (plan u) ∈ SAFE_SIDE_EFFECTS /\
  ar_approved_budget a = sp_maximum_budget (plan u) /\
  (op_mode (profile u) ∉ [OFF; ADVISORY]) /\ gp_ambiguities (proposal u) = [].

(** The result stays inside the approval and passed. *)
Definition result_bound (u : Setup) (a : ApprovalRecord) (er : ExecutionResult) : Prop :=
  er_item_id er = sp_item_id (plan u) /\ er_plan_digest er = digest (plan u) /\
  er_implementer_actor er = dp_implementer_actor (delegation u) /\
  (forall p, p ∈ er_actual_permissions er -> p ∈ sp_required_permissions (plan u)) /\
  er_external_side_effects_observed er = false /\
  er_side_effect_class er = sp_side_effect_class (plan u) /\
  fits_within (er_used_budget er) (sp_maximum_budget (plan u)) = true /\
  er_contract_versions er = sp_contract_versions (plan u) /\
  er_tests_passed er = true /\ er_repository_clean er = true.

(** The review accepts exactly that result, by someone outside the work. *)
Definition review_bound (u : Setup) (a : ApprovalRecord) (er : ExecutionResult) (rv : ReviewRecord)
    : Prop :=
  rv_reviewer_actor rv = rr_reviewer_actor (review_requirement u) /\
  (rv_reviewer_actor rv ∉ [op_orchestrator_actor (profile u); sp_proposed_by (plan u);
    dp_implementer_actor (delegation u); ar_approver_actor a]) /\
  rv_item_id rv = er_item_id er /\
  rv_functional_commit rv = er_functional_commit er /\
  rv_functional_tree rv = er_functional_tree er /\
  rv_test_result_digest rv = er_test_result_digest er /\
  rv_acceptance_contract_digest rv = digest (acceptance u) /\
  (exists isolation, rv_isolation_evidence_digest rv = digest isolation /\
     ri_functional_commit isolation = er_functional_commit er /\
     ri_functional_tree isolation = er_functional_tree er) /\
  accepted rv = true.

Definition closure_bound (u : Setup) (a : ApprovalRecord) (er : ExecutionResult) (rv : ReviewRecord)
    (c : ClosureDecision) (g : GoalExecutionReceipt) : Prop :=
  (cd_decided_by c ∉ [op_orchestrator_actor (profile u); sp_proposed_by (plan u);
    dp_implementer_actor (delegation u); rv_reviewer_actor rv; ar_approver_actor a]) /\
  cd_functional_commit c = er_functional_commit er /\
  cd_functional_tree c = er_functional_tree er /\
  cd_review_digest c = digest rv /\
  gr_approval_digest g = digest a /\ gr_execution_result_digest g = digest er /\
  gr_review_digest g = digest rv /\ gr_closure_decision_digest g = digest c /\
  gr_next_item_status g = "stopped_unapproved" /\ valid c /\ valid g.

(** The evidence a session holds in each state. *)
Definition approved_with (s : Session) a : Prop :=
  approval s = Some a /\ approval_bound (setup s) a.
Definition executed_with (s : Session) a er : Prop :=
  approved_with s a /\ execution_result s = Some er /\ result_bound (setup s) a er.
Definition reviewed_with (s : Session) a er rv : Prop :=
  executed_with s a er /\ review s = Some rv /\ review_bound (setup s) a er rv.
Definition closed_with (s : Session) a er rv c g : Prop :=
  reviewed_with s a er rv /\ closure s = Some c /\ receipt s = Some g /\
  closure_bound (setup s) a er rv c g.

Definition evidence (s : Session) : Prop :=
  match state s with
  | PROPOSAL_READY => approval s = None
  | APPROVED | EXECUTING => exists a, approved_with s a
  | AWAITING_REVIEW => exists a er, executed_with s a er
  | REVIEWED => exists a er rv, reviewed_with s a er rv
  | CLOSED => exists a er rv c g, closed_with s a er rv c g
  | STOPPED => is_Some (stop_record s)
  end.

(** The transitions the protocol has. *)
Inductive edge : GoalExecutionState -> GoalExecutionState -> Prop :=
| edge_stay st : edge st st
| edge_approve : edge PROPOSAL_READY APPROVED
| edge_begin : edge APPROVED EXECUTING
| edge_record : edge EXECUTING AWAITING_REVIEW
| edge_review : edge AWAITING_REVIEW REVIEWED
| edge_close : edge REVIEWED CLOSED
| edge_stop st : ended st = false -> edge st STOPPED.

(** Leases of other owners, and the owner counter, are untouched. *)
Definition frame (owner : string) (r r' : Registry) : Prop :=
  owner_sequence r' = owner_sequence r /\
  forall k l o, o <> owner ->
    (active r !! k = Some (l, o) <-> active r' !! k = Some (l, o)).

Definition session_inv (sr : Session * Registry) : Prop :=
  lease_ok sr.1 sr.2 /\ evidence sr.1.

(** What one operation guarantees of the pair it leaves. *)
Definition good (sr sr' : Session * Registry) : Prop :=
  session_inv sr' /\ setup sr'.1 = setup sr.1 /\ lease_owner sr'.1 = lease_owner sr.1 /\
  frame (lease_owner sr.1) sr.2 sr'.2 /\ edge (state sr.1) (state sr'.1).

(** The state a refusal leaves. *)
Definition refused (code message : string) (terminal : bool) (sr : Session * Registry)
    : Session * Registry :=
  let '(s, r) := sr in
  if terminal && negb (ended (state s)) then
    (with_lease None (with_stop (Some (mkStopRecord code message (state_value (state s))))
       (with_state STOPPED s)),
     match instance_lease s with Some l => fst (release l (lease_owner s) r) | None => r end)
  else (s, r).

(** How an operation that raised has left things: a plain refusal changes
    nothing; a terminal one stops the session and gives its lease back; a
    contract that fails its checks, or a failing guard, leaves the session as it
    was.  The code's assertions never fail. *)
Definition refusal_effect (sr : Session * Registry) (e : failure) (sr' : Session * Registry) : Prop :=
  match e with
  | GovernanceRefusal code message false => sr' = sr
  | GovernanceRefusal code message true =>
      if ended (state sr.1) then sr' = sr
      else state sr'.1 = STOPPED /\ instance_lease sr'.1 = None /\
           stop_record sr'.1 = Some (mkStopRecord code message (state_value (state sr.1)))
  | GoalContractError _ | GuardFailed _ => sr'.1 = sr.1
  | ValueError _ | AssertionError => False
  end.

Definition failed (sr : Session * Registry) (e : failure) (sr' : Session * Registry) : Prop :=
  good sr sr' /\ refusal_effect sr e sr'.

(** ** Lemmas *)

Lemma refuse_run {A} code message terminal sr :
  @refuse A code message terminal sr
  = (refused code message terminal sr, Raise (GovernanceRefusal code message terminal)).
Proof.
  destruct sr as [s r]. unfold refuse, self. rewrite bind_gets. cbn [fst]. unfold refused.
  destruct (terminal && negb (ended (state s))); [|done].
  unfold release_instance_lease, bind, on_session, modify, self, gets, on_registry, release.
  cbn. destruct (instance_lease s) as [l|] eqn:Hl; cbn.
  - destruct (is_active l (lease_owner s) r); cbn; done.
  - destruct s; simpl in *; subst; done.
Qed.

Lemma wp_refuse {A} code message terminal (Q : A -> _ -> Prop) (R : failure -> _ -> Prop) sr :
  R (GovernanceRefusal code message terminal) (refused code message terminal sr) ->
  wp (refuse code message terminal) Q R sr.
Proof. unfold wp. by rewrite refuse_run. Qed.

Lemma wp_refuse_when b code message terminal (Q : unit -> _ -> Prop) (R : failure -> _ -> Prop) sr :
  (b = true -> R (GovernanceRefusal code message terminal) (refused code message terminal sr)) ->
  (b = false -> Q tt sr) -> wp (refuse_when b code message terminal) Q R sr.
Proof. destruct b; intros H1 H2; [by apply wp_refuse, H1|by apply wp_ret, H2]. Qed.

Lemma frame_refl o r : frame o r r.
Proof. split; [done|]. tauto. Qed.

Lemma good_refl sr : session_inv sr -> good sr sr.
Proof. intros H. split; [done|]. do 2 (split; [done|]). split; [apply frame_refl|apply edge_stay]. Qed.

Lemma release_own l o r :
  active r !! lease_key l = Some (l, o) ->
  release l o r = (mkRegistry (delete (lease_key l) (active r)) (generations r) (owner_sequence r), true).
Proof. intros H. unfold release, is_active. by rewrite bool_decide_eq_true_2. Qed.

(** Giving the lease back leaves none of the owner's, and nobody else's lease
    changes. *)
Lemma lease_returned o r l :
  active r !! lease_key l = Some (l, o) ->
  (forall k l', active r !! k = Some (l', o) -> k = lease_key l) ->
  frame o r (fst (release l o r)) /\
  forall s', instance_lease s' = None -> lease_owner s' = o -> holding (state s') = false ->
    lease_ok s' (fst (release l o r)).
Proof.
  intros Hact Honly. rewrite release_own by done. cbn [fst]. split; [split; [done|]|].
  - intros k l' o' Hne. cbn [active]. destruct (decide (k = lease_key l)) as [->|Hk].
    + rewrite lookup_delete_eq, Hact. split; congruence.
    + by rewrite lookup_delete_ne.
  - intros s' Hn Ho Hst'. unfold lease_ok. rewrite Hn, Ho, Hst'. split; [done|].
    intros k l' Hk. cbn [active] in Hk. apply lookup_delete_Some in Hk as [Hne Hk].
    apply Honly in Hk as ->. congruence.
Qed.

Lemma lease_ok_held s r l : lease_ok s r -> instance_lease s = Some l ->
  active r !! lease_key l = Some (l, lease_owner s) /\
  forall k l', active r !! k = Some (l', lease_owner s) -> k = lease_key l.
Proof.
  intros [Hl Hown] Hs. rewrite Hs in Hl. destruct Hl as (_ & _ & Hact). split; [done|].
  intros k l' Hk. apply Hown in Hk as [Hk ->]. congruence.
Qed.

Lemma lease_kept s r s' :
  lease_ok s r -> instance_lease s' = instance_lease s -> lease_owner s' = lease_owner s ->
  setup s' = setup s -> holding (state s') = holding (state s) -> lease_ok s' r.
Proof. unfold lease_ok. intros H -> -> -> ->. exact H. Qed.

Lemma not_ended_holding st : ended st = false -> st = PROPOSAL_READY \/ holding st = true.
Proof. destruct st; vm_compute; auto. Qed.

(** A refusal, terminal or not, keeps everything a session promises. *)
Lemma good_refused code message terminal sr : session_inv sr -> good sr (refused code message terminal sr).
Proof.
  intros Hinv. destruct sr as [s r]. unfold refused.
  destruct (terminal && negb (ended (state s))) eqn:E; [|by apply good_refl].
  split_bool. destruct Hinv as [Hl He]. cbn [fst snd] in *.
  assert (Hedge : edge (state s) STOPPED) by by apply edge_stop.
  destruct (instance_lease s) as [l|] eqn:Hs.
  - destruct (lease_ok_held s r l Hl Hs) as [Hact Honly].
    destruct (lease_returned _ r l Hact Honly) as [Hf Hok].
    split; [split|]; cbn; [by apply Hok|by eexists|]. done.
  - split; [split|]; cbn; [|by eexists|].
    + destruct Hl as [_ Hown]. split; [done|]. cbn. intros k l' Hk. apply Hown in Hk. by rewrite Hs in Hk.
    + split; [done|]. split; [done|]. split; [apply frame_refl|done].
Qed.

Lemma refused_effect code message terminal sr :
  refusal_effect sr (GovernanceRefusal code message terminal) (refused code message terminal sr).
Proof.
  destruct sr as [s r]. unfold refusal_effect, refused. cbn [fst].
  destruct terminal; cbn [andb]; [|done]. by destruct (ended (state s)).
Qed.

Lemma failed_refused code message terminal sr :
  session_inv sr -> failed sr (GovernanceRefusal code message terminal) (refused code message terminal sr).
Proof. intros H. split; [by apply good_refused|apply refused_effect]. Qed.

Lemma wp_expect st (Q : unit -> _ -> Prop) (R : failure -> _ -> Prop) sr :
  (forall c m, R (GovernanceRefusal c m false) sr) -> (state sr.1 = st -> Q tt sr) ->
  wp (expect st) Q R sr.
Proof.
  intros HR HQ. unfold expect, self. apply wp_bind, wp_gets, wp_refuse_when; intros E; split_bool.
  - destruct sr. apply HR.
  - auto.
Qed.

(** The lease of a session in a holding state is never lost. *)
Lemma wp_require_lease (Q : InstanceApprovalLease -> _ -> Prop) (R : failure -> _ -> Prop) sr :
  lease_ok sr.1 sr.2 -> holding (state sr.1) = true ->
  (forall l, instance_lease sr.1 = Some l -> Q l sr) -> wp require_instance_lease Q R sr.
Proof.
  intros [Hl _] Hh HQ. destruct sr as [s r]. cbn [fst snd] in *.
  unfold require_instance_lease, self. apply wp_bind, wp_gets, wp_bind, wp_gets. cbn [fst snd].
  destruct (instance_lease s) as [l|]; [|congruence]. destruct Hl as (_ & _ & Hact).
  unfold is_active. rewrite bool_decide_eq_true_2 by done. apply wp_ret; auto.
Qed.

Lemma wp_asserted {A} (o : option A) a (Q : A -> _ -> Prop) (R : failure -> _ -> Prop) sr :
  o = Some a -> Q a sr -> wp (asserted o) Q R sr.
Proof. intros -> HQ. by apply wp_ret. Qed.

Lemma wp_on_session f (Q : unit -> _ -> Prop) (R : failure -> _ -> Prop) s r :
  Q tt (f s, r) -> wp (on_session f) Q R (s, r).
Proof. done. Qed.

Lemma wp_self (Q : Session -> _ -> Prop) (R : failure -> _ -> Prop) sr :
  Q sr.1 sr -> wp self Q R sr.
Proof. done. Qed.

(** Walking through an operation whose refusals all keep the promises. *)
Ltac op_step :=
  match goal with
  | |- wp self _ _ _ => apply wp_self; cbn [fst]
  | |- wp (refuse_when _ _ _ _) _ _ _ =>
      apply wp_refuse_when; intros ?; [by apply failed_refused|]
  | |- wp (refuse _ _ _) _ _ _ => apply wp_refuse; by apply failed_refused
  | |- wp (expect _) _ _ _ => apply wp_expect; [by intros; split; [apply good_refl|]|]; cbn [fst]; intros ?
  | |- wp (on_session _) _ _ _ => apply wp_on_session
  | |- wp (bind _ _) _ _ _ => apply wp_bind
  | |- wp (ret _) _ _ _ => apply wp_ret
  | |- wp (raise _) _ _ _ => apply wp_raise
  end.

(** What [acquire] does to the registry, for an owner that holds nothing. *)
Lemma acquire_new o app inst pd bc bt sn r r' l :
  acquire o app inst pd bc bt sn r = (r', Some l) ->
  (forall k l', active r !! k <> Some (l', o)) ->
  active r !! (app, inst) = None /\ frame o r r' /\ lease_key l = (app, inst) /\
  active r' !! (app, inst) = Some (l, o) /\
  (forall k l', active r' !! k = Some (l', o) -> l' = l /\ k = (app, inst)).
Proof.
  unfold acquire. destruct (active r !! (app, inst)) eqn:E; [done|]. cbv zeta.
  generalize (short_digest [
        ("applicationId", JStr app); ("instanceId", JStr inst);
        ("generation", JInt (default 0 (generations r !! (app, inst)) + 1)%Z);
        ("planDigest", JStr pd); ("baseCommit", JStr bc); ("baseTree", JStr bt);
        ("stateSnapshotDigest", JStr sn)]).
  intros d [= <- <-] Hno. cbn [active lease_key]. split; [done|]. split; [split; [done|]|].
  - intros k l o' Hne. cbn [active]. destruct (decide (k = (app, inst))) as [->|Hk].
    + rewrite lookup_insert_eq, E. split; congruence.
    + by rewrite lookup_insert_ne.
  - split; [done|]. split; [by rewrite lookup_insert_eq|].
    intros k l' Hk. destruct (decide (k = (app, inst))) as [->|Hne].
    + rewrite lookup_insert_eq in Hk. by injection Hk.
    + rewrite lookup_insert_ne in Hk by done. by apply Hno in Hk.
Qed.

Lemma acquire_taken o app inst pd bc bt sn r r' :
  acquire o app inst pd bc bt sn r = (r', None) -> r' = r /\ is_Some (active r !! (app, inst)).
Proof.
  unfold acquire. destruct (active r !! (app, inst)) eqn:E; [|done].
  intros [= <-]. split; [done|]. by eexists.
Qed.

Lemma frame_trans o r1 r2 r3 : frame o r1 r2 -> frame o r2 r3 -> frame o r1 r3.
Proof.
  intros [H1 H2] [H3 H4]. split; [congruence|].
  intros k l o' Hne. rewrite (H2 k l o' Hne). auto.
Qed.

Lemma no_lease_ready s r : lease_ok s r -> holding (state s) = false ->
  instance_lease s = None /\ forall k l, active r !! k <> Some (l, lease_owner s).
Proof.
  intros [Hl Hown] Hh. destruct (instance_lease s) as [l|] eqn:E; [destruct Hl; congruence|].
  split; [done|]. intros k l Hk. by apply Hown in Hk as [? _].
Qed.

Lemma wp_on_registry {A} (f : Registry -> Registry * A) (Q : A -> _ -> Prop)
    (R : failure -> _ -> Prop) s r :
  (forall r' a, f r = (r', a) -> Q a (s, r')) -> wp (on_registry f) Q R (s, r).
Proof. intros H. unfold wp, on_registry. destruct (f r) as [r' a] eqn:E. auto. Qed.

Lemma wp_construct {A} `{Contract A} (a : A) (Q : A -> _ -> Prop) (R : failure -> _ -> Prop) sr :
  (forall e, post_init a = Raise e -> R (GoalContractError e) sr) ->
  (valid a -> Q a sr) -> wp (construct a) Q R sr.
Proof.
  intros HR HQ. unfold construct, valid in *. destruct (post_init a) as [[]|e].
  - by apply wp_ret, HQ.
  - by apply wp_raise, HR.
Qed.

Lemma wp_release_lease (Q : unit -> _ -> Prop) (R : failure -> _ -> Prop) s r l :
  instance_lease s = Some l ->
  Q tt (with_lease None s, fst (release l (lease_owner s) r)) ->
  wp release_instance_lease Q R (s, r).
Proof.
  intros Hs HQ. unfold release_instance_lease. op_step. op_step. rewrite Hs. op_step.
  apply wp_on_registry. intros r' b E. op_step. by rewrite E in HQ.
Qed.

Lemma sorted_permissions_elem perms p : p ∈ merge_sort String.le perms <-> p ∈ perms.
Proof. by rewrite (merge_sort_Permutation String.le perms). Qed.

(** The guards of [approve] make the record exact. *)
Lemma approval_record_bound u pd lease actor bc bt sn perms eff b :
  (op_mode (profile u) ∉ [OFF; ADVISORY]) ->
  gp_ambiguities (proposal u) = [] ->
  mem actor [op_orchestrator_actor (profile u); sp_proposed_by (plan u);
             dp_implementer_actor (delegation u); dp_reviewer_actor (delegation u)] = false ->
  bc = sp_base_commit (plan u) -> bt = sp_base_tree (plan u) ->
  sn = sp_state_snapshot_digest (plan u) ->
  same_set perms (sp_required_permissions (plan u)) = true ->
  mem eff SAFE_SIDE_EFFECTS = true -> eff = sp_side_effect_class (plan u) ->
  b = sp_maximum_budget (plan u) ->
  approval_bound u (approval_record u pd lease actor bc bt sn perms eff b).
Proof.
  intros Hm Ham Hact -> -> -> Hp Hs -> ->. unfold approval_bound, approval_record. cbv zeta.
  cbn -[digest short_digest]. rewrite mem_true in Hs. rewrite mem_false in Hact.
  rewrite same_set_spec in Hp.
  repeat split; try done; rewrite ?sorted_permissions_elem; apply Hp.
Qed.

Lemma wp_approve actor pd bc bt sn perms eff b sr :
  session_inv sr ->
  wp (approve actor pd bc bt sn perms eff b)
    (fun a sr' => good sr sr' /\ state sr'.1 = APPROVED /\ approved_with sr'.1 a)
    (failed sr) sr.
Proof.
  intros Hinv. unfold approve. repeat op_step.
  destruct sr as [s r]. cbn [fst snd] in *. destruct Hinv as [Hl He]. cbn [fst snd] in *.
  destruct (no_lease_ready s r Hl) as [Hnone Hno]; [by rewrite H|].
  split_bool. apply wp_on_registry. intros r' [l|] Hacq.
  - destruct (acquire_new _ _ _ _ _ _ _ _ _ _ Hacq Hno) as (Hfree & Hf & Hkey & Hact & Hmine).
    rewrite <-Hkey in Hact. op_step. op_step. cbv zeta.
    set (record := approval_record _ _ _ _ _ _ _ _ _ _).
    assert (Hb : approval_bound (setup s) record). { subst record. apply approval_record_bound; done. }
    clearbody record.
    destruct (post_init record) as [[]|e].
    + repeat op_step. split; [|done]. unfold good. cbn.
      split; [split|]; cbn; [|by exists record|].
      * split; [done|]. cbn. intros k l' [-> ->]%Hmine. by rewrite Hkey.
      * do 2 (split; [done|]). split; [done|]. rewrite H. apply edge_approve.
    + op_step. apply wp_release_lease with l; [done|]. op_step. cbn [with_lease lease_owner].
      destruct (lease_returned _ r' l Hact) as [Hf2 Hok].
      { intros k l' [-> ->]%Hmine. by rewrite Hkey. }
      split; [|by destruct s; cbn in *; subst].
      split; [split|]; cbn; [apply Hok; cbn; [done..|by rewrite H]|done|].
      do 2 (split; [done|]). split; [by eapply frame_trans|apply edge_stay].
  - apply acquire_taken in Hacq as [-> _]. op_step.
Qed.

(** A step that keeps the lease. *)
Lemma good_update s r s' :
  session_inv (s, r) -> instance_lease s' = instance_lease s -> lease_owner s' = lease_owner s ->
  setup s' = setup s -> holding (state s') = holding (state s) -> edge (state s) (state s') ->
  evidence s' -> good (s, r) (s', r).
Proof.
  intros [Hl He] H1 H2 H3 H4 H5 H6. split; [split; [by eapply lease_kept|done]|]. cbn.
  do 2 (split; [done|]). split; [apply frame_refl|done].
Qed.

Lemma wp_begin actor bc bt sn pr po d ps e b amb sr :
  session_inv sr ->
  wp (begin_execution actor bc bt sn pr po d ps e b amb) (fun _ => good sr) (failed sr) sr.
Proof.
  intros Hinv. unfold begin_execution. repeat op_step.
  destruct sr as [s r]. destruct (id Hinv) as [Hl He]. cbn [fst snd] in *.
  unfold evidence in He. rewrite H0 in He. destruct He as [a [Ha Hb]].
  apply (wp_asserted _ a); [done|]. op_step.
  apply wp_require_lease; [done|cbn; by rewrite H0|]. intros l Hlease. repeat op_step.
  apply good_update; cbn; rewrite ?H0; try done; [apply edge_begin|by exists a].
Qed.

Lemma set_minus_false a b : set_minus a b = false -> forall x, x ∈ a -> x ∈ b.
Proof. unfold set_minus. rewrite negb_false_iff. apply subset_of_spec. Qed.

Lemma wp_record result sr :
  session_inv sr -> wp (record_execution result) (fun _ => good sr) (failed sr) sr.
Proof.
  intros Hinv. unfold record_execution. repeat op_step.
  destruct sr as [s r]. destruct (id Hinv) as [Hl He]. cbn [fst snd] in *.
  unfold evidence in He. rewrite H in He. destruct He as [a [Ha Hb]].
  apply (wp_asserted _ a); [done|]. op_step.
  apply wp_require_lease; [done|cbn; by rewrite H|]. intros l Hlease. repeat op_step.
  split_bool. destruct (id Hb) as (_ & _ & _ & Hperm & Heff & _ & Hbud & _).
  apply good_update; cbn; rewrite ?H; try done; [apply edge_record|].
  exists a, result. split; [done|]. split; [done|].
  match goal with H : set_minus _ _ = false |- _ => pose proof (set_minus_false _ _ H) as Hsub end.
  unfold result_bound. cbn [setup with_state with_result]. repeat split; try congruence.
  intros p Hp. by apply Hperm, Hsub.
Qed.

(** A refusal after a step that kept the state. *)
Lemma good_refused_after code message terminal sr sr1 :
  good sr sr1 -> state sr1.1 = state sr.1 -> good sr (refused code message terminal sr1).
Proof.
  intros (Hi & Hs & Ho & Hf & He) Hst.
  destruct (good_refused code message terminal sr1 Hi) as (Hi' & Hs' & Ho' & Hf' & He').
  split; [done|]. split; [congruence|]. split; [congruence|].
  rewrite Ho in Hf'. rewrite Hst in He'. split; [by eapply frame_trans|done].
Qed.

Lemma wp_review rv verify sr :
  session_inv sr -> wp (submit_review rv verify) (fun _ => good sr) (failed sr) sr.
Proof.
  intros Hinv. unfold submit_review. repeat op_step.
  destruct sr as [s r]. destruct (id Hinv) as [Hl He]. cbn [fst snd] in *.
  unfold evidence in He. rewrite H in He. destruct He as (a & er & Hex).
  destruct (id Hex) as ([Ha Hb] & Her & Hrb).
  apply (wp_asserted _ er); [done|]. op_step. apply (wp_asserted _ a); [done|]. op_step.
  apply wp_require_lease; [done|cbn; by rewrite H|]. intros l Hlease. repeat op_step.
  destruct (verify _ _ _) as [iso|]; [|op_step]. cbv zeta. repeat op_step.
  split_bool. apply wp_refuse_when; intros Hacc.
  - (* a rejected review is kept, and the session stops *)
    split; [|unfold refusal_effect, refused; cbn -[with_stop with_lease with_state]; rewrite H; done].
    apply good_refused_after; [|done].
    apply good_update; cbn; try done; [apply edge_stay|].
    unfold evidence. cbn. by rewrite H; exists a, er.
  - op_step. apply good_update; cbn; rewrite ?H; try done; [apply edge_review|].
    exists a, er, rv. split; [done|]. split; [done|]. unfold review_bound.
    split_bool. repeat split; try done; [by apply mem_false|].
    exists iso. cbn. repeat split; congruence.
Qed.

Lemma wp_close decided_by guard sr :
  session_inv sr -> wp (close decided_by guard)
    (fun cg sr' => good sr sr' /\ state sr'.1 = CLOSED /\ closure sr'.1 = Some cg.1 /\
       receipt sr'.1 = Some cg.2)
    (failed sr) sr.
Proof.
  intros Hinv. unfold close. repeat op_step.
  destruct (id Hinv) as [Hl He]. apply wp_require_lease; [done|by rewrite H|]. intros l Hlease.
  unfold evidence in He. rewrite H in He. destruct He as (a & er & rv & Hrev).
  destruct (id Hrev) as (([Ha Hb] & Her & Hrb) & Hrv & Hvb).
  repeat op_step. apply (wp_asserted _ a); [done|]. op_step. apply (wp_asserted _ er); [done|].
  op_step. apply (wp_asserted _ rv); [done|]. repeat op_step. cbv zeta.
  set (cid := short_digest _). clearbody cid.
  apply wp_construct; [intros; split; [by apply good_refl|done]|]. intros Hc. op_step.
  set (c := mkClosureDecision _ _ _ _ _ _ _ _ _) in *.
  set (gid := short_digest _). clearbody gid.
  apply wp_construct; [intros; split; [by apply good_refl|done]|]. intros Hg. op_step.
  set (g := mkGoalExecutionReceipt _ _ _ _ _ _ _ _ _ _ _) in *.
  assert (Hcb : closure_bound (setup sr.1) a er rv c g).
  { unfold closure_bound. repeat (split; [done || by apply mem_false|]). done. }
  assert (Hgc : gr_closure_decision_digest g = digest c) by done.
  clearbody g. clearbody c.
  destruct sr as [s r]. cbn [fst snd] in *.
  assert (Hfin : wp (on_session (with_closure (Some c) (Some g)) >>*
      on_session (with_state CLOSED) >>* release_instance_lease >>* ret (c, g))
      (fun cg sr' => good (s, r) sr' /\ state sr'.1 = CLOSED /\ closure sr'.1 = Some cg.1 /\
         receipt sr'.1 = Some cg.2) (failed (s, r)) (s, r)).
  { repeat op_step. apply wp_release_lease with l; [done|]. op_step. cbn. split; [|done].
    destruct (lease_ok_held s r l Hl Hlease) as [Hact Honly].
    destruct (lease_returned _ r l Hact Honly) as [Hf Hok].
    split; [split|]; cbn; [by apply Hok|by exists a, er, rv, c, g|].
    do 2 (split; [done|]). split; [done|]. rewrite H. apply edge_close. }
  destruct guard as [[[]|e]|].
  - op_step. exact Hfin.
  - op_step.
  - op_step. split; [by apply good_refl|done].
  - op_step. exact Hfin.
Qed.

Lemma wp_run_op o sr :
  session_inv sr -> wp (run_op o) (fun _ => good sr) (failed sr) sr.
Proof.
  intros Hinv. destruct o; simpl run_op.
  - apply wp_bind. eapply wp_mono; [by apply wp_approve| |done]. intros a sr' [Hg _]. by apply wp_ret.
  - by apply wp_begin.
  - by apply wp_record.
  - by apply wp_review.
  - apply wp_bind. eapply wp_mono; [by apply wp_close| |done]. intros a sr' [Hg _]. by apply wp_ret.
  - apply wp_refuse. by apply failed_refused.
  - apply wp_refuse. by apply failed_refused.
Qed.

Lemma run_op_good o sr : session_inv sr -> good sr (fst (run_op o sr)).
Proof.
  intros Hinv. apply wp_final. eapply wp_mono; [by apply wp_run_op|done|]. by intros e sr' [Hg _].
Qed.

(** *** The world invariant *)

Definition world_inv (w : World) : Prop :=
  (forall i s, sessions w !! i = Some s ->
     session_inv (s, registry w) /\ check_setup (setup s) = Ok tt /\
     exists n, (n <= owner_sequence (registry w))%Z /\ lease_owner s = owner_name n) /\
  (forall i j s t, sessions w !! i = Some s -> sessions w !! j = Some t ->
     lease_owner s = lease_owner t -> i = j) /\
  (forall k l o, active (registry w) !! k = Some (l, o) ->
     exists i s, sessions w !! i = Some s /\ lease_owner s = o).

Lemma owner_name_inj n m : owner_name n = owner_name m -> n = m.
Proof. unfold owner_name. intros H%str_app_inj_l. by apply (inj pretty) in H. Qed.

(** A session is indifferent to what the others do with the registry. *)
Lemma lease_ok_frame s o r r' :
  frame o r r' -> lease_owner s <> o -> lease_ok s r -> lease_ok s r'.
Proof.
  intros [_ Hf] Hne [Hl Hown]. split.
  - destruct (instance_lease s) as [l|]; [|done].
    destruct Hl as (? & ? & Hact). do 2 (split; [done|]). by apply Hf.
  - intros k l Hk. apply Hown. by apply Hf.
Qed.

Lemma world_create_inv w u : world_inv w -> world_inv (world_step w (Create u)).
Proof.
  intros (Hs & Hd & Ha). cbn [world_step]. unfold new_session.
  destruct (check_setup u) as [[]|e] eqn:Hu; [|by split].
  cbv zeta. unfold allocate_owner. cbn -[owner_name].
  set (s0 := mkSession _ _ _ _ _ _ _ _ _ _ _ _).
  set (n := (owner_sequence (registry w) + 1)%Z) in *.
  assert (Hfresh : forall i s, sessions w !! i = Some s -> lease_owner s <> owner_name n).
  { intros i s Hi E. destruct (Hs i s Hi) as (_ & _ & m & Hm & Ho).
    rewrite Ho in E. apply owner_name_inj in E. lia. }
  split; [|split].
  - intros i s Hi. apply lookup_app_Some in Hi as [Hi|[_ Hi]].
    + destruct (Hs i s Hi) as ((Hl & He) & Hset & m & Hm & Ho). cbn [registry].
      split; [split; [|done]|split; [done|]].
      * apply Hl.
      * exists m. cbn. split; [lia|done].
    + apply list_lookup_singleton_Some in Hi as [_ <-].
      split; [split|split; [done|exists n; split; [cbn; lia|done]]]; [|done].
      split; [done|]. intros k l Hk. cbn in Hk. apply Ha in Hk as (i' & s' & Hi' & Ho').
      by apply Hfresh in Hi'.
  - intros i j s t Hi Hj Ho. cbn [sessions] in *.
    apply lookup_app_Some in Hi as [Hi|[Hli Hi]], Hj as [Hj|[Hlj Hj]].
    + by apply (Hd i j s t).
    + apply list_lookup_singleton_Some in Hj as [_ <-]. by apply Hfresh in Hi.
    + apply list_lookup_singleton_Some in Hi as [_ <-]. symmetry in Ho. by apply Hfresh in Hj.
    + apply list_lookup_singleton_Some in Hi as [? _], Hj as [? _]. lia.
  - intros k l o Hk. cbn in Hk. apply Ha in Hk as (i & s & Hi & Ho).
    exists i, s. split; [|done]. by apply lookup_app_l_Some.
Qed.

Lemma world_on_inv w i o : world_inv w -> world_inv (world_step w (On i o)).
Proof.
  intros (Hs & Hd & Ha). cbn [world_step]. destruct (sessions w !! i) as [s|] eqn:Hi; [|by split].
  destruct (Hs i s Hi) as (Hinv & Hset & n & Hn & Ho).
  pose proof (run_op_good o _ Hinv) as Hg.
  destruct (run_op o (s, registry w)) as [[s' r'] res]. cbn [fst] in Hg.
  destruct Hg as (Hinv' & Hset' & Ho' & Hf & _). cbn [fst snd] in *.
  pose proof (lookup_lt_Some _ _ _ Hi) as Hlt.
  split; [|split].
  - intros j t Hj. cbn [sessions registry] in *. destruct (decide (i = j)) as [<-|Hne].
    + rewrite list_lookup_insert_eq in Hj by done. injection Hj as <-.
      split; [done|]. split; [by rewrite Hset'|]. exists n. destruct Hf as [-> _]. split; [done|congruence].
    + rewrite list_lookup_insert_ne in Hj by done. destruct (Hs j t Hj) as ((Hl & He) & Hst & m & Hm & Hot).
      split; [split; [|done]|].
      * eapply lease_ok_frame; [exact Hf| |done]. intros E. apply Hne. by apply (Hd i j s t).
      * split; [done|]. exists m. destruct Hf as [-> _]. done.
  - intros j k t1 t2 Hj Hk Heq. cbn [sessions] in *.
    destruct (decide (i = j)) as [<-|Hnj], (decide (i = k)) as [<-|Hnk]; [done|..].
    + rewrite list_lookup_insert_eq in Hj by done. injection Hj as <-.
      rewrite list_lookup_insert_ne in Hk by done. apply (Hd i k s t2); congruence.
    + rewrite list_lookup_insert_eq in Hk by done. injection Hk as <-.
      rewrite list_lookup_insert_ne in Hj by done. apply (Hd j i t1 s); congruence.
    + rewrite list_lookup_insert_ne in Hj, Hk by done. by apply (Hd j k t1 t2).
  - intros k l o' Hk. cbn [registry sessions] in *. destruct (decide (o' = lease_owner s)) as [->|Hne].
    + exists i, s'. by rewrite list_lookup_insert_eq.
    + destruct Hf as [_ Hf]. apply (Hf k l o' Hne) in Hk. apply Ha in Hk as (j & t & Hj & Hot).
      exists j, t. split; [|done]. rewrite list_lookup_insert_ne; [done|]. intros ->. congruence.
Qed.

Definition reachable (w : World) : Prop := exists calls, w = run_trace world_step empty_world calls.

Lemma reachable_inv w : reachable w -> world_inv w.
Proof.
  intros [calls ->]. apply run_trace_invariant.
  - intros v [u|i o]; [apply world_create_inv|apply world_on_inv].
  - split; [|split].
    + intros i s Hi. done.
    + intros i j s t Hi. done.
    + intros k l o Hk. cbn in Hk. by rewrite lookup_empty in Hk.
Qed.

Lemma reachable_step w c : reachable w -> reachable (world_step w c).
Proof.
  intros [calls ->]. exists (calls ++ [c]). by rewrite run_trace_app.
Qed.

(** ** A complete slice *)

Definition sample_budget : GoalBudget := mkGoalBudget 1000 50 600 20.

Definition sample_proposal : GoalProposal := Eval vm_compute in
  mkGoalProposal "proposal-1" (digest sample_manifest) (digest sample_intent) ASSISTED
    (digest sample_profile) "orchestrator:o" ["item-1"] "item-1" [] "unapproved" "none" true.

Definition sample_plan : SlicePlan := Eval vm_compute in
  mkSlicePlan "plan-1" "app-1" "instance-1" "item-1" (digest sample_manifest)
    (digest sample_proposal) (digest sample_intent) ASSISTED (digest sample_profile)
    (hex_sha "b") (hex_sha "c") (hex_digest "d") ["docs.write"] "none" sample_budget
    ["make docs"] ["v1"] "planner:p" "disabled" true.

Definition sample_delegation : DelegationPlan :=
  mkDelegationPlan "delegation-1" "item-1" "agent:a" "agent:r" "fast" "fast" ["docs"] ["docs"]
    None false true.

Definition sample_acceptance : AcceptanceContract :=
  mkAcceptanceContract "acceptance-1" "item-1" ["links resolve"] ["make docs"] ["v1"] true true.

Definition sample_requirement : ReviewRequirement := Eval vm_compute in
  mkReviewRequirement "requirement-1" "item-1" (digest sample_acceptance) "agent:r"
    true true true true true "clean_detached_read_only_worktree" true.

Definition sample_policy : CtoModePolicy :=
  mkCtoModePolicy ADVISORY all_modes true true 1 false required_stops full_rerun_reasons.

Definition sample_setup : Setup :=
  mkSetup sample_profile sample_policy sample_manifest sample_proposal sample_plan
    sample_delegation sample_acceptance sample_requirement {[ "goal_execution" ]}.

Definition sample_result : ExecutionResult := Eval vm_compute in
  mkExecutionResult "result-1" "item-1" (digest sample_plan) "agent:a" (hex_sha "e") (hex_sha "f")
    (hex_digest "1") ["v1"] ["docs.write"] "none" (mkGoalBudget 900 40 500 12) true true false.

Definition sample_isolation (reviewer commit tree : string) : outcome string ReviewWorkspaceIsolation :=
  Ok (mkReviewWorkspaceIsolation "evidence-1" reviewer (hex_digest "2") (hex_digest "3") commit tree
    "stateport.review-workspace-verifier.v1" "clean_detached_read_only_worktree"
    true true true true).

Definition sample_review : ReviewRecord := Eval vm_compute in
  mkReviewRecord "review-1" "item-1" "agent:r" (hex_sha "e") (hex_sha "f") (hex_digest "1")
    (digest sample_acceptance)
    match sample_isolation "agent:r" (hex_sha "e") (hex_sha "f") with
    | Ok i => digest i | Raise _ => "" end
    ["v1"] "accepted" [] true "clean_detached_read_only_worktree" true false.

Definition sample_approve : Op := Eval vm_compute in
  Approve "user:alice" (digest sample_plan) (hex_sha "b") (hex_sha "c") (hex_digest "d")
    ["docs.write"] "none" sample_budget.

Definition sample_policy_digest : string := Eval vm_compute in
  canonical_digest (JObj [("goalExecutionPolicy", JObj (to_dict sample_policy));
                          ("effectiveCapabilities", jstrs ["goal_execution"])]).

Definition sample_begin : Op := Eval vm_compute in
  Begin "agent:a" (hex_sha "b") (hex_sha "c") (hex_digest "d") (digest sample_profile)
    sample_policy_digest (digest sample_delegation) ["docs.write"] "none" sample_budget false.

Definition sample_calls : list Call :=
  [Create sample_setup; Create sample_setup; On 0 sample_approve; On 1 sample_approve;
   On 0 sample_begin;
   On 0 (RecordExecution sample_result);
   On 0 (SubmitReview sample_review sample_isolation)].

Definition sample_world : World := run_trace world_step empty_world sample_calls.
Definition closed_world : World := world_step sample_world (On 0 (Close "owner:z" (Some (Ok true)))).

Lemma closed_world_step :
  closed_world = world_step sample_world (On 0 (Close "owner:z" (Some (Ok true)))).
Proof. unfold closed_world. reflexivity. Qed.

Lemma sample_world_reachable : reachable sample_world.
Proof. by exists sample_calls. Qed.

Lemma closed_world_reachable : reachable closed_world.
Proof. apply reachable_step, sample_world_reachable. Qed.

(** The run, evaluated once. *)
Lemma sample_run :
  (let w := run_trace world_step empty_world sample_calls in
   (map state (sessions w), bool_decide (is_Some (active (registry w) !! ("app-1", "instance-1"))),
    map state (sessions (world_step w (On 0 (Close "owner:z" (Some (Ok true))))))))
  = ([REVIEWED; PROPOSAL_READY], true, [CLOSED; PROPOSAL_READY]).
Proof. vm_compute. reflexivity. Qed.

Lemma session_in_state w i st :
  map state (sessions w) !! i = Some st -> exists s, sessions w !! i = Some s /\ state s = st.
Proof.
  change (map state (sessions w)) with (state <$> sessions w).
  intros (s & -> & ?)%list_lookup_fmap_Some. eauto.
Qed.

Lemma pair_eq {A B} (a c : A) (b d : B) : (a, b) = (c, d) -> a = c /\ b = d.
Proof. by intros [=]. Qed.

Lemma sample_facts :
  map state (sessions sample_world) = [REVIEWED; PROPOSAL_READY] /\
  bool_decide (is_Some (active (registry sample_world) !! ("app-1", "instance-1"))) = true /\
  map state (sessions closed_world) = [CLOSED; PROPOSAL_READY].
Proof.
  unfold closed_world, sample_world. pose proof sample_run as H. cbv zeta in H.
  apply pair_eq in H as [H ->]. by apply pair_eq in H as [-> ->].
Qed.

Lemma sample_session : exists s, sessions sample_world !! 0%nat = Some s /\ state s = REVIEWED.
Proof. apply session_in_state. by rewrite (proj1 sample_facts). Qed.

Lemma closed_session : exists s, sessions closed_world !! 0%nat = Some s /\ state s = CLOSED.
Proof. apply session_in_state. by rewrite (proj2 (proj2 sample_facts)). Qed.

Lemma sample_lease : is_Some (active (registry sample_world) !! ("app-1", "instance-1")).
Proof. exact (bool_decide_eq_true_1 _ (proj1 (proj2 sample_facts))). Qed.

(** ** What the protocol guarantees *)

(** C3 However sessions of one process interleave, at most one session holds an
    approved item on an instance: two sessions whose plans name the same
    application and instance are never both between approval and closure. *)
Theorem one_active_item_per_instance (w : World) (i j : nat) (s t : Session) :
  reachable w ->
  sessions w !! i = Some s -> sessions w !! j = Some t ->
  holding (state s) = true -> holding (state t) = true ->
  plan_key (setup s) = plan_key (setup t) -> i = j.
Proof.
  intros Hw Hi Hj Hs Ht Hk. destruct (reachable_inv w Hw) as (Hall & Hd & _).
  destruct (Hall i s Hi) as ([[Hls _] _] & _), (Hall j t Hj) as ([[Hlt _] _] & _). cbn in *.
  destruct (instance_lease s) as [l|]; [|congruence].
  destruct (instance_lease t) as [l'|]; [|congruence].
  destruct Hls as (_ & Hk1 & Ha1), Hlt as (_ & Hk2 & Ha2).
  apply (Hd i j s t); [done..|]. rewrite Hk1, Hk in Ha1. rewrite Hk2 in Ha2. congruence.
Qed.

Lemma one_active_item_per_instance_witness :
  exists s, sessions sample_world !! 0%nat = Some s /\ holding (state s) = true /\ 0%nat = 0%nat.
Proof.
  destruct sample_session as (s & E & Hst).
  assert (Hh : holding (state s) = true) by by rewrite Hst.
  exists s. split; [exact E|]. split; [exact Hh|].
  exact (one_active_item_per_instance sample_world 0 0 s s sample_world_reachable E E Hh Hh eq_refl).
Defined.

(** Leases and states agree: a session has its lease registered exactly while
    it is between approval and closure, for the instance its plan names, and
    every lease in the registry belongs to such a session; so no lease outlives
    its session's work and none is lost while it lasts. *)
Theorem leases_match_states (w : World) :
  reachable w ->
  (forall i s, sessions w !! i = Some s ->
     (holding (state s) = true <->
      exists l, instance_lease s = Some l /\
        active (registry w) !! plan_key (setup s) = Some (l, lease_owner s))) /\
  (forall k l o, active (registry w) !! k = Some (l, o) ->
     exists i s, sessions w !! i = Some s /\ lease_owner s = o /\ instance_lease s = Some l /\
       holding (state s) = true /\ plan_key (setup s) = k).
Proof.
  intros Hw. destruct (reachable_inv w Hw) as (Hall & Hd & Ha). split.
  - intros i s Hi. destruct (Hall i s Hi) as ([[Hl _] _] & _). cbn in Hl.
    destruct (instance_lease s) as [l|].
    + destruct Hl as (Hh & Hk & Hact). rewrite Hk in Hact. naive_solver.
    + split; [congruence|]. intros (l & ? & _). done.
  - intros k l o Hk. destruct (Ha k l o Hk) as (i & s & Hi & Ho). subst o.
    destruct (Hall i s Hi) as ([[Hl Hown] _] & _). cbn in *.
    destruct (Hown k l Hk) as [Hil ->]. rewrite Hil in Hl. destruct Hl as (Hh & Hkey & _).
    exists i, s. by rewrite Hkey.
Qed.

Lemma leases_match_states_witness :
  exists i s, sessions sample_world !! i = Some s /\ holding (state s) = true.
Proof.
  destruct sample_lease as [[l o] Hl].
  destruct (leases_match_states sample_world sample_world_reachable) as [_ H].
  destruct (H _ l o Hl) as (i & s & Hi & _ & _ & Hh & _). exists i, s. split; [exact Hi|exact Hh].
Defined.

(** C4 A closed session has the whole chain of evidence: an approval of the
    exact plan, a passing result inside what was approved, an accepting review
    of exactly that result, and a closure and receipt whose digests bind them.
    Approver, implementer, reviewer and closer are four distinct actors, and
    none of the other three is the orchestrator or the proposer. *)
Theorem closed_session_evidence (w : World) (i : nat) (s : Session) :
  reachable w -> sessions w !! i = Some s -> state s = CLOSED ->
  exists a er rv c g, closed_with s a er rv c g /\
    NoDup [ar_approver_actor a; er_implementer_actor er; rv_reviewer_actor rv; cd_decided_by c] /\
    (forall actor, actor ∈ [ar_approver_actor a; rv_reviewer_actor rv; cd_decided_by c] ->
       actor <> op_orchestrator_actor (profile (setup s)) /\
       actor <> sp_proposed_by (plan (setup s))).
Proof.
  intros Hw Hi Hst. destruct (reachable_inv w Hw) as (Hall & _ & _).
  destruct (Hall i s Hi) as ([_ He] & _ & _). cbn in He. unfold evidence in He. rewrite Hst in He.
  destruct He as (a & er & rv & c & g & Hc). exists a, er, rv, c, g. split; [done|].
  destruct Hc as ((((_ & Hab) & _ & Hrb) & _ & Hvb) & _ & _ & Hcb).
  destruct Hab as (_ & Ha & _). destruct Hrb as (_ & _ & Himp & _).
  destruct Hvb as (_ & Hv & _). destruct Hcb as (Hd & _).
  rewrite Himp. clear -Ha Hv Hd. rewrite !not_elem_of_cons in Ha, Hv, Hd.
  destruct Ha as (? & ? & ? & _), Hv as (? & ? & ? & ? & _), Hd as (? & ? & ? & ? & Hd).
  apply not_elem_of_cons in Hd as [? _]. split.
  - rewrite !NoDup_cons, !not_elem_of_cons.
    repeat split; auto using NoDup_nil_2; apply not_elem_of_nil.
  - intros actor. rewrite !elem_of_cons, elem_of_nil. intros [->|[->|[->|[]]]]; done.
Qed.

Lemma closed_session_evidence_witness :
  exists s a c, sessions closed_world !! 0%nat = Some s /\ state s = CLOSED /\
    approval s = Some a /\ closure s = Some c /\ ar_approver_actor a <> cd_decided_by c.
Proof.
  destruct closed_session as (s & E & Hst).
  destruct (closed_session_evidence closed_world 0 s closed_world_reachable E Hst)
    as (a & er & rv & c & g & Hc & Hnd & _).
  exists s, a, c. destruct Hc as ((((Ha & _) & _) & _) & Hcl & _).
  repeat (split; [done|]). apply NoDup_cons in Hnd as [Hnd _]. rewrite !not_elem_of_cons in Hnd. tauto.
Defined.

(** [closed] and [stopped] are final: every operation on such a session
    raises and changes neither the session nor the registry. *)
Theorem ended_session_frozen (o : Op) (s : Session) (r : Registry) :
  ended (state s) = true ->
  exists e, run_op o (s, r) = ((s, r), Raise e).
Proof.
  intros He.
  assert (Href : forall A code message terminal,
    @refuse A code message terminal (s, r) = ((s, r), Raise (GovernanceRefusal code message terminal))).
  { intros A code message terminal. rewrite refuse_run. unfold refused. rewrite He.
    by rewrite andb_false_r. }
  assert (Hexp : forall st, ended st = false -> exists e, expect st (s, r) = ((s, r), Raise e)).
  { intros st Hst. unfold expect, self. rewrite bind_gets. cbn [fst]. unfold refuse_when.
    destruct (bool_decide (state s = st)) eqn:E; cbn [negb]; [|rewrite Href; by eexists].
    split_bool. congruence. }
  assert (Hstop : forall A B (m : Run A) (k : A -> Run B),
    (exists e, m (s, r) = ((s, r), Raise e)) -> exists e, bind m k (s, r) = ((s, r), Raise e)).
  { intros A B m k [e Hm]. exists e. by apply bind_raises. }
  destruct o; simpl run_op.
  2: { unfold begin_execution, self. rewrite bind_gets. cbn [fst]. unfold refuse_when.
       destruct (bool_decide (approval s = None)).
       - apply Hstop. rewrite Href. by eexists.
       - rewrite bind_ret. apply Hstop. by apply Hexp. }
  1: apply Hstop. 4: apply Hstop.
  all: unfold approve, record_execution, submit_review, close, request_next_item, stop.
  all: first [apply Hstop; by apply Hexp | rewrite Href; by eexists].
Qed.

Lemma ended_session_frozen_witness :
  exists s r, ended (state s) = true /\ exists e, run_op sample_approve (s, r) = ((s, r), Raise e).
Proof.
  exists (with_state CLOSED (mkSession sample_setup [] "" "goal-session-1" None CLOSED None None None None None None)),
    empty_registry.
  split; [reflexivity|]. apply ended_session_frozen. reflexivity.
Defined.

(** One call moves one session along one edge of the protocol and touches no
    other session: proposal, approved, executing, awaiting review, reviewed,
    closed, in this order, or a stop from any state that has not ended.  The
    contracts a session was built from never change. *)
Theorem call_follows_protocol (w : World) (c : Call) (i : nat) (s s' : Session) :
  reachable w ->
  sessions w !! i = Some s -> sessions (world_step w c) !! i = Some s' ->
  edge (state s) (state s') /\ setup s' = setup s /\
  ((forall o, c <> On i o) -> s' = s).
Proof.
  intros Hw Hi Hi'. destruct (reachable_inv w Hw) as (Hall & _ & _).
  destruct (Hall i s Hi) as (Hinv & _ & _). destruct c as [u|j o]; cbn [world_step] in Hi'.
  - assert (s' = s) as ->; [|by split; [apply edge_stay|]].
    unfold new_session in Hi'. destruct (check_setup u) as [|e]; cbn [sessions] in Hi'; [|congruence].
    cbv zeta in Hi'. destruct (allocate_owner _) as [r' ow]. cbn [sessions] in Hi'.
    apply lookup_lt_Some in Hi as Hlt. rewrite lookup_app_l in Hi' by done. congruence.
  - destruct (sessions w !! j) as [t|] eqn:Hj;
      [|assert (s' = s) as -> by congruence; by split; [apply edge_stay|]].
    destruct (decide (j = i)) as [->|Hne].
    + rewrite Hi in Hj. injection Hj as <-. pose proof (run_op_good o _ Hinv) as (_ & Hset & _ & _ & Hedge).
      destruct (run_op o (s, registry w)) as [[s1 r1] res]. cbn [sessions fst snd] in *.
      rewrite list_lookup_insert_eq in Hi' by by eapply lookup_lt_Some. injection Hi' as <-.
      split; [done|]. split; [done|]. intros Hno. by destruct (Hno o).
    + destruct (run_op o (t, registry w)) as [[s1 r1] res]. cbn [sessions] in Hi'.
      rewrite list_lookup_insert_ne in Hi' by done. assert (s' = s) as -> by congruence.
      by split; [apply edge_stay|].
Qed.

Lemma call_follows_protocol_witness :
  exists s s', sessions sample_world !! 0%nat = Some s /\ sessions closed_world !! 0%nat = Some s' /\
    edge (state s) (state s').
Proof.
  destruct sample_session as (s & E & _), closed_session as (s' & E' & _).
  exists s, s'. split; [exact E|]. split; [exact E'|]. rewrite closed_world_step in E'.
  exact (proj1 (call_follows_protocol sample_world (On 0 (Close "owner:z" (Some (Ok true)))) 0 s s'
    sample_world_reachable E E')).
Defined.

(** Refusals are fail-closed and exact: when an operation of a reachable
    session raises, a plain refusal has changed nothing, a terminal one has
    stopped the session, recorded its code and the state it stopped in, and
    given the lease back, and any other error left the session as it was; the
    assertions of the code hold. *)
Theorem refusals_fail_closed (w : World) (i : nat) (s : Session) (o : Op) (e : failure)
    (sr' : Session * Registry) :
  reachable w -> sessions w !! i = Some s ->
  run_op o (s, registry w) = (sr', Raise e) ->
  refusal_effect (s, registry w) e sr'.
Proof.
  intros Hw Hi Hrun. destruct (reachable_inv w Hw) as (Hall & _ & _).
  destruct (Hall i s Hi) as (Hinv & _ & _).
  pose proof (wp_run_op o _ Hinv) as H. unfold wp in H. rewrite Hrun in H. apply H.
Qed.

Lemma refusals_fail_closed_witness :
  exists s sr', sessions sample_world !! 0%nat = Some s /\ state (fst sr') = STOPPED /\
    run_op (Stop "operator" "stopped by hand") (s, registry sample_world)
    = (sr', Raise (GovernanceRefusal "operator" "stopped by hand" true)).
Proof.
  destruct sample_session as (s & E & Hst).
  pose proof (refuse_run (A := unit) "operator" "stopped by hand" true (s, registry sample_world)) as Hrun.
  exists s, (refused "operator" "stopped by hand" true (s, registry sample_world)).
  split; [exact E|]. split; [|exact Hrun].
  pose proof (refusals_fail_closed sample_world 0 s (Stop "operator" "stopped by hand") _ _
    sample_world_reachable E Hrun) as H.
  unfold refusal_effect in H. cbn [fst] in H. rewrite Hst in H. exact (proj1 H).
Defined.

Lemma bind_on_registry {A B} (f : Registry -> Registry * A) (k : A -> Run B) s r r' a :
  f r = (r', a) -> bind (on_registry f) k (s, r) = k a (s, r').
Proof. intros H. unfold bind, on_registry. by rewrite H. Qed.

(** [approve] grants exactly what the plan asks for, or refuses: called on a
    proposal whose mode permits execution, with no open ambiguity, by an actor
    outside the work, with the plan's digest, base, permissions, effects and
    budget, it returns the approval whenever the instance is free and the
    record passes its own checks; on a busy instance it raises
    [instance_approval_conflict] and nothing changes. *)
Theorem approve_exact (s : Session) (r : Registry) (actor : string) (perms : list string) :
  let u := setup s in
  state s = PROPOSAL_READY ->
  (op_mode (profile u) ∉ [OFF; ADVISORY]) -> gp_ambiguities (proposal u) = [] ->
  (actor ∉ [op_orchestrator_actor (profile u); sp_proposed_by (plan u);
            dp_implementer_actor (delegation u); dp_reviewer_actor (delegation u)]) ->
  (forall p, p ∈ perms <-> p ∈ sp_required_permissions (plan u)) ->
  sp_side_effect_class (plan u) ∈ SAFE_SIDE_EFFECTS ->
  let run := approve actor (digest (plan u)) (sp_base_commit (plan u)) (sp_base_tree (plan u))
    (sp_state_snapshot_digest (plan u)) perms (sp_side_effect_class (plan u))
    (sp_maximum_budget (plan u)) (s, r) in
  match acquire (lease_owner s) (sp_application_id (plan u)) (sp_instance_id (plan u))
          (digest (plan u)) (sp_base_commit (plan u)) (sp_base_tree (plan u))
          (sp_state_snapshot_digest (plan u)) r with
  | (r', None) => run = ((s, r), Raise (GovernanceRefusal "instance_approval_conflict"
                                   "another approved item already owns this instance" false))
  | (r', Some lease) =>
      let record := approval_record u (effective_policy_digest s) lease actor
        (sp_base_commit (plan u)) (sp_base_tree (plan u)) (sp_state_snapshot_digest (plan u)) perms
        (sp_side_effect_class (plan u)) (sp_maximum_budget (plan u)) in
      valid record ->
      run = ((with_state APPROVED (with_approval (Some record) (with_lease (Some lease) s)), r'),
             Ok record)
  end.
Proof.
  intros u Hst Hmode Hamb Hactor Hperm Heff run. subst run.
  assert (Hsame : same_set perms (sp_required_permissions (plan u)) = true)
    by by apply same_set_spec.
  assert (Hrun : forall b code m t (k : unit -> Run ApprovalRecord), b = false ->
    bind (refuse_when b code m t) k (s, r) = k tt (s, r)) by (by intros ? ? ? ? ? ->).
  unfold approve. rewrite (bind_run _ _ _ (s, r) tt).
  2: { unfold expect, self. rewrite bind_gets. cbn [fst]. unfold refuse_when.
       by rewrite bool_decide_eq_true_2. }
  unfold self. rewrite !bind_gets. cbn [fst]. cbv zeta. fold u.
  assert (Hm : bool_decide (op_mode (profile u) ∈ [OFF; ADVISORY]) = false)
    by by apply bool_decide_eq_false.
  assert (Hac : mem actor [op_orchestrator_actor (profile u); sp_proposed_by (plan u);
      dp_implementer_actor (delegation u); dp_reviewer_actor (delegation u)] = false)
    by by apply mem_false.
  assert (Hmin : set_minus perms (sp_required_permissions (plan u)) = false).
  { unfold set_minus. apply negb_false_iff, subset_of_spec. intros x. apply Hperm. }
  assert (He : mem (sp_side_effect_class (plan u)) SAFE_SIDE_EFFECTS = true) by by apply mem_true.
  rewrite Hm, Hac, Hmin, Hsame, He. cbn [negb].
  repeat (rewrite bool_decide_eq_true_2 by done). cbn [negb orb].
  rewrite !Hrun by done.
  destruct (acquire _ _ _ _ _ _ _ r) as [r' [lease|]] eqn:Hacq.
  - intros Hv. unfold valid in Hv.
    rewrite (bind_on_registry _ _ _ _ _ _ Hacq). cbv iota beta.
    unfold on_session. rewrite bind_modify. rewrite Hv.
    rewrite !bind_modify. done.
  - apply acquire_taken in Hacq as Hr. destruct Hr as [-> _].
    rewrite (bind_on_registry _ _ _ _ _ _ Hacq). cbv iota beta. by rewrite refuse_run.
Qed.

Lemma approve_exact_witness :
  exists s r, setup s = sample_setup /\ state s = PROPOSAL_READY /\
    approve "user:alice" (digest sample_plan) (hex_sha "b") (hex_sha "c") (hex_digest "d")
      ["docs.write"] "none" sample_budget (s, r)
    = ((s, r), Raise (GovernanceRefusal "instance_approval_conflict"
        "another approved item already owns this instance" false)).
Proof.
  set (s := mkSession sample_setup [] "" "goal-session-2" None PROPOSAL_READY None None None None None None).
  set (l := mkInstanceApprovalLease "lease" 1 "app-1" "instance-1" "" "" "" "").
  set (r := mkRegistry {[("app-1", "instance-1") := (l, "goal-session-1")]} ∅ 2).
  exists s, r. split; [reflexivity|]. split; [reflexivity|].
  refine (approve_exact s r "user:alice" ["docs.write"] eq_refl _ eq_refl _ _ _).
  - apply (bool_decide_eq_true_1 _). reflexivity.
  - apply (bool_decide_eq_true_1 _). reflexivity.
  - intros p. reflexivity.
  - apply (bool_decide_eq_true_1 _). reflexivity.
Defined.
