(* ===== verification/ModelGateway.v ===== *)
(** * The run-bound model gateway (packages/tool-gateway, gateway.py)

    One [ModelGateway] admits provider calls for a run within request, token and
    cost budgets.  Each method that takes the lock is atomic; a provider call is
    in flight between its admission and its settlement, and calls of several
    threads interleave there.  [request] is the sequential method; [world_step]
    interleaves the same admission and settlement for any number of threads.
    Clock readings are integers in nanoseconds (the code reads a float of
    seconds), tokens come from the caller ([secrets]), and the adapter's answer
    is a JSON value or an exception. *)

From S2P Require Import Prelude Json Sha256.

(** ** State *)

Inductive gateway_error :=
| ModelGatewayError (message : string)
| AdapterError (message : string).

Record ModelRoute := mkModelRoute {
  run_id : string;
  provider : string;
  model : string;
  max_requests : Z;
  max_tokens : Z;
  max_cost_minor : Z;
  expires_after_seconds : Z;
}.

Definition validate (r : ModelRoute) : outcome gateway_error unit :=
  refuse_if (negb (forallb nonblank [run_id r; provider r; model r]))
    (ModelGatewayError "run, provider, and model are required") >>?
  refuse_if (existsb (fun value => (value <=? 0)%Z)
               [max_requests r; max_tokens r; expires_after_seconds r])
    (ModelGatewayError "model route limits must be positive") >>?
  refuse_if (max_cost_minor r <? 0)%Z
    (ModelGatewayError "model route cost limit must be non-negative").

Record Gateway := mkGateway {
  route : ModelRoute;
  has_adapter : bool;
  token_digest : option string;
  issued_at : option Z;
  requests : Z;
  tokens : Z;
  cost_minor : Z;
  reserved_requests : Z;
  reserved_tokens : Z;
  reserved_cost_minor : Z;
  revoked : bool;
  locked_reason : option string;
  unknown_effects : Z;
  overruns : Z;
}.

(** [ModelGateway(route, adapter)] *)
Definition new_gateway (r : ModelRoute) (adapter : bool) : outcome gateway_error Gateway :=
  validate r >>?
  Ok (mkGateway r adapter None None 0 0 0 0 0 0 false None 0 0).

Definition with_token d i (g : Gateway) : Gateway :=
  mkGateway (route g) (has_adapter g) d i (requests g) (tokens g) (cost_minor g)
    (reserved_requests g) (reserved_tokens g) (reserved_cost_minor g) (revoked g)
    (locked_reason g) (unknown_effects g) (overruns g).
Definition with_usage q t c (g : Gateway) : Gateway :=
  mkGateway (route g) (has_adapter g) (token_digest g) (issued_at g) q t c
    (reserved_requests g) (reserved_tokens g) (reserved_cost_minor g) (revoked g)
    (locked_reason g) (unknown_effects g) (overruns g).
Definition with_reserved q t c (g : Gateway) : Gateway :=
  mkGateway (route g) (has_adapter g) (token_digest g) (issued_at g) (requests g) (tokens g)
    (cost_minor g) q t c (revoked g) (locked_reason g) (unknown_effects g) (overruns g).
Definition with_revoked b (g : Gateway) : Gateway :=
  mkGateway (route g) (has_adapter g) (token_digest g) (issued_at g) (requests g) (tokens g)
    (cost_minor g) (reserved_requests g) (reserved_tokens g) (reserved_cost_minor g) b
    (locked_reason g) (unknown_effects g) (overruns g).
Definition with_lock l (g : Gateway) : Gateway :=
  mkGateway (route g) (has_adapter g) (token_digest g) (issued_at g) (requests g) (tokens g)
    (cost_minor g) (reserved_requests g) (reserved_tokens g) (reserved_cost_minor g) (revoked g)
    l (unknown_effects g) (overruns g).
Definition with_counts u o (g : Gateway) : Gateway :=
  mkGateway (route g) (has_adapter g) (token_digest g) (issued_at g) (requests g) (tokens g)
    (cost_minor g) (reserved_requests g) (reserved_tokens g) (reserved_cost_minor g) (revoked g)
    (locked_reason g) u o.

(** ** Operations *)

Abbreviation op := (M Gateway gateway_error).

Definition is_ascii (s : string) : bool := all_chars (fun c => code c <? 128)%Z s.

Definition locked_message (o : option string) : string :=
  "model route is locked: " +:+ default "" o.

Definition clear_token (g : Gateway) : Gateway := with_token None (issued_at g) g.
Definition lock_once (reason : string) (g : Gateway) : Gateway :=
  match locked_reason g with None => with_lock (Some reason) g | Some _ => g end.

(** [token] is what [secrets.token_urlsafe(32)] returns. *)
Definition issue_token (token : string) (now : Z) : op string :=
  let* g := get in
  raise_if (revoked g) (ModelGatewayError "model route is revoked") >>*
  raise_if (bool_decide (is_Some (locked_reason g)))
    (ModelGatewayError (locked_message (locked_reason g))) >>*
  modify (with_token (Some (sha256_hex token)) (Some now)) >>*
  ret token.

Definition estimate (value : json) (name : string) : outcome gateway_error Z :=
  match value with
  | JInt z => refuse_if (z <? 0)%Z
                (ModelGatewayError (name +:+ " estimate must be a non-negative integer")) >>? Ok z
  | _ => Raise (ModelGatewayError (name +:+ " estimate must be a non-negative integer"))
  end.

Definition nanoseconds (seconds : Z) : Z := (seconds * 1000000000)%Z.

Definition authorize_and_reserve (token provider_ model_ : string) (est_tokens est_cost now : Z)
    : op unit :=
  raise_if (negb (is_ascii token)) (ModelGatewayError "run-bound model token refused") >>*
  let presented_digest := sha256_hex token in
  let* g := get in
  raise_if (bool_decide (is_Some (locked_reason g)))
    (ModelGatewayError (locked_message (locked_reason g))) >>*
  match revoked g, token_digest g, issued_at g with
  | false, Some digest, Some issued =>
      raise_if (negb (bool_decide (digest = presented_digest)))
        (ModelGatewayError "run-bound model token refused") >>*
      raise_if (nanoseconds (expires_after_seconds (route g)) <? now - issued)%Z
        (ModelGatewayError "run-bound model token expired")
  | _, _, _ => raise (ModelGatewayError "model route is unavailable")
  end >>*
  raise_if (negb (bool_decide (provider_ = provider (route g)))
            || negb (bool_decide (model_ = model (route g))))
    (ModelGatewayError "provider or model is outside the approved route") >>*
  raise_if (negb (has_adapter g))
    (ModelGatewayError "no configured provider adapter is available") >>*
  raise_if (max_requests (route g) <? requests g + 1)%Z
    (ModelGatewayError "model request budget exhausted") >>*
  raise_if (max_tokens (route g) <? tokens g + reserved_tokens g + est_tokens)%Z
    (ModelGatewayError "model token budget exhausted by reserved estimate") >>*
  raise_if (max_cost_minor (route g) <? cost_minor g + reserved_cost_minor g + est_cost)%Z
    (ModelGatewayError "model cost budget exhausted by reserved estimate") >>*
  modify (fun g => with_usage (requests g + 1) (tokens g) (cost_minor g) g) >>*
  modify (fun g => with_reserved (reserved_requests g + 1) (reserved_tokens g + est_tokens)
                     (reserved_cost_minor g + est_cost) g).

Definition release_reservation (est_tokens est_cost : Z) : op unit :=
  modify (fun g => with_reserved (reserved_requests g - 1) (reserved_tokens g - est_tokens)
                     (reserved_cost_minor g - est_cost) g) >>*
  let* g := get in
  if (Z.min (Z.min (reserved_requests g) (reserved_tokens g)) (reserved_cost_minor g) <? 0)%Z
  then
    modify (with_lock (Some "gateway-accounting-invariant-violated")) >>*
    modify clear_token >>*
    raise (ModelGatewayError "model gateway accounting invariant violated")
  else ret tt.

Definition settle_known (est_tokens est_cost used_tokens used_cost : Z) : op unit :=
  release_reservation est_tokens est_cost >>*
  modify (fun g => with_usage (requests g) (tokens g + used_tokens) (cost_minor g + used_cost) g) >>*
  let* g := get in
  if ((est_tokens <? used_tokens) || (est_cost <? used_cost)
      || (max_tokens (route g) <? tokens g) || (max_cost_minor (route g) <? cost_minor g))%Z
  then
    modify (fun g => with_counts (unknown_effects g) (overruns g + 1) g) >>*
    modify (lock_once "provider-usage-exceeded-reservation") >>*
    modify clear_token >>*
    raise (ModelGatewayError "provider usage exceeded its reserved budget")
  else ret tt.

Definition settle_unknown (est_tokens est_cost : Z) : op unit :=
  release_reservation est_tokens est_cost >>*
  modify (fun g => with_usage (requests g)
                     (Z.max (tokens g + est_tokens) (max_tokens (route g)))
                     (Z.max (cost_minor g + est_cost) (max_cost_minor (route g))) g) >>*
  modify (fun g => with_counts (unknown_effects g + 1) (overruns g) g) >>*
  modify (lock_once "provider-effect-usage-unknown") >>*
  modify clear_token.

Definition nonnegative_int (o : option json) : option Z :=
  match o with Some (JInt z) => if (z <? 0)%Z then None else Some z | _ => None end.

Definition usage_of (result : dict) : outcome gateway_error (Z * Z) :=
  match dict_get "usage" result with
  | Some (JObj usage) =>
      match nonnegative_int (dict_get "tokens" usage) with
      | None => Raise (ModelGatewayError "provider token usage is malformed")
      | Some t =>
          match nonnegative_int (dict_get "costMinor" usage) with
          | None => Raise (ModelGatewayError "provider cost usage is malformed")
          | Some c => Ok (t, c)
          end
      end
  | _ => Raise (ModelGatewayError "provider adapter usage is malformed")
  end.

(** The rest of [request] once the adapter has answered or raised. *)
Definition finish (provider_ model_ : string) (est_tokens est_cost : Z)
    (answer : outcome string json) (started now : Z) : op dict :=
  match answer with
  | Raise e => settle_unknown est_tokens est_cost >>* raise (AdapterError e)
  | Ok (JObj result) =>
      match usage_of result with
      | Raise e => settle_unknown est_tokens est_cost >>* raise e
      | Ok (t, c) =>
          settle_known est_tokens est_cost t c >>*
          ret [("provider", JStr provider_); ("model", JStr model_); ("outcome", JStr "completed");
               ("usage", JObj [("tokens", JInt t); ("costMinor", JInt c)]);
               ("timing", JObj [("durationMilliseconds", JInt (Z.quot (now - started) 1000000))]);
               ("response", JObj result)]
      end
  | Ok _ => settle_unknown est_tokens est_cost >>*
            raise (ModelGatewayError "provider adapter returned a non-object result")
  end.

(** [adapter] answers a request; [clock] gives the three readings. *)
Definition request (adapter : string -> string -> dict -> outcome string json)
    (clock : Z * Z * Z) (token provider_ model_ : string) (body : dict)
    (estimated_tokens estimated_cost_minor : json) : op dict :=
  let '(now, started, ended) := clock in
  let* est_tokens := lift (estimate estimated_tokens "token") in
  let* est_cost := lift (estimate estimated_cost_minor "cost") in
  authorize_and_reserve token provider_ model_ est_tokens est_cost now >>*
  finish provider_ model_ est_tokens est_cost (adapter provider_ model_ body) started ended.

Definition revoke : op unit :=
  modify (with_revoked true) >>* modify clear_token.

Definition usage (g : Gateway) : dict :=
  [("provider", JStr (provider (route g))); ("model", JStr (model (route g)));
   ("requests", JInt (requests g)); ("tokens", JInt (tokens g)); ("costMinor", JInt (cost_minor g));
   ("reserved", JObj [("requests", JInt (reserved_requests g)); ("tokens", JInt (reserved_tokens g));
                      ("costMinor", JInt (reserved_cost_minor g))]);
   ("revoked", JBool (revoked g));
   ("lockedReason", match locked_reason g with Some r => JStr r | None => JNull end);
   ("unknownEffects", JInt (unknown_effects g)); ("overruns", JInt (overruns g))].

(** ** Threads *)

(** The part of [request] before the adapter runs. *)
Definition admission (token provider_ model_ : string) (estimated_tokens estimated_cost_minor : json)
    (now : Z) : op (Z * Z) :=
  let* est_tokens := lift (estimate estimated_tokens "token") in
  let* est_cost := lift (estimate estimated_cost_minor "cost") in
  authorize_and_reserve token provider_ model_ est_tokens est_cost now >>*
  ret (est_tokens, est_cost).

(** A provider call that has been admitted and not settled. *)
Record Flight := mkFlight {
  f_provider : string;
  f_model : string;
  f_tokens : Z;
  f_cost : Z;
  f_started : Z;
}.

Record World := mkWorld { gateway : Gateway; flights : list Flight }.

Inductive Event :=
| Issue (token : string) (now : Z)
| Admit (token provider_ model_ : string) (est_tokens est_cost : json) (now started : Z)
| Settle (i : nat) (answer : outcome string json) (now : Z)
| Revoke.

Definition world_step (w : World) (e : Event) : World :=
  let '(mkWorld g fs) := w in
  match e with
  | Issue t n => mkWorld (fst (issue_token t n g)) fs
  | Admit t p m et ec n st =>
      match admission t p m et ec n g with
      | (g', Ok (a, b)) => mkWorld g' (fs ++ [mkFlight p m a b st])
      | (g', Raise _) => mkWorld g' fs
      end
  | Settle i ans n =>
      match fs !! i with
      | None => w
      | Some f => mkWorld (fst (finish (f_provider f) (f_model f) (f_tokens f) (f_cost f) ans
                                  (f_started f) n g)) (delete i fs)
      end
  | Revoke => mkWorld (fst (revoke g)) fs
  end.

(** ** Lemmas *)

Definition sum_tokens (fs : list Flight) : Z := foldr (fun f n => (f_tokens f + n)%Z) 0%Z fs.
Definition sum_cost (fs : list Flight) : Z := foldr (fun f n => (f_cost f + n)%Z) 0%Z fs.

Definition flight_ok (f : Flight) : Prop := (0 <= f_tokens f)%Z /\ (0 <= f_cost f)%Z.

Lemma sum_tokens_app a b : sum_tokens (a ++ b) = (sum_tokens a + sum_tokens b)%Z.
Proof. unfold sum_tokens. induction a; simpl; lia. Qed.
Lemma sum_cost_app a b : sum_cost (a ++ b) = (sum_cost a + sum_cost b)%Z.
Proof. unfold sum_cost. induction a; simpl; lia. Qed.

Lemma sums_nonneg fs : Forall flight_ok fs -> (0 <= sum_tokens fs /\ 0 <= sum_cost fs)%Z.
Proof. induction 1 as [|f fs [? ?] _ IH]; simpl; lia. Qed.

Lemma sums_delete fs i f : fs !! i = Some f ->
  (sum_tokens fs = f_tokens f + sum_tokens (delete i fs))%Z /\
  (sum_cost fs = f_cost f + sum_cost (delete i fs))%Z /\
  length fs = S (length (delete i fs)).
Proof.
  intros Hi. rewrite delete_take_drop. apply take_drop_middle in Hi as Hfs.
  split; [|split].
  - rewrite <-Hfs at 1. rewrite !sum_tokens_app. simpl. lia.
  - rewrite <-Hfs at 1. rewrite !sum_cost_app. simpl. lia.
  - rewrite <-Hfs at 1. rewrite !length_app. simpl. lia.
Qed.

(** The gateway is closed to new admissions. *)
Definition shut (g : Gateway) : Prop := revoked g = true \/ is_Some (locked_reason g).

Record accounts (w : World) : Prop := {
  acc_route : validate (route (gateway w)) = Ok tt;
  acc_flights : Forall flight_ok (flights w);
  acc_requests : reserved_requests (gateway w) = Z.of_nat (length (flights w));
  acc_tokens : reserved_tokens (gateway w) = sum_tokens (flights w);
  acc_cost : reserved_cost_minor (gateway w) = sum_cost (flights w);
  acc_count : (0 <= requests (gateway w) <= max_requests (route (gateway w)))%Z;
  acc_spent : (0 <= tokens (gateway w) /\ 0 <= cost_minor (gateway w))%Z;
  acc_lock : locked_reason (gateway w) <> Some "gateway-accounting-invariant-violated";
  acc_budget : locked_reason (gateway w) = None ->
    (tokens (gateway w) + reserved_tokens (gateway w) <= max_tokens (route (gateway w)) /\
     cost_minor (gateway w) + reserved_cost_minor (gateway w) <= max_cost_minor (route (gateway w)))%Z;
  acc_token : shut (gateway w) -> token_digest (gateway w) = None;
}.

Lemma usage_of_nonneg r t c : usage_of r = Ok (t, c) -> (0 <= t /\ 0 <= c)%Z.
Proof.
  assert (Hn : forall o z, nonnegative_int o = Some z -> (0 <= z)%Z).
  { intros [[| |x| | |]|] z; simpl; try done. destruct (x <? 0)%Z eqn:E; [done|].
    intros [= ->]. by apply Z.ltb_ge. }
  unfold usage_of. destruct (dict_get "usage" r) as [[| | | | |u]|]; try done.
  destruct (nonnegative_int (dict_get "tokens" u)) eqn:Ht; [|done].
  destruct (nonnegative_int (dict_get "costMinor" u)) eqn:Hc; [|done].
  intros [= <- <-]. eauto.
Qed.

Lemma estimate_Ok v n z : estimate v n = Ok z -> (0 <= z)%Z.
Proof. destruct v; simpl; try done. intros H. inv_ok. split_bool. done. Qed.

(** What a successful admission did and had checked. *)
Lemma authorize_inv t p m et ec now g g' :
  authorize_and_reserve t p m et ec now g = (g', Ok tt) ->
  g' = with_reserved (reserved_requests g + 1) (reserved_tokens g + et) (reserved_cost_minor g + ec)
         (with_usage (requests g + 1) (tokens g) (cost_minor g) g) /\
  locked_reason g = None /\ revoked g = false /\ has_adapter g = true /\
  token_digest g = Some (sha256_hex t) /\
  (exists issued, issued_at g = Some issued /\
     (now - issued <= nanoseconds (expires_after_seconds (route g)))%Z) /\
  p = provider (route g) /\ m = model (route g) /\
  (requests g + 1 <= max_requests (route g))%Z /\
  (tokens g + reserved_tokens g + et <= max_tokens (route g))%Z /\
  (cost_minor g + reserved_cost_minor g + ec <= max_cost_minor (route g))%Z.
Proof.
  unfold authorize_and_reserve. intros H. repeat (inv_ok_step; subst).
  destruct (revoked _) eqn:Hr; [by repeat inv_ok_step|].
  destruct (token_digest _) as [d|] eqn:Hd; [|by repeat inv_ok_step].
  destruct (issued_at _) as [i|] eqn:Hi; [|by repeat inv_ok_step].
  repeat (inv_ok_step; subst). split_bool.
  split; [done|]. split; [destruct (locked_reason g); [exfalso; eauto|done]|].
  repeat split; try done; [by f_equal|by exists i].
Qed.

Lemma admit_inv t p m jt jc now g g' et ec :
  admission t p m jt jc now g = (g', Ok (et, ec)) ->
  (0 <= et /\ 0 <= ec)%Z /\ authorize_and_reserve t p m et ec now g = (g', Ok tt).
Proof.
  unfold admission. intros H. repeat (inv_ok_step; subst).
  simplify_eq. repeat match goal with u : unit |- _ => destruct u end.
  split; [|done]. eauto using estimate_Ok.
Qed.

Lemma admit_estimates t p m jt jc now g g' et ec :
  admission t p m jt jc now g = (g', Ok (et, ec)) -> jt = JInt et /\ jc = JInt ec.
Proof.
  assert (He : forall v n z, estimate v n = Ok z -> v = JInt z).
  { intros v n z. destruct v; simpl; try done. intros H. by inv_ok. }
  unfold admission. intros H. repeat (inv_ok_step; subst). simplify_eq. eauto.
Qed.

Lemma admit_refused t p m jt jc now g e g' :
  admission t p m jt jc now g = (g', Raise e) -> g' = g.
Proof.
  assert (Hwp : wp (admission t p m jt jc now) (fun _ _ => True) (fun _ g' => g' = g) g).
  { unfold admission, authorize_and_reserve.
    destruct (revoked g) eqn:Hr, (token_digest g) eqn:Hd, (issued_at g) eqn:Hi;
      repeat (wp_step; try done); rewrite ?Hr, ?Hd, ?Hi; repeat (wp_step; try done). }
  unfold wp in Hwp. intros H. by rewrite H in Hwp.
Qed.

(** Whether a settlement found more used than was reserved or allowed. *)
Definition overrun (g : Gateway) (et ec ut uc : Z) : bool :=
  ((et <? ut) || (ec <? uc) || (max_tokens (route g) <? tokens g + ut)
   || (max_cost_minor (route g) <? cost_minor g + uc))%Z.

(** What a settlement leaves, when its reservation is on the books. *)
Definition released (et ec : Z) (g : Gateway) : Gateway :=
  with_reserved (reserved_requests g - 1) (reserved_tokens g - et) (reserved_cost_minor g - ec) g.

Definition settled_known (et ec ut uc : Z) (g : Gateway) : Gateway :=
  let g1 := with_usage (requests g) (tokens g + ut) (cost_minor g + uc) (released et ec g) in
  if overrun g et ec ut uc
  then clear_token (lock_once "provider-usage-exceeded-reservation"
         (with_counts (unknown_effects g) (overruns g + 1) g1))
  else g1.

Definition settled_unknown (et ec : Z) (g : Gateway) : Gateway :=
  clear_token (lock_once "provider-effect-usage-unknown"
    (with_counts (unknown_effects g + 1) (overruns g)
       (with_usage (requests g) (Z.max (tokens g + et) (max_tokens (route g)))
          (Z.max (cost_minor g + ec) (max_cost_minor (route g))) (released et ec g)))).

Definition reserved_for (et ec : Z) (g : Gateway) : Prop :=
  (1 <= reserved_requests g /\ et <= reserved_tokens g /\ ec <= reserved_cost_minor g)%Z.

Lemma release_run et ec g : reserved_for et ec g -> release_reservation et ec g = (released et ec g, Ok tt).
Proof.
  intros (H1 & H2 & H3). unfold release_reservation. rewrite bind_modify, bind_get. cbn.
  replace (_ <? 0)%Z with false; [done|]. symmetry. apply Z.ltb_ge. lia.
Qed.

Lemma settle_known_run et ec ut uc g : reserved_for et ec g ->
  settle_known et ec ut uc g
  = (settled_known et ec ut uc g,
     if overrun g et ec ut uc
     then Raise (ModelGatewayError "provider usage exceeded its reserved budget") else Ok tt).
Proof.
  intros Hr. unfold settle_known. rewrite (bind_run _ _ _ _ _ (release_run _ _ _ Hr)).
  rewrite bind_modify, bind_get. cbn. unfold settled_known, overrun.
  destruct (_ || _)%bool; [|done]. by rewrite !bind_modify.
Qed.

Lemma settle_unknown_run et ec g : reserved_for et ec g ->
  settle_unknown et ec g = (settled_unknown et ec g, Ok tt).
Proof.
  intros Hr. unfold settle_unknown. rewrite (bind_run _ _ _ _ _ (release_run _ _ _ Hr)).
  by rewrite !bind_modify.
Qed.

(** The usage an answer reports, when it is well formed. *)
Definition reported (answer : outcome string json) : option (Z * Z) :=
  match answer with
  | Ok (JObj result) => match usage_of result with Ok u => Some u | Raise _ => None end
  | _ => None
  end.

Lemma finish_state p m et ec ans st n g : reserved_for et ec g ->
  fst (finish p m et ec ans st n g)
  = match reported ans with
    | Some (t, c) => settled_known et ec t c g
    | None => settled_unknown et ec g
    end.
Proof.
  intros Hr. pose proof (settle_unknown_run et ec g Hr) as Hu.
  unfold finish, reported. destruct ans as [[| | | | |r]|e];
    try (rewrite (bind_run _ _ _ _ _ Hu); done).
  destruct (usage_of r) as [[t c]|]; [|by rewrite (bind_run _ _ _ _ _ Hu)].
  pose proof (settle_known_run et ec t c g Hr) as Hk. destruct (overrun g et ec t c).
  - by rewrite (bind_raises _ _ _ _ _ Hk).
  - by rewrite (bind_run _ _ _ _ _ Hk).
Qed.

Lemma reported_nonneg ans t c : reported ans = Some (t, c) -> (0 <= t /\ 0 <= c)%Z.
Proof.
  unfold reported. destruct ans as [[| | | | |r]|e]; try done.
  destruct (usage_of r) as [[]|] eqn:E; [|done]. intros [= <- <-]. by eapply usage_of_nonneg.
Qed.

Lemma flight_reserved w i f : accounts w -> flights w !! i = Some f ->
  reserved_for (f_tokens f) (f_cost f) (gateway w).
Proof.
  intros [] Hi. destruct (sums_delete _ _ _ Hi) as (H1 & H2 & H3).
  assert (Hd : Forall flight_ok (delete i (flights w))).
  { rewrite delete_take_drop. apply Forall_app. split; [by apply Forall_take|by apply Forall_drop]. }
  apply sums_nonneg in Hd. unfold reserved_for. lia.
Qed.

Lemma shut_lock_once reason g : shut (lock_once reason g).
Proof. unfold lock_once, shut. destruct (locked_reason g) eqn:E; [right; by rewrite E|by right; eexists]. Qed.

Lemma lock_once_fields reason g :
  route (lock_once reason g) = route g /\ requests (lock_once reason g) = requests g /\
  tokens (lock_once reason g) = tokens g /\ cost_minor (lock_once reason g) = cost_minor g /\
  reserved_requests (lock_once reason g) = reserved_requests g /\
  reserved_tokens (lock_once reason g) = reserved_tokens g /\
  reserved_cost_minor (lock_once reason g) = reserved_cost_minor g /\
  revoked (lock_once reason g) = revoked g /\ token_digest (lock_once reason g) = token_digest g /\
  is_Some (locked_reason (lock_once reason g)) /\
  (locked_reason (lock_once reason g) = locked_reason g \/ locked_reason (lock_once reason g) = Some reason).
Proof. unfold lock_once. destruct (locked_reason g) eqn:E; cbn; rewrite ?E; repeat split; auto; by eexists. Qed.

(** A settlement of either kind keeps the books. *)
Lemma settle_accounts w i f g' :
  accounts w -> flights w !! i = Some f ->
  (exists ut uc, (0 <= ut /\ 0 <= uc)%Z /\ g' = settled_known (f_tokens f) (f_cost f) ut uc (gateway w)) \/
  g' = settled_unknown (f_tokens f) (f_cost f) (gateway w) ->
  accounts (mkWorld g' (delete i (flights w))).
Proof.
  intros [Hv Hf Hrq Hrt Hrc Hn Hs Hl Hb Ht] Hi Hcase.
  destruct (sums_delete _ _ _ Hi) as (H1 & H2 & H3).
  assert (Hd : Forall flight_ok (delete i (flights w))).
  { rewrite delete_take_drop. apply Forall_app. split; [by apply Forall_take|by apply Forall_drop]. }
  assert (Hfo : flight_ok f) by (rewrite Forall_forall in Hf; by eapply Hf, list_elem_of_lookup_2).
  destruct w as [g fs]. cbn [gateway flights] in *. destruct Hfo as [Hft Hfc].
  assert (Hroute : validate (route g) = Ok tt -> (0 < max_tokens (route g))%Z).
  { unfold validate. intros H. inv_ok. split_bool. lia. }
  destruct Hcase as [(ut & uc & Hu & ->)| ->]; [unfold settled_known; destruct (overrun _ _ _ _ _) eqn:E|unfold settled_unknown].
  - set (g2 := with_counts _ _ _).
    destruct (lock_once_fields "provider-usage-exceeded-reservation" g2) as (A&B&C&D&E1&F&G&H&I&J&K).
    subst g2. cbn -[lock_once sum_tokens sum_cost] in *. constructor; cbn -[lock_once sum_tokens sum_cost]; rewrite ?A, ?B, ?C, ?D, ?E1, ?F, ?G; try done; try lia.
    + destruct K as [-> | ->]; done.
    + intros Hnone. destruct J as [r Hr]. congruence.
  - unfold overrun in E. split_bool. constructor; cbn -[sum_tokens sum_cost]; try done; try lia.
    intros Hnone. destruct (Hb Hnone). lia.
  - set (g2 := with_counts _ _ _).
    destruct (lock_once_fields "provider-effect-usage-unknown" g2) as (A&B&C&D&E1&F&G&H&I&J&K).
    subst g2. cbn -[lock_once sum_tokens sum_cost] in *. constructor; cbn -[lock_once sum_tokens sum_cost]; rewrite ?A, ?B, ?C, ?D, ?E1, ?F, ?G; try done; try lia.
    + destruct K as [-> | ->]; done.
    + intros Hnone. destruct J as [r Hr]. congruence.
Qed.

Lemma issue_token_state t n g :
  fst (issue_token t n g) = g \/
  (~ shut g /\ fst (issue_token t n g) = with_token (Some (sha256_hex t)) (Some n) g).
Proof.
  unfold issue_token. run_m. destruct (revoked g) eqn:Hr; [by left|].
  rewrite bind_raise_if_pass by done. destruct (locked_reason g) eqn:Hl; [by left|].
  rewrite bind_raise_if_pass by done. right. split; [|done].
  unfold shut. rewrite Hr, Hl. intros [|[? ?]]; done.
Qed.

Lemma accounts_step w e : accounts w -> accounts (world_step w e).
Proof.
  intros Hw. destruct w as [g fs]. destruct e as [t n|t p m jt jc n st|i ans n|]; cbn [world_step].
  - destruct (issue_token_state t n g) as [-> |[Hns ->]]; [done|].
    destruct Hw. constructor; cbn in *; try done.
  - destruct (admission t p m jt jc n g) as [g' [[et ec]|e]] eqn:E;
      [|by apply admit_refused in E as ->].
    apply admit_inv in E as ((Het & Hec) & E).
    apply authorize_inv in E as (-> & Hl & Hr & _ & _ & _ & _ & _ & Hq & Hqt & Hqc).
    destruct Hw as [Hv Hf Hrq Hrt Hrc Hn Hs Hlk Hb Ht]. cbn -[sum_tokens sum_cost] in *.
    constructor; cbn -[sum_tokens sum_cost]; rewrite ?length_app, ?sum_tokens_app, ?sum_cost_app; cbn; try done; try lia.
    apply Forall_app. split; [done|]. by repeat constructor.
  - destruct (fs !! i) as [f|] eqn:Hi; [|done].
    rewrite finish_state by (by eapply (flight_reserved _ i f Hw)).
    apply (settle_accounts (mkWorld g fs) i f); [done..|]. cbn [gateway].
    destruct (reported ans) as [[ut uc]|] eqn:Hrep; [left|by right].
    exists ut, uc. split; [by eapply reported_nonneg|done].
  - destruct Hw. constructor; cbn in *; done.
Qed.

Definition reachable (r : ModelRoute) (w : World) : Prop :=
  exists adapter g tr, new_gateway r adapter = Ok g /\ w = run_trace world_step (mkWorld g []) tr.

Lemma reachable_accounts r w : reachable r w -> accounts w.
Proof.
  intros (adapter & g & tr & Hg & ->). apply run_trace_invariant; [intros; by apply accounts_step|].
  unfold new_gateway in Hg. inv_ok. subst. destruct x.
  match goal with H : validate r = Ok tt |- _ => pose proof H as Hv; unfold validate in H end.
  inv_ok. split_bool. constructor; cbn; try done; try lia.
Qed.

Lemma step_shut w e : accounts w -> shut (gateway w) ->
  shut (gateway (world_step w e)) /\ requests (gateway (world_step w e)) = requests (gateway w) /\
  (length (flights (world_step w e)) <= length (flights w))%nat.
Proof.
  intros Ha Hs. destruct w as [g fs]. cbn [gateway flights] in *.
  destruct e as [t n|t p m jt jc n st|i ans n|]; cbn [world_step].
  - destruct (issue_token_state t n g) as [-> |[Hns _]]; done.
  - destruct (admission t p m jt jc n g) as [g' [[et ec]|e]] eqn:E;
      [|by apply admit_refused in E as ->].
    apply admit_inv in E as (_ & E). apply authorize_inv in E as (_ & Hl & Hr & _).
    exfalso. unfold shut in Hs. rewrite Hl, Hr in Hs. destruct Hs as [|[? ?]]; done.
  - destruct (fs !! i) as [f|] eqn:Hi; [|done].
    pose proof (flight_reserved _ i f Ha Hi) as Hres. cbn [gateway flights] in *.
    rewrite finish_state by done.
    assert (Hlen : (length (delete i fs) <= length fs)%nat).
    { rewrite length_delete by (by eexists). lia. }
    destruct (reported ans) as [[ut uc]|]; [unfold settled_known; destruct (overrun _ _ _ _ _)|].
    + split; [|split; [|done]]; [apply shut_lock_once|].
      cbn -[lock_once]. by rewrite (proj1 (proj2 (lock_once_fields _ _))).
    + done.
    + split; [|split; [|done]]; [apply shut_lock_once|].
      cbn -[lock_once]. by rewrite (proj1 (proj2 (lock_once_fields _ _))).
  - split; [by left|done].
Qed.

(** ** What the gateway guarantees *)

(** C7 Budgets hold under concurrency: however threads interleave admissions,
    settlements, token issues and revocation, the reservations on the books are
    those of the calls in flight (so the code's accounting violation never
    happens), the number of admitted requests stays within the route, and while
    the route is not locked, what was charged and what is reserved together stay
    within the token and cost limits. *)
Theorem gateway_budgets_hold (r : ModelRoute) (w : World) :
  reachable r w ->
  let g := gateway w in
  (reserved_requests g = Z.of_nat (length (flights w)) /\
   reserved_tokens g = sum_tokens (flights w) /\ reserved_cost_minor g = sum_cost (flights w))%Z /\
  locked_reason g <> Some "gateway-accounting-invariant-violated" /\
  (requests g <= max_requests (route g))%Z /\
  (locked_reason g = None ->
     (tokens g + reserved_tokens g <= max_tokens (route g))%Z /\
     (cost_minor g + reserved_cost_minor g <= max_cost_minor (route g))%Z).
Proof. intros H g. destruct (reachable_accounts r w H). repeat split; try done; try lia; naive_solver. Qed.

Definition sample_route : ModelRoute := mkModelRoute "run-1" "acme" "large" 2 100 10 3600.
Definition sample_gateway : Gateway := mkGateway sample_route true None None 0 0 0 0 0 0 false None 0 0.
Definition sample_answer (t c : Z) : outcome string json :=
  Ok (JObj [("usage", JObj [("tokens", JInt t); ("costMinor", JInt c)])]).
Definition sample_trace : list Event :=
  [Issue "token" 0; Admit "token" "acme" "large" (JInt 60) (JInt 4) 5 5;
   Admit "token" "acme" "large" (JInt 60) (JInt 4) 6 6;
   Admit "token" "acme" "large" (JInt 30) (JInt 4) 7 7; Settle 0 (sample_answer 50 4) 9].
Definition sample_world : World := run_trace world_step (mkWorld sample_gateway []) sample_trace.

Lemma sample_gateway_reachable : reachable sample_route sample_world.
Proof. exists true, sample_gateway, sample_trace. split; [vm_compute; reflexivity|done]. Qed.

(** The second call did not fit next to the first; the third did. *)
Example sample_world_books :
  (requests (gateway sample_world), tokens (gateway sample_world),
   reserved_tokens (gateway sample_world), length (flights sample_world)) = (2, 50, 30, 1%nat)%Z.
Proof. vm_compute. reflexivity. Qed.

Lemma gateway_budgets_hold_witness :
  reachable sample_route sample_world /\
  reserved_tokens (gateway sample_world) = sum_tokens (flights sample_world).
Proof.
  split; [exact sample_gateway_reachable|].
  destruct (gateway_budgets_hold sample_route sample_world sample_gateway_reachable) as ((_ & H & _) & _).
  exact H.
Defined.

(** Every settlement is charged: settling a call in flight adds exactly the
    usage the provider reported, beyond any budget if need be, and locks the
    route when that exceeds the reservation or a limit; when the provider raised
    or its usage is malformed, both budgets are exhausted and the route is
    locked.  The call's own reservation is returned in every case. *)
Theorem settlement_charges (r : ModelRoute) (w : World) (i : nat) (f : Flight)
    (answer : outcome string json) (now : Z) :
  reachable r w -> flights w !! i = Some f ->
  let g := gateway w in
  let g' := gateway (world_step w (Settle i answer now)) in
  (reserved_tokens g' = reserved_tokens g - f_tokens f /\
   reserved_cost_minor g' = reserved_cost_minor g - f_cost f)%Z /\
  match reported answer with
  | Some (t, c) =>
      (tokens g' = tokens g + t /\ cost_minor g' = cost_minor g + c)%Z /\
      (is_Some (locked_reason g') <->
         is_Some (locked_reason g) \/ (f_tokens f < t \/ f_cost f < c \/
           max_tokens (route g) < tokens g' \/ max_cost_minor (route g) < cost_minor g')%Z)
  | None =>
      (max_tokens (route g) <= tokens g' /\ max_cost_minor (route g) <= cost_minor g' /\
       tokens g + f_tokens f <= tokens g' /\ cost_minor g + f_cost f <= cost_minor g')%Z /\
      is_Some (locked_reason g')
  end.
Proof.
  intros Hw Hi g g'. pose proof (reachable_accounts r w Hw) as Hacc.
  pose proof (flight_reserved w i f Hacc Hi) as Hres. subst g'.
  destruct w as [g0 fs]. cbn [gateway flights world_step] in *. subst g. rewrite Hi. cbn [gateway].
  rewrite finish_state by done. destruct (reported answer) as [[t c]|].
  - unfold settled_known. destruct (overrun g0 (f_tokens f) (f_cost f) t c) eqn:E.
    + set (g2 := with_counts _ _ _).
      destruct (lock_once_fields "provider-usage-exceeded-reservation" g2) as (A&B&C&D&E1&F&G&H&I&J&K).
      subst g2. cbn -[lock_once] in *. rewrite C, D, F, G. repeat split; try done.
      intros _. right. unfold overrun in E. rewrite !orb_true_iff, !Z.ltb_lt in E. tauto.
    + cbn. unfold overrun in E. split_bool. repeat split; try done; [by left|].
      intros [?|?]; [done|lia].
  - unfold settled_unknown. set (g2 := with_counts _ _ _).
    destruct (lock_once_fields "provider-effect-usage-unknown" g2) as (A&B&C&D&E1&F&G&H&I&J&K).
    subst g2. cbn -[lock_once] in *. rewrite C, D, F, G. repeat split; try done; lia.
Qed.

Lemma settlement_charges_witness :
  exists f, flights sample_world !! 0%nat = Some f /\
    is_Some (locked_reason (gateway (world_step sample_world (Settle 0 (Raise "timeout") 11)))).
Proof.
  exists (mkFlight "acme" "large" 30 4 7). split; [vm_compute; reflexivity|].
  destruct (settlement_charges sample_route sample_world 0 (mkFlight "acme" "large" 30 4 7)
    (Raise "timeout") 11 sample_gateway_reachable) as [_ [_ H]]; [vm_compute; reflexivity|].
  exact H.
Defined.

(** A revoked or locked route stays closed: whatever happens next, no further
    request is admitted, no token is valid, and the calls in flight can only
    settle. *)
Theorem shut_gateway_admits_nothing (r : ModelRoute) (w : World) (tr : list Event) :
  reachable r w -> shut (gateway w) ->
  let w' := run_trace world_step w tr in
  shut (gateway w') /\ token_digest (gateway w') = None /\
  requests (gateway w') = requests (gateway w) /\
  (length (flights w') <= length (flights w))%nat.
Proof.
  intros Hw Hs. pose proof (reachable_accounts r w Hw) as Hacc.
  assert (Hgo : forall tr v, accounts v -> shut (gateway v) ->
    let v' := run_trace world_step v tr in
    shut (gateway v') /\ accounts v' /\ requests (gateway v') = requests (gateway v) /\
    (length (flights v') <= length (flights v))%nat).
  2: { destruct (Hgo tr w Hacc Hs) as (H1 & H2 & H3 & H4). repeat split; try done. by apply H2. }
  clear. intros tr. induction tr as [|e tr IH]; intros v Ha Hs; [done|].
  pose proof (accounts_step v e Ha) as Ha'.
  assert (Hone : shut (gateway (world_step v e)) /\
    requests (gateway (world_step v e)) = requests (gateway v) /\
    (length (flights (world_step v e)) <= length (flights v))%nat).
  { destruct (step_shut v e Ha Hs) as (?&?&?). done. }
  destruct Hone as (H1 & H2 & H3). destruct (IH _ Ha' H1) as (I1 & I2 & I3 & I4).
  cbv zeta. change (run_trace world_step v (e :: tr)) with (run_trace world_step (world_step v e) tr).
  split; [exact I1|]. split; [exact I2|]. split; [congruence|lia].
Qed.

Lemma shut_gateway_admits_nothing_witness :
  let w := world_step sample_world Revoke in
  reachable sample_route w /\ shut (gateway w) /\
  requests (gateway (run_trace world_step w
    [Issue "other" 20; Admit "other" "acme" "large" (JInt 1) (JInt 1) 21 21])) = 2%Z.
Proof.
  assert (Hr : reachable sample_route (world_step sample_world Revoke)).
  { exists true, sample_gateway, (sample_trace ++ [Revoke]). split; [vm_compute; reflexivity|].
    by rewrite run_trace_app. }
  assert (Hs : shut (gateway (world_step sample_world Revoke))) by (left; vm_compute; reflexivity).
  split; [exact Hr|]. split; [exact Hs|].
  destruct (shut_gateway_admits_nothing sample_route _
    [Issue "other" 20; Admit "other" "acme" "large" (JInt 1) (JInt 1) 21 21] Hr Hs)
    as (_ & _ & H & _).
  etransitivity; [exact H|vm_compute; reflexivity].
Defined.

Lemma request_split adapter now started ended t p m body jt jc g :
  request adapter (now, started, ended) t p m body jt jc g
  = match admission t p m jt jc now g with
    | (g1, Ok (et, ec)) => finish p m et ec (adapter p m body) started ended g1
    | (g1, Raise e) => (g1, Raise e)
    end.
Proof.
  unfold request, admission, bind, lift, ret.
  destruct (estimate jt "token") as [et|]; [|done]. destruct (estimate jc "cost") as [ec|]; [|done].
  destruct (authorize_and_reserve t p m et ec now g) as [g1 [[]|]]; done.
Qed.

(** [request] is an admission followed by a settlement: run without
    interference it leaves the gateway exactly as those two steps of the
    concurrent system do, it answers only when the provider reported usage
    within its reservation and the limits, and when it is not admitted it leaves
    everything as it was. *)
Theorem request_is_admit_then_settle (r : ModelRoute) (w : World)
    (adapter : string -> string -> dict -> outcome string json) (now started ended : Z)
    (t p m : string) (body : dict) (jt jc : json) :
  reachable r w ->
  let steps := [Admit t p m jt jc now started; Settle (length (flights w)) (adapter p m body) ended] in
  let run := request adapter (now, started, ended) t p m body jt jc (gateway w) in
  gateway (run_trace world_step w steps) = fst run /\
  flights (run_trace world_step w steps) = flights w /\
  (forall result, snd run = Ok result ->
     exists et ec ut uc, jt = JInt et /\ jc = JInt ec /\ reported (adapter p m body) = Some (ut, uc) /\
       (ut <= et /\ uc <= ec)%Z /\
       dict_get "usage" result = Some (JObj [("tokens", JInt ut); ("costMinor", JInt uc)])).
Proof.
  intros Hw steps run. pose proof (reachable_accounts r w Hw) as Hacc.
  pose proof (accounts_step w (Admit t p m jt jc now started) Hacc) as Hacc'.
  subst steps run. rewrite request_split. destruct w as [g fs]. cbn [gateway flights run_trace foldl] in *.
  unfold world_step in Hacc'. unfold world_step at 2 4.
  destruct (admission t p m jt jc now g) as [g1 [[et ec]|e]] eqn:E.
  - set (f := mkFlight p m et ec started) in *.
    assert (Hi : (fs ++ [f]) !! length fs = Some f) by (rewrite lookup_app_r, Nat.sub_diag; [done|lia]).
    pose proof (flight_reserved _ (length fs) f Hacc' Hi) as Hres. cbn [world_step].
    rewrite Hi. cbn [gateway flights f_provider f_model f_tokens f_cost f_started f] in *.
    split; [done|]. split.
    { rewrite delete_take_drop, take_app_length, drop_ge by (rewrite length_app; simpl; lia).
      by rewrite app_nil_r. }
    intros result Hrun.
    destruct (admit_estimates t p m jt jc now g g1 et ec E) as [-> ->].
    unfold finish in Hrun. unfold reported.
    pose proof (settle_unknown_run et ec g1 Hres) as Hu.
    destruct (adapter p m body) as [[| | | | |rs]|e];
      try (rewrite (bind_run _ _ _ _ _ Hu) in Hrun; discriminate Hrun).
    destruct (usage_of rs) as [[ut uc]|]; [|rewrite (bind_run _ _ _ _ _ Hu) in Hrun; discriminate Hrun].
    pose proof (settle_known_run et ec ut uc g1 Hres) as Hk. destruct (overrun g1 et ec ut uc) eqn:Eo.
    + by rewrite (bind_raises _ _ _ _ _ Hk) in Hrun.
    + rewrite (bind_run _ _ _ _ _ Hk) in Hrun. injection Hrun as <-.
      unfold overrun in Eo. split_bool. exists et, ec, ut, uc. repeat split; try done.
  - apply admit_refused in E as E'. subst g1. cbn [world_step gateway flights].
    rewrite lookup_ge_None_2 by lia. done.
Qed.

Lemma request_is_admit_then_settle_witness :
  reachable sample_route sample_world /\
  gateway (run_trace world_step sample_world
    [Admit "token" "acme" "large" (JInt 1) (JInt 1) 8 8; Settle 1 (sample_answer 1 1) 9])
  = fst (request (fun _ _ _ => sample_answer 1 1) (8, 8, 9)%Z "token" "acme" "large" [] (JInt 1) (JInt 1)
      (gateway sample_world)).
Proof.
  split; [exact sample_gateway_reachable|].
  exact (proj1 (request_is_admit_then_settle sample_route sample_world (fun _ _ _ => sample_answer 1 1)
    8 8 9 "token" "acme" "large" [] (JInt 1) (JInt 1) sample_gateway_reachable)).
Defined.
