(* ===== verification/ApprovalGate.v ===== *)
(** * Approvals and capabilities (packages/approval-gate)

    gate.py keeps approval requests in a JSON file that is re-read under an
    exclusive lock before each change; capabilities.py intersects what a
    template asks for, an instance was granted and the operator allows.  The
    state is one [ApprovalGate] object with its file.  [secrets.token_hex] is an
    argument of [request].  The text of the exception wrapped by [_load] is left
    out of its message. *)

From S2P Require Import Prelude Json.

(** ** Capabilities *)

(** A policy input: a collection whose members may fail to be strings, or no
    collection at all. *)
Inductive capability_input :=
| Collection (members : list (option string))
| NotCollection.

Fixpoint capability_members (members : list (option string)) (name : string) (result : gset string)
    : gset string * option string :=
  match members with
  | [] => (result, None)
  | Some item :: rest =>
      if negb (nonblank item) then (∅, Some (name +:+ " contains an invalid capability"))
      else capability_members rest name ({[py_strip item]} ∪ result)
  | None :: _ => (∅, Some (name +:+ " contains an invalid capability"))
  end.

Definition capability_set (value : capability_input) (name : string) : gset string * option string :=
  match value with
  | NotCollection => (∅, Some (name +:+ " must be a collection of capability strings"))
  | Collection members => capability_members members name ∅
  end.

Definition parse_capabilities := capability_set.

Record CapabilityIntersection := mkCapabilityIntersection {
  template_requested : list string;
  instance_granted : list string;
  operator_allowed : list string;
  effective : list string;
  denied : list string;
  ci_valid : bool;
  ci_reason : string;
}.

Definition errors_of (l : list (option string)) : list string := omap (fun e => e) l.

(** [intersect_capabilities] of capabilities.py *)
Definition intersect_capabilities (template instance operator : capability_input)
    : CapabilityIntersection :=
  let '(requested, e1) := capability_set template "template_requested" in
  let '(granted, e2) := capability_set instance "instance_granted" in
  let '(allowed, e3) := capability_set operator "operator_allowed" in
  let errors := errors_of [e1; e2; e3] in
  let ok := bool_decide (errors = []) in
  let effective := if ok then requested ∩ granted ∩ allowed else ∅ in
  mkCapabilityIntersection (sorted_set requested) (sorted_set granted) (sorted_set allowed)
    (sorted_set effective) (sorted_set (requested ∖ effective)) ok
    (if ok then "effective capabilities are the policy intersection" else String.concat "; " errors).

Definition effective_capabilities (template instance operator : capability_input) : list string :=
  effective (intersect_capabilities template instance operator).

(** [intersect_capabilities] of gate.py *)
Definition gate_intersect (template instance operator : capability_input) : gset string :=
  let '(t, e1) := parse_capabilities template "template" in
  let '(i, e2) := parse_capabilities instance "instance" in
  let '(o, e3) := parse_capabilities operator "operator" in
  if bool_decide (errors_of [e1; e2; e3] = []) then t ∩ i ∩ o else ∅.

Record CapabilityDecision := mkCapabilityDecision {
  cap_operation : string;
  cap_allowed : bool;
  cap_effective : gset string;
  cap_reason : string;
}.

Definition CapabilityDecision_to_dict (d : CapabilityDecision) : dict := [
  ("operation", JStr (cap_operation d)); ("allowed", JBool (cap_allowed d));
  ("effectiveCapabilities", JArr (map JStr (sorted_set (cap_effective d))));
  ("reason", JStr (cap_reason d))].

(** [ApprovalGate.capability] *)
Definition capability (operation cap : string) (template instance operator : capability_input)
    : CapabilityDecision :=
  let '(t, e1) := parse_capabilities template "template" in
  let '(i, e2) := parse_capabilities instance "instance" in
  let '(o, e3) := parse_capabilities operator "operator" in
  let errors := errors_of [e1; e2; e3] in
  let effective := if bool_decide (errors = []) then t ∩ i ∩ o else ∅ in
  let allowed := bool_decide (cap ∈ effective) in
  mkCapabilityDecision operation allowed effective
    (if bool_decide (errors = [])
     then if allowed then "capability intersection permits operation"
          else "capability intersection denies operation"
     else String.concat "; " errors).

(** ** Requests *)

Record ApprovalRequest := mkRequest {
  req_id : string;
  operation : string;
  req_capability : string;
  instance_id : string;
  status : string;
  reason : string;
  metadata : dict;
  actor : string;
  instance_path : string;
}.

Definition to_dict (r : ApprovalRequest) : dict := [
  ("id", JStr (req_id r)); ("operation", JStr (operation r)); ("capability", JStr (req_capability r));
  ("instanceId", JStr (instance_id r)); ("status", JStr (status r)); ("reason", JStr (reason r));
  ("metadata", JObj (metadata r)); ("actor", JStr (actor r));
  ("instancePath", JStr (instance_path r))].

Definition MUTABLE_METADATA_KEYS : list string := ["decision"; "execution"].

Definition request_metadata (m : dict) : dict :=
  dict_filter (fun key => negb (mem key MUTABLE_METADATA_KEYS)) m.

Inductive error :=
| ValueError (message : string)
| KeyError (message : string).

Inductive store_file :=
| FAbsent
| FSymlink
| FUnreadable
| FJson (value : json).

Definition is_symlink (f : store_file) : bool := match f with FSymlink => true | _ => false end.
Definition is_absent (f : store_file) : bool := match f with FAbsent => true | _ => false end.

Record Gate := mkGate {
  has_path : bool;
  lock_unsafe : bool;   (** the lock path or the parent directory is a symlink *)
  file : store_file;
  requests : list (string * ApprovalRequest);
}.

Abbreviation op := (M Gate error).

Definition set_requests (rs : list (string * ApprovalRequest)) (g : Gate) : Gate :=
  mkGate (has_path g) (lock_unsafe g) (file g) rs.
Definition set_file (f : store_file) (g : Gate) : Gate :=
  mkGate (has_path g) (lock_unsafe g) f (requests g).

(** [item[key]]; every error of [_load] becomes the same [ValueError]. *)
Definition field (item : dict) (key : string) : option string := py_str <$> dict_get key item.
Definition field_or (item : dict) (key other : string) : string :=
  match dict_get key item with Some v => py_str v | None => other end.

(** [dict(value)]; a non-empty array of pairs, which [dict] would also take, is
    refused here: the gate never writes one. *)
Definition dict_of (value : json) : option dict :=
  match value with
  | JObj fs => Some fs
  | JArr [] | JStr EmptyString => Some []
  | _ => None
  end.

Definition STATUSES : list string := ["pending"; "approved"; "rejected"; "cancelled"].

Definition decode_request (item : json) : option ApprovalRequest :=
  match item with
  | JObj d =>
      rid ← field d "id"; operation ← field d "operation"; cap ← field d "capability";
      instance ← field d "instanceId";
      meta ← dict_of (default (JObj []) (dict_get "metadata" d));
      let r := mkRequest rid operation cap instance (field_or d "status" "pending")
                 (field_or d "reason" "") meta (field_or d "actor" "")
                 (field_or d "instancePath" "") in
      if mem (status r) STATUSES then Some r else None
  | _ => None
  end.

Fixpoint decode_requests (items : list json) (acc : list (string * ApprovalRequest))
    : option (list (string * ApprovalRequest)) :=
  match items with
  | [] => Some acc
  | item :: rest =>
      r ← decode_request item;
      match assoc_get (req_id r) acc with
      | Some _ => None
      | None => decode_requests rest (assoc_set (req_id r) r acc)
      end
  end.

Definition decode_store (f : store_file) : option (list (string * ApprovalRequest)) :=
  match f with
  | FJson (JArr items) => decode_requests items []
  | _ => None
  end.

Definition load : op unit :=
  let* g := get in
  match decode_store (file g) with
  | Some rs => modify (set_requests rs)
  | None => raise (ValueError "approval store could not be loaded")
  end.

(** [ApprovalGate(path)] *)
Definition open_gate (path : bool) (lock : bool) (f : store_file) : Gate * outcome error unit :=
  let fresh := mkGate path lock f [] in
  if path && (is_symlink f || lock)
  then (fresh, Raise (ValueError "approval store paths may not be symlinks"))
  else if path && negb (is_absent f) then load fresh
  else (fresh, Ok tt).

Definition refresh : op unit :=
  let* g := get in
  if has_path g && negb (is_absent (file g)) then
    raise_if (is_symlink (file g)) (ValueError "approval store path may not be a symlink") >>*
    load
  else if has_path g then modify (set_requests [])
  else ret tt.

(** [json.dumps] with sorted keys, replaced atomically. *)
Definition store_value (rs : list (string * ApprovalRequest)) : json :=
  norm (JArr (map (fun kv => JObj (to_dict (snd kv))) rs)).

Definition persist : op unit :=
  let* g := get in
  if has_path g then modify (set_file (FJson (store_value (requests g)))) else ret tt.

Definition with_write_lock {A} (body : op A) : op A :=
  let* g := get in
  if negb (has_path g) then body
  else raise_if (lock_unsafe g) (ValueError "approval store paths may not be symlinks") >>* body.

Definition put_request (key : string) (r : ApprovalRequest) : op unit :=
  modify (fun g => set_requests (assoc_set key r (requests g)) g).

(** ** Operations *)

Definition required_args (operation capability instance_id : string) : bool :=
  nonblank operation && nonblank capability && nonblank instance_id.

(** [token] is what [secrets.token_hex(12)] returns. *)
Definition request (token operation capability instance_id reason : string) (meta : dict)
    (actor instance_path : string) : op ApprovalRequest :=
  raise_if (negb (required_args operation capability instance_id))
    (ValueError "operation, capability, and instance_id are required") >>*
  let r := mkRequest token operation capability instance_id "pending" reason meta actor instance_path in
  with_write_lock (refresh >>* put_request (req_id r) r >>* persist) >>*
  ret r.

(** Equality of the immutable inputs, metadata compared as Python dicts. *)
Definition same_inputs (current candidate : ApprovalRequest) : bool :=
  bool_decide (operation current = operation candidate)
  && bool_decide (req_capability current = req_capability candidate)
  && bool_decide (instance_id current = instance_id candidate)
  && bool_decide (actor current = actor candidate)
  && bool_decide (instance_path current = instance_path candidate)
  && py_eqb (JObj (request_metadata (metadata current))) (JObj (request_metadata (metadata candidate))).

Definition request_once (request_id operation capability instance_id reason : string) (meta : dict)
    (actor instance_path : string) : op (ApprovalRequest * bool) :=
  raise_if (negb (nonblank request_id)) (ValueError "request_id is required") >>*
  raise_if (negb (required_args operation capability instance_id))
    (ValueError "operation, capability, and instance_id are required") >>*
  raise_if (existsb (fun k => dict_has k meta) MUTABLE_METADATA_KEYS)
    (ValueError "approval request metadata uses a reserved lifecycle key") >>*
  let candidate := mkRequest (py_strip request_id) operation capability instance_id "pending" reason
                     meta actor instance_path in
  with_write_lock (
    refresh >>*
    let* g := get in
    match assoc_get (req_id candidate) (requests g) with
    | Some current =>
        raise_if (negb (same_inputs current candidate))
          (ValueError "approval request id is bound to different immutable inputs") >>*
        ret (current, true)
    | None =>
        put_request (req_id candidate) candidate >>*
        persist >>*
        ret (candidate, false)
    end).

Definition decision_entry (decided_by status decided_at : string) : json :=
  JObj ([("actor", JStr decided_by); ("status", JStr status)]
        ++ (if bool_decide (decided_at = "") then [] else [("at", JStr decided_at)])).

Definition transition (request_id new_status reason decided_by decided_at : string)
    : op ApprovalRequest :=
  raise_if (negb (mem new_status ["approved"; "rejected"; "cancelled"]))
    (ValueError "invalid approval status") >>*
  with_write_lock (
    refresh >>*
    let* g := get in
    match assoc_get request_id (requests g) with
    | None => raise (KeyError "unknown approval request")
    | Some current =>
        raise_if (negb (bool_decide (status current = "pending")))
          (ValueError "only pending approvals can transition") >>*
        let meta := if bool_decide (decided_by = "") then metadata current
                    else dict_set "decision" (decision_entry decided_by new_status decided_at)
                           (metadata current) in
        let updated := mkRequest (req_id current) (operation current) (req_capability current)
          (instance_id current) new_status reason meta (actor current) (instance_path current) in
        put_request request_id updated >>*
        persist >>*
        ret updated
    end).

Definition mark_executed (request_id : string) (meta : dict) : op ApprovalRequest :=
  with_write_lock (
    refresh >>*
    let* g := get in
    match assoc_get request_id (requests g) with
    | None => raise (KeyError "unknown approval request")
    | Some current =>
        raise_if (negb (bool_decide (status current = "approved")))
          (ValueError "only approved requests can be executed") >>*
        let updated := mkRequest (req_id current) (operation current) (req_capability current)
          (instance_id current) (status current) (reason current)
          (dict_update (metadata current) meta) (actor current) (instance_path current) in
        put_request request_id updated >>*
        persist >>*
        ret updated
    end).

Definition get_request (request_id : string) : op (option ApprovalRequest) :=
  refresh >>* gets (fun g => assoc_get request_id (requests g)).

Definition all : op (list ApprovalRequest) :=
  refresh >>*
  gets (fun g => omap (fun key => assoc_get key (requests g))
                   (merge_sort String.le (map fst (requests g)))).

(** ** The store file *)

(** What an object reads back from the file. *)
Definition view (f : store_file) : option (list (string * ApprovalRequest)) :=
  match f with FAbsent => Some [] | _ => decode_store f end.

Definition wf_request (r : ApprovalRequest) : Prop :=
  mem (status r) STATUSES = true /\ wf_json (JObj (metadata r)).

Definition wf_store (rs : list (string * ApprovalRequest)) : Prop :=
  NoDup (map fst rs) /\ Forall (fun kv => fst kv = req_id (snd kv) /\ wf_request (snd kv)) rs.

(** The file can be read and holds these requests. *)
Definition holds (f : store_file) (rs : list (string * ApprovalRequest)) : Prop :=
  view f = Some rs /\ wf_store rs.

(** A request as it comes back from the file: its metadata in key order. *)
Definition norm_request (r : ApprovalRequest) : ApprovalRequest :=
  mkRequest (req_id r) (operation r) (req_capability r) (instance_id r) (status r) (reason r)
    (sort_fields (norm_fields (metadata r))) (actor r) (instance_path r).
Definition norm_entry (kv : string * ApprovalRequest) : string * ApprovalRequest :=
  (fst kv, norm_request (snd kv)).

Lemma to_dict_keys r : NoDup (dict_keys (to_dict r)).
Proof. refine (bool_decide_unpack _ _). vm_compute. exact I. Qed.

Lemma decode_norm_request r :
  mem (status r) STATUSES = true -> decode_request (norm (JObj (to_dict r))) = Some (norm_request r).
Proof.
  intros Hs. rewrite norm_obj. cbn [decode_request]. unfold field, field_or.
  rewrite !dict_get_sort_norm by apply to_dict_keys.
  cbn -[norm sort_fields norm_fields STATUSES mem]. rewrite norm_obj.
  cbn -[sort_fields norm_fields STATUSES mem].
  rewrite Hs. done.
Qed.

Lemma NoDup_fst_norm rs : map fst (map norm_entry rs) = map fst rs.
Proof. rewrite map_map. done. Qed.

Lemma assoc_get_norm k rs : assoc_get k (map norm_entry rs) = norm_request <$> assoc_get k rs.
Proof. induction rs as [|[k' r] rs IH]; simpl; [done|]. by destruct (String.eqb k k'). Qed.

Lemma assoc_set_fresh {V} k (v : V) d : assoc_get k d = None -> assoc_set k v d = d ++ [(k, v)].
Proof.
  induction d as [|[k' v'] d IH]; simpl; [done|]. destruct (String.eqb k k'); [done|].
  intros H. by rewrite IH.
Qed.

(** Everything written is read back. *)
Lemma view_store rs : wf_store rs -> view (FJson (store_value rs)) = Some (map norm_entry rs).
Proof.
  intros [Hnd Hall]. unfold store_value. rewrite norm_arr, map_map. cbn [view decode_store].
  assert (Hgo : forall acc, NoDup (map fst (acc ++ rs)) ->
    decode_requests (map (fun kv => norm (JObj (to_dict (snd kv)))) rs) (map norm_entry acc)
    = Some (map norm_entry (acc ++ rs))).
  { clear Hnd. induction Hall as [|[k r] rs [Hk [Hst _]] _ IH]; intros acc Hnd.
    - by rewrite app_nil_r.
    - cbn [map decode_requests]. cbn [fst snd] in *. rewrite decode_norm_request by done.
      unfold mbind, option_bind. assert (Hk' : req_id (norm_request r) = k) by done. rewrite Hk'.
      rewrite map_app in Hnd. assert (Hnone : assoc_get k acc = None).
      { apply assoc_get_None. intros Hin. apply NoDup_app in Hnd as (_ & Hd & _).
        apply (Hd k Hin). by left. }
      rewrite assoc_get_norm, Hnone. cbn [fmap option_fmap option_map].
      rewrite assoc_set_fresh by by rewrite assoc_get_norm, Hnone.
      specialize (IH (acc ++ [(k, r)])). rewrite <-!app_assoc in IH. cbn [app] in IH.
      assert (He : map norm_entry (acc ++ [(k, r)]) = map norm_entry acc ++ [(k, norm_request r)])
        by by rewrite map_app.
      rewrite He in IH. apply IH. by rewrite map_app. }
  by apply (Hgo []).
Qed.

Lemma norm_request_wf r : wf_request r -> wf_request (norm_request r).
Proof.
  intros [Hs Hm]. split; [done|]. cbn [metadata norm_request].
  rewrite <-norm_obj. by apply norm_wf.
Qed.

Lemma wf_norm_store rs : wf_store rs -> wf_store (map norm_entry rs).
Proof.
  intros [Hnd Hall]. split; [by rewrite NoDup_fst_norm|]. apply Forall_map.
  eapply Forall_impl; [exact Hall|]. intros [k r] [Hk Hr]. split; [done|]. by apply norm_request_wf.
Qed.

Lemma holds_store rs : wf_store rs -> holds (FJson (store_value rs)) (map norm_entry rs).
Proof. intros H. split; [by apply view_store|by apply wf_norm_store]. Qed.

Lemma wf_store_set k r rs :
  wf_store rs -> k = req_id r -> wf_request r -> wf_store (assoc_set k r rs).
Proof.
  intros [Hnd Hall] Hk Hr. split; [by apply assoc_set_NoDup|].
  apply Forall_forall. intros [k' r'] Hin. apply assoc_set_elem in Hin as [[= -> ->]|Hin]; [done|].
  rewrite Forall_forall in Hall. by apply Hall.
Qed.

Lemma wf_store_get k r rs : wf_store rs -> assoc_get k rs = Some r -> k = req_id r /\ wf_request r.
Proof.
  intros [_ Hall] Hget%assoc_get_elem. rewrite Forall_forall in Hall. apply (Hall _ Hget).
Qed.

(** ** Running against a file that holds requests *)

Lemma refresh_holds g rs :
  has_path g = true -> holds (file g) rs -> refresh g = (set_requests rs g, Ok tt).
Proof.
  intros Hp [Hv _]. unfold refresh. rewrite bind_get, Hp. destruct (file g) eqn:E; try done; simpl.
  - by injection Hv as <-.
  - rewrite bind_raise_if_pass by done. unfold load. rewrite bind_get, E.
    change (decode_store (FJson value) = Some rs) in Hv. by rewrite Hv.
Qed.

Lemma put_persist g k r : has_path g = true ->
  (put_request k r >>* persist) g
  = (set_file (FJson (store_value (assoc_set k r (requests g))))
       (set_requests (assoc_set k r (requests g)) g), Ok tt).
Proof. intros Hp. unfold put_request. rewrite bind_modify. unfold persist. rewrite bind_get. cbn. by rewrite Hp. Qed.

Definition committed (g : Gate) (rs : list (string * ApprovalRequest)) (k : string) (r : ApprovalRequest)
    : Gate :=
  set_file (FJson (store_value (assoc_set k r rs))) (set_requests (assoc_set k r rs) g).

Section runs.
Context (g : Gate) (rs : list (string * ApprovalRequest)).
Context (Hp : has_path g = true) (Hl : lock_unsafe g = false) (Hh : holds (file g) rs).

Lemma with_lock_run {A} (body : op A) : with_write_lock body g = body g.
Proof.
  unfold with_write_lock. rewrite bind_get, Hp. cbn [negb].
  by rewrite bind_raise_if_pass.
Qed.

Lemma commit_run {A} k r (rest : op A) :
  (put_request k r >>* persist >>* rest) (set_requests rs g) = rest (committed g rs k r).
Proof.
  unfold put_request. rewrite bind_modify. unfold persist, bind at 1, get. cbn. by rewrite Hp.
Qed.

Lemma request_run token o c i re m a p :
  request token o c i re m a p g =
  if required_args o c i
  then let r := mkRequest token o c i "pending" re m a p in (committed g rs token r, Ok r)
  else (g, Raise (ValueError "operation, capability, and instance_id are required")).
Proof.
  unfold request. destruct (required_args o c i); cbn [negb].
  - rewrite bind_raise_if_pass by done. cbv zeta. unfold bind at 1. rewrite with_lock_run.
    rewrite (bind_run _ _ _ _ _ (refresh_holds g rs Hp Hh)).
    rewrite (put_persist (set_requests rs g)) by done. done.
  - by rewrite bind_raise_if_stop.
Qed.

Definition once_args (rid o c i : string) (m : dict) : bool :=
  nonblank rid && required_args o c i && negb (existsb (fun k => dict_has k m) MUTABLE_METADATA_KEYS).

Lemma request_once_run rid o c i re m a p :
  once_args rid o c i m = true ->
  let candidate := mkRequest (py_strip rid) o c i "pending" re m a p in
  request_once rid o c i re m a p g =
  match assoc_get (py_strip rid) rs with
  | Some current =>
      if same_inputs current candidate then (set_requests rs g, Ok (current, true))
      else (set_requests rs g,
            Raise (ValueError "approval request id is bound to different immutable inputs"))
  | None => (committed g rs (py_strip rid) candidate, Ok (candidate, false))
  end.
Proof.
  intros Ha candidate. unfold once_args in Ha. split_bool. unfold request_once.
  rewrite !bind_raise_if_pass by (first [done | by apply negb_false_iff]). fold candidate.
  rewrite with_lock_run, (bind_run _ _ _ _ _ (refresh_holds g rs Hp Hh)), bind_get.
  change (req_id candidate) with (py_strip rid). cbn [requests set_requests].
  destruct (assoc_get (py_strip rid) rs) as [current|].
  - destruct (same_inputs current candidate); cbn [negb].
    + by rewrite bind_raise_if_pass.
    + by rewrite bind_raise_if_stop.
  - by rewrite commit_run.
Qed.

Lemma request_once_refused rid o c i re m a p :
  once_args rid o c i m = false -> exists e, request_once rid o c i re m a p g = (g, Raise (ValueError e)).
Proof.
  unfold once_args, request_once. intros Ha. destruct (nonblank rid); cbn [andb negb] in *;
    [rewrite bind_raise_if_pass by done|rewrite bind_raise_if_stop by done; by eexists].
  destruct (required_args o c i); cbn [andb negb] in *;
    [rewrite bind_raise_if_pass by done|rewrite bind_raise_if_stop by done; by eexists].
  apply negb_false_iff in Ha. rewrite bind_raise_if_stop by done. by eexists.
Qed.

(** The request after a decision. *)
Definition decided (current : ApprovalRequest) (st re by_ at_ : string) : ApprovalRequest :=
  mkRequest (req_id current) (operation current) (req_capability current) (instance_id current) st re
    (if bool_decide (by_ = "") then metadata current
     else dict_set "decision" (decision_entry by_ st at_) (metadata current))
    (actor current) (instance_path current).

Lemma transition_run rid st re by_ at_ :
  transition rid st re by_ at_ g =
  if negb (mem st ["approved"; "rejected"; "cancelled"])
  then (g, Raise (ValueError "invalid approval status"))
  else match assoc_get rid rs with
       | None => (set_requests rs g, Raise (KeyError "unknown approval request"))
       | Some current =>
           if negb (bool_decide (status current = "pending"))
           then (set_requests rs g, Raise (ValueError "only pending approvals can transition"))
           else let r := decided current st re by_ at_ in (committed g rs rid r, Ok r)
       end.
Proof.
  unfold transition. destruct (negb (mem st _)) eqn:E; [by rewrite bind_raise_if_stop|].
  rewrite bind_raise_if_pass by done.
  rewrite with_lock_run, (bind_run _ _ _ _ _ (refresh_holds g rs Hp Hh)), bind_get.
  cbn [requests set_requests]. destruct (assoc_get rid rs) as [current|]; [|done].
  destruct (negb (bool_decide (status current = "pending"))) eqn:Es; [by rewrite bind_raise_if_stop|].
  rewrite bind_raise_if_pass by done. cbv zeta. by rewrite commit_run.
Qed.

Definition executed (current : ApprovalRequest) (meta : dict) : ApprovalRequest :=
  mkRequest (req_id current) (operation current) (req_capability current) (instance_id current)
    (status current) (reason current) (dict_update (metadata current) meta) (actor current)
    (instance_path current).

Lemma mark_executed_run rid meta :
  mark_executed rid meta g =
  match assoc_get rid rs with
  | None => (set_requests rs g, Raise (KeyError "unknown approval request"))
  | Some current =>
      if negb (bool_decide (status current = "approved"))
      then (set_requests rs g, Raise (ValueError "only approved requests can be executed"))
      else let r := executed current meta in (committed g rs rid r, Ok r)
  end.
Proof.
  unfold mark_executed.
  rewrite with_lock_run, (bind_run _ _ _ _ _ (refresh_holds g rs Hp Hh)), bind_get.
  cbn [requests set_requests]. destruct (assoc_get rid rs) as [current|]; [|done].
  destruct (negb (bool_decide (status current = "approved"))) eqn:Es; [by rewrite bind_raise_if_stop|].
  rewrite bind_raise_if_pass by done. cbv zeta. by rewrite commit_run.
Qed.

Lemma committed_holds k r : k = req_id r -> wf_request r ->
  holds (file (committed g rs k r)) (map norm_entry (assoc_set k r rs)).
Proof. intros Hk Hr. apply holds_store, wf_store_set; [apply Hh|done..]. Qed.
End runs.

(** ** Several gates on one file *)

Inductive call :=
| CRequest (token o c i re : string) (m : dict) (a p : string)
| COnce (rid o c i re : string) (m : dict) (a p : string)
| CTransition (rid st re by_ at_ : string)
| CExecuted (rid : string) (m : dict)
| CGet (rid : string)
| CAll.

Definition run_call (c : call) (g : Gate) : Gate :=
  match c with
  | CRequest t o c i re m a p => fst (request t o c i re m a p g)
  | COnce r o c i re m a p => fst (request_once r o c i re m a p g)
  | CTransition r st re b t => fst (transition r st re b t g)
  | CExecuted r m => fst (mark_executed r m g)
  | CGet r => fst (get_request r g)
  | CAll => fst (all g)
  end.

(** What a call of a program is: its dictionaries have unique keys.  A token is new
    ([secrets.token_hex(12)]). *)
Definition call_ok (rs : list (string * ApprovalRequest)) (c : call) : Prop :=
  match c with
  | CRequest t _ _ _ _ m _ _ => wf_json (JObj m) /\ assoc_get t rs = None
  | COnce _ _ _ _ _ m _ _ | CExecuted _ m => wf_json (JObj m)
  | _ => True
  end.

(** Calls by processes whose memories may be stale, one after the other on one file. *)
Inductive interleaving : store_file -> list call -> store_file -> Prop :=
| no_call f : interleaving f [] f
| one_call f stale c calls f' :
    (forall rs, view f = Some rs -> call_ok rs c) ->
    interleaving (file (run_call c (mkGate true false f stale))) calls f' ->
    interleaving f (c :: calls) f'.

(** An execution mark of the request that names an entry of its bound metadata: the gate
    merges whatever it is given. *)
Definition rebinds (rid key : string) (c : call) : Prop :=
  match c with CExecuted rid' m => rid' = rid /\ key ∈ dict_keys m | _ => False end.

(** How a request may have changed when only the entries [B] were rebound. *)
Definition status_step (old new : string) : Prop :=
  old = new \/ (old = "pending" /\ new ∈ ["approved"; "rejected"; "cancelled"]).

Definition immutable_fields (r : ApprovalRequest) : string * string * string * string * string :=
  (operation r, req_capability r, instance_id r, actor r, instance_path r).

Definition bound_entry (key : string) (r : ApprovalRequest) : option json := dict_get key (request_metadata (metadata r)).

Record progress_of (B : string -> Prop) (r r' : ApprovalRequest) : Prop := {
  fields_kept : immutable_fields r' = immutable_fields r;
  id_kept : req_id r' = req_id r;
  status_moves : status_step (status r) (status r');
  entries_kept : forall key, status r' <> "approved" \/ ~ B key -> option_Forall2 py_eq (bound_entry key r) (bound_entry key r');
}.

Definition progress (B : string -> string -> Prop) (rs rs' : list (string * ApprovalRequest)) : Prop :=
  forall k r, assoc_get k rs = Some r ->
  exists r', assoc_get k rs' = Some r' /\ progress_of (B k) r r'.

(** ** Progress *)

Lemma dict_filter_set p k v d : p k = false -> dict_filter p (dict_set k v d) = dict_filter p d.
Proof.
  intros Hp. induction d as [|[k1 v1] d IH]; simpl; [by rewrite Hp|].
  destruct (String.eqb_spec k k1) as [->|]; simpl; [by rewrite Hp|].
  destruct (p k1); [by f_equal|done].
Qed.

Lemma mutable_key k : k ∈ MUTABLE_METADATA_KEYS -> negb (mem k MUTABLE_METADATA_KEYS) = false.
Proof. intros H. by rewrite (proj2 (mem_true _ _) H). Qed.

Lemma request_metadata_set k v m :
  k ∈ MUTABLE_METADATA_KEYS -> request_metadata (dict_set k v m) = request_metadata m.
Proof. intros Hk. apply dict_filter_set. by apply mutable_key. Qed.

Lemma bound_entry_norm key r : wf_request r -> option_Forall2 py_eq (bound_entry key r) (bound_entry key (norm_request r)).
Proof.
  intros [_ [Hnd Hf]%wf_json_obj]. unfold bound_entry, request_metadata. cbn [norm_request metadata].
  rewrite !dict_get_filter, dict_get_sort_norm by done.
  destruct (negb (mem key MUTABLE_METADATA_KEYS)); [|constructor].
  destruct (dict_get key (metadata r)) as [v|] eqn:Hv; constructor. symmetry.
  apply (bool_decide_eq_true_1 _), py_eqb_norm_l. apply dict_get_elem in Hv.
  rewrite Forall_forall in Hf. apply (Hf _ Hv).
Qed.

Lemma same_inputs_spec r s : same_inputs r s = true <->
  operation r = operation s /\ req_capability r = req_capability s /\ instance_id r = instance_id s /\
  actor r = actor s /\ instance_path r = instance_path s /\
  py_eq (JObj (request_metadata (metadata r))) (JObj (request_metadata (metadata s))).
Proof.
  unfold same_inputs, py_eqb. rewrite !andb_true_iff, !bool_decide_eq_true. tauto.
Qed.

Lemma same_inputs_trans r s t : same_inputs r s = true -> same_inputs s t = true -> same_inputs r t = true.
Proof.
  rewrite !same_inputs_spec. intros (?&?&?&?&?&HA) (?&?&?&?&?&HB).
  repeat split; congruence.
Qed.

Lemma same_inputs_sym r s : same_inputs r s = true -> same_inputs s r = true.
Proof. rewrite !same_inputs_spec. intros (?&?&?&?&?&HA). repeat split; congruence. Qed.

(** Requests that kept their fields and all their bound entries have the same inputs. *)
Lemma progress_same_inputs B r r' : wf_request r -> wf_request r' -> progress_of B r r' ->
  status r' <> "approved" \/ (forall key, ~ B key) -> same_inputs r r' = true.
Proof.
  intros [_ [Hn _]%wf_json_obj] [_ [Hn' _]%wf_json_obj] [Hf _ _ He] HB. injection Hf as ?????.
  apply same_inputs_spec. do 5 (split; [done|]).
  apply py_eq_ext; [by apply dict_filter_NoDup..|]. intros key. apply He. destruct HB as [?|HB]; [by left|right; apply HB].
Qed.

Lemma status_step_trans s1 s2 s3 : status_step s1 s2 -> status_step s2 s3 -> status_step s1 s3.
Proof.
  intros [->|[-> Hs]] H; [done|]. destruct H as [<-|[-> _]]; [by right|].
  rewrite !elem_of_cons, elem_of_nil in Hs. naive_solver.
Qed.

Lemma approved_stays s s' : status_step s s' -> s' <> "approved" -> s <> "approved".
Proof. intros [->|[-> _]]; done. Qed.

#[export] Instance progress_of_preorder B : PreOrder (progress_of B).
Proof.
  split.
  - intros r. by split; [..|left|].
  - intros r s t [F1 I1 S1 E1] [F2 I2 S2 E2]. split; [congruence..|by eapply status_step_trans|].
    intros key H. etrans; [apply E1|by apply E2]. destruct H as [H|H]; [left; by eapply approved_stays|by right].
Qed.

Lemma progress_of_weaken (B B' : string -> Prop) r r' : (forall key, B key -> B' key) -> progress_of B r r' -> progress_of B' r r'.
Proof. intros HB [F I S E]. split; try done. intros key [H|H]; apply E; [by left|right; by intros ?%HB]. Qed.

Lemma progress_of_norm B r : wf_request r -> progress_of B r (norm_request r).
Proof. intros Hw. split; [done|done|by left|]. intros key _. by apply bound_entry_norm. Qed.

#[export] Instance progress_preorder B : PreOrder (progress B).
Proof.
  split.
  - intros rs k r Hr. by exists r.
  - intros rs1 rs2 rs3 H1 H2 k r Hr. destruct (H1 k r Hr) as (r2 & Hr2 & Hp1). destruct (H2 k r2 Hr2) as (r3 & Hr3 & Hp2).
    exists r3. split; [done|]. by etrans.
Qed.

Lemma progress_commit B rs k r :
  wf_store rs -> wf_request r -> k = req_id r ->
  (forall current, assoc_get k rs = Some current -> progress_of (B k) current r) ->
  progress B rs (map norm_entry (assoc_set k r rs)).
Proof.
  intros Hw Hr Hk Hcur k' r' Hr'. rewrite assoc_get_norm.
  destruct (decide (k' = k)) as [->|Hne].
  - rewrite assoc_get_set_eq. eexists. split; [done|]. etrans; [by apply Hcur|by apply progress_of_norm].
  - rewrite assoc_get_set_ne by done. rewrite Hr'. eexists. split; [done|].
    apply progress_of_norm. by apply (wf_store_get k' r' rs).
Qed.

Lemma wf_decision b s t : wf_json (decision_entry b s t).
Proof. apply wf_jsonb_wf. unfold decision_entry. by destruct (bool_decide (t = "")). Qed.

Lemma decided_progress B current st re b t :
  wf_request current -> status current = "pending" -> mem st ["approved"; "rejected"; "cancelled"] = true ->
  wf_request (decided current st re b t) /\ progress_of B current (decided current st re b t).
Proof.
  intros [Hs Hw] Hp Hst. split; [split|split; [done|done| |]].
  - cbn [status decided]. apply mem_true in Hst. apply mem_true. unfold STATUSES. by right.
  - unfold decided. cbn [metadata]. case_bool_decide; [done|]. apply wf_dict_set; [done|apply wf_decision].
  - right. split; [done|]. by apply mem_true.
  - intros key _. unfold bound_entry, decided. cbn [metadata].
    case_bool_decide; [done|]. by rewrite request_metadata_set by by left.
Qed.

Lemma executed_progress rid current m :
  wf_request current -> wf_json (JObj m) -> status current = "approved" ->
  wf_request (executed current m) /\ progress_of (fun key => rebinds rid key (CExecuted rid m)) current (executed current m).
Proof.
  intros [Hs Hw] Hm Ha. split; [split|split; [done|done|by left|]].
  - done.
  - apply wf_dict_update; [done|]. by inversion Hm.
  - intros key [H|H]; [done|]. unfold bound_entry, executed, request_metadata. cbn [metadata].
    rewrite !dict_get_filter, dict_get_update; [done|]. intros Hk. by apply H.
Qed.

Lemma call_progress f stale c rs : holds f rs -> call_ok rs c ->
  exists rs', holds (file (run_call c (mkGate true false f stale))) rs' /\ progress (fun k key => rebinds k key c) rs rs'.
Proof.
  intros Hh Hok. set (g := mkGate true false f stale). set (B := fun k key => rebinds k key c).
  assert (Hsame : exists rs', holds f rs' /\ progress B rs rs') by by exists rs.
  assert (Hw : wf_store rs) by apply Hh.
  destruct c as [t o c i re m a p|r o c i re m a p|r st re b t|r m|r|]; cbn [run_call].
  - rewrite (request_run g rs) by done. destruct (required_args o c i); [|done].
    destruct Hok as [Hm Hfresh].
    eexists. split; [by apply committed_holds|]. apply progress_commit; try done.
    intros current Hc. congruence.
  - destruct (once_args r o c i m) eqn:Ha.
    2: { destruct (request_once_refused g r o c i re m a p Ha) as [e ->]. done. }
    rewrite (request_once_run g rs) by done. destruct (assoc_get (py_strip r) rs) as [current|] eqn:Hg.
    + by destruct (same_inputs _ _).
    + eexists. split; [by apply committed_holds|]. apply progress_commit; try done.
      intros current Hc. congruence.
  - rewrite (transition_run g rs) by done. destruct (negb (mem st _)) eqn:Est; [done|].
    destruct (assoc_get r rs) as [current|] eqn:Hg; [|done].
    destruct (negb (bool_decide (status current = "pending"))) eqn:Es; [done|]. split_bool.
    destruct (wf_store_get r current rs Hw Hg) as [-> Hwr].
    destruct (decided_progress (B (req_id current)) current st re b t Hwr Es Est) as [Hwd Hpd].
    eexists. split; [by apply committed_holds|]. apply progress_commit; try done.
    intros c Hc. rewrite Hg in Hc. by injection Hc as <-.
  - rewrite (mark_executed_run g rs) by done. destruct (assoc_get r rs) as [current|] eqn:Hg; [|done].
    destruct (negb (bool_decide (status current = "approved"))) eqn:Es; [done|]. split_bool.
    destruct (wf_store_get r current rs Hw Hg) as [-> Hwr].
    destruct (executed_progress (req_id current) current m Hwr Hok Es) as [Hwd Hpd].
    eexists. split; [by apply committed_holds|]. apply progress_commit; try done.
    intros c Hc. rewrite Hg in Hc. by injection Hc as <-.
  - unfold get_request, bind. rewrite (refresh_holds g rs) by done. done.
  - unfold all, bind. rewrite (refresh_holds g rs) by done. done.
Qed.

(** ** What the gate guarantees *)

Lemma interleaving_progress f calls f' rs : interleaving f calls f' -> holds f rs ->
  exists rs', holds f' rs' /\ progress (fun k key => Exists (rebinds k key) calls) rs rs'.
Proof.
  intros Hi. revert rs. induction Hi as [f|f stale c calls f' Hok Hi IH]; intros rs Hh; [by exists rs|].
  destruct (call_progress f stale c rs Hh (Hok rs (proj1 Hh))) as (rs1 & Hh1 & Hp1).
  destruct (IH rs1 Hh1) as (rs2 & Hh2 & Hp2). exists rs2. split; [done|].
  intros k r (r1 & Hr1 & H1)%Hp1. destruct (Hp2 k r1 Hr1) as (r2 & Hr2 & H2). exists r2. split; [done|].
  etrans; [eapply progress_of_weaken; [|exact H1]|eapply progress_of_weaken; [|exact H2]];
    intros key ?; [by apply Exists_cons_hd|by apply Exists_cons_tl].
Qed.

Lemma interleaving_keeps f calls f' rs k r :
  interleaving f calls f' -> holds f rs -> assoc_get k rs = Some r ->
  exists rs' r', holds f' rs' /\ assoc_get k rs' = Some r' /\ progress_of (fun key => Exists (rebinds k key) calls) r r'.
Proof.
  intros Hs Hh Hk. destruct (interleaving_progress f calls f' rs Hs Hh) as (rs' & Hh' & Hp).
  destruct (Hp k r Hk) as (r' & Hr' & Hpr). eauto.
Qed.

(** C8 An approval is decided at most once.  However processes interleave their calls on one
    store file, and whatever they pass, as long as no random token of [request] is that of a
    stored request: the file stays readable, no request disappears, its operation, capability,
    instance, actor and path never change, and its status moves only from pending to a
    decision and then no more.  Its bound metadata is unchanged unless the request is
    approved, and an entry of it changes only if some [mark_executed] of this very request
    names the entry. *)
Theorem approvals_decided_once (f f' : store_file) (calls : list call) (rs : list (string * ApprovalRequest)) :
  interleaving f calls f' -> holds f rs ->
  exists rs', holds f' rs' /\
    forall k r, assoc_get k rs = Some r -> exists r', assoc_get k rs' = Some r' /\
      immutable_fields r' = immutable_fields r /\ req_id r' = req_id r /\
      (status r <> "pending" -> status r' = status r) /\
      (status r = "pending" -> status r' ∈ STATUSES) /\
      (status r' <> "approved" -> same_inputs r r' = true) /\
      (forall key, ~ Exists (rebinds k key) calls -> option_Forall2 py_eq (bound_entry key r) (bound_entry key r')).
Proof.
  intros Hs Hh. destruct (interleaving_progress f calls f' rs Hs Hh) as (rs' & Hh' & Hp).
  exists rs'. split; [done|]. intros k r Hr. destruct (Hp k r Hr) as (r' & Hr' & Hpr).
  destruct (wf_store_get k r rs (proj2 Hh) Hr) as [_ Hw]. destruct (wf_store_get k r' rs' (proj2 Hh') Hr') as [_ Hw'].
  exists r'. pose proof Hpr as [F I S E]. do 3 (split; [done|]). split_and!.
  - intros Hne. by destruct S as [|[? _]].
  - intros _. apply mem_true, Hw'.
  - intros Hne. eapply progress_same_inputs; eauto.
  - intros key Hk. apply E. by right.
Qed.

(** A transition decides for good: once one process has decided a request,
    every later transition of it, by any process and after any other calls,
    raises and writes nothing. *)
Theorem second_transition_refused (f f' : store_file) (calls : list call) (rs : list (string * ApprovalRequest))
    (mem1 mem2 : list (string * ApprovalRequest)) (rid st re by_ at_ st' re' by' at' : string)
    (g1 : Gate) (r : ApprovalRequest) :
  holds f rs ->
  transition rid st re by_ at_ (mkGate true false f mem1) = (g1, Ok r) ->
  interleaving (file g1) calls f' ->
  exists g2 e, transition rid st' re' by' at' (mkGate true false f' mem2) = (g2, Raise e) /\
    file g2 = f'.
Proof.
  intros Hh Ht Hs. rewrite (transition_run _ rs) in Ht by done.
  destruct (negb (mem st _)) eqn:Est; [done|].
  destruct (assoc_get rid rs) as [current|] eqn:Hg; [|done].
  destruct (negb (bool_decide (status current = "pending"))) eqn:Es; [done|].
  injection Ht as <- <-. split_bool.
  destruct (wf_store_get rid current rs (proj2 Hh) Hg) as [-> Hwr].
  destruct (decided_progress (fun _ => False) current st re by_ at_ Hwr Es Est) as [Hwd Hpd].
  set (d := decided current st re by_ at_) in *.
  pose proof (committed_holds (mkGate true false f mem1) rs Hh (req_id current) d eq_refl Hwd) as Hc.
  destruct (interleaving_keeps _ calls f' _ (req_id current) (norm_request d) Hs Hc) as (rs' & r' & Hh' & Hr' & [_ _ Hp _]);
    [by rewrite assoc_get_norm, assoc_get_set_eq|].
  rewrite (transition_run _ rs') by done.
  destruct (negb (mem st' _)); [by eexists _, _|]. rewrite Hr'.
  assert (Hne : status r' <> "pending").
  { destruct Hp as [Heq|[Heq _]]; cbn in Heq.
    - intros E. rewrite E in Heq. subst st. done.
    - subst st. done. }
  rewrite (bool_decide_eq_false_2 _ Hne). by eexists _, _.
Qed.

(** [request_once] is idempotent: after it created or found a request, the
    same call, by any process and after any other calls that do not rebind its
    metadata, finds that request, still bound to the same inputs, and writes nothing. *)
Theorem request_once_idempotent (f f' : store_file) (calls : list call) (rs : list (string * ApprovalRequest))
    (mem1 mem2 : list (string * ApprovalRequest)) (rid o c i re re' : string) (m : dict) (a p : string)
    (g1 : Gate) (r : ApprovalRequest) (found : bool) :
  holds f rs -> wf_json (JObj m) ->
  request_once rid o c i re m a p (mkGate true false f mem1) = (g1, Ok (r, found)) ->
  interleaving (file g1) calls f' -> (forall key, ~ Exists (rebinds (py_strip rid) key) calls) ->
  exists g2 r', request_once rid o c i re' m a p (mkGate true false f' mem2) = (g2, Ok (r', true)) /\
    file g2 = f' /\ req_id r' = req_id r /\ status_step (status r) (status r').
Proof.
  intros Hh Hm Hr Hs Hno.
  destruct (once_args rid o c i m) eqn:Ha.
  2: { destruct (request_once_refused (mkGate true false f mem1) rid o c i re m a p Ha) as [e He]. congruence. }
  rewrite (request_once_run _ rs) in Hr by done. cbv zeta in Hr.
  set (again := mkRequest (py_strip rid) o c i "pending" re' m a p).
  assert (Hgo : exists rs1 r1, holds (file g1) rs1 /\ assoc_get (py_strip rid) rs1 = Some r1 /\
    progress_of (fun _ => False) r r1 /\ same_inputs r1 again = true).
  { destruct (assoc_get (py_strip rid) rs) as [current|] eqn:Hg.
    - destruct (same_inputs current _) eqn:E; [|done]. injection Hr as <- <- <-. by exists rs, current.
    - injection Hr as <- <- <-. set (cand := mkRequest _ _ _ _ _ _ _ _ _).
      assert (Hwc : wf_request cand) by done.
      eexists _, _. split; [by eapply (committed_holds (mkGate true false f mem1) rs Hh)|].
      rewrite assoc_get_norm, assoc_get_set_eq. split; [done|].
      pose proof (progress_of_norm (fun _ => False) cand Hwc) as Hpn. split; [done|].
      apply same_inputs_sym. change (same_inputs cand (norm_request cand) = true).
      eapply progress_same_inputs; [done|by apply norm_request_wf|done|]. right. by intros ? ?. }
  destruct Hgo as (rs1 & r1 & Hh1 & Hk1 & [_ I1 S1 _] & Hsame).
  destruct (interleaving_keeps _ calls f' rs1 _ r1 Hs Hh1 Hk1) as (rs2 & r2 & Hh2 & Hk2 & Hp2).
  rewrite (request_once_run _ rs2) by done. cbv zeta. rewrite Hk2. fold again.
  assert (E : same_inputs r1 r2 = true).
  { eapply progress_same_inputs; [..|exact Hp2|by right]; [eapply wf_store_get; [|exact Hk1]; apply Hh1|].
    eapply wf_store_get; [|exact Hk2]; apply Hh2. }
  rewrite (same_inputs_trans _ _ _ (same_inputs_sym _ _ E) Hsame). eexists _, r2. split; [done|]. split; [done|].
  destruct Hp2 as [_ I2 S2 _]. split; [congruence|by eapply status_step_trans].
Qed.

(** *** Capabilities *)

(** The capabilities a well-formed input names. *)
Definition well_formed (v : capability_input) : Prop :=
  exists members, v = Collection members /\
    Forall (fun m => exists s, m = Some s /\ nonblank s = true) members.

Definition names (v : capability_input) (c : string) : Prop :=
  exists members s, v = Collection members /\ Some s ∈ members /\ c = py_strip s.

Lemma capability_members_spec l name acc X e :
  capability_members l name acc = (X, e) ->
  (e = None <-> Forall (fun m => exists s, m = Some s /\ nonblank s = true) l) /\
  (e = None -> forall c, c ∈ X <-> c ∈ acc \/ exists s, Some s ∈ l /\ c = py_strip s).
Proof.
  revert acc. induction l as [|[s|] l IH]; intros acc; simpl.
  - intros [= <- <-]. split; [done|]. intros _ c. split; [by left|].
    intros [?|(s & H & _)]; [done|inversion H].
  - destruct (nonblank s) eqn:Hs; simpl.
    + intros H. destruct (IH _ H) as [H1 H2]. split.
      * rewrite H1, Forall_cons. naive_solver.
      * intros He c. rewrite (H2 He), elem_of_union, elem_of_singleton.
        setoid_rewrite elem_of_cons. naive_solver.
    + intros [= <- <-]. split; [|done]. split; [done|]. rewrite Forall_cons.
      intros [(s' & [= <-] & ?) _]. congruence.
  - intros [= <- <-]. split; [|done]. split; [done|]. rewrite Forall_cons.
    intros [(s' & ? & _) _]. done.
Qed.

Lemma capability_set_spec v name X e :
  capability_set v name = (X, e) ->
  (e = None <-> well_formed v) /\ (e = None -> forall c, c ∈ X <-> names v c).
Proof.
  destruct v as [members|]; cbn [capability_set].
  - intros H. apply capability_members_spec in H as [H1 H2]. split.
    + rewrite H1. unfold well_formed. naive_solver.
    + intros He c. rewrite (H2 He). unfold names. rewrite elem_of_empty. naive_solver.
  - intros [= <- <-]. split; [|done]. unfold well_formed. naive_solver.
Qed.

Lemma errors_none e1 e2 e3 : errors_of [e1; e2; e3] = [] <-> e1 = None /\ e2 = None /\ e3 = None.
Proof. destruct e1, e2, e3; cbn; naive_solver. Qed.

(** Capabilities are an intersection and fail closed: an operation is allowed
    exactly when all three policy inputs are well formed and each names the
    capability; one malformed input denies everything.  The gate's decision, its
    set intersection and capabilities.py agree. *)
Theorem capability_is_intersection (oper cap : string) (template instance operator : capability_input) :
  (cap_allowed (capability oper cap template instance operator) = true <->
     (well_formed template /\ well_formed instance /\ well_formed operator) /\
     names template cap /\ names instance cap /\ names operator cap) /\
  (cap ∈ gate_intersect template instance operator <->
     cap_allowed (capability oper cap template instance operator) = true) /\
  (cap ∈ effective_capabilities template instance operator <->
     cap_allowed (capability oper cap template instance operator) = true).
Proof.
  assert (Hall : forall n1 n2 n3,
    let '(t, e1) := capability_set template n1 in
    let '(i, e2) := capability_set instance n2 in
    let '(o, e3) := capability_set operator n3 in
    cap ∈ (if bool_decide (errors_of [e1; e2; e3] = []) then t ∩ i ∩ o else ∅) <->
    (well_formed template /\ well_formed instance /\ well_formed operator) /\
    names template cap /\ names instance cap /\ names operator cap).
  { intros n1 n2 n3.
    destruct (capability_set template n1) as [t e1] eqn:E1, (capability_set instance n2) as [i e2] eqn:E2,
      (capability_set operator n3) as [o e3] eqn:E3.
    apply capability_set_spec in E1 as [W1 N1], E2 as [W2 N2], E3 as [W3 N3].
    case_bool_decide as He; rewrite errors_none in He.
    - destruct He as (-> & -> & ->). rewrite !elem_of_intersection, N1, N2, N3 by done. naive_solver.
    - split; [by intros []%elem_of_empty|]. intros [(H1 & H2 & H3) _]. exfalso. apply He.
      rewrite W1, W2, W3. done. }
  assert (Hcap : cap_allowed (capability oper cap template instance operator) = true <->
    (well_formed template /\ well_formed instance /\ well_formed operator) /\
    names template cap /\ names instance cap /\ names operator cap).
  { specialize (Hall "template" "instance" "operator"). unfold capability, parse_capabilities.
    destruct (capability_set template "template") as [t e1], (capability_set instance "instance") as [i e2],
      (capability_set operator "operator") as [o e3]. cbn [cap_allowed].
    by rewrite bool_decide_eq_true, Hall. }
  split; [exact Hcap|]. rewrite Hcap. split.
  - specialize (Hall "template" "instance" "operator"). unfold gate_intersect, parse_capabilities.
    destruct (capability_set template "template") as [t e1], (capability_set instance "instance") as [i e2],
      (capability_set operator "operator") as [o e3]. exact Hall.
  - specialize (Hall "template_requested" "instance_granted" "operator_allowed").
    unfold effective_capabilities, intersect_capabilities.
    destruct (capability_set template _) as [t e1], (capability_set instance _) as [i e2],
      (capability_set operator _) as [o e3]. cbn [effective]. rewrite sorted_set_elem. exact Hall.
Qed.

(** *** A store of one request *)

Definition sample_request : ApprovalRequest :=
  mkRequest "r1" "deploy" "deploy.run" "instance-1" "pending" "" [("b", JInt 2); ("a", JInt 1)] "user:a" "/srv/i1".

Definition sample_file : store_file := FJson (store_value [("r1", sample_request)]).
Definition sample_store : list (string * ApprovalRequest) := map norm_entry [("r1", sample_request)].

Lemma sample_holds : holds sample_file sample_store.
Proof.
  apply holds_store. split; [apply NoDup_singleton|]. constructor; [|done]. split; [done|].
  split; [done|]. apply wf_jsonb_wf. reflexivity.
Qed.

Definition sample_gate : Gate := mkGate true false sample_file [].
Definition decided_gate : Gate := fst (transition "r1" "approved" "ok" "user:b" "now" sample_gate).

(** The request is approved, and an execution mark rebinds one of its two bound entries. *)
Definition sample_calls : list call :=
  [CTransition "r1" "approved" "ok" "user:b" "now"; CExecuted "r1" [("a", JInt 7); ("execution", JBool true)]].

Definition marked_gate : Gate :=
  fst (mark_executed "r1" [("a", JInt 7); ("execution", JBool true)] (mkGate true false (file decided_gate) [])).

Lemma sample_interleaving : interleaving sample_file sample_calls (file marked_gate).
Proof.
  apply (one_call sample_file []); [done|]. apply (one_call _ []); [|apply no_call].
  intros rs _. apply wf_jsonb_wf. reflexivity.
Qed.

Example mark_rebinds :
  match decode_store (file marked_gate) with
  | Some [(_, r)] => bound_entry "a" r = Some (JInt 7) /\ bound_entry "b" r = Some (JInt 2)
  | _ => False
  end.
Proof. vm_compute. split; reflexivity. Qed.

Lemma approvals_decided_once_witness :
  exists rs' r', holds (file marked_gate) rs' /\ assoc_get "r1" rs' = Some r' /\
    option_Forall2 py_eq (Some (JInt 2)) (bound_entry "b" r').
Proof.
  destruct (approvals_decided_once sample_file (file marked_gate) sample_calls sample_store sample_interleaving sample_holds)
    as (rs' & Hh & Hk).
  destruct (Hk "r1" (norm_request sample_request)) as (r' & Hr' & _ & _ & _ & _ & _ & He); [reflexivity|].
  exists rs', r'. split; [exact Hh|]. split; [exact Hr'|]. apply (He "b").
  intros H. apply Exists_exists in H as (c & Hc & H).
  apply elem_of_cons in Hc as [->|Hc]; [exact H|]. apply list_elem_of_singleton in Hc as ->. destruct H as [_ H].
  apply mem_true in H. vm_compute in H. discriminate H.
Defined.

Lemma second_transition_refused_witness :
  exists g2 e, transition "r1" "rejected" "no" "user:c" ""
    (mkGate true false (file decided_gate) [("r1", sample_request)]) = (g2, Raise e) /\
  file g2 = file decided_gate.
Proof.
  destruct (transition "r1" "approved" "ok" "user:b" "now" sample_gate) as [g1 [r|e]] eqn:E;
    [|exfalso; vm_compute in E; discriminate E].
  assert (Hg : decided_gate = g1) by (unfold decided_gate; rewrite E; reflexivity). rewrite Hg.
  exact (second_transition_refused sample_file (file g1) [] sample_store [] [("r1", sample_request)]
    "r1" "approved" "ok" "user:b" "now" "rejected" "no" "user:c" "" g1 r sample_holds E (no_call _)).
Defined.

Lemma request_once_idempotent_witness :
  exists g2 r', request_once "r1" "deploy" "deploy.run" "instance-1" "again" [("a", JInt 1); ("b", JInt 2)]
    "user:a" "/srv/i1" (mkGate true false sample_file []) = (g2, Ok (r', true)) /\ file g2 = sample_file.
Proof.
  destruct (request_once "r1" "deploy" "deploy.run" "instance-1" "" [("a", JInt 1); ("b", JInt 2)]
    "user:a" "/srv/i1" sample_gate) as [g1 [[r found]|e]] eqn:E; [|exfalso; vm_compute in E; discriminate E].
  assert (Hf : file g1 = sample_file) by (vm_compute in E; injection E as <- _; vm_compute; reflexivity).
  destruct (request_once_idempotent sample_file sample_file [] sample_store [] [] "r1" "deploy" "deploy.run"
    "instance-1" "" "again" [("a", JInt 1); ("b", JInt 2)] "user:a" "/srv/i1" g1 r found sample_holds)
    as (g2 & r' & H1 & H2 & _).
  - apply wf_jsonb_wf. reflexivity.
  - exact E.
  - rewrite Hf. apply no_call.
  - intros key H. by apply Exists_nil in H.
  - exists g2, r'. split; [exact H1|exact H2].
Defined.
