(* ===== verification/QuotaLedger.v ===== *)
(** * Quotas and usage reservations (packages/quota-engine)

    engine.py decides whether an operation fits a policy; ledger.py keeps
    reservations in one SQLite table, each operation one transaction under
    [BEGIN IMMEDIATE].  The state is the table, by primary key; a transaction
    that raises rolls back.  Costs are IEEE binary64 values ([SpecFloat]); a
    Python int given as a cost or limit is kept as an int until the code
    converts it.  SQLite's [SUM] over reals is a parameter, since its rounding
    depends on the SQLite version, and so is the clock. *)

From S2P Require Import Prelude Json Floats.

Inductive ledger_error :=
| UsageLedgerError (message : string)
| ReservationConflictError (message : string)
| ReservationStateError (message : string)
| ValueError (message : string)
| OverflowError.

(** ** Numbers *)

(** [float(value)]: an int beyond the range of a float raises. *)
Definition py_float (n : number) : outcome ledger_error f64 :=
  match n with
  | PInt z => check_float (f64_of_Z z) OverflowError
  | PFloat f => Ok f
  | NotANumber => Raise (ValueError "not a number")
  end.

(** [value < 0] *)
Definition number_negative (n : number) : bool :=
  match n with PInt z => (z <? 0)%Z | PFloat f => is_negative f | NotANumber => false end.

(** ** The engine *)

Record QuotaPolicy := mkQuotaPolicy {
  runs_per_day : option Z;
  messages_per_day : option Z;
  monthly_euro_estimate : option number;
}.

Definition negative_limit (o : option Z) : bool :=
  match o with Some z => (z <? 0)%Z | None => false end.

Definition QuotaPolicy_post_init (p : QuotaPolicy) : outcome ledger_error unit :=
  refuse_if (negative_limit (runs_per_day p))
    (ValueError "runs_per_day must be a non-negative integer or null") >>?
  refuse_if (negative_limit (messages_per_day p))
    (ValueError "messages_per_day must be a non-negative integer or null") >>?
  match monthly_euro_estimate p with
  | None => Ok tt
  | Some NotANumber => Raise (ValueError "monthly_euro_estimate must be non-negative or null")
  | Some n =>
      let? f := py_float n in
      refuse_if (negb (is_finite f) || number_negative n)
        (ValueError "monthly_euro_estimate must be non-negative or null")
  end.

Record UsageSnapshot := mkUsageSnapshot {
  runs_today : Z;
  messages_today : Z;
  monthly_cost : f64;
}.

Definition UsageSnapshot_post_init (u : UsageSnapshot) : outcome ledger_error unit :=
  refuse_if ((runs_today u <? 0)%Z || (messages_today u <? 0)%Z
             || negb (is_finite (monthly_cost u)) || is_negative (monthly_cost u))
    (ValueError "usage values must be finite and non-negative").

Record QuotaDecision := mkQuotaDecision {
  allowed : bool;
  decision_code_ : string;
  decision_reason_ : string;
  usage_ : UsageSnapshot;
  limits : QuotaPolicy;
}.

Definition over_limit (limit : option Z) (current : Z) : bool :=
  match limit with Some l => (l <=? current)%Z | None => false end.

Definition evaluate (policy : QuotaPolicy) (usage : UsageSnapshot) (operation : string)
    (estimated_cost : number) : outcome ledger_error QuotaDecision :=
  let deny code reason := Ok (mkQuotaDecision false code reason usage policy) in
  if negb (nonblank operation) then deny "invalid_operation" "operation is required"
  else
    match estimated_cost with
    | NotANumber => deny "invalid_cost" "estimated cost must be non-negative"
    | _ =>
        let? cost := py_float estimated_cost in
        if negb (is_finite cost) || number_negative estimated_cost
        then deny "invalid_cost" "estimated cost must be non-negative"
        else if over_limit (runs_per_day policy) (runs_today usage)
        then deny "quota_exceeded" "runs quota exhausted"
        else if over_limit (messages_per_day policy) (messages_today usage)
        then deny "quota_exceeded" "messages quota exhausted"
        else if match monthly_euro_estimate policy with
                | Some limit => float_gt (f64_add (monthly_cost usage) cost) limit
                | None => false
                end
        then deny "quota_exceeded" "monthly cost quota would be exceeded"
        else Ok (mkQuotaDecision true "allowed" "quota available" usage policy)
    end.

(** ** The table *)

Record UsageReservation := mkReservation {
  reservation_id : string;
  subject_id : string;
  operation : string;
  estimated_cost : f64;
  actual_cost : option f64;
  status : string;
  reserved_at : string;
  terminal_at : option string;
  usage_day : string;
  usage_month : string;
  policy : QuotaPolicy;
  usage_before : UsageSnapshot;
  decision_code : string;
  decision_reason : string;
  admitted : bool;
}.

Abbreviation table := (gmap string UsageReservation).
Abbreviation op := (M table ledger_error).

Definition STATUSES : list string := ["active"; "committed"; "released"; "denied"].
Definition OPERATIONS : list string := ["run"; "message"; "mutation"].

(** [valid_state]; the table's [CHECK] constraint says the same. *)
Definition valid_state (r : UsageReservation) : bool :=
  let has s := bool_decide (status r = s) in
  let cost := bool_decide (is_Some (actual_cost r)) in
  let ended := bool_decide (is_Some (terminal_at r)) in
  (has "active" && negb cost && negb ended && admitted r)
  || (has "committed" && cost && ended && admitted r)
  || (has "released" && negb cost && ended && admitted r)
  || (has "denied" && negb cost && ended && negb (admitted r)).

Definition row_reservation (r : UsageReservation) : outcome ledger_error UsageReservation :=
  refuse_if (negb (mem (status r) STATUSES))
    (UsageLedgerError "usage ledger contains an invalid reservation status") >>?
  refuse_if (negb (valid_state r))
    (UsageLedgerError "usage ledger contains an inconsistent reservation state") >>?
  QuotaPolicy_post_init (policy r) >>?
  UsageSnapshot_post_init (usage_before r) >>?
  Ok r.

Definition decision_of (r : UsageReservation) : QuotaDecision :=
  mkQuotaDecision (admitted r) (decision_code r) (decision_reason r) (usage_before r) (policy r).

(** *** Arguments *)

Definition identifier (value name : string) : outcome ledger_error string :=
  refuse_if (negb (nonblank value)) (UsageLedgerError (name +:+ " must be a non-empty string")) >>?
  Ok (py_strip value).

Definition cost (value : number) (name : string) : outcome ledger_error f64 :=
  match value with
  | NotANumber => Raise (UsageLedgerError (name +:+ " must be numeric"))
  | _ =>
      let? result := py_float value in
      refuse_if (negb (is_finite result) || is_negative result)
        (UsageLedgerError (name +:+ " must be finite and non-negative")) >>?
      Ok result
  end.

Definition validate_policy (p : QuotaPolicy) : outcome ledger_error unit :=
  match monthly_euro_estimate p with
  | Some n => cost n "monthly_euro_estimate" >>? Ok tt
  | None => Ok tt
  end.

(** What [_now] makes of the clock: the timestamp, the day and the month. *)
Record Now := mkNow { timestamp : string; day : string; month : string }.

(** *** Values on their way into SQLite: integers have 64 bits. *)
Definition int64 (z : Z) : bool := ((- 2 ^ 63 <=? z) && (z <? 2 ^ 63))%Z.

Definition storable (p : QuotaPolicy) : bool :=
  let opt o := match o with Some z => int64 z | None => true end in
  opt (runs_per_day p) && opt (messages_per_day p)
  && match monthly_euro_estimate p with Some (PInt z) => int64 z | _ => true end.

(** The policy as the [REAL] column holds it. *)
Definition stored_policy (p : QuotaPolicy) : QuotaPolicy :=
  mkQuotaPolicy (runs_per_day p) (messages_per_day p)
    (match monthly_euro_estimate p with
     | Some (PInt z) => Some (PFloat (f64_of_Z z))
     | m => m
     end).

Definition policy_binding (p : QuotaPolicy) : outcome ledger_error (option Z * option Z * option f64) :=
  match monthly_euro_estimate p with
  | None => Ok (runs_per_day p, messages_per_day p, None)
  | Some n => let? f := py_float n in Ok (runs_per_day p, messages_per_day p, Some f)
  end.

Definition float_eq_opt (a b : option f64) : bool :=
  match a, b with
  | Some x, Some y => SFeqb x y
  | None, None => true
  | _, _ => false
  end.

Definition same_binding (a b : option Z * option Z * option f64) : bool :=
  let '(r1, m1, f1) := a in let '(r2, m2, f2) := b in
  bool_decide (r1 = r2) && bool_decide (m1 = m2) && float_eq_opt f1 f2.

Definition assert_binding (r : UsageReservation) (subject operation_ : string) (est : f64)
    (p : QuotaPolicy) : outcome ledger_error unit :=
  let? existing := policy_binding (policy r) in
  let? requested := policy_binding p in
  refuse_if (negb (bool_decide (subject_id r = subject) && bool_decide (operation r = operation_)
                   && SFeqb (estimated_cost r) est && same_binding existing requested))
    (ReservationConflictError "reservation id is already bound to different immutable inputs").

(** *** Queries *)

Definition live (r : UsageReservation) : bool := mem (status r) ["active"; "committed"].

Definition counts_as (subject op_ day_ : string) (r : UsageReservation) : bool :=
  bool_decide (subject_id r = subject) && bool_decide (usage_day r = day_)
  && bool_decide (operation r = op_) && live r.

Definition count (subject op_ day_ : string) (t : table) : Z :=
  Z.of_nat (size (filter (fun kv => counts_as subject op_ day_ (snd kv) = true) t)).

(** One term of the cost sum; [None] is the integer [0] of the [ELSE]. *)
Definition cost_term (month_ : string) (r : UsageReservation) : option f64 :=
  if bool_decide (usage_month r = month_) && bool_decide (status r = "active")
  then Some (estimated_cost r)
  else if bool_decide (usage_month r = month_) && bool_decide (status r = "committed")
  then actual_cost r
  else None.

Section ledger.
(** [float(COALESCE(SUM(...), 0.0))] over the rows of a subject. *)
Context (sqlite_sum : list (option f64) -> f64).

Definition monthly_sum (subject month_ : string) (t : table) : f64 :=
  match omap (fun kv => if bool_decide (subject_id (snd kv) = subject)
                        then Some (cost_term month_ (snd kv)) else None) (map_to_list t) with
  | [] => zero64
  | terms => sqlite_sum terms
  end.

Definition snapshot_in_transaction (subject day_ month_ : string) (t : table)
    : outcome ledger_error UsageSnapshot :=
  let u := mkUsageSnapshot (count subject "run" day_ t) (count subject "message" day_ t)
             (monthly_sum subject month_ t) in
  UsageSnapshot_post_init u >>? Ok u.

Definition snapshot (subject : string) (now : outcome ledger_error Now) : op UsageSnapshot :=
  let* subject := lift (identifier subject "subject_id") in
  let* n := lift now in
  let* t := get in
  lift (snapshot_in_transaction subject (day n) (month n) t).

Definition get_reservation (rid : string) : op (option UsageReservation) :=
  let* rid := lift (identifier rid "reservation_id") in
  let* t := get in
  match t !! rid with
  | None => ret None
  | Some row => let* r := lift (row_reservation row) in ret (Some r)
  end.

(** ** Operations *)

Record ReservationOutcome := mkOutcome {
  reservation : UsageReservation;
  decision : QuotaDecision;
  idempotent : bool;
}.

Definition operation_policy (p : QuotaPolicy) (op_ : string) : QuotaPolicy :=
  mkQuotaPolicy (if bool_decide (op_ = "run") then runs_per_day p else None)
    (if bool_decide (op_ = "message") then messages_per_day p else None)
    (monthly_euro_estimate p).

Definition new_row (rid subject op_ : string) (est : f64) (n : Now) (p : QuotaPolicy)
    (u : UsageSnapshot) (d : QuotaDecision) : UsageReservation :=
  mkReservation rid subject op_ est None (if allowed d then "active" else "denied") (timestamp n)
    (if allowed d then None else Some (timestamp n)) (day n) (month n) (stored_policy p) u
    (decision_code_ d) (decision_reason_ d) (allowed d).

Definition reserve (rid subject op_ : string) (p : QuotaPolicy) (est : number)
    (now : outcome ledger_error Now) : op ReservationOutcome :=
  let* rid := lift (identifier rid "reservation_id") in
  let* subject := lift (identifier subject "subject_id") in
  let* op_ := lift (identifier op_ "operation") in
  raise_if (negb (mem op_ OPERATIONS))
    (UsageLedgerError "operation must be run, message, or mutation") >>*
  lift (validate_policy p) >>*
  let* est := lift (cost est "estimated_cost") in
  let* n := lift now in
  let* t := get in
  match t !! rid with
  | Some row =>
      let* r := lift (row_reservation row) in
      lift (assert_binding r subject op_ est p) >>*
      ret (mkOutcome r (decision_of r) true)
  | None =>
      let* u := lift (snapshot_in_transaction subject (day n) (month n) t) in
      let policy_ := operation_policy p op_ in
      lift (QuotaPolicy_post_init policy_) >>*
      let* evaluated := lift (evaluate policy_ u op_ (PFloat est)) in
      let d := mkQuotaDecision (allowed evaluated) (decision_code_ evaluated)
                 (decision_reason_ evaluated) u p in
      raise_if (negb (storable p)) OverflowError >>*
      let row := new_row rid subject op_ est n p u d in
      put (<[rid := row]> t) >>*
      let* r := lift (row_reservation row) in
      ret (mkOutcome r d false)
  end.

Definition with_terminal (st : string) (actual : option f64) (at_ : string) (r : UsageReservation)
    : UsageReservation :=
  mkReservation (reservation_id r) (subject_id r) (operation r) (estimated_cost r) actual st
    (reserved_at r) (Some at_) (usage_day r) (usage_month r) (policy r) (usage_before r)
    (decision_code r) (decision_reason r) (admitted r).

Definition commit (rid : string) (actual : number) (now : outcome ledger_error Now)
    : op (UsageReservation * bool) :=
  let* rid := lift (identifier rid "reservation_id") in
  let* c := lift (cost actual "actual_cost") in
  let* n := lift now in
  let* t := get in
  match t !! rid with
  | None => raise (ReservationStateError "usage reservation was not found")
  | Some row =>
      let* r := lift (row_reservation row) in
      if bool_decide (status r = "committed") then
        raise_if (negb (float_eq_opt (actual_cost r) (Some c)))
          (ReservationConflictError "committed reservation is bound to a different actual cost") >>*
        ret (r, true)
      else
        raise_if (negb (bool_decide (status r = "active")))
          (ReservationStateError ("only active reservations can be committed, not " +:+ status r)) >>*
        let row' := with_terminal "committed" (Some c) (timestamp n) row in
        put (<[rid := row']> t) >>*
        let* r' := lift (row_reservation row') in
        ret (r', false)
  end.

Definition release (rid : string) (now : outcome ledger_error Now) : op (UsageReservation * bool) :=
  let* rid := lift (identifier rid "reservation_id") in
  let* n := lift now in
  let* t := get in
  match t !! rid with
  | None => raise (ReservationStateError "usage reservation was not found")
  | Some row =>
      let* r := lift (row_reservation row) in
      if bool_decide (status r = "released") then ret (r, true)
      else
        raise_if (negb (bool_decide (status r = "active")))
          (ReservationStateError ("only active reservations can be released, not " +:+ status r)) >>*
        let row' := with_terminal "released" (actual_cost row) (timestamp n) row in
        put (<[rid := row']> t) >>*
        let* r' := lift (row_reservation row') in
        ret (r', false)
  end.
End ledger.

(** ** The table's invariant *)

Definition row_ok (k : string) (r : UsageReservation) : Prop :=
  reservation_id r = k /\ row_reservation r = Ok r /\ is_finite (estimated_cost r) = true /\
  (forall f, actual_cost r = Some f -> is_finite f = true).

Definition table_ok (t : table) : Prop := forall k r, t !! k = Some r -> row_ok k r.

Lemma row_reservation_Ok r r' : row_reservation r = Ok r' <->
  r' = r /\ mem (status r) STATUSES = true /\ valid_state r = true /\
  QuotaPolicy_post_init (policy r) = Ok tt /\ UsageSnapshot_post_init (usage_before r) = Ok tt.
Proof.
  unfold row_reservation, refuse_if. destruct (mem (status r) STATUSES); cbn [negb obind];
    [|naive_solver]. destruct (valid_state r); cbn [negb obind]; [|naive_solver].
  destruct (QuotaPolicy_post_init (policy r)) as [[]|]; cbn [obind]; [|naive_solver].
  destruct (UsageSnapshot_post_init (usage_before r)) as [[]|]; cbn [obind]; naive_solver.
Qed.

Lemma stored_policy_ok p : QuotaPolicy_post_init p = Ok tt -> QuotaPolicy_post_init (stored_policy p) = Ok tt.
Proof.
  destruct p as [runs msgs [[z|f|]|]]; try done. unfold QuotaPolicy_post_init, stored_policy. cbn.
  destruct (refuse_if (negative_limit runs) _) as [[]|]; cbn; [|done].
  destruct (refuse_if (negative_limit msgs) _) as [[]|]; cbn; [|done].
  destruct (f64_of_Z z) eqn:E; cbn; try done; destruct (z <? 0)%Z eqn:Hz; cbn; try done;
    apply Z.ltb_ge in Hz; apply f64_of_Z_nonneg in Hz; rewrite E in Hz; repeat match goal with b : bool |- _ => destruct b end; done.
Qed.

Lemma cost_Ok n name c : cost n name = Ok c -> is_finite c = true /\ is_negative c = false.
Proof.
  destruct n as [z|f|]; cbn [cost]; [| |done]; intros H; inv_ok; split_bool; by split.
Qed.

(** *** What the operations do *)

Section ledger_lemmas.
Context (sqlite_sum : list (option f64) -> f64).

Lemma snapshot_ok subject d m t u :
  snapshot_in_transaction sqlite_sum subject d m t = Ok u ->
  u = mkUsageSnapshot (count subject "run" d t) (count subject "message" d t)
        (monthly_sum sqlite_sum subject m t) /\ UsageSnapshot_post_init u = Ok tt.
Proof.
  unfold snapshot_in_transaction. intros H. apply obind_Ok in H as ([] & H1 & H2).
  injection H2 as <-. done.
Qed.

Lemma evaluate_usage p u o c d : evaluate p u o c = Ok d -> usage_ d = u /\ limits d = p.
Proof.
  unfold evaluate. destruct (negb (nonblank o)); [by intros [= <-]|].
  destruct c as [z|f|]; [..|by intros [= <-]]; intros H; apply obind_Ok in H as (c & _ & H);
    repeat match type of H with
    | (if ?b then _ else _) = _ => destruct b; try (injection H as <-; done)
    end.
Qed.

Lemma new_row_ok rid s o est n p u d :
  QuotaPolicy_post_init p = Ok tt -> UsageSnapshot_post_init u = Ok tt -> is_finite est = true ->
  row_ok rid (new_row rid s o est n p u d).
Proof.
  intros Hp Hu He. split; [done|]. split; [|done].
  apply row_reservation_Ok. split; [done|]. unfold new_row. cbn [policy usage_before].
  split; [by destruct (allowed d)|]. split; [by destruct (allowed d)|].
  split; [by apply stored_policy_ok|done].
Qed.

Lemma terminal_ok k r st actual at_ :
  row_ok k r -> status r = "active" ->
  (st = "committed" /\ (exists c, actual = Some c /\ is_finite c = true) \/
   st = "released" /\ actual = actual_cost r) ->
  row_ok k (with_terminal st actual at_ r).
Proof.
  intros (Hk & Hr & Hf & Ha) Hst Hcase. apply row_reservation_Ok in Hr as (_ & Hm & Hv & Hp & Hu).
  assert (Hact : actual_cost r = None /\ admitted r = true).
  { unfold valid_state in Hv. rewrite Hst in Hv. cbn in Hv.
    destruct (actual_cost r), (terminal_at r), (admitted r); try done. }
  destruct Hact as [Hac Had].
  split; [done|]. split; [|split; [done|]].
  - apply row_reservation_Ok. split; [done|].
    destruct Hcase as [[-> (c & -> & _)]|[-> ->]]; split; try done; (split; [|done]).
    + unfold valid_state. cbn. rewrite Had. done.
    + unfold valid_state. cbn. rewrite Had, Hac. done.
  - destruct Hcase as [[-> (c & -> & Hc)]|[-> ->]]; intros f Hf'; [by injection Hf' as <-|by apply Ha].
Qed.

(** A new reservation: what was checked and what was stored. *)
Definition reserved_new (rid subject o : string) (p : QuotaPolicy) (t t' : table)
    (out : ReservationOutcome) : Prop :=
  exists est n u ev d,
    t !! rid = None /\ mem o OPERATIONS = true /\ is_finite est = true /\
    snapshot_in_transaction sqlite_sum subject (day n) (month n) t = Ok u /\
    evaluate (operation_policy p o) u o (PFloat est) = Ok ev /\
    d = mkQuotaDecision (allowed ev) (decision_code_ ev) (decision_reason_ ev) u p /\
    t' = <[rid := new_row rid subject o est n p u d]> t /\
    out = mkOutcome (new_row rid subject o est n p u d) d false.

(** An existing reservation found again. *)
Definition reserved_again (rid subject o : string) (p : QuotaPolicy) (t t' : table)
    (out : ReservationOutcome) : Prop :=
  exists r est,
    t !! rid = Some r /\ t' = t /\ out = mkOutcome r (decision_of r) true /\
    assert_binding r subject o est p = Ok tt.

Lemma identifier_Ok v name x : identifier v name = Ok x -> x = py_strip v /\ nonblank v = true.
Proof. unfold identifier. intros H. inv_ok. by split_bool. Qed.

Ltac ledger_steps :=
  repeat first
  [ progress match goal with
    | H : identifier _ _ = Ok _ |- _ => apply identifier_Ok in H as [-> ?]
    | H : cost _ _ = Ok _ |- _ => apply cost_Ok in H as [? ?]
    | H : row_reservation _ = Ok _ |- _ => apply row_reservation_Ok in H as (-> & ?)
    | H : negb _ = false |- _ => apply negb_false_iff in H
    | u : unit |- _ => destruct u
    end
  | wp_step; try done ]; cbv zeta.

Lemma wp_reserve rid subject o p est now t :
  table_ok t -> QuotaPolicy_post_init p = Ok tt ->
  wp (reserve sqlite_sum rid subject o p est now)
    (fun out t' => reserved_new (py_strip rid) (py_strip subject) (py_strip o) p t t' out \/
                   reserved_again (py_strip rid) (py_strip subject) (py_strip o) p t t' out)
    (fun _ t' => t' = t) t.
Proof.
  intros Ht Hp. unfold reserve. ledger_steps.
  destruct (t !! py_strip rid) as [row|] eqn:Hrow; ledger_steps.
  - right. eexists row, _. done.
  - left. eexists _, _, _, _, _. repeat split; try done.
  - exfalso. match goal with H : row_reservation ?row = Raise _ |- _ =>
      assert (Hrok : row_reservation row = Ok row); [|congruence] end.
    eapply new_row_ok; [done|by eapply snapshot_ok|done].
Qed.

(** Ending an active reservation, or finding it ended. *)
Definition ended_as (st rid : string) (t t' : table) (out : UsageReservation * bool) : Prop :=
  exists row, t !! rid = Some row /\
  ((status row = st /\ t' = t /\ out = (row, true)) \/
   (status row = "active" /\ exists actual at_ row', row' = with_terminal st actual at_ row /\
      row_ok rid row' /\ t' = <[rid := row']> t /\ out = (row', false))).

Lemma wp_commit rid actual now t :
  table_ok t ->
  wp (commit rid actual now) (fun out t' => ended_as "committed" (py_strip rid) t t' out)
    (fun _ t' => t' = t) t.
Proof.
  intros Ht. unfold commit. ledger_steps.
  destruct (t !! py_strip rid) as [row|] eqn:Hrow; [|by ledger_steps].
  pose proof (Ht _ _ Hrow) as Hok. ledger_steps.
  - exists row. split; [done|]. left. split_bool. done.
  - exists row. split; [done|]. right. split_bool. split; [done|].
    eexists _, _, _. split; [done|]. split; [|done].
    apply terminal_ok; [done..|]. left. split; [done|]. eexists. split; [done|]. done.
  - exfalso. split_bool. match goal with H : row_reservation ?row = Raise _ |- _ =>
      assert (Hrok : row_reservation row = Ok row); [|congruence] end.
    eapply terminal_ok; [done..|]. left. split; [done|]. eexists. split; [done|]. done.
Qed.

Lemma wp_release rid now t :
  table_ok t ->
  wp (release rid now) (fun out t' => ended_as "released" (py_strip rid) t t' out)
    (fun _ t' => t' = t) t.
Proof.
  intros Ht. unfold release. ledger_steps.
  destruct (t !! py_strip rid) as [row|] eqn:Hrow; [|by ledger_steps].
  pose proof (Ht _ _ Hrow) as Hok. ledger_steps.
  - exists row. split; [done|]. left. split_bool. done.
  - exists row. split; [done|]. right. split_bool. split; [done|].
    eexists _, _, _. split; [done|]. split; [|done].
    apply terminal_ok; [done..|]. by right.
  - exfalso. split_bool. match goal with H : row_reservation ?row = Raise _ |- _ =>
      assert (Hrok : row_reservation row = Ok row); [|congruence] end.
    eapply terminal_ok; [done..|]. by right.
Qed.

(** ** Sequences of transactions *)

Inductive call :=
| CReserve (rid subject op_ : string) (p : QuotaPolicy) (est : number) (now : outcome ledger_error Now)
| CCommit (rid : string) (actual : number) (now : outcome ledger_error Now)
| CRelease (rid : string) (now : outcome ledger_error Now).

Definition run_call (t : table) (c : call) : table :=
  match c with
  | CReserve r s o p e n => fst (reserve sqlite_sum r s o p e n t)
  | CCommit r a n => fst (commit r a n t)
  | CRelease r n => fst (release r n t)
  end.

(** The policy objects that reach the ledger passed their own checks; [C] is
    what a theorem asks of the policies of its callers. *)
Context (C : string -> string -> QuotaPolicy -> Prop).
Definition call_ok (c : call) : Prop :=
  match c with
  | CReserve _ s o p _ _ => QuotaPolicy_post_init p = Ok tt /\ C (py_strip s) (py_strip o) p
  | _ => True
  end.

(** What one transaction does to the table. *)
Inductive change (t : table) : table -> Prop :=
| change_none : change t t
| change_new rid subject o p t' out :
    reserved_new rid subject o p t t' out -> QuotaPolicy_post_init p = Ok tt -> C subject o p ->
    change t t'
| change_end st rid row actual at_ :
    t !! rid = Some row -> status row = "active" -> st ∈ ["committed"; "released"] ->
    row_ok rid (with_terminal st actual at_ row) ->
    change t (<[rid := with_terminal st actual at_ row]> t).

Lemma wp_to_change {A} (m : op A) (Q : A -> table -> Prop) t :
  wp m Q (fun _ t' => t' = t) t ->
  (forall a t', Q a t' -> change t t') -> change t (fst (m t)).
Proof.
  unfold wp. destruct (m t) as [t' [a|e]]; cbn [fst]; intros H HQ; [by eapply HQ|].
  rewrite H. apply change_none.
Qed.

Lemma ended_change st rid t t' out :
  ended_as st rid t t' out -> st ∈ ["committed"; "released"] -> change t t'.
Proof.
  intros (row & Hrow & [(_ & -> & _)|(Hst & actual & at_ & row' & -> & Hok & -> & _)]) Hin;
    [apply change_none|by eapply change_end].
Qed.

Lemma call_change t c : table_ok t -> call_ok c -> change t (run_call t c).
Proof.
  intros Ht Hc. destruct c as [r s o p e n|r a n|r n]; cbn [run_call].
  - destruct Hc as [Hp HC]. eapply wp_to_change; [by apply wp_reserve|]. intros out t' [Hn|(row & est & _ & -> & _)];
      [by eapply change_new|apply change_none].
  - eapply wp_to_change; [by apply wp_commit|]. intros out t' H.
    eapply ended_change; [exact H|]. by left.
  - eapply wp_to_change; [by apply wp_release|]. intros out t' H.
    eapply ended_change; [exact H|]. right. by left.
Qed.

Lemma change_ok t t' : table_ok t -> change t t' -> table_ok t'.
Proof.
  intros Ht [|rid s o p t1 out Hn Hp _|st rid row actual at_ Hrow Hst Hin Hok]; [done|..]; intros k r Hk.
  - destruct Hn as (est & n & u & ev & d & Hnone & Ho & He & Hu & Hev & Hd & -> & _).
    destruct (decide (k = rid)) as [->|Hne].
    + rewrite lookup_insert_eq in Hk. injection Hk as <-. apply new_row_ok; [done| |done].
      by eapply snapshot_ok.
    + rewrite lookup_insert_ne in Hk by done. by apply Ht.
  - destruct (decide (k = rid)) as [->|Hne].
    + rewrite lookup_insert_eq in Hk. by injection Hk as <-.
    + rewrite lookup_insert_ne in Hk by done. by apply Ht.
Qed.

Lemma trace_ok (I : table -> Prop) tr t :
  (forall t t', I t -> table_ok t -> change t t' -> I t') ->
  Forall call_ok tr -> table_ok t -> I t -> I (run_trace run_call t tr) /\ table_ok (run_trace run_call t tr).
Proof.
  intros Hstep Hall. revert t. induction Hall as [|c tr Hc _ IH]; intros t Ht HI; [done|].
  pose proof (call_change t c Ht Hc) as Hch. apply IH.
  - by eapply change_ok.
  - by eapply Hstep.
Qed.

End ledger_lemmas.

(** ** What the ledger guarantees *)

Definition within_cost (p : QuotaPolicy) (u : UsageSnapshot) (c : f64) : Prop :=
  match monthly_euro_estimate p with
  | Some limit => float_gt (f64_add (monthly_cost u) c) limit = false
  | None => True
  end.

Definition below (limit : option Z) (n : Z) : Prop :=
  match limit with Some l => (n < l)%Z | None => True end.

Lemma over_limit_below limit n : over_limit limit n = false <-> below limit n.
Proof. destruct limit; cbn; [apply Z.leb_gt|done]. Qed.

Lemma evaluate_spec p u o c d :
  evaluate p u o c = Ok d ->
  (allowed d = true <->
     nonblank o = true /\ (exists f, py_float c = Ok f /\ is_finite f = true /\
       number_negative c = false /\ within_cost p u f) /\
     below (runs_per_day p) (runs_today u) /\ below (messages_per_day p) (messages_today u)).
Proof.
  unfold evaluate. destruct (nonblank o); cbn [negb]; [|intros [= <-]; cbn; naive_solver].
  assert (Hgo : forall d,
    (let? cost := py_float c in
        if negb (is_finite cost) || number_negative c
        then Ok (mkQuotaDecision false "invalid_cost" "estimated cost must be non-negative" u p)
        else if over_limit (runs_per_day p) (runs_today u)
        then Ok (mkQuotaDecision false "quota_exceeded" "runs quota exhausted" u p)
        else if over_limit (messages_per_day p) (messages_today u)
        then Ok (mkQuotaDecision false "quota_exceeded" "messages quota exhausted" u p)
        else if match monthly_euro_estimate p with
                | Some limit => float_gt (f64_add (monthly_cost u) cost) limit
                | None => false
                end
        then Ok (mkQuotaDecision false "quota_exceeded" "monthly cost quota would be exceeded" u p)
        else Ok (mkQuotaDecision true "allowed" "quota available" u p)) = Ok d ->
    (allowed d = true <->
     true = true /\ (exists f, py_float c = Ok f /\ is_finite f = true /\
       number_negative c = false /\ within_cost p u f) /\
     below (runs_per_day p) (runs_today u) /\ below (messages_per_day p) (messages_today u))).
  { clear d. intros d. destruct (py_float c) as [f|]; cbn [obind]; [|done].
    rewrite <-!over_limit_below. unfold within_cost.
    destruct (is_finite f) eqn:Hf, (number_negative c) eqn:Hn,
      (over_limit (runs_per_day p) _) eqn:Hr, (over_limit (messages_per_day p) _) eqn:Hm; cbn [negb orb];
      try (intros [= <-]; cbn; split; [done|]; intros (_ & (f0 & [= <-] & ? & ? & _) & ? & ?); congruence).
    destruct (monthly_euro_estimate p) as [l|]; [destruct (float_gt _ l) eqn:Hg|];
      intros [= <-]; cbn; (split; [intros|intros (_ & (f0 & [= <-] & _ & _ & ?) & _)]); try done;
      try congruence; (split; [done|]); (split; [|done]); exists f; done. }
  destruct c; try apply Hgo. intros [= <-]. cbn. naive_solver.
Qed.

(** The engine admits an operation exactly when the cost is a finite
    non-negative number, both daily counts are below their limits, and the
    month's cost with this one does not exceed its limit; a limit that is not
    set does not restrict, and equality exhausts a count. *)
Theorem evaluate_admits_exactly (p : QuotaPolicy) (u : UsageSnapshot) (o : string) (c : number)
    (d : QuotaDecision) :
  evaluate p u o c = Ok d ->
  usage_ d = u /\ limits d = p /\
  (allowed d = true <->
     nonblank o = true /\ (exists f, py_float c = Ok f /\ is_finite f = true /\
       number_negative c = false /\ within_cost p u f) /\
     below (runs_per_day p) (runs_today u) /\ below (messages_per_day p) (messages_today u)).
Proof.
  intros H. destruct (evaluate_usage p u o c d H). split; [done|]. split; [done|].
  by apply evaluate_spec.
Qed.

Lemma evaluate_admits_exactly_witness :
  below (Some 2%Z) 1 /\ exists d,
    evaluate (mkQuotaPolicy (Some 2%Z) None (Some (PInt 10))) (mkUsageSnapshot 1 0 zero64) "run" (PInt 3) = Ok d
    /\ allowed d = true.
Proof.
  set (p := mkQuotaPolicy (Some 2%Z) None (Some (PInt 10))). set (u := mkUsageSnapshot 1 0 zero64).
  set (d := mkQuotaDecision true "allowed" "quota available" u p).
  assert (E : evaluate p u "run" (PInt 3) = Ok d) by (vm_compute; reflexivity).
  destruct (evaluate_admits_exactly p u "run" (PInt 3) d E) as (_ & _ & H).
  destruct (proj1 H eq_refl) as (_ & _ & Hb & _). split; [exact Hb|].
  exists d. split; [exact E|reflexivity].
Defined.

Definition limit_for (o : string) (p : QuotaPolicy) : option Z :=
  if bool_decide (o = "run") then runs_per_day p else messages_per_day p.

(** C9 Daily quotas are never exceeded: whatever transactions run on the table, in
    whatever order, if every reservation of this kind for a subject carries a
    limit of at most [limit], then on every day the subject's reservations that
    are active or committed number at most [limit]. *)
Theorem daily_quota_never_exceeded (sqlite_sum : list (option f64) -> f64) (subject o d : string)
    (limit : Z) (tr : list call) :
  o ∈ ["run"; "message"] -> (0 <= limit)%Z ->
  Forall (call_ok (fun s' o' p => s' = subject -> o' = o ->
    exists l, limit_for o p = Some l /\ (l <= limit)%Z)) tr ->
  (count subject o d (run_trace (run_call sqlite_sum) ∅ tr) <= limit)%Z.
Proof.
  intros Ho Hlim Hall.
  eapply (trace_ok sqlite_sum _ (fun t => (count subject o d t <= limit)%Z) tr ∅); [|exact Hall|done|].
  2: { unfold count. rewrite map_filter_empty, map_size_empty. lia. }
  intros t t' HI Ht Hch. destruct Hch as [|rid s o' p t1 out Hn Hp HC|st rid row actual at_ Hrow Hst Hin Hok];
    [done|..]; unfold count in *.
  - destruct Hn as (est & n & u & ev & dd & Hnone & Hop & He & Hu & Hev & -> & -> & _).
    rewrite (size_filter_insert (counts_as subject o d)) by done.
    destruct (counts_as subject o d _) eqn:Hcount; [|lia].
    unfold counts_as in Hcount. cbn [subject_id usage_day operation new_row] in Hcount. split_bool. subst s o'.
    assert (Hal : allowed ev = true).
    { unfold live in *. cbn in *. by destruct (allowed ev). }
    apply (evaluate_spec _ _ _ _ _ Hev) in Hal as (_ & _ & Hr & Hm).
    destruct (HC eq_refl eq_refl) as (l & Hl & Hle). apply snapshot_ok in Hu as [-> _].
    assert (Hlt : (count subject o d t < l)%Z); [|unfold count in Hlt; lia].
    unfold limit_for in Hl. cbn [operation_policy runs_per_day messages_per_day runs_today messages_today] in Hr, Hm.
    rewrite !elem_of_cons, elem_of_nil in Ho. destruct Ho as [->|[->|[]]].
    + rewrite bool_decide_eq_true_2 in Hl, Hr by done. rewrite Hl in Hr. subst d. exact Hr.
    + rewrite bool_decide_eq_false_2 in Hl by done. rewrite bool_decide_eq_true_2 in Hm by done.
      rewrite Hl in Hm. subst d. exact Hm.
  - pose proof (size_filter_update (counts_as subject o d) t rid row (with_terminal st actual at_ row) Hrow) as Hup.
    rewrite Nat2Z.inj_le in Hup. etransitivity; [apply Hup|exact HI].
    unfold counts_as, live. cbn -[mem]. rewrite Hst, !andb_true_iff. intros [H _]. split; [exact H|reflexivity].
Qed.

(** A subject may run once a day: its second reservation of that day is recorded
    as denied, and one is counted. *)
Definition one_run : QuotaPolicy := mkQuotaPolicy (Some 1%Z) None None.
Definition monday : Now := mkNow "2025-01-06T09:00:00.000000Z" "2025-01-06" "2025-01".
Definition two_runs : list call :=
  [CReserve "r1" "alice" "run" one_run (PFloat zero64) (Ok monday);
   CReserve "r2" "alice" "run" one_run (PFloat zero64) (Ok monday);
   CCommit "r1" (PInt 2) (Ok monday)].

Lemma daily_quota_never_exceeded_witness :
  (count "alice" "run" "2025-01-06" (run_trace (run_call (fun _ => zero64)) ∅ two_runs) <= 1)%Z
  /\ map_to_list (status <$> run_trace (run_call (fun _ => zero64)) ∅ two_runs)
     = [("r1", "committed"); ("r2", "denied")].
Proof.
  split; [|vm_compute; reflexivity].
  apply (daily_quota_never_exceeded (fun _ => zero64) "alice" "run" "2025-01-06" 1 two_runs).
  - left.
  - done.
  - repeat constructor; intros _ _; exists 1%Z; done.
Defined.

(** *** A reservation's life *)

(** What never changes, and what may: an active row ends once, as committed
    or released; any other row stays as it is. *)
Definition evolves (r r' : UsageReservation) : Prop :=
  r' = r \/
  (status r = "active" /\ exists st actual at_, st ∈ ["committed"; "released"] /\
     r' = with_terminal st actual at_ r).

Lemma evolves_trans r1 r2 r3 : evolves r1 r2 -> evolves r2 r3 -> evolves r1 r3.
Proof.
  intros [->|(Ha & st & ac & at_ & Hin & ->)]; [done|]. intros [->|(Hb & _)].
  - right. split; [done|]. by exists st, ac, at_.
  - exfalso. cbn in Hb. subst st. by rewrite !elem_of_cons, elem_of_nil in Hin; destruct Hin as [|[|[]]].
Qed.

Lemma change_evolves sqlite_sum C t t' k r :
  change sqlite_sum C t t' -> t !! k = Some r -> exists r', t' !! k = Some r' /\ evolves r r'.
Proof.
  intros [|rid s o p t1 out Hn _ _|st rid row actual at_ Hrow Hst Hin _] Hk.
  - exists r. split; [done|by left].
  - destruct Hn as (est & n & u & ev & d & Hnone & _ & _ & _ & _ & _ & -> & _). exists r.
    rewrite lookup_insert_ne by congruence. split; [done|by left].
  - destruct (decide (k = rid)) as [->|Hne].
    + rewrite Hrow in Hk. injection Hk as ->. eexists. rewrite lookup_insert_eq. split; [done|].
      right. split; [done|]. by exists st, actual, at_.
    + exists r. rewrite lookup_insert_ne by done. split; [done|by left].
Qed.

Definition any_policy (s o : string) (p : QuotaPolicy) : Prop := True.

(** A table some sequence of transactions leads to. *)
Definition reachable (sqlite_sum : list (option f64) -> f64) (t : table) : Prop :=
  exists tr, Forall (call_ok any_policy) tr /\ t = run_trace (run_call sqlite_sum) ∅ tr.

Lemma reachable_ok sqlite_sum t : reachable sqlite_sum t -> table_ok t.
Proof.
  intros (tr & Hall & ->). eapply (trace_ok sqlite_sum any_policy (fun _ => True)); done.
Qed.

Lemma trace_evolves sqlite_sum t tr k r :
  table_ok t -> Forall (call_ok any_policy) tr -> t !! k = Some r ->
  exists r', run_trace (run_call sqlite_sum) t tr !! k = Some r' /\ evolves r r'.
Proof.
  intros Ht Hall Hk.
  eapply (trace_ok sqlite_sum any_policy (fun t' => exists r', t' !! k = Some r' /\ evolves r r')); try done.
  - intros t1 t2 (r1 & H1 & He1) _ Hch. destruct (change_evolves _ _ _ _ _ _ Hch H1) as (r2 & H2 & He2).
    exists r2. split; [done|]. by eapply evolves_trans.
  - exists r. split; [done|by left].
Qed.

(** A reservation is never lost and never rewritten: after any further transactions
    its row is still there and consistent, with the inputs, the usage and the decision
    recorded at admission; only an active one changes, once, to committed with a
    finite actual cost or to released with none. *)
Theorem reservations_evolve (sqlite_sum : list (option f64) -> f64) (t : table) (tr : list call)
    (k : string) (r : UsageReservation) :
  reachable sqlite_sum t -> Forall (call_ok any_policy) tr -> t !! k = Some r ->
  exists r', run_trace (run_call sqlite_sum) t tr !! k = Some r' /\
    reservation_id r' = k /\ row_reservation r' = Ok r' /\
    subject_id r' = subject_id r /\ operation r' = operation r /\
    estimated_cost r' = estimated_cost r /\ policy r' = policy r /\
    usage_day r' = usage_day r /\ usage_month r' = usage_month r /\
    decision_of r' = decision_of r /\
    (r' = r \/
     status r = "active" /\
     (status r' = "committed" /\ (exists c, actual_cost r' = Some c /\ is_finite c = true) \/
      status r' = "released" /\ actual_cost r' = None)).
Proof.
  intros Hreach Hall Hk. pose proof (reachable_ok _ _ Hreach) as Ht.
  destruct (trace_evolves sqlite_sum t tr k r Ht Hall Hk) as (r' & Hk' & Hev).
  assert (Hok : row_ok k r').
  { eapply (trace_ok sqlite_sum any_policy (fun _ => True) tr t); try done. }
  exists r'. destruct Hok as (Hid & Hr & _ & Hfin). split; [done|]. split; [done|]. split; [done|].
  destruct Hev as [->|(Hst & st & ac & at_ & Hin & ->)].
  { repeat (split; [done|]). by left. }
  cbn. repeat (split; [done|]). right. split; [done|].
  apply row_reservation_Ok in Hr as (_ & _ & Hv & _). unfold valid_state in Hv. cbn in Hv, Hfin.
  rewrite !elem_of_cons, elem_of_nil in Hin. destruct Hin as [->|[->|[]]]; [left|right]; (split; [done|]).
  - destruct ac as [c|]; [|done]. exists c. split; [done|by apply Hfin].
  - by destruct ac.
Qed.

Lemma reservations_evolve_witness :
  exists r, run_trace (run_call (fun _ => zero64)) ∅ two_runs !! "r1" = Some r /\ reservation_id r = "r1".
Proof.
  destruct (reservations_evolve (fun _ => zero64) (run_trace (run_call (fun _ => zero64)) ∅ (firstn 2 two_runs))
    (skipn 2 two_runs) "r1"
    (new_row "r1" "alice" "run" zero64 monday one_run (mkUsageSnapshot 0 0 zero64)
       (mkQuotaDecision true "allowed" "quota available" (mkUsageSnapshot 0 0 zero64) one_run)))
    as (r' & H & Hid & _).
  - exists (firstn 2 two_runs). split; [repeat constructor|reflexivity].
  - repeat constructor.
  - vm_compute. reflexivity.
  - exists r'. split; [|exact Hid]. rewrite <-H. reflexivity.
Defined.

(** *** Asking again *)

(** The arguments of [reserve] that pass its checks, and what it makes of them. *)
Record checked (s o : string) (p : QuotaPolicy) (c : number) (s0 o0 : string) (est : f64)
    (b : option Z * option Z * option f64) : Prop := {
  checked_subject : identifier s "subject_id" = Ok s0;
  checked_operation : identifier o "operation" = Ok o0;
  checked_kind : mem o0 OPERATIONS = true;
  checked_cost : cost c "estimated_cost" = Ok est;
  checked_policy : QuotaPolicy_post_init p = Ok tt;
  checked_binding : policy_binding p = Ok b;
}.

Lemma validate_policy_ok p : QuotaPolicy_post_init p = Ok tt -> validate_policy p = Ok tt.
Proof.
  destruct p as [runs msgs [n|]]; [|done]. unfold QuotaPolicy_post_init, validate_policy, cost. cbn.
  destruct (refuse_if _ _) as [[]|]; [|done]. destruct (refuse_if _ _) as [[]|]; [|done].
  destruct n as [z|f|]; cbn; [| |done].
  - destruct (f64_of_Z z) as [[]| | |[]] eqn:E; cbn; try done.
    all: destruct (z <? 0)%Z eqn:Hz; [done|]; apply Z.ltb_ge, f64_of_Z_nonneg in Hz; by rewrite E in Hz.
  - by destruct (is_finite f), (is_negative f).
Qed.

Lemma stored_binding p b : policy_binding p = Ok b -> policy_binding (stored_policy p) = Ok b.
Proof.
  destruct p as [runs msgs [[z|f|]|]]; try done. unfold policy_binding. cbn.
  by destruct (f64_of_Z z).
Qed.

Lemma reserve_found sqlite_sum rid rid0 s o p c n s0 o0 est b t r b0 :
  identifier rid "reservation_id" = Ok rid0 -> checked s o p c s0 o0 est b ->
  t !! rid0 = Some r -> row_reservation r = Ok r -> policy_binding (policy r) = Ok b0 ->
  reserve sqlite_sum rid s o p c (Ok n) t =
    (t, if bool_decide (subject_id r = s0) && bool_decide (operation r = o0)
           && SFeqb (estimated_cost r) est && same_binding b0 b
        then Ok (mkOutcome r (decision_of r) true)
        else Raise (ReservationConflictError
               "reservation id is already bound to different immutable inputs")).
Proof.
  intros Hid [Hs Ho Hk Hc Hp Hb] Hr Hrow Hb0. unfold reserve. rewrite Hid, Hs, Ho, Hc.
  run_m. rewrite Hk, (validate_policy_ok p Hp), bind_raise_if_pass by done. run_m. rewrite Hr, Hrow. run_m.
  unfold assert_binding. rewrite Hb0, Hb. cbn [obind].
  destruct (_ && _); reflexivity.
Qed.

Lemma reserve_outcome_row sqlite_sum rid s o p c now t t1 out :
  table_ok t -> QuotaPolicy_post_init p = Ok tt ->
  reserve sqlite_sum rid s o p c now t = (t1, Ok out) ->
  t1 !! py_strip rid = Some (reservation out) /\ table_ok t1 /\
  allowed (decision out) = admitted (reservation out).
Proof.
  intros Ht Hp Hrun.
  pose proof (call_change sqlite_sum any_policy t (CReserve rid s o p c now) Ht (conj Hp I)) as Hch.
  cbn [run_call] in Hch. rewrite Hrun in Hch. cbn [fst] in Hch.
  pose proof (wp_reserve sqlite_sum rid s o p c now t Ht Hp) as W. unfold wp in W. rewrite Hrun in W.
  destruct W as [(est & n & u & ev & d & _ & _ & _ & _ & _ & -> & -> & ->)|(r & est & Hr & -> & -> & _)].
  - cbn [reservation decision]. rewrite lookup_insert_eq. split; [done|]. split; [|done]. by eapply change_ok.
  - done.
Qed.

Lemma policy_binding_total p : QuotaPolicy_post_init p = Ok tt -> exists b, policy_binding p = Ok b.
Proof.
  destruct p as [runs msgs [n|]]; [|by exists (runs, msgs, None)]. unfold QuotaPolicy_post_init, policy_binding. cbn.
  destruct (refuse_if _ _) as [[]|]; [|done]. destruct (refuse_if _ _) as [[]|]; [|done].
  destruct n as [z|f|]; [| |done]; destruct (py_float _) as [f'|]; try done; intros _; by exists (runs, msgs, Some f').
Qed.

(** Reserving is idempotent, and an identifier is bound for good: after a
    reservation succeeded and any further transactions, a repeated request
    changes nothing, and returns the reservation's present row and the decision of its
    admission if it names the same subject, operation, cost and limits; otherwise
    it is refused as a conflict. *)
Theorem reserve_binds_identifier (sqlite_sum : list (option f64) -> f64) (t t1 : table)
    (rid s o : string) (p : QuotaPolicy) (c : number) (now : outcome ledger_error Now)
    (out : ReservationOutcome) (tr : list call) :
  reachable sqlite_sum t -> QuotaPolicy_post_init p = Ok tt ->
  reserve sqlite_sum rid s o p c now t = (t1, Ok out) -> Forall (call_ok any_policy) tr ->
  let t2 := run_trace (run_call sqlite_sum) t1 tr in
  exists r b0, t2 !! py_strip rid = Some r /\ evolves (reservation out) r /\
  policy_binding (policy r) = Ok b0 /\ admitted r = allowed (decision out) /\
  forall rid' s' o' p' c' n' s0 o0 est b,
    identifier rid' "reservation_id" = Ok (py_strip rid) -> checked s' o' p' c' s0 o0 est b ->
    reserve sqlite_sum rid' s' o' p' c' (Ok n') t2 =
      (t2, if bool_decide (subject_id r = s0) && bool_decide (operation r = o0)
              && SFeqb (estimated_cost r) est && same_binding b0 b
           then Ok (mkOutcome r (decision_of r) true)
           else Raise (ReservationConflictError
                  "reservation id is already bound to different immutable inputs")).
Proof.
  intros Hreach Hp Hrun Hall t2. pose proof (reachable_ok _ _ Hreach) as Ht.
  destruct (reserve_outcome_row _ _ _ _ _ _ _ _ _ _ Ht Hp Hrun) as (Hrow & Ht1 & Hadm).
  destruct (trace_evolves sqlite_sum t1 tr _ _ Ht1 Hall Hrow) as (r & Hr & Hev).
  assert (Hok : row_ok (py_strip rid) r).
  { eapply (trace_ok sqlite_sum any_policy (fun _ => True) tr t1); try done. }
  destruct Hok as (_ & Hrr & _ & _). pose proof Hrr as Hrr'.
  apply row_reservation_Ok in Hrr' as (_ & _ & _ & Hpol & _).
  destruct (policy_binding_total _ Hpol) as [b0 Hb0].
  exists r, b0. split; [done|]. split; [done|]. split; [done|]. split.
  - rewrite Hadm. by destruct Hev as [->|(_ & st & ac & at_ & _ & ->)].
  - intros. by eapply reserve_found.
Qed.

Lemma reserve_binds_identifier_witness :
  exists t r,
    fst (reserve (fun _ => zero64) " r1" "alice" "run" one_run (PInt 0) (Ok monday) t) = t /\
    snd (reserve (fun _ => zero64) " r1" "alice" "run" one_run (PInt 0) (Ok monday) t)
      = Ok (mkOutcome r (decision_of r) true) /\ status r = "committed".
Proof.
  destruct (reserve (fun _ => zero64) "r1" "alice" "run" one_run (PFloat zero64) (Ok monday) ∅)
    as [t1 [out|e]] eqn:E; [|vm_compute in E; discriminate E].
  destruct (reserve_binds_identifier (fun _ => zero64) ∅ t1 "r1" "alice" "run" one_run (PFloat zero64)
    (Ok monday) out (skipn 1 two_runs)) as (r & b0 & Hr & _ & Hb0 & _ & H).
  - exists []. split; [constructor|reflexivity].
  - reflexivity.
  - exact E.
  - repeat constructor.
  - assert (Et : t1 = fst (reserve (fun _ => zero64) "r1" "alice" "run" one_run (PFloat zero64) (Ok monday) ∅))
      by (rewrite E; reflexivity).
    exists (run_trace (run_call (fun _ => zero64)) t1 (skipn 1 two_runs)), r.
    rewrite (H " r1" "alice" "run" one_run (PInt 0) monday "alice" "run" zero64 (Some 1%Z, None, None)).
    + subst t1. vm_compute in Hr. injection Hr as <-. vm_compute in Hb0. injection Hb0 as <-.
      vm_compute. repeat split.
    + reflexivity.
    + split; reflexivity.
Defined.
