(* ===== verification/JobQueue.v ===== *)
(** * The job queue of the governed runner (packages/governed-runner, jobs.py)

    A FIFO queue in one SQLite table: producers enqueue payloads under an idempotency key,
    workers claim jobs under a lease with a deadline and finish them by its token.  The
    state is the table, in the order of its sequence numbers.  Every operation runs in a
    [BEGIN IMMEDIATE] transaction, so it is one step; a transaction that raises rolls
    back.  The clock, the random token and the generated identifier are arguments.
    Deadlines are stored and compared as texts. *)

From S2P Require Import Prelude Instants Floats Json JsonParse Sha256.

Definition JOB_FORMAT : string := "stateport.job/v1".
Definition JOB_STATES : list string := ["queued"; "leased"; "succeeded"; "failed"; "cancelled"].
Definition TERMINAL_JOB_STATES : list string := ["succeeded"; "failed"; "cancelled"].

(** [IntegrityError] is raised by a trigger or a constraint of the table; [Overflow] is
    the [OverflowError] of the number and date arithmetic, [TypeFault] a [TypeError]. *)
Inductive queue_error :=
| JobQueueError (message : string)
| JobConflictError (message : string)
| JobLeaseError (message : string)
| JobStateError (message : string)
| IntegrityError (message : string)
| Overflow
| TypeFault.

Abbreviation checked := (outcome queue_error).

(** ** Arguments *)

Definition required_string (value : json) (field : string) : checked string :=
  match value with
  | JStr s => if nonblank s then Ok (py_strip s) else Raise (JobQueueError (field +:+ " must be a non-empty string"))
  | _ => Raise (JobQueueError (field +:+ " must be a non-empty string"))
  end.

(** [_utc_timestamp] of a UTC time *)
Definition utc_timestamp (value : Z) : string := utc_text value.

Definition py_float (n : number) : checked f64 :=
  match n with
  | PInt z => check_float (f64_of_Z z) Overflow
  | PFloat f => Ok f
  | NotANumber => Raise (JobQueueError "lease_seconds must be a positive finite number")
  end.

Definition number_positive (n : number) : bool :=
  match n with PInt z => (0 <? z)%Z | PFloat f => SFltb zero64 f | NotANumber => false end.

(** The duration in microseconds. *)
Definition lease_duration (value : number) : checked Z :=
  let? f := py_float value in
  refuse_if (negb (is_finite f) || negb (number_positive value))
    (JobQueueError "lease_seconds must be a positive finite number") >>?
  match timedelta_seconds f with Some d => Ok d | None => Raise Overflow end.

(** [current + duration] *)
Definition later (current duration : Z) : checked Z :=
  let t := (current + duration)%Z in
  if (0 <=? t)%Z && (t <? LAST_INSTANT)%Z then Ok t else Raise Overflow.

(** The canonical text of an object, and what it reads back as. *)
Definition canonical_mapping (value : json) (field : string) : checked (dict * string) :=
  match value with
  | JObj d =>
      let encoded := dumps false (JObj d) in
      match loads encoded with
      | Some (JObj decoded) => Ok (decoded, encoded)
      | Some _ => Raise (JobQueueError (field +:+ " must be a JSON object"))
      | None => Raise (JobQueueError (field +:+ " must be JSON serializable"))
      end
  | _ => Raise (JobQueueError (field +:+ " must be a JSON object"))
  end.

(** ** The table *)

Record job := {
  sequence : Z;
  job_id : string;
  format_version : string;
  idempotency_key : string;
  payload_version : string;
  payload_json : string;
  payload_digest : string;
  status : string;
  created_at : string;
  updated_at : string;
  attempt_count : Z;
  lease_owner : option string;
  lease_token : option string;
  lease_expires_at : option string;
  result_json : option string;
  error_json : option string;
}.

(** The rows, and the counter behind [AUTOINCREMENT]. *)
Record database := {
  jobs : list job;
  last_sequence : Z;
}.

Definition empty_queue : database := {| jobs := []; last_sequence := 0 |}.

Abbreviation op := (M database queue_error).

(** [BEGIN IMMEDIATE] ... [commit], with [rollback] when the body raises. *)
Definition transaction {A} (body : op A) : op A :=
  fun d => match body d with
           | (d', Ok a) => (d', Ok a)
           | (_, Raise e) => (d, Raise e)
           end.

(** [SELECT * FROM jobs WHERE p ORDER BY sequence LIMIT 1] *)
Definition select_one (p : job -> bool) : op (option job) := gets (fun d => List.find p (jobs d)).

Definition has_id (id : string) (r : job) : bool := bool_decide (job_id r = id).
Definition has_sequence (n : Z) (r : job) : bool := (sequence r =? n)%Z.
Definition terminal (r : job) : bool := mem (status r) TERMINAL_JOB_STATES.

(** [UPDATE jobs SET f WHERE p], guarded by the trigger [jobs_terminal_immutable]. *)
Definition update_where (p : job -> bool) (f : job -> job) : op unit :=
  let* d := get in
  raise_if (existsb (fun r => p r && terminal r) (jobs d)) (IntegrityError "terminal jobs are immutable") >>*
  put {| jobs := (fun r => if p r then f r else r) <$> jobs d; last_sequence := last_sequence d |}.

(** [INSERT]: [job_id] and [idempotency_key] are [UNIQUE]. *)
Definition insert_job (id key version payload digest now : string) : op unit :=
  let* d := get in
  raise_if (existsb (fun r => bool_decide (job_id r = id) || bool_decide (idempotency_key r = key)) (jobs d))
    (JobConflictError "job id or idempotency key already exists") >>*
  put {| jobs := jobs d ++
           [{| sequence := last_sequence d + 1; job_id := id; format_version := JOB_FORMAT; idempotency_key := key;
               payload_version := version; payload_json := payload; payload_digest := digest; status := "queued";
               created_at := now; updated_at := now; attempt_count := 0; lease_owner := None; lease_token := None;
               lease_expires_at := None; result_json := None; error_json := None |}];
         last_sequence := last_sequence d + 1 |}.

(** ** Records handed out *)

Definition decode_json (value : option string) (field : string) : checked json :=
  match value with
  | None => Ok JNull
  | Some text =>
      match loads text with Some v => Ok v | None => Raise (JobQueueError ("stored " +:+ field +:+ " is invalid JSON")) end
  end.

Definition opt_str (o : option string) : json := match o with Some s => JStr s | None => JNull end.

Definition lease_of (r : job) : json :=
  if bool_decide (status r = "leased") then
    JObj [("owner", opt_str (lease_owner r)); ("token", opt_str (lease_token r));
          ("expiresAt", opt_str (lease_expires_at r))]
  else JNull.

Definition record (r : job) : checked dict :=
  let? payload := decode_json (Some (payload_json r)) "payload" in
  let? result := decode_json (result_json r) "result" in
  let? error := decode_json (error_json r) "error" in
  Ok [("formatVersion", JStr (format_version r)); ("sequence", JInt (sequence r)); ("jobId", JStr (job_id r));
      ("idempotencyKey", JStr (idempotency_key r)); ("payloadVersion", JStr (payload_version r)); ("payload", payload);
      ("payloadDigest", JStr (payload_digest r)); ("status", JStr (status r)); ("createdAt", JStr (created_at r));
      ("updatedAt", JStr (updated_at r)); ("attemptCount", JInt (attempt_count r)); ("lease", lease_of r);
      ("result", result); ("error", error)].

(** [_record] of what a statement read: [None] has no columns. *)
Definition record_row (row : option job) : checked dict :=
  match row with Some r => record r | None => Raise TypeFault end.

(** ** Operations *)

Definition digest_of (text : string) : string := "sha256:" +:+ sha256_hex (encode text).

Definition enqueue (key : json) (payload : json) (requested : option json) (token : string)
    (clock : checked Z) : op dict :=
  let* key := lift (required_string key "idempotency_key") in
  let* '(normalized, text) := lift (canonical_mapping payload "payload") in
  let* version := lift (required_string (key_json "formatVersion" normalized) "payload.formatVersion") in
  let digest := digest_of text in
  let* requested := lift match requested with
                         | Some v => let? id := required_string v "job_id" in Ok (Some id)
                         | None => Ok None
                         end in
  let id := match requested with Some id => id | None => "job:" +:+ token end in
  let* now := lift clock in
  let* row := transaction (
    let* existing := select_one (fun r => bool_decide (idempotency_key r = key)) in
    match existing with
    | Some r =>
        raise_if (negb (bool_decide (payload_digest r = digest)))
          (JobConflictError "idempotency key is bound to a different payload") >>*
        raise_if match requested with Some id => negb (bool_decide (job_id r = id)) | None => false end
          (JobConflictError "idempotency key is bound to a different job id") >>*
        ret (Some r)
    | None =>
        insert_job id key version text digest (utc_timestamp now) >>*
        select_one (has_id id)
    end) in
  lift (record_row row).

Definition past_deadline (now : string) (r : job) : bool :=
  match lease_expires_at r with Some t => String.leb t now | None => false end.

(** [status = 'queued' OR (status = 'leased' AND lease_expires_at <= now)] *)
Definition claimable (now : string) (r : job) : bool :=
  bool_decide (status r = "queued") || (bool_decide (status r = "leased") && past_deadline now r).

Definition set_lease (now owner token expires : string) (r : job) : job :=
  {| sequence := sequence r; job_id := job_id r; format_version := format_version r;
     idempotency_key := idempotency_key r; payload_version := payload_version r; payload_json := payload_json r;
     payload_digest := payload_digest r; status := "leased"; created_at := created_at r; updated_at := now;
     attempt_count := attempt_count r + 1; lease_owner := Some owner; lease_token := Some token;
     lease_expires_at := Some expires; result_json := None; error_json := None |}.

Definition claim (worker : json) (seconds : number) (token : string) (clock : checked Z) : op (option dict) :=
  let* owner := lift (required_string worker "worker_id") in
  let* duration := lift (lease_duration seconds) in
  let* current := lift clock in
  let now := utc_timestamp current in
  let* until := lift (later current duration) in
  let* row := transaction (
    let* candidate := select_one (claimable now) in
    match candidate with
    | None => ret None
    | Some r =>
        update_where (has_sequence (sequence r)) (set_lease now owner token (utc_timestamp until)) >>*
        let* row := select_one (has_sequence (sequence r)) in
        ret (Some row)
    end) in
  match row with
  | None => ret None
  | Some row => let* v := lift (record_row row) in ret (Some v)
  end.

Definition leased_for_update (id token now : string) : op job :=
  let* row := select_one (has_id id) in
  match row with
  | None => raise (JobStateError "job was not found")
  | Some r =>
      raise_if (terminal r) (JobStateError "terminal jobs are immutable") >>*
      raise_if (negb (bool_decide (status r = "leased"))) (JobLeaseError "job is not leased") >>*
      raise_if (negb (bool_decide (lease_token r = Some token))) (JobLeaseError "lease token does not match") >>*
      raise_if match lease_expires_at r with Some t => String.leb t now | None => true end
        (JobLeaseError "job lease has expired") >>*
      ret r
  end.

(** The body that [heartbeat], [complete], [fail] and [requeue] share: check the lease,
    write, read back. *)
Definition on_lease (id token now : string) (f : job -> job) : op (option job) :=
  transaction (
    leased_for_update id token now >>*
    update_where (has_id id) f >>*
    select_one (has_id id)).

Definition extend_lease (now expires : string) (r : job) : job :=
  {| sequence := sequence r; job_id := job_id r; format_version := format_version r;
     idempotency_key := idempotency_key r; payload_version := payload_version r; payload_json := payload_json r;
     payload_digest := payload_digest r; status := status r; created_at := created_at r; updated_at := now;
     attempt_count := attempt_count r; lease_owner := lease_owner r; lease_token := lease_token r;
     lease_expires_at := Some expires; result_json := result_json r; error_json := error_json r |}.

(** Leave the lease for another status. *)
Definition end_lease (to now : string) (result error : option string) (r : job) : job :=
  {| sequence := sequence r; job_id := job_id r; format_version := format_version r;
     idempotency_key := idempotency_key r; payload_version := payload_version r; payload_json := payload_json r;
     payload_digest := payload_digest r; status := to; created_at := created_at r; updated_at := now;
     attempt_count := attempt_count r; lease_owner := None; lease_token := None;
     lease_expires_at := None; result_json := result; error_json := error |}.

Definition heartbeat (id token : json) (seconds : number) (clock : checked Z) : op dict :=
  let* identifier := lift (required_string id "job_id") in
  let* credential := lift (required_string token "lease_token") in
  let* duration := lift (lease_duration seconds) in
  let* current := lift clock in
  let now := utc_timestamp current in
  let* until := lift (later current duration) in
  let* row := on_lease identifier credential now (extend_lease now (utc_timestamp until)) in
  lift (record_row row).

(** The texts of a result and of an error; [JNull] is [None]. *)
Definition result_text (result : json) : checked (option string) :=
  match result with
  | JNull => Ok None
  | _ => let? p := canonical_mapping result "result" in Ok (Some (snd p))
  end.

Definition error_text (error : json) : checked (option string) :=
  match error with
  | JNull => Ok None
  | JStr message => Ok (Some (dumps false (JObj [("message", JStr message)])))
  | _ => let? p := canonical_mapping error "error" in Ok (Some (snd p))
  end.

Definition finish (id token : json) (to : string) (result error : json) (clock : checked Z) : op dict :=
  let* identifier := lift (required_string id "job_id") in
  let* credential := lift (required_string token "lease_token") in
  raise_if (negb (mem to ["succeeded"; "failed"])) (JobStateError "finish status must be succeeded or failed") >>*
  let* result_json := lift (result_text result) in
  let* error_json := lift (error_text error) in
  let* now := lift clock in
  let now := utc_timestamp now in
  let* row := on_lease identifier credential now (end_lease to now result_json error_json) in
  lift (record_row row).

Definition complete (id token result : json) (clock : checked Z) : op dict :=
  finish id token "succeeded" result JNull clock.

Definition fail (id token error : json) (clock : checked Z) : op dict :=
  finish id token "failed" JNull error clock.

Definition reason_text (reason : string) : string := dumps false (JObj [("reason", JStr reason)]).

Definition reason_of (reason : json) : checked string :=
  match reason with JStr s => Ok s | _ => Raise (JobQueueError "reason must be a string") end.

Definition cancel (id reason : json) (clock : checked Z) : op dict :=
  let* identifier := lift (required_string id "job_id") in
  let* reason := lift (reason_of reason) in
  let* now := lift clock in
  let now := utc_timestamp now in
  let* row := transaction (
    let* current := select_one (has_id identifier) in
    match current with
    | None => raise (JobStateError "job was not found")
    | Some r =>
        raise_if (terminal r) (JobStateError "terminal jobs are immutable") >>*
        update_where (has_id identifier)
          (fun r => end_lease "cancelled" now (result_json r) (Some (reason_text reason)) r) >>*
        select_one (has_id identifier)
    end) in
  lift (record_row row).

Definition requeue (id token reason : json) (clock : checked Z) : op dict :=
  let* identifier := lift (required_string id "job_id") in
  let* credential := lift (required_string token "lease_token") in
  let* reason := lift (reason_of reason) in
  let error := if bool_decide (reason = "") then None else Some (reason_text reason) in
  let* now := lift clock in
  let now := utc_timestamp now in
  let* row := on_lease identifier credential now (end_lease "queued" now None error) in
  lift (record_row row).

Definition get_job (id : json) : op (option dict) :=
  let* identifier := lift (required_string id "job_id") in
  let* row := select_one (has_id identifier) in
  match row with
  | None => ret None
  | Some r => let* v := lift (record r) in ret (Some v)
  end.

Fixpoint records (l : list job) : checked (list dict) :=
  match l with
  | [] => Ok []
  | r :: l => let? v := record r in let? vs := records l in Ok (v :: vs)
  end.

Definition list_jobs (wanted : option string) : op (list dict) :=
  raise_if match wanted with Some s => negb (mem s JOB_STATES) | None => false end
    (JobQueueError "status is not a recognized job state") >>*
  let* d := get in
  lift (records (match wanted with
                 | Some s => List.filter (fun r => bool_decide (status r = s)) (jobs d)
                 | None => jobs d
                 end)).

(** ** Rows *)

(** A text that the queue wrote: the canonical text of an object. *)
Definition canonical_text (text : string) : Prop := exists d, wf_json (JObj d) /\ text = dumps false (JObj d).

(** A row is leased exactly when it names an owner, a token and a deadline. *)
Definition lease_ok (r : job) : Prop :=
  if bool_decide (status r = "leased")
  then is_Some (lease_owner r) /\ is_Some (lease_token r) /\
       exists t, instant t /\ lease_expires_at r = Some (utc_text t)
  else lease_owner r = None /\ lease_token r = None /\ lease_expires_at r = None.

Record row_ok (r : job) : Prop := {
  row_status : status r ∈ JOB_STATES;
  row_lease : lease_ok r;
  row_payload : canonical_text (payload_json r);
  row_digest : payload_digest r = digest_of (payload_json r);
  row_result : forall t, result_json r = Some t -> canonical_text t;
  row_error : forall t, error_json r = Some t -> canonical_text t;
}.

(** Sequence numbers increase along the table; identifiers and keys are distinct. *)
Record db_ok (d : database) : Prop := {
  db_rows : Forall row_ok (jobs d);
  db_ordered : StronglySorted Z.lt (sequence <$> jobs d);
  db_counter : Forall (fun r => (sequence r <= last_sequence d)%Z) (jobs d);
  db_ids : NoDup (job_id <$> jobs d);
  db_keys : NoDup (idempotency_key <$> jobs d);
}.

Lemma canonical_loads text : canonical_text text -> exists d, text = dumps false (JObj d) /\ loads text = Some (norm (JObj d)).
Proof.
  intros (d & Hw & ->). exists d. split; [done|]. rewrite <-(str_app_nil_r (dumps false (JObj d))). by apply loads_dumps.
Qed.

Lemma canonical_decodes o field : (forall t, o = Some t -> canonical_text t) -> exists v, decode_json o field = Ok v.
Proof.
  intros H. destruct o as [t|]; [|by exists JNull]. destruct (canonical_loads t (H t eq_refl)) as (d & _ & E).
  exists (norm (JObj d)). cbn [decode_json]. by rewrite E.
Qed.

(** The stored payload is the one that was handed in, up to the order of keys. *)
Lemma record_total r : row_ok r -> exists d v, record r = Ok v /\ payload_json r = dumps false (JObj d) /\
  key_json "payload" v = norm (JObj d) /\ key_json "jobId" v = JStr (job_id r) /\
  key_json "status" v = JStr (status r) /\ key_json "sequence" v = JInt (sequence r) /\
  key_json "attemptCount" v = JInt (attempt_count r) /\ key_json "lease" v = lease_of r.
Proof.
  intros H. destruct (canonical_loads _ (row_payload r H)) as (d & Ep & El).
  destruct (canonical_decodes (result_json r) "result" (row_result r H)) as (v1 & E1).
  destruct (canonical_decodes (error_json r) "error" (row_error r H)) as (v2 & E2).
  unfold record. rewrite E1, E2. cbn [decode_json]. rewrite El. cbn [obind]. do 2 eexists. split; [reflexivity|]. done.
Qed.

Lemma canonical_mapping_Ok v field d text : wf_json v -> canonical_mapping v field = Ok (d, text) ->
  canonical_text text /\ exists d0, v = JObj d0 /\ text = dumps false (JObj d0) /\ JObj d = norm (JObj d0).
Proof.
  destruct v as [| | | | |d0]; try done. intros Hw. unfold canonical_mapping. cbv zeta.
  destruct (canonical_loads (dumps false (JObj d0)) (ex_intro _ d0 (conj Hw eq_refl))) as (d1 & E & L).
  rewrite L. rewrite norm_obj. intros [= <- <-]. split; [by exists d0|]. exists d0. split; [done|]. split; [done|].
  rewrite <-norm_obj. symmetry. by apply dumps_inj in E.
Qed.

(** ** Statements *)

(** [p] holds of one row, the [i]-th. *)
Definition picks (p : job -> bool) (d : database) (i : nat) (r : job) : Prop :=
  jobs d !! i = Some r /\ p r = true /\ forall j x, jobs d !! j = Some x -> p x = true -> j = i.

Definition replace (d : database) (i : nat) (r : job) : database :=
  {| jobs := <[i := r]> (jobs d); last_sequence := last_sequence d |}.

(** The first row that satisfies [p]. *)
Definition first_row (p : job -> bool) (d : database) (i : nat) (r : job) : Prop :=
  jobs d !! i = Some r /\ p r = true /\ forall j x, j < i -> jobs d !! j = Some x -> p x = false.

Lemma find_first (p : job -> bool) l r : List.find p l = Some r ->
  exists i, l !! i = Some r /\ p r = true /\ forall j x, j < i -> l !! j = Some x -> p x = false.
Proof.
  induction l as [|x l IH]; [done|]. cbn [List.find]. destruct (p x) eqn:E.
  - intros [= ->]. exists 0. split; [done|]. split; [done|]. lia.
  - intros (i & Hi & Hp & Hlt)%IH. exists (S i). split; [done|]. split; [done|].
    intros [|j] y Hj Hy; [by injection Hy as <-|]. apply (Hlt j); [lia|done].
Qed.

Lemma find_absent (p : job -> bool) l : List.find p l = None -> forall j x, l !! j = Some x -> p x = false.
Proof.
  intros H j x Hx. apply (find_none _ _ H). apply list_elem_of_In. by eapply list_elem_of_lookup_2.
Qed.

Lemma picks_find p d i r : picks p d i r -> List.find p (jobs d) = Some r.
Proof.
  intros (Hi & Hp & Hu). destruct (List.find p (jobs d)) as [x|] eqn:E.
  - apply find_first in E as (j & Hj & Hpx & _). rewrite (Hu j x Hj Hpx) in Hj. congruence.
  - pose proof (find_absent _ _ E i r Hi). congruence.
Qed.

Lemma unique_field {A} (field : job -> A) (l : list job) i j x y :
  NoDup (field <$> l) -> l !! i = Some x -> l !! j = Some y -> field x = field y -> i = j.
Proof.
  intros Hn Hx Hy E. apply (NoDup_lookup _ _ _ (field x) Hn).
  - by rewrite list_lookup_fmap, Hx.
  - by rewrite list_lookup_fmap, Hy, E.
Qed.

Lemma has_id_true id r : has_id id r = true <-> job_id r = id.
Proof. apply bool_decide_eq_true. Qed.

Lemma picks_id d i r : db_ok d -> jobs d !! i = Some r -> picks (has_id (job_id r)) d i r.
Proof.
  intros Hd Hi. split; [done|]. split; [by apply has_id_true|]. intros j x Hx Hid%has_id_true.
  by eapply (unique_field job_id (jobs d) j i x r (db_ids d Hd)).
Qed.

Lemma increasing_NoDup (l : list Z) : StronglySorted Z.lt l -> NoDup l.
Proof.
  induction 1 as [|x l Hs IH Hall]; constructor; [|done]. intros Hx.
  rewrite Forall_forall in Hall. pose proof (Hall x Hx). lia.
Qed.

Lemma picks_sequence d i r : db_ok d -> jobs d !! i = Some r -> picks (has_sequence (sequence r)) d i r.
Proof.
  intros Hd Hi. split; [done|]. split; [apply Z.eqb_refl|]. intros j x Hx Hs%Z.eqb_eq.
  by eapply (unique_field sequence (jobs d) j i x r (increasing_NoDup _ (db_ordered d Hd))).
Qed.

Lemma map_picks (p : job -> bool) (f : job -> job) (l : list job) (i : nat) r :
  l !! i = Some r -> p r = true -> (forall j x, l !! j = Some x -> p x = true -> j = i) ->
  (fun x => if p x then f x else x) <$> l = <[i := f r]> l.
Proof.
  intros Hi Hp Hu. apply list_eq. intros j. rewrite list_lookup_fmap.
  destruct (decide (j = i)) as [->|Hne].
  - rewrite list_lookup_insert_eq by (by eapply lookup_lt_Some). by rewrite Hi; cbn; rewrite Hp.
  - rewrite list_lookup_insert_ne by done. destruct (l !! j) as [x|] eqn:E; [|done]. cbn.
    destruct (p x) eqn:Ep; [|done]. by destruct Hne; eapply Hu.
Qed.

Lemma run_update p f d i r : picks p d i r -> terminal r = false ->
  update_where p f d = (replace d i (f r), Ok tt).
Proof.
  intros (Hi & Hp & Hu) Ht. unfold update_where. rewrite bind_get, bind_raise_if_pass.
  - unfold put, replace. by rewrite (map_picks p f _ i r).
  - apply existsb_false. intros x Hx. apply list_elem_of_lookup in Hx as [j Hj].
    destruct (p x) eqn:Ep; [|done]. rewrite (Hu j x Hj Ep) in Hj. cbn. congruence.
Qed.

Lemma picks_replace p d i r r' : picks p d i r -> p r' = true -> picks p (replace d i r') i r'.
Proof.
  intros (Hi & _ & Hu) Hp. unfold picks, replace. cbn [jobs].
  rewrite list_lookup_insert_eq by (by eapply lookup_lt_Some). split; [done|]. split; [done|].
  intros j x Hx Hpx. destruct (decide (j = i)) as [->|Hne]; [done|].
  rewrite list_lookup_insert_ne in Hx by done. by eapply Hu.
Qed.

(** Write one row and read it back. *)
Lemma run_update_select p f d i r : picks p d i r -> terminal r = false -> p (f r) = true ->
  (update_where p f >>* select_one p) d = (replace d i (f r), Ok (Some (f r))).
Proof.
  intros Hp Ht Hf. rewrite (bind_run _ _ _ _ _ (run_update p f d i r Hp Ht)).
  unfold select_one, gets. by rewrite (picks_find _ _ _ _ (picks_replace _ _ _ _ _ Hp Hf)).
Qed.

Lemma wp_transaction {A} (body : op A) Q (R : queue_error -> database -> Prop) d :
  wp body Q (fun e _ => R e d) d -> wp (transaction body) Q R d.
Proof. unfold wp, transaction. by destruct (body d) as [d' [a|e]]. Qed.

(** ** Rows after each step *)

Lemma mem_states s : mem s JOB_STATES = true -> s ∈ JOB_STATES.
Proof. apply mem_true. Qed.

Lemma set_lease_ok now owner token t r : row_ok r -> instant t -> row_ok (set_lease now owner token (utc_text t) r).
Proof.
  intros [H1 H2 H3 H4 H5 H6] Ht. split; cbn; try done.
  - by apply mem_states.
  - unfold lease_ok. cbn. split_and!; [by eexists|by eexists|by exists t].
Qed.

Lemma extend_lease_ok now t r : row_ok r -> status r = "leased" -> instant t -> row_ok (extend_lease now (utc_text t) r).
Proof.
  intros [H1 H2 H3 H4 H5 H6] Hs Ht. split; try done.
  unfold lease_ok in *. cbn. rewrite Hs in *. cbn in H2 |- *. destruct H2 as (? & ? & _).
  split_and!; [done|done|by exists t].
Qed.

Lemma end_lease_ok to now result error r : row_ok r -> to ∈ JOB_STATES -> to <> "leased" ->
  (forall t, result = Some t -> canonical_text t) -> (forall t, error = Some t -> canonical_text t) ->
  row_ok (end_lease to now result error r).
Proof.
  intros [H1 H2 H3 H4 H5 H6] Ht Hl Hr He. split; try done.
  unfold lease_ok. cbn. by rewrite bool_decide_eq_false_2.
Qed.

(** Steps keep what identifies a job and what it carries. *)
Definition same_job (r r' : job) : Prop :=
  sequence r' = sequence r /\ job_id r' = job_id r /\ format_version r' = format_version r /\
  idempotency_key r' = idempotency_key r /\ payload_version r' = payload_version r /\
  payload_json r' = payload_json r /\ payload_digest r' = payload_digest r /\ created_at r' = created_at r.

#[export] Instance same_job_preorder : PreOrder same_job.
Proof.
  split; [done|]. intros r1 r2 r3 (? & ? & ? & ? & ? & ? & ? & ?) (? & ? & ? & ? & ? & ? & ? & ?).
  split_and!; congruence.
Qed.

Lemma fmap_replace {A} (field : job -> A) d (i : nat) r r' : jobs d !! i = Some r -> field r' = field r ->
  field <$> jobs (replace d i r') = field <$> jobs d.
Proof.
  intros Hi E. unfold replace. cbn [jobs]. rewrite list_fmap_insert, E. apply list_insert_id.
  by rewrite list_lookup_fmap, Hi.
Qed.

Lemma replace_ok d i r r' : db_ok d -> jobs d !! i = Some r -> same_job r r' -> row_ok r' -> db_ok (replace d i r').
Proof.
  intros [H1 H2 H3 H4 H5] Hi (Hs & Hid & _ & Hk & _) Hok.
  split; try (rewrite (fmap_replace _ d i r r') by done; done); cbn.
  - by apply Forall_insert.
  - apply Forall_insert; [done|]. rewrite Hs. by eapply (Forall_lookup_1 _ _ _ _ H3).
Qed.

Definition append (d : database) (r : job) : database :=
  {| jobs := jobs d ++ [r]; last_sequence := last_sequence d + 1 |}.

Lemma sorted_snoc (l : list Z) z : StronglySorted Z.lt l -> Forall (fun x => (x < z)%Z) l -> StronglySorted Z.lt (l ++ [z]).
Proof.
  induction 1 as [|x l Hs IH Hall]; intros Hz; [repeat constructor|].
  apply Forall_cons in Hz as [Hx Hz]. cbn. constructor; [by apply IH|]. apply Forall_app. by split; [|constructor].
Qed.

Lemma append_ok d r : db_ok d -> row_ok r -> sequence r = (last_sequence d + 1)%Z ->
  job_id r ∉ job_id <$> jobs d -> idempotency_key r ∉ idempotency_key <$> jobs d -> db_ok (append d r).
Proof.
  intros [H1 H2 H3 H4 H5] Hok Hs Hid Hk. unfold append. split; cbn.
  - apply Forall_app. by split; [|constructor].
  - rewrite fmap_app. apply sorted_snoc; [done|]. apply Forall_fmap. rewrite Hs.
    eapply Forall_impl; [exact H3|]. cbn. intros. lia.
  - apply Forall_app. split; [eapply Forall_impl; [exact H3|]; cbn; intros; lia|]. constructor; [lia|constructor].
  - rewrite fmap_app. apply NoDup_app. split; [done|]. split; [|apply NoDup_singleton].
    intros x Hx ->%list_elem_of_singleton. done.
  - rewrite fmap_app. apply NoDup_app. split; [done|]. split; [|apply NoDup_singleton].
    intros x Hx ->%list_elem_of_singleton. done.
Qed.

(** ** What the operations do *)

Lemma required_string_Ok v field s : required_string v field = Ok s -> exists t, v = JStr t /\ nonblank t = true /\ s = py_strip t.
Proof. unfold required_string. destruct v; try done. destruct (nonblank s0) eqn:E; [|done]. intros [= <-]. eauto. Qed.

Lemma later_Ok t d u : later t d = Ok u -> u = (t + d)%Z /\ instant u.
Proof.
  unfold later. cbv zeta. destruct (_ && _) eqn:E; [|done]. intros [= <-]. split_bool. done.
Qed.

(** The call names a live lease: the row it holds. *)
Definition holds_lease (d : database) (id token now : string) (i : nat) (r : job) : Prop :=
  picks (has_id id) d i r /\ status r = "leased" /\ lease_token r = Some token /\
  exists t, lease_expires_at r = Some t /\ String.leb t now = false.

Lemma wp_leased d id token now : db_ok d ->
  wp (leased_for_update id token now) (fun r d' => d' = d /\ exists i, holds_lease d id token now i r)
    (fun _ d' => d' = d) d.
Proof.
  intros Hd. unfold leased_for_update. wp_step. unfold select_one. wp_step.
  destruct (List.find (has_id id) (jobs d)) as [r|] eqn:E; [|by wp_step].
  apply find_first in E as (i & Hi & Hp & _).
  repeat (wp_step; try done). split; [done|]. exists i. split_bool.
  split; [|split; [done|split; [done|]]].
  - apply has_id_true in Hp. subst id. by apply picks_id.
  - destruct (lease_expires_at r) as [t|]; [|done]. eauto.
Qed.

Lemma leased_not_terminal r : status r = "leased" -> terminal r = false.
Proof. intros H. unfold terminal. by rewrite H. Qed.

Lemma wp_on_lease d id token now f : db_ok d -> (forall r, job_id (f r) = job_id r) ->
  wp (on_lease id token now f)
    (fun row d' => exists i r, holds_lease d id token now i r /\ d' = replace d i (f r) /\ row = Some (f r))
    (fun _ d' => d' = d) d.
Proof.
  intros Hd Hf. unfold on_lease. apply wp_transaction. wp_step.
  eapply wp_mono; [by apply wp_leased| |done]. intros r d' (-> & i & Hh).
  unfold wp. destruct Hh as (Hp & Hs & Ht & Hx). rewrite (run_update_select _ f d i r).
  - exists i, r. by split_and!.
  - done.
  - by apply leased_not_terminal.
  - apply has_id_true. rewrite Hf. apply has_id_true. apply Hp.
Qed.

Lemma record_row_total r : row_ok r -> exists v, record_row (Some r) = Ok v /\ record r = Ok v.
Proof. intros H. destruct (record_total r H) as (d & v & E & _). by exists v. Qed.

(** The row of a job just accepted. *)
Definition new_job (n : Z) (id key version text now : string) : job :=
  {| sequence := n; job_id := id; format_version := JOB_FORMAT; idempotency_key := key; payload_version := version;
     payload_json := text; payload_digest := digest_of text; status := "queued"; created_at := now; updated_at := now;
     attempt_count := 0; lease_owner := None; lease_token := None; lease_expires_at := None; result_json := None;
     error_json := None |}.

Lemma new_job_ok n id key version text now : canonical_text text -> row_ok (new_job n id key version text now).
Proof. intros H. split; try done. by apply mem_states. Qed.

(** The job that an enqueued payload is bound to. *)
Definition bound_job (d : database) (key text : string) (r : job) : Prop :=
  (exists i, jobs d !! i = Some r) /\ idempotency_key r = key /\ payload_digest r = digest_of text.

Definition fresh_job (d : database) (key text : string) (d' : database) (r : job) : Prop :=
  exists id version now, r = new_job (last_sequence d + 1) id key version text now /\
  id ∉ job_id <$> jobs d /\ key ∉ idempotency_key <$> jobs d /\ d' = append d r.

Lemma absent_field {A} `{!EqDecision A} (field : job -> A) (l : list job) a :
  (forall r, r ∈ l -> field r <> a) -> a ∉ field <$> l.
Proof. intros H Ha. apply list_elem_of_fmap in Ha as (r & -> & Hr). by apply (H r). Qed.

Lemma wp_insert d id key version text now :
  wp (insert_job id key version text (digest_of text) now)
    (fun _ d' => d' = append d (new_job (last_sequence d + 1) id key version text now) /\
       id ∉ job_id <$> jobs d /\ key ∉ idempotency_key <$> jobs d)
    (fun _ d' => d' = d) d.
Proof.
  unfold insert_job. wp_step. wp_step. wp_step. wp_step; [done|]. wp_step.
  match goal with H : existsb _ _ = false |- _ => rewrite existsb_false in H; rename H into Hx end.
  split_and!; [done|apply absent_field..]; intros r Hr; specialize (Hx r Hr); split_bool; done.
Qed.

Lemma find_appended d r : job_id r ∉ job_id <$> jobs d -> List.find (has_id (job_id r)) (jobs d ++ [r]) = Some r.
Proof.
  intros Hid. induction (jobs d) as [|x l IH]; cbn.
  - unfold has_id. by rewrite bool_decide_eq_true_2.
  - apply not_elem_of_cons in Hid as [Hne Hid]. unfold has_id at 1. rewrite bool_decide_eq_false_2 by done. by apply IH.
Qed.

Lemma wp_enqueue d key payload requested token clock : db_ok d -> wf_json payload ->
  wp (enqueue key payload requested token clock)
    (fun v d' => exists k p r, key = JStr k /\ payload = JObj p /\ record r = Ok v /\
       ((d' = d /\ bound_job d (py_strip k) (dumps false payload) r) \/
        fresh_job d (py_strip k) (dumps false payload) d' r))
    (fun _ d' => d' = d) d.
Proof.
  intros Hd Hw. unfold enqueue. wp_step. wp_step; [|done].
  match goal with H : required_string key _ = Ok _ |- _ => apply required_string_Ok in H as (k & -> & _ & ->) end.
  wp_step. wp_step; [|done]. destruct a as [normalized text].
  match goal with H : canonical_mapping payload _ = Ok _ |- _ =>
    destruct (canonical_mapping_Ok _ _ _ _ Hw H) as (Ht & p & -> & -> & _) end.
  do 6 (wp_step; try done). wp_step. apply wp_transaction. wp_step. unfold select_one. wp_step.
  destruct (List.find _ (jobs d)) as [r|] eqn:E.
  - apply find_first in E as (i & Hi & Hk & _).
    do 4 (wp_step; try done). wp_step.
    destruct (record_row_total r) as (v & E1 & E2); [by eapply (Forall_lookup_1 _ _ _ _ (db_rows d Hd))|].
    rewrite E1. eexists k, p, r. split_and!; try done. left. split; [done|]. split_bool. split; [by exists i|done].
  - wp_step. eapply wp_mono; [apply wp_insert| |done]. cbn beta. intros [] d' (-> & Hid & Hk).
    match type of Hid with ?x ∉ _ => set (id := x) in * end. wp_step. unfold append at 1. cbn [jobs].
    match goal with |- context [jobs d ++ [?x]] => set (r := x) end.
    change (has_id id) with (has_id (job_id r)). rewrite find_appended by done.
    destruct (record_row_total r (new_job_ok _ _ _ _ _ _ Ht)) as (v & E1 & E2). rewrite E1.
    exists k, p, r. split_and!; try done. right. eexists id, _, _. split_and!; done.
Qed.

Lemma wp_claim d worker seconds token clock : db_ok d ->
  wp (claim worker seconds token clock)
    (fun o d' => exists now, clock = Ok now /\
       match o with
       | None => d' = d /\ forall i r, jobs d !! i = Some r -> claimable (utc_text now) r = false
       | Some v => exists i r owner t, first_row (claimable (utc_text now)) d i r /\ instant t /\
           d' = replace d i (set_lease (utc_text now) owner token (utc_text t) r) /\
           record (set_lease (utc_text now) owner token (utc_text t) r) = Ok v /\
           exists duration, lease_duration seconds = Ok duration /\ t = (now + duration)%Z
       end)
    (fun _ d' => d' = d) d.
Proof.
  intros Hd. unfold claim. do 8 (wp_step; try done). cbv zeta.
  match goal with H : later ?c ?dur = Ok ?t |- _ => apply later_Ok in H as [-> Ht]; rename c into now end.
  unfold utc_timestamp in *. wp_step. apply wp_transaction. wp_step. unfold select_one. wp_step.
  destruct (List.find _ (jobs d)) as [r|] eqn:E.
  2: { do 2 wp_step. exists now. split; [done|]. split; [done|]. intros i r. by eapply find_absent. }
  apply find_first in E as (i & Hi & Hc & Hlt).
  match goal with |- context [update_where _ ?g] => set (f := g) end.
  assert (Hok : row_ok (f r)) by (apply set_lease_ok; [by eapply (Forall_lookup_1 _ _ _ _ (db_rows d Hd))|done]).
  pose proof (picks_sequence d i r Hd Hi) as Hp.
  wp_step. unfold wp at 1. rewrite (run_update _ f d i r Hp).
  2: { unfold claimable in Hc. unfold terminal. destruct (bool_decide (status r = "queued")) eqn:Eq.
       - apply bool_decide_eq_true in Eq. by rewrite Eq.
       - cbn in Hc. split_bool. by apply leased_not_terminal. }
  wp_step. unfold select_one. wp_step.
  rewrite (picks_find _ _ i (f r)) by (by apply picks_replace with (r := r); [|apply Hp]). wp_step.
  destruct (record_row_total _ Hok) as (v & E1 & E2). wp_step. rewrite E1. wp_step; [|done]. wp_step.
  match goal with H : Ok v = Ok _ |- _ => injection H as <- end.
  exists now. split; [done|]. eexists i, r, _, _. split_and!; try done. eexists. by split.
Qed.

Lemma record_replaced d i r f : db_ok d -> jobs d !! i = Some r -> row_ok (f r) ->
  forall (Q : dict -> database -> Prop) (R : queue_error -> database -> Prop),
  (forall v, record (f r) = Ok v -> Q v (replace d i (f r))) ->
  wp (lift (record_row (Some (f r)))) Q R (replace d i (f r)).
Proof. intros Hd Hi Hok Q R H. destruct (record_row_total _ Hok) as (v & E1 & E2). unfold wp, lift. rewrite E1. by apply H. Qed.

(** What a call under a lease does: it held the lease at [now], and rewrote the row. *)
Definition under_lease (d : database) (id token : json) (clock : checked Z) (f : string -> job -> job)
    (v : dict) (d' : database) : Prop :=
  exists id0 token0 now i r, id = JStr id0 /\ token = JStr token0 /\ clock = Ok now /\
    holds_lease d (py_strip id0) (py_strip token0) (utc_text now) i r /\
    d' = replace d i (f (utc_text now) r) /\ record (f (utc_text now) r) = Ok v.

Lemma wp_heartbeat d id token seconds clock : db_ok d ->
  wp (heartbeat id token seconds clock)
    (fun v d' => exists t, instant t /\ under_lease d id token clock (fun now => extend_lease now (utc_text t)) v d')
    (fun _ d' => d' = d) d.
Proof.
  intros Hd. unfold heartbeat. do 10 (wp_step; try done). cbv zeta.
  repeat match goal with H : required_string _ _ = Ok _ |- _ => apply required_string_Ok in H as (? & -> & _ & ->) end.
  match goal with H : later ?c ?dur = Ok ?t |- _ => apply later_Ok in H as [-> Ht] end.
  unfold utc_timestamp in *. wp_step. eapply wp_mono; [by apply wp_on_lease| |done].
  cbn beta. intros row d' (i & r & Hh & -> & ->).
  pose proof Hh as ((Hi & _ & _) & Hs & _).
  apply record_replaced; [done|done| |].
  - apply extend_lease_ok; [by eapply (Forall_lookup_1 _ _ _ _ (db_rows d Hd))|done|done].
  - intros v E. eexists. split; [exact Ht|]. do 5 eexists. split_and!; done.
Qed.

Lemma mapping_text v field t : wf_json v ->
  (let? p := canonical_mapping v field in Ok (Some (snd p))) = Ok (Some t) -> canonical_text t.
Proof.
  intros Hw H. apply obind_Ok in H as ([d text] & E & H). apply canonical_mapping_Ok in E as [Ht _]; [|done].
  by injection H as <-.
Qed.

Lemma result_text_Ok v o t : wf_json v -> result_text v = Ok o -> o = Some t -> canonical_text t.
Proof. intros Hw H ->. destruct v; try done; exact (mapping_text _ _ _ Hw H). Qed.

Lemma error_text_Ok v o t : wf_json v -> error_text v = Ok o -> o = Some t -> canonical_text t.
Proof.
  intros Hw H ->. destruct v; try done; [|exact (mapping_text _ _ _ Hw H)].
  unfold error_text in H. injection H as <-. exists [("message", JStr s)]. split; [|done]. by apply wf_jsonb_wf.
Qed.

Lemma finish_status to : to ∈ ["succeeded"; "failed"] -> to ∈ JOB_STATES /\ to <> "leased".
Proof.
  intros H. rewrite !elem_of_cons, elem_of_nil in H. destruct H as [->|[->|[]]]; (split; [by apply mem_states|done]).
Qed.

Lemma wp_finish d id token to result error clock : db_ok d -> wf_json result -> wf_json error ->
  wp (finish id token to result error clock)
    (fun v d' => exists res err, to ∈ ["succeeded"; "failed"] /\
       (forall t, res = Some t -> canonical_text t) /\ (forall t, err = Some t -> canonical_text t) /\
       under_lease d id token clock (fun now => end_lease to now res err) v d')
    (fun _ d' => d' = d) d.
Proof.
  intros Hd Hr He. unfold finish. do 12 (wp_step; try done). cbv zeta.
  repeat match goal with H : required_string _ _ = Ok _ |- _ => apply required_string_Ok in H as (? & -> & _ & ->) end.
  match goal with H : negb (mem to _) = false |- _ => apply negb_false_iff, mem_true in H; rename H into Hto end.
  unfold utc_timestamp in *. wp_step. eapply wp_mono; [by apply wp_on_lease| |done].
  cbn beta. intros row d' (i & r & Hh & -> & ->).
  pose proof Hh as ((Hi & _ & _) & Hs & _).
  match goal with H : result_text result = Ok ?o |- _ =>
    rename o into res; pose proof (fun t => result_text_Ok _ _ t Hr H) as Hres end.
  match goal with H : error_text error = Ok ?o |- _ =>
    rename o into err; pose proof (fun t => error_text_Ok _ _ t He H) as Herr end.
  apply record_replaced; [done|done| |].
  - apply end_lease_ok; [by eapply (Forall_lookup_1 _ _ _ _ (db_rows d Hd))|apply (finish_status _ Hto)..|done|done].
  - intros v E. exists res, err. split_and!; try done. do 5 eexists. split_and!; done.
Qed.

Lemma reason_canonical s : canonical_text (reason_text s).
Proof. exists [("reason", JStr s)]. split; [|done]. by apply wf_jsonb_wf. Qed.

Lemma wp_requeue d id token reason clock : db_ok d ->
  wp (requeue id token reason clock)
    (fun v d' => exists err, (forall t, err = Some t -> canonical_text t) /\
       under_lease d id token clock (fun now => end_lease "queued" now None err) v d')
    (fun _ d' => d' = d) d.
Proof.
  intros Hd. unfold requeue. do 8 (wp_step; try done). cbv zeta.
  repeat match goal with H : required_string _ _ = Ok _ |- _ => apply required_string_Ok in H as (? & -> & _ & ->) end.
  unfold utc_timestamp in *. wp_step. eapply wp_mono; [by apply wp_on_lease| |done].
  cbn beta. intros row d' (i & r & Hh & -> & ->).
  pose proof Hh as ((Hi & _ & _) & Hs & _).
  match goal with |- context [end_lease "queued" _ None ?e] => set (err := e) end.
  assert (Herr : forall t, err = Some t -> canonical_text t).
  { subst err. intros t. destruct (bool_decide _); [done|]. intros [= <-]. apply reason_canonical. }
  apply record_replaced; [done|done| |].
  - apply end_lease_ok; [by eapply (Forall_lookup_1 _ _ _ _ (db_rows d Hd))|by apply mem_states|done..].
  - intros v E. exists err. split; [done|]. do 5 eexists. split_and!; done.
Qed.

(** Cancelling needs no lease. *)
Definition cancelled (d : database) (id : json) (reason now : string) (v : dict) (d' : database) : Prop :=
  exists id0 i r, id = JStr id0 /\ picks (has_id (py_strip id0)) d i r /\ terminal r = false /\
    let r' := end_lease "cancelled" now (result_json r) (Some (reason_text reason)) r in
    d' = replace d i r' /\ record r' = Ok v.

Lemma wp_cancel d id reason clock : db_ok d ->
  wp (cancel id reason clock) (fun v d' => exists why now, cancelled d id why now v d') (fun _ d' => d' = d) d.
Proof.
  intros Hd. unfold cancel. do 6 (wp_step; try done). cbv zeta.
  repeat match goal with H : required_string _ _ = Ok _ |- _ => apply required_string_Ok in H as (? & -> & _ & ->) end.
  unfold utc_timestamp in *. wp_step. apply wp_transaction. wp_step. unfold select_one at 1. wp_step.
  destruct (List.find _ (jobs d)) as [r|] eqn:E; [|by wp_step].
  apply find_first in E as (i & Hi & Hp & _). apply has_id_true in Hp.
  wp_step. wp_step; [done|]. unfold wp at 1.
  match goal with |- context [update_where (has_id ?j) ?g] => set (f := g); set (k := j) in * end.
  pose proof (picks_id d i r Hd Hi) as Hpick. rewrite Hp in Hpick.
  rewrite (run_update_select _ f d i r); [|done|done|by apply has_id_true].
  pose proof (Forall_lookup_1 _ _ _ _ (db_rows d Hd) Hi) as Hok.
  apply record_replaced; [done|done| |].
  - apply end_lease_ok; [done|by apply mem_states|done|apply Hok|]. intros t [= <-]. apply reason_canonical.
  - intros v Ev. unfold cancelled. do 5 eexists. split; [done|]. split; [exact Hpick|]. split; [done|]. split; [reflexivity|exact Ev].
Qed.

(** ** Sequences of calls *)

Inductive call :=
| CEnqueue (key payload : json) (requested : option json) (token : string) (clock : checked Z)
| CClaim (worker : json) (seconds : number) (token : string) (clock : checked Z)
| CHeartbeat (id token : json) (seconds : number) (clock : checked Z)
| CComplete (id token result : json) (clock : checked Z)
| CFail (id token error : json) (clock : checked Z)
| CCancel (id reason : json) (clock : checked Z)
| CRequeue (id token reason : json) (clock : checked Z)
| CGet (id : json)
| CList (wanted : option string).

Definition run_call (d : database) (c : call) : database :=
  match c with
  | CEnqueue key payload requested token clock => fst (enqueue key payload requested token clock d)
  | CClaim worker seconds token clock => fst (claim worker seconds token clock d)
  | CHeartbeat id token seconds clock => fst (heartbeat id token seconds clock d)
  | CComplete id token result clock => fst (complete id token result clock d)
  | CFail id token error clock => fst (fail id token error clock d)
  | CCancel id reason clock => fst (cancel id reason clock d)
  | CRequeue id token reason clock => fst (requeue id token reason clock d)
  | CGet id => fst (get_job id d)
  | CList wanted => fst (list_jobs wanted d)
  end.

(** Arguments are JSON values without repeated keys. *)
Definition call_ok (c : call) : Prop :=
  match c with
  | CEnqueue _ payload _ _ _ => wf_json payload
  | CComplete _ _ result _ => wf_json result
  | CFail _ _ error _ => wf_json error
  | _ => True
  end.

(** The job and the token that a claim handed out. *)
Definition grant_of (d : database) (c : call) : list (string * string) :=
  match c with
  | CClaim worker seconds token clock =>
      match snd (claim worker seconds token clock d) with
      | Ok (Some v) => [(py_str (key_json "jobId" v), token)]
      | _ => []
      end
  | _ => []
  end.

(** Everything handed out along a sequence of calls, in order. *)
Fixpoint grants (d : database) (tr : list call) : list (string * string) :=
  match tr with
  | [] => []
  | c :: tr => grant_of d c ++ grants (run_call d c) tr
  end.

Inductive effect (d : database) : list (string * string) -> database -> Prop :=
| effect_none : effect d [] d
| effect_new id key version text now :
    canonical_text text -> id ∉ job_id <$> jobs d -> key ∉ idempotency_key <$> jobs d ->
    effect d [] (append d (new_job (last_sequence d + 1) id key version text now))
| effect_claim i r now owner token t :
    jobs d !! i = Some r -> terminal r = false -> instant t ->
    effect d [(job_id r, token)] (replace d i (set_lease now owner token (utc_text t) r))
| effect_extend i r now t :
    jobs d !! i = Some r -> status r = "leased" -> instant t ->
    effect d [] (replace d i (extend_lease now (utc_text t) r))
| effect_end i r to now result error :
    jobs d !! i = Some r -> terminal r = false -> to ∈ JOB_STATES -> to <> "leased" ->
    (forall t, result = Some t -> canonical_text t) -> (forall t, error = Some t -> canonical_text t) ->
    effect d [] (replace d i (end_lease to now result error r)).

Lemma wp_effect {A} (m : op A) (Q : A -> database -> Prop) d :
  wp m Q (fun _ d' => d' = d) d -> (forall a d', Q a d' -> effect d [] d') -> effect d [] (fst (m d)).
Proof.
  unfold wp. destruct (m d) as [d' [a|e]]; cbn [fst]; intros H HQ; [by eapply HQ|]. rewrite H. apply effect_none.
Qed.

Lemma claimable_open now r : claimable now r = true -> terminal r = false.
Proof.
  unfold claimable, terminal. destruct (bool_decide (status r = "queued")) eqn:E.
  - apply bool_decide_eq_true in E. by rewrite E.
  - cbn. intros H. split_bool. by apply leased_not_terminal.
Qed.

Lemma under_lease_end d id token clock to res err v d' :
  under_lease d id token clock (fun now => end_lease to now res err) v d' ->
  to ∈ JOB_STATES -> to <> "leased" ->
  (forall t, res = Some t -> canonical_text t) -> (forall t, err = Some t -> canonical_text t) -> effect d [] d'.
Proof.
  intros (id0 & token0 & now & i & r & _ & _ & _ & ((Hi & _) & Hs & _) & -> & _) Hto Hl Hr He.
  apply effect_end; try done. by apply leased_not_terminal.
Qed.

Lemma finish_effect d id token to result error clock : db_ok d -> wf_json result -> wf_json error ->
  effect d [] (fst (finish id token to result error clock d)).
Proof.
  intros Hd Hr He. eapply wp_effect; [by apply wp_finish|].
  intros v d' (res & err & Hto & H1 & H2 & Hu). destruct (finish_status _ Hto). by eapply under_lease_end.
Qed.

Lemma call_effect d c : db_ok d -> call_ok c -> effect d (grant_of d c) (run_call d c).
Proof.
  intros Hd Hc. destruct c as [key payload requested token clock|worker seconds token clock|id token seconds clock
    |id token result clock|id token error clock|id reason clock|id token reason clock|id|wanted];
    cbn [run_call grant_of call_ok] in *.
  - eapply wp_effect; [by apply wp_enqueue|]. intros v d' (k & p & r & -> & -> & _ & [[-> _]|Hf]); [apply effect_none|].
    destruct Hf as (id & version & now & -> & Hid & Hk & ->). apply effect_new; [by exists p|done..].
  - pose proof (wp_claim d worker seconds token clock Hd) as W. unfold wp in W.
    destruct (claim worker seconds token clock d) as [d' [[v|]|e]]; cbn [fst snd].
    + destruct W as (now & _ & i & r & owner & t & (Hi & Hp & _) & Ht & -> & Hrec & _).
      pose proof (set_lease_ok (utc_text now) owner token t r (Forall_lookup_1 _ _ _ _ (db_rows d Hd) Hi) Ht) as Hok.
      destruct (record_total _ Hok) as (p & v' & E & _ & _ & Hid & _). rewrite Hrec in E. injection E as <-.
      rewrite Hid. cbn [py_str job_id set_lease]. apply effect_claim; [done| |done]. by eapply claimable_open.
    + destruct W as (now & _ & -> & _). apply effect_none.
    + subst d'. apply effect_none.
  - eapply wp_effect; [by apply wp_heartbeat|].
    intros v d' (t & Ht & id0 & token0 & now & i & r & _ & _ & _ & ((Hi & _) & Hs & _) & -> & _).
    by apply effect_extend.
  - by apply finish_effect; [| |constructor].
  - by apply finish_effect; [|constructor|].
  - eapply wp_effect; [by apply wp_cancel|]. intros v d' (why & now & id0 & i & r & _ & (Hi & _) & Ht & -> & _).
    apply effect_end; [done|done|by apply mem_states|done| |intros t [= <-]; apply reason_canonical].
    apply (Forall_lookup_1 _ _ _ _ (db_rows d Hd) Hi).
  - eapply wp_effect; [by apply wp_requeue|]. intros v d' (err & He & Hu).
    eapply under_lease_end; [exact Hu|by apply mem_states|done..].
  - eapply (wp_effect _ (fun _ d' => d' = d)); [|by intros ? ? ->; apply effect_none].
    unfold get_job. repeat (wp_step; try done). unfold select_one. wp_step. destruct (List.find _ _); repeat (wp_step; try done).
  - eapply (wp_effect _ (fun _ d' => d' = d)); [|by intros ? ? ->; apply effect_none].
    unfold list_jobs. repeat (wp_step; try done).
Qed.

Lemma set_lease_same now owner token t r : same_job r (set_lease now owner token t r).
Proof. done. Qed.

Lemma effect_ok d g d' : db_ok d -> effect d g d' -> db_ok d'.
Proof.
  intros Hd [|id key version text now Ht Hid Hk|i r now owner token t Hi Ht Hin|i r now t Hi Hs Hin
             |i r to now result error Hi Ht Hto Hl Hr He]; [done|..].
  - by apply append_ok; [|apply new_job_ok| | |].
  - pose proof (Forall_lookup_1 _ _ _ _ (db_rows d Hd) Hi). eapply replace_ok; [done..|]. by apply set_lease_ok.
  - pose proof (Forall_lookup_1 _ _ _ _ (db_rows d Hd) Hi). eapply replace_ok; [done..|]. by apply extend_lease_ok.
  - pose proof (Forall_lookup_1 _ _ _ _ (db_rows d Hd) Hi). eapply replace_ok; [done..|]. by apply end_lease_ok.
Qed.

Lemma empty_queue_ok : db_ok empty_queue.
Proof. split; constructor. Qed.

(** A database that some sequence of calls leads to. *)
Definition reachable (d : database) : Prop :=
  exists tr, Forall call_ok tr /\ d = run_trace run_call empty_queue tr.

Lemma run_ok d tr : db_ok d -> Forall call_ok tr -> db_ok (run_trace run_call d tr).
Proof.
  intros Hd Hall. revert d Hd. induction Hall as [|c tr Hc _ IH]; intros d Hd; [done|].
  apply IH. eapply effect_ok; [exact Hd|]. by apply call_effect.
Qed.

Lemma queue_reachable_ok d : reachable d -> db_ok d.
Proof. intros (tr & Hall & ->). by apply run_ok; [apply empty_queue_ok|]. Qed.

(** ** Leases and the history of claims *)

Definition tokens_of (id : string) (h : list (string * string)) : list string :=
  snd <$> filter (fun g => fst g = id) h.

(** The last token handed out for a job. *)
Definition last_token (id : string) (h : list (string * string)) : option string := last (tokens_of id h).

Lemma tokens_of_app id h1 h2 : tokens_of id (h1 ++ h2) = tokens_of id h1 ++ tokens_of id h2.
Proof. unfold tokens_of. by rewrite filter_app, fmap_app. Qed.

Lemma tokens_of_one id k token : tokens_of id [(k, token)] = if decide (k = id) then [token] else [].
Proof. unfold tokens_of. rewrite filter_cons. cbn [fst]. by case_decide. Qed.

(** What a row knows of the history: its attempts are the tokens handed out for it, and a
    leased row holds the last of them. *)
Definition tracks (h : list (string * string)) (r : job) : Prop :=
  attempt_count r = Z.of_nat (length (tokens_of (job_id r) h)) /\
  (status r = "leased" -> last_token (job_id r) h = lease_token r).

Record history_ok (d : database) (h : list (string * string)) : Prop := {
  history_rows : Forall (tracks h) (jobs d);
  history_jobs : forall id token, (id, token) ∈ h -> id ∈ job_id <$> jobs d;
}.

Lemma absent_tokens id h : (forall token, (id, token) ∉ h) -> tokens_of id h = [].
Proof.
  intros H. destruct (tokens_of id h) as [|token l] eqn:E; [done|]. exfalso.
  assert (Hin : token ∈ tokens_of id h) by (rewrite E; by left). unfold tokens_of in Hin.
  apply list_elem_of_fmap in Hin as ([k t] & Et & Hin). apply list_elem_of_filter in Hin as [Hk Hin].
  cbn in Et, Hk. subst. by apply (H t).
Qed.

Lemma tracks_other h r id token : job_id r <> id -> tracks h r -> tracks (h ++ [(id, token)]) r.
Proof.
  intros Hne [Ha Hl]. unfold tracks, last_token. rewrite tokens_of_app, tokens_of_one, decide_False, app_nil_r by done.
  done.
Qed.

Lemma effect_history d g d' h : db_ok d -> effect d g d' -> history_ok d h -> history_ok d' (h ++ g).
Proof.
  intros Hd [|id key version text now Ht Hid Hk|i r now owner token t Hi Ht Hin|i r now t Hi Hs Hin
             |i r to now result error Hi Ht Hto Hl Hr He] [Hrows Hjobs]; rewrite ?app_nil_r; [done|..].
  - split; unfold append; cbn [jobs].
    + apply Forall_app. split; [done|]. constructor; [|constructor]. split; [|done]. cbn.
      rewrite absent_tokens; [done|]. intros token Hin. by apply Hid, (Hjobs _ token).
    + intros k token Hin. rewrite fmap_app. apply elem_of_app. left. by eapply Hjobs.
  - pose proof (Forall_lookup_1 _ _ _ _ Hrows Hi) as [Ha _]. split.
    + apply Forall_lookup. intros j x Hx. unfold replace in Hx. cbn [jobs] in Hx.
      destruct (decide (j = i)) as [->|Hne].
      * rewrite list_lookup_insert_eq in Hx by (by eapply lookup_lt_Some). injection Hx as <-.
        unfold tracks, last_token. cbn [job_id set_lease attempt_count status lease_token].
        rewrite tokens_of_app, tokens_of_one, decide_True by done. rewrite last_snoc, length_app. cbn. split; [lia|done].
      * rewrite list_lookup_insert_ne in Hx by done. apply tracks_other; [|by eapply (Forall_lookup_1 _ _ _ _ Hrows)].
        intros E. apply Hne. by eapply (unique_field job_id (jobs d) j i x r (db_ids d Hd)).
    + intros k tok Hin'. rewrite (fmap_replace _ d i r) by done. apply elem_of_app in Hin' as [Hin'|Hin'].
      * by eapply Hjobs.
      * apply list_elem_of_singleton in Hin' as [= -> _]. apply list_elem_of_fmap. exists r. split; [done|].
        by eapply list_elem_of_lookup_2.
  - pose proof (Forall_lookup_1 _ _ _ _ Hrows Hi) as [Ha Hb]. split.
    + unfold replace. cbn [jobs]. apply Forall_insert; [done|]. by split.
    + intros k tok Hin'. rewrite (fmap_replace _ d i r) by done. by eapply Hjobs.
  - pose proof (Forall_lookup_1 _ _ _ _ Hrows Hi) as [Ha Hb]. split.
    + unfold replace. cbn [jobs]. apply Forall_insert; [done|]. split; [done|]. by intros E.
    + intros k tok Hin'. rewrite (fmap_replace _ d i r) by done. by eapply Hjobs.
Qed.

Lemma run_history d tr h : db_ok d -> Forall call_ok tr -> history_ok d h ->
  history_ok (run_trace run_call d tr) (h ++ grants d tr).
Proof.
  intros Hd Hall. revert d h Hd. induction Hall as [|c tr Hc _ IH]; intros d h Hd Hh; [by rewrite app_nil_r|].
  pose proof (call_effect d c Hd Hc) as He. cbn [grants]. rewrite app_assoc.
  apply IH; [by eapply effect_ok|by eapply effect_history].
Qed.

(** The calls of a worker that act under its lease. *)
Inductive worker_call (id token : string) (clock : checked Z) : call -> Prop :=
| is_heartbeat seconds : worker_call id token clock (CHeartbeat (JStr id) (JStr token) seconds clock)
| is_complete result : worker_call id token clock (CComplete (JStr id) (JStr token) result clock)
| is_fail error : worker_call id token clock (CFail (JStr id) (JStr token) error clock)
| is_requeue reason : worker_call id token clock (CRequeue (JStr id) (JStr token) reason clock).

Definition succeeds {A} (o : checked A) : bool := match o with Ok _ => true | Raise _ => false end.

(** The call returns instead of raising. *)
Definition accepted (d : database) (c : call) : bool :=
  match c with
  | CEnqueue key payload requested token clock => succeeds (snd (enqueue key payload requested token clock d))
  | CClaim worker seconds token clock => succeeds (snd (claim worker seconds token clock d))
  | CHeartbeat id token seconds clock => succeeds (snd (heartbeat id token seconds clock d))
  | CComplete id token result clock => succeeds (snd (complete id token result clock d))
  | CFail id token error clock => succeeds (snd (fail id token error clock d))
  | CCancel id reason clock => succeeds (snd (cancel id reason clock d))
  | CRequeue id token reason clock => succeeds (snd (requeue id token reason clock d))
  | CGet id => succeeds (snd (get_job id d))
  | CList wanted => succeeds (snd (list_jobs wanted d))
  end.

Lemma wp_succeeds {A} (m : op A) Q R d : wp m Q R d -> succeeds (snd (m d)) = true -> exists a, Q a (fst (m d)).
Proof. unfold wp. destruct (m d) as [d' [a|e]]; cbn; [eauto|done]. Qed.

Lemma accepted_holds d c id token now : db_ok d -> call_ok c -> worker_call id token (Ok now) c -> accepted d c = true ->
  exists i r, holds_lease d (py_strip id) (py_strip token) (utc_text now) i r.
Proof.
  intros Hd Hc Hw Ha.
  assert (H : forall f v d', under_lease d (JStr id) (JStr token) (Ok now) f v d' ->
    exists i r, holds_lease d (py_strip id) (py_strip token) (utc_text now) i r).
  { intros f v d' (id0 & token0 & now0 & i & r & E1 & E2 & E3 & Hh & _). simplify_eq. eauto. }
  destruct Hw as [seconds|result|error|reason]; cbn [accepted call_ok] in *.
  - destruct (wp_succeeds _ _ _ _ (wp_heartbeat d _ _ seconds _ Hd) Ha) as (v & t & _ & Hu). by eapply H.
  - destruct (wp_succeeds _ _ _ _ (wp_finish d _ _ _ result JNull _ Hd Hc wf_null) Ha) as (v & res & err & _ & _ & _ & Hu).
    by eapply H.
  - destruct (wp_succeeds _ _ _ _ (wp_finish d _ _ _ JNull error _ Hd wf_null Hc) Ha) as (v & res & err & _ & _ & _ & Hu).
    by eapply H.
  - destruct (wp_succeeds _ _ _ _ (wp_requeue d _ _ reason _ Hd) Ha) as (v & err & _ & Hu). by eapply H.
Qed.

(** C22 Only the latest claim of a job can act on it, and only within its lease.  After any
    sequence of calls by any number of workers, a heartbeat, completion, failure or
    requeue that is accepted carries the token of the last claim of that job, arrives
    before the deadline that is stored for it, and the job's attempt count is the number
    of times it was claimed: a worker whose lease was taken over is fenced off. *)
Theorem only_last_claim_acts (tr : list call) (c : call) (id token : string) (now : Z) :
  let d := run_trace run_call empty_queue tr in
  let h := grants empty_queue tr in
  Forall call_ok tr -> call_ok c -> worker_call id token (Ok now) c -> instant now -> accepted d c = true ->
  last_token (py_strip id) h = Some (py_strip token) /\
  exists r t, r ∈ jobs d /\ job_id r = py_strip id /\ lease_expires_at r = Some (utc_text t) /\ (now < t)%Z /\
    attempt_count r = Z.of_nat (length (tokens_of (py_strip id) h)).
Proof.
  intros d h Htr Hc Hw Hnow Ha.
  pose proof (run_ok empty_queue tr empty_queue_ok Htr) as Hd. change (db_ok d) in Hd.
  assert (Hh : history_ok d h).
  { apply (run_history empty_queue tr [] empty_queue_ok Htr). split; [constructor|]. intros ? ? Hin. by inversion Hin. }
  destruct (accepted_holds d c id token now Hd Hc Hw Ha) as (i & r & (Hi & Hp & _) & Hs & Ht & t & Hx & Hle).
  apply has_id_true in Hp. pose proof (Forall_lookup_1 _ _ _ _ (history_rows d h Hh) Hi) as [Hn Hl].
  pose proof (row_lease r (Forall_lookup_1 _ _ _ _ (db_rows d Hd) Hi)) as Hok. unfold lease_ok in Hok.
  rewrite bool_decide_eq_true_2 in Hok by done. destruct Hok as (_ & _ & u & Hu & Eu). rewrite Hx in Eu. injection Eu as ->.
  rewrite utc_text_leb in Hle by done. apply Z.leb_gt in Hle. rewrite Hp in *. split; [by rewrite (Hl Hs)|].
  exists r, u. split; [by eapply list_elem_of_lookup_2|]. done.
Qed.

(** ** The life of a job *)

(** Every effect keeps the jobs there are, and leaves the ended ones as they are. *)
Lemma effect_keeps d g d' i r : effect d g d' -> jobs d !! i = Some r ->
  exists r', jobs d' !! i = Some r' /\ same_job r r' /\ (terminal r = true -> r' = r).
Proof.
  intros He Hr.
  assert (Hrep : forall k x x', jobs d !! k = Some x -> terminal x = false -> same_job x x' ->
    exists r', jobs (replace d k x') !! i = Some r' /\ same_job r r' /\ (terminal r = true -> r' = r)).
  { intros k x x' Hx Ht Hs. unfold replace. cbn [jobs]. destruct (decide (i = k)) as [->|Hne].
    - rewrite list_lookup_insert_eq by (by eapply lookup_lt_Some). simplify_eq. exists x'. split; [done|].
      split; [done|congruence].
    - rewrite list_lookup_insert_ne by done. by exists r. }
  destruct He as [|id key version text now Ht Hid Hk|k x now owner token t Hi Ht Hin|k x now t Hi Hs Hin
             |k x to now result error Hi Ht Hto Hl Hres Herr].
  - by exists r.
  - exists r. unfold append. cbn [jobs]. split; [by apply lookup_app_l_Some|done].
  - by eapply Hrep.
  - eapply Hrep; [done|by apply leased_not_terminal|done].
  - by eapply Hrep.
Qed.

Lemma run_keeps d tr i r : db_ok d -> Forall call_ok tr -> jobs d !! i = Some r ->
  exists r', jobs (run_trace run_call d tr) !! i = Some r' /\ same_job r r' /\ (terminal r = true -> r' = r).
Proof.
  intros Hd Hall. revert d r Hd. induction Hall as [|c tr Hc _ IH]; intros d r Hd Hr; [by exists r|].
  pose proof (call_effect d c Hd Hc) as He.
  destruct (effect_keeps _ _ _ i r He Hr) as (r1 & H1 & Hs1 & Ht1).
  destruct (IH _ r1 (effect_ok _ _ _ Hd He) H1) as (r2 & H2 & Hs2 & Ht2).
  exists r2. split; [done|]. split.
  - by transitivity r1.
  - intros Ht. specialize (Ht1 Ht). subst r1. by apply Ht2.
Qed.

(** The calls that could change a job that has ended. *)
Inductive targets (id : string) : call -> Prop :=
| target_worker token clock c : worker_call id token clock c -> targets id c
| target_cancel reason clock : targets id (CCancel (JStr id) reason clock).

Lemma accepted_open d c id : db_ok d -> call_ok c -> targets id c -> accepted d c = true ->
  exists i r, jobs d !! i = Some r /\ job_id r = py_strip id /\ terminal r = false.
Proof.
  intros Hd Hc Ht Ha.
  assert (H : forall token clock f v d', under_lease d (JStr id) (JStr token) clock f v d' ->
    exists i r, jobs d !! i = Some r /\ job_id r = py_strip id /\ terminal r = false).
  { intros token clock f v d' (id0 & token0 & now0 & i & r & E1 & E2 & E3 & ((Hi & Hp & _) & Hs & _) & _).
    simplify_eq. exists i, r. split; [done|]. split; [by apply has_id_true|by apply leased_not_terminal]. }
  destruct Ht as [token clock c [seconds|result|error|reason]|reason clock]; cbn [accepted call_ok] in *.
  - destruct (wp_succeeds _ _ _ _ (wp_heartbeat d _ _ seconds _ Hd) Ha) as (v & t & _ & Hu). by eapply H.
  - destruct (wp_succeeds _ _ _ _ (wp_finish d _ _ _ result JNull _ Hd Hc wf_null) Ha) as (v & res & err & _ & _ & _ & Hu).
    by eapply H.
  - destruct (wp_succeeds _ _ _ _ (wp_finish d _ _ _ JNull error _ Hd wf_null Hc) Ha) as (v & res & err & _ & _ & _ & Hu).
    by eapply H.
  - destruct (wp_succeeds _ _ _ _ (wp_requeue d _ _ reason _ Hd) Ha) as (v & err & _ & Hu). by eapply H.
  - destruct (wp_succeeds _ _ _ _ (wp_cancel d _ reason clock Hd) Ha) as (v & why & now & id0 & i & r & E & (Hi & Hp & _) & Ht & _).
    injection E as <-. exists i, r. split; [done|]. split; [by apply has_id_true|done].
Qed.

(** A job ends once.  A row that is succeeded, failed or cancelled stays in the table
    exactly as it is, result and error included, through all further calls; no
    heartbeat, completion, failure, requeue or cancellation of it is accepted again, and
    no claim hands it out. *)
Theorem ended_job_is_final (d : database) (tr : list call) (r : job) :
  reachable d -> Forall call_ok tr -> r ∈ jobs d -> terminal r = true ->
  let d' := run_trace run_call d tr in
  r ∈ jobs d' /\
  (forall c id, call_ok c -> targets id c -> py_strip id = job_id r -> accepted d' c = false) /\
  (forall c token, call_ok c -> (job_id r, token) ∉ grant_of d' c).
Proof.
  intros Hreach Hall Hr Ht d'. pose proof (queue_reachable_ok d Hreach) as Hd.
  apply list_elem_of_lookup in Hr as [i Hi].
  destruct (run_keeps d tr i r Hd Hall Hi) as (r' & Hi' & _ & E). specialize (E Ht). subst r'. fold d' in Hi'.
  pose proof (run_ok d tr Hd Hall) as Hd'. change (db_ok d') in Hd'.
  assert (Hopen : forall j x, jobs d' !! j = Some x -> job_id x = job_id r -> terminal x = false -> False).
  { intros j x Hx Hid Hx'. rewrite (unique_field job_id (jobs d') j i x r (db_ids d' Hd') Hx Hi' Hid) in Hx.
    congruence. }
  split; [by eapply list_elem_of_lookup_2|]. split.
  - intros c id Hc Htg Hid. destruct (accepted d' c) eqn:Ha; [|done]. exfalso.
    destruct (accepted_open d' c id Hd' Hc Htg Ha) as (j & x & Hx & Hxid & Hxt). eapply Hopen; [exact Hx|congruence|done].
  - intros c token Hc Hin. pose proof (call_effect d' c Hd' Hc) as He. remember (grant_of d' c) as g.
    destruct He; try (by inversion Hin). apply list_elem_of_singleton in Hin as [= E _].
    by eapply Hopen.
Qed.

(** ** Enqueueing again *)

Lemma bound_unique d key r r' i i' : db_ok d -> jobs d !! i = Some r -> jobs d !! i' = Some r' ->
  idempotency_key r = key -> idempotency_key r' = key -> r = r'.
Proof.
  intros Hd H1 H2 E1 E2.
  assert (i = i') as -> by (eapply (unique_field idempotency_key (jobs d)); [apply Hd|done..|congruence]). congruence.
Qed.

Lemma digest_of_inj a b : digest_of a = digest_of b -> sha256_hex (encode a) = sha256_hex (encode b).
Proof. unfold digest_of. apply str_app_inj_l. Qed.

Lemma enqueue_key k payload requested token clock d d1 v :
  enqueue (JStr k) payload requested token clock d = (d1, Ok v) ->
  required_string (JStr k) "idempotency_key" = Ok (py_strip k).
Proof.
  unfold enqueue. intros H. apply bind_Ok in H as (d0 & s & H & _). apply lift_Ok in H as [_ H].
  pose proof H as (t & [= <-] & _ & ->)%required_string_Ok. done.
Qed.

Lemma enqueue_result d key payload requested token clock d1 v : db_ok d -> wf_json payload ->
  enqueue key payload requested token clock d = (d1, Ok v) ->
  exists k p i r, key = JStr k /\ payload = JObj p /\ record r = Ok v /\ jobs d1 !! i = Some r /\ db_ok d1 /\
    idempotency_key r = py_strip k /\ payload_digest r = digest_of (dumps false payload) /\
    (d1 <> d -> payload_json r = dumps false payload) /\
    (d1 = d \/ py_strip k ∉ idempotency_key <$> jobs d).
Proof.
  intros Hd Hw Hrun.
  pose proof (call_effect d (CEnqueue key payload requested token clock) Hd Hw) as He. cbn [run_call] in He.
  apply effect_ok in He; [|done]. rewrite Hrun in He. cbn [fst] in He.
  pose proof (wp_enqueue d key payload requested token clock Hd Hw) as W. unfold wp in W. rewrite Hrun in W.
  destruct W as (k & p & r & -> & -> & Hrec & [[-> [[i Hi] [Hk Hdig]]]|Hf]).
  - exists k, p, i, r. split_and!; try done. by left.
  - destruct Hf as (id & version & now & -> & Hid & Hk & ->).
    exists k, p, (length (jobs d)). eexists. split_and!; try done; [|by right]. unfold append. cbn [jobs].
    by rewrite list_lookup_middle.
Qed.

(** An idempotency key is bound to one job and one payload for good.  Once a payload
    was accepted under a key, then after any further calls every accepted request under
    that key changes nothing and is answered with the same job, and its payload is the
    first one up to the order of keys, unless SHA-256 collides on the two texts.  The job
    is still there with that payload, whatever became of it. *)
Theorem key_is_bound_for_good (d d1 d3 : database) (key payload key' payload' : json) (requested requested' : option json)
    (token token' : string) (clock clock' : checked Z) (v v' : dict) (tr : list call) :
  reachable d -> wf_json payload -> enqueue key payload requested token clock d = (d1, Ok v) ->
  Forall call_ok tr -> let d2 := run_trace run_call d1 tr in
  wf_json payload' -> enqueue key' payload' requested' token' clock' d2 = (d3, Ok v') ->
  required_string key "idempotency_key" = required_string key' "idempotency_key" ->
  collision_free [encode (dumps false payload); encode (dumps false payload')] ->
  d3 = d2 /\ key_json "jobId" v' = key_json "jobId" v /\ key_json "sequence" v' = key_json "sequence" v /\
  norm payload' = norm payload /\ key_json "payload" v' = key_json "payload" v.
Proof.
  intros Hreach Hw Hrun Hall d2 Hw' Hrun' Hkey Hcol. pose proof (queue_reachable_ok d Hreach) as Hd.
  destruct (enqueue_result _ _ _ _ _ _ _ _ Hd Hw Hrun) as (k & p & i & r & -> & -> & Hrec & Hi & Hd1 & Hk & Hdig & _).
  destruct (run_keeps d1 tr i r Hd1 Hall Hi) as (r2 & Hi2 & Hsame & _). fold d2 in Hi2.
  pose proof (run_ok d1 tr Hd1 Hall) as Hd2. change (db_ok d2) in Hd2.
  destruct (enqueue_result _ _ _ _ _ _ _ _ Hd2 Hw' Hrun') as (k' & p' & i' & r' & -> & -> & Hrec' & Hi' & Hd3 & Hk' & Hdig' & _ & Hor).
  destruct Hsame as (Es & Eid & _ & Ek & _ & Ep & Ed & _).
  assert (Hkk : py_strip k' = py_strip k).
  { pose proof (enqueue_key _ _ _ _ _ _ _ _ Hrun) as K. pose proof (enqueue_key _ _ _ _ _ _ _ _ Hrun') as K'. congruence. }
  assert (E3 : d3 = d2).
  { destruct Hor as [?|Hno]; [done|]. destruct Hno. rewrite Hkk. apply list_elem_of_fmap. exists r2.
    split; [congruence|by eapply list_elem_of_lookup_2]. }
  split; [done|]. subst d3.
  assert (E : r' = r2) by (eapply (bound_unique d2 (py_strip k)); [done..| |]; congruence). subst r'.
  assert (Hn : norm (JObj p') = norm (JObj p)).
  { apply (dumps_inj false), encode_inj. apply Hcol; [by right; left|by left|]. apply digest_of_inj. congruence. }
  destruct (record_total r (Forall_lookup_1 _ _ _ _ (db_rows d1 Hd1) Hi)) as (q & w & E1 & Q1 & Q2 & Q3 & _ & Q5 & _).
  destruct (record_total r2 (Forall_lookup_1 _ _ _ _ (db_rows d2 Hd2) Hi2)) as (q' & w' & E1' & Q1' & Q2' & Q3' & _ & Q5' & _).
  rewrite Hrec in E1. injection E1 as <-. rewrite Hrec' in E1'. injection E1' as <-.
  rewrite Q3, Q3', Q5, Q5', Q2, Q2'. split_and!; try congruence.
  apply (dumps_inj false). congruence.
Qed.

(** ** Draining the queue *)

Lemma filter_first (p : job -> bool) (l : list job) i r x :
  l !! i = Some r -> p r = true -> (forall j y, j < i -> l !! j = Some y -> p y = false) -> p x = false ->
  List.filter p l = r :: List.filter p (<[i := x]> l).
Proof.
  revert i. induction l as [|y l IH]; intros [|i] Hi Hp Hlt Hx; try done.
  - injection Hi as ->. cbn. by rewrite Hp, Hx.
  - cbn. rewrite (Hlt 0 y ltac:(lia) eq_refl). apply (IH i); try done.
    intros j z Hj Hz. by apply (Hlt (S j) z ltac:(lia)).
Qed.

(** The jobs that a worker may take at a time, oldest first. *)
Definition open_jobs (now : Z) (d : database) : list job := List.filter (claimable (utc_text now)) (jobs d).

(** A claim at a time by a valid worker, for a lease that ends later. *)
Inductive claim_at (now : Z) : call -> Prop :=
| claims worker owner seconds duration token :
    required_string worker "worker_id" = Ok owner -> lease_duration seconds = Ok duration ->
    (0 < duration)%Z -> (now + duration < LAST_INSTANT)%Z ->
    claim_at now (CClaim worker seconds token (Ok now)).

Lemma later_total now duration : instant now -> (0 < duration)%Z -> (now + duration < LAST_INSTANT)%Z ->
  later now duration = Ok (now + duration)%Z /\ instant (now + duration).
Proof.
  unfold instant, later. intros [? ?] ? ?. cbv zeta.
  rewrite (proj2 (Z.leb_le _ _)), (proj2 (Z.ltb_lt _ _)) by lia. cbn. split; [done|lia].
Qed.

Lemma claim_total now d worker owner seconds duration token : db_ok d -> instant now ->
  required_string worker "worker_id" = Ok owner -> lease_duration seconds = Ok duration ->
  (0 < duration)%Z -> (now + duration < LAST_INSTANT)%Z ->
  accepted d (CClaim worker seconds token (Ok now)) = true.
Proof.
  intros Hd Hnow Hw Hs Hpos Hlast. destruct (later_total _ _ Hnow Hpos Hlast) as [Hl Ht].
  cbn [accepted]. unfold claim. rewrite Hw, Hs. run_m. rewrite Hl. run_m. unfold utc_timestamp, transaction, bind, select_one, gets. cbv beta iota zeta.
  destruct (List.find _ (jobs d)) as [r|] eqn:E; [|done].
  apply find_first in E as (i & Hi & Hc & Hlt). pose proof (picks_sequence d i r Hd Hi) as Hp.
  match goal with |- context [update_where _ ?g] => set (f := g) end.
  rewrite (run_update _ f d i r Hp (claimable_open _ _ Hc)).
  rewrite (picks_find _ _ i (f r)) by (by apply picks_replace with (r := r); [|apply Hp]).
  destruct (record_row_total (f r)) as (v & E & _);
    [apply set_lease_ok; [by eapply (Forall_lookup_1 _ _ _ _ (db_rows d Hd))|done]|].
  unfold ret. rewrite E. done.
Qed.

Lemma claim_takes_first now d c : db_ok d -> instant now -> claim_at now c ->
  map fst (grant_of d c) = take 1 (job_id <$> open_jobs now d) /\
  job_id <$> open_jobs now (run_call d c) = drop 1 (job_id <$> open_jobs now d).
Proof.
  intros Hd Hnow [worker owner seconds duration token Hw Hs Hpos Hlast].
  pose proof (claim_total now d worker owner seconds duration token Hd Hnow Hw Hs Hpos Hlast) as Ha.
  cbn [accepted run_call grant_of] in *.
  pose proof (wp_claim d worker seconds token (Ok now) Hd) as W. unfold wp in W.
  destruct (claim worker seconds token (Ok now) d) as [d' [[v|]|e]]; cbn [fst snd succeeds] in *; [| |done].
  - destruct W as (now0 & [= <-] & i & r & owner0 & t & (Hi & Hp & Hlt) & Ht & -> & Hrec & dur & Hdur & ->).
    assert (dur = duration) as -> by congruence.
    pose proof (set_lease_ok (utc_text now) owner0 token _ r (Forall_lookup_1 _ _ _ _ (db_rows d Hd) Hi) Ht) as Hok.
    destruct (record_total _ Hok) as (p & v' & E & _ & _ & Hid & _). rewrite Hrec in E. injection E as <-.
    unfold open_jobs, replace. cbn [jobs].
    rewrite (filter_first (claimable (utc_text now)) (jobs d) i r (set_lease (utc_text now) owner0 token (utc_text (now + duration)) r)); try done.
    + cbn. by rewrite Hid.
    + unfold claimable, past_deadline. cbn. rewrite utc_text_leb by done. apply Z.leb_gt. lia.
  - destruct W as (now0 & [= <-] & -> & Hno). unfold open_jobs.
    assert (E : List.filter (claimable (utc_text now)) (jobs d) = []); [|by rewrite E].
    apply filter_none. intros r Hr. apply list_elem_of_lookup in Hr as [i Hi]. by eapply Hno.
Qed.

(** C23 The queue is first in, first out, and nothing is passed over.  When workers claim at
    one time, for leases that end later, they are given the oldest open jobs, one each and
    in order, until no open job is left; a job is open when it is queued or its lease has
    run out, so a job whose worker vanished is handed out again. *)
Theorem queue_drains_in_order (d : database) (now : Z) (cs : list call) :
  reachable d -> instant now -> Forall (claim_at now) cs ->
  map fst (grants d cs) = take (length cs) (job_id <$> open_jobs now d) /\
  job_id <$> open_jobs now (run_trace run_call d cs) = drop (length cs) (job_id <$> open_jobs now d).
Proof.
  intros Hreach%queue_reachable_ok Hnow Hall. revert d Hreach. induction Hall as [|c cs Hc _ IH]; intros d Hd; [done|].
  destruct (claim_takes_first now d c Hd Hnow Hc) as [Hg Hrest]. cbn [grants].
  assert (Hd' : db_ok (run_call d c)).
  { eapply effect_ok; [exact Hd|]. apply call_effect; [done|]. by destruct Hc. }
  destruct (IH _ Hd') as [IHg IHr]. rewrite map_app, Hg, IHg, Hrest. cbn [length]. split.
  - by rewrite <-(take_take_drop _ 1 (length cs)).
  - change (run_trace run_call d (c :: cs)) with (run_trace run_call (run_call d c) cs).
    by rewrite IHr, Hrest, drop_drop.
Qed.

(** ** Two jobs and two workers *)

Definition noon (seconds : Z) : Z :=
  match fromisoformat "2026-01-01T12:00:00" with Some t => dt_local t + seconds * SECOND | None => 0 end.

Definition echo (n : Z) : json := JObj [("n", JInt n); ("formatVersion", JStr "stateport.container-job/v1")].

(** The first worker's lease runs out, and the second worker takes the job over. *)
Definition takeover : list call :=
  [CEnqueue (JStr "k1") (echo 1) (Some (JStr "job-1")) "r1" (Ok (noon 0));
   CEnqueue (JStr "k2") (echo 2) (Some (JStr "job-2")) "r2" (Ok (noon 1));
   CClaim (JStr "w1") (PInt 60) "t1" (Ok (noon 2));
   CClaim (JStr "w2") (PInt 60) "t2" (Ok (noon 70))].

Definition finish_by (token : string) : call :=
  CComplete (JStr "job-1") (JStr token) (JObj [("ok", JBool true)]) (Ok (noon 80)).

Lemma wf_echo n : wf_json (echo n).
Proof. by apply wf_jsonb_wf. Qed.

Lemma finish_ok token : call_ok (finish_by token).
Proof. by apply wf_jsonb_wf. Qed.

Ltac calls_ok := repeat (constructor; [first [exact I|apply wf_echo|apply finish_ok]|]); constructor.

Lemma takeover_ok : Forall call_ok takeover.
Proof. calls_ok. Qed.

Example fenced_off : accepted (run_trace run_call empty_queue takeover) (finish_by "t1") = false.
Proof. vm_compute. reflexivity. Qed.

Lemma only_last_claim_acts_witness :
  last_token "job-1" (grants empty_queue takeover) = Some "t2" /\
  exists t, (noon 80 < t)%Z.
Proof.
  destruct (only_last_claim_acts takeover (finish_by "t2") "job-1" "t2" (noon 80)) as (H & r & t & _ & _ & _ & Ht & _).
  - exact takeover_ok.
  - apply finish_ok.
  - constructor.
  - vm_compute. split; congruence.
  - vm_compute. reflexivity.
  - split; [exact H|by exists t].
Defined.

Definition finished : list call := takeover ++ [finish_by "t2"].

Lemma finished_ok : Forall call_ok finished.
Proof. apply Forall_app. split; [exact takeover_ok|]. constructor; [apply finish_ok|constructor]. Qed.

Definition first_job (d : database) : job :=
  default (new_job 0 "" "" "" "" "") (jobs d !! 0).

Lemma ended_job_is_final_witness :
  first_job (run_trace run_call empty_queue finished)
  ∈ jobs (run_trace run_call (run_trace run_call empty_queue finished) [finish_by "t2"; CCancel (JStr "job-1") (JStr "late") (Ok (noon 90))]).
Proof.
  refine (proj1 (ended_job_is_final (run_trace run_call empty_queue finished)
    [finish_by "t2"; CCancel (JStr "job-1") (JStr "late") (Ok (noon 90))]
    (first_job (run_trace run_call empty_queue finished)) _ _ _ _)).
  - exists finished. split; [exact finished_ok|reflexivity].
  - calls_ok.
  - apply (list_elem_of_lookup_2 _ 0). vm_compute. reflexivity.
  - vm_compute. reflexivity.
Defined.

Definition value_of (o : checked dict) : dict := match o with Ok v => v | Raise _ => [] end.

(** The same payload with its keys in another order, under the same key with blanks. *)
Definition echo_again : json := JObj [("formatVersion", JStr "stateport.container-job/v1"); ("n", JInt 1)].

Definition enqueued_first : database * checked dict :=
  enqueue (JStr "k1") (echo 1) None "r1" (Ok (noon 0)) empty_queue.
Abbreviation worked_on := (run_trace run_call (fst enqueued_first) (skipn 1 takeover)).
Definition enqueued_again : database * checked dict :=
  enqueue (JStr " k1 ") echo_again None "r9" (Ok (noon 95)) worked_on.

Lemma enqueued_first_Ok : enqueue (JStr "k1") (echo 1) None "r1" (Ok (noon 0)) empty_queue
  = (fst enqueued_first, Ok (value_of (snd enqueued_first))).
Proof. vm_compute. reflexivity. Qed.

Lemma enqueued_again_Ok : enqueue (JStr " k1 ") echo_again None "r9" (Ok (noon 95)) worked_on
  = (fst enqueued_again, Ok (value_of (snd enqueued_again))).
Proof. vm_compute. reflexivity. Qed.

Lemma same_texts : collision_free [encode (dumps false (echo 1)); encode (dumps false echo_again)].
Proof. replace (dumps false echo_again) with (dumps false (echo 1)) by (vm_compute; reflexivity). apply collision_free_same. Qed.

Lemma empty_reachable : reachable empty_queue.
Proof. exists []. split; [constructor|reflexivity]. Qed.

Lemma rest_ok : Forall call_ok (skipn 1 takeover).
Proof. calls_ok. Qed.

Lemma key_is_bound_for_good_witness : fst enqueued_again = worked_on.
Proof.
  apply (key_is_bound_for_good empty_queue (fst enqueued_first) (fst enqueued_again) (JStr "k1") (echo 1) (JStr " k1 ")
    echo_again None None "r1" "r9" (Ok (noon 0)) (Ok (noon 95)) (value_of (snd enqueued_first))
    (value_of (snd enqueued_again)) (skipn 1 takeover)).
  - exact empty_reachable.
  - apply wf_echo.
  - exact enqueued_first_Ok.
  - exact rest_ok.
  - by apply wf_jsonb_wf.
  - exact enqueued_again_Ok.
  - reflexivity.
  - exact same_texts.
Defined.

Definition three_claims : list call :=
  [CClaim (JStr "w3") (PInt 60) "t3" (Ok (noon 200)); CClaim (JStr "w4") (PFloat (f64_of_Z 30)) "t4" (Ok (noon 200));
   CClaim (JStr "w5") (PInt 60) "t5" (Ok (noon 200))].

Lemma queue_drains_in_order_witness :
  map fst (grants (run_trace run_call empty_queue takeover) three_claims) = ["job-1"; "job-2"].
Proof.
  set (d := run_trace run_call empty_queue takeover).
  destruct (queue_drains_in_order d (noon 200) three_claims) as [H _].
  - exists takeover. split; [exact takeover_ok|reflexivity].
  - vm_compute. split; congruence.
  - constructor; [|constructor; [|constructor; [|constructor]]].
    + apply (claims _ _ "w3" _ 60000000); vm_compute; reflexivity.
    + apply (claims _ _ "w4" _ 30000000); vm_compute; reflexivity.
    + apply (claims _ _ "w5" _ 60000000); vm_compute; reflexivity.
  - rewrite H. vm_compute. reflexivity.
Defined.
