(* ===== verification/CiContinuation.v ===== *)
(** * Continuation of blocked CI (packages/ci-continuation)

    machine.py: [WorkflowContinuation] takes one pull-request head through a
    scripted CI run, a human decision and its application, and records every
    change in a hash-chained audit tuple.  The model's state is one workflow and
    its provider; the provider object may be shared, so other users' calls on it
    are steps too.  Data given to the audit is a [dict] of strings, numbers and
    nested dicts, and goes through [json.loads(json.dumps(...))] as in the code. *)

From S2P Require Import Prelude Json Sha256 HashChain.

Inductive ci_error :=
| BindingMismatchError (message : string)
| InvalidTransitionError (message : string)
| StaleAuthorizationError (message : string)
| ProviderContractError (message : string)
| ValueError (message : string).

Inductive ContinuationState :=
| PR_READY | CI_RUNNING | CI_PASSED | CI_FAILED | CI_BLOCKED_EXTERNAL
| AWAITING_HUMAN_DECISION | CANCELLED | EXACT_HEAD_OVERRIDE_APPROVED.

Definition state_text (s : ContinuationState) : string :=
  match s with
  | PR_READY => "PR_READY"
  | CI_RUNNING => "CI_RUNNING"
  | CI_PASSED => "CI_PASSED"
  | CI_FAILED => "CI_FAILED"
  | CI_BLOCKED_EXTERNAL => "CI_BLOCKED_EXTERNAL"
  | AWAITING_HUMAN_DECISION => "AWAITING_HUMAN_DECISION"
  | CANCELLED => "CANCELLED"
  | EXACT_HEAD_OVERRIDE_APPROVED => "EXACT_HEAD_OVERRIDE_APPROVED"
  end.

Inductive CIStatus := RUNNING | PASSED | FAILED | BLOCKED_EXTERNAL.

Definition status_text (s : CIStatus) : string :=
  match s with
  | RUNNING => "RUNNING"
  | PASSED => "PASSED"
  | FAILED => "FAILED"
  | BLOCKED_EXTERNAL => "BLOCKED_EXTERNAL"
  end.

Inductive AuthorizationDecision := RETRY | CANCEL | EXACT_HEAD_OVERRIDE.

Definition decision_text (d : AuthorizationDecision) : string :=
  match d with
  | RETRY => "retry"
  | CANCEL => "cancel"
  | EXACT_HEAD_OVERRIDE => "exact_head_override"
  end.

#[export] Instance state_eq_dec : EqDecision ContinuationState.
Proof. solve_decision. Defined.
#[export] Instance status_eq_dec : EqDecision CIStatus.
Proof. solve_decision. Defined.
#[export] Instance decision_eq_dec : EqDecision AuthorizationDecision.
Proof. solve_decision. Defined.

(** [AuthorizationDecision(text)], [CIStatus(text)]: lookup by value. *)
Definition decision_of_text (s : string) : option AuthorizationDecision :=
  List.find (fun d => bool_decide (decision_text d = s)) [RETRY; CANCEL; EXACT_HEAD_OVERRIDE].
Definition status_of_text (s : string) : option CIStatus :=
  List.find (fun d => bool_decide (status_text d = s)) [RUNNING; PASSED; FAILED; BLOCKED_EXTERNAL].

(** ** Bindings and observations *)

Record ExactHeadBinding := mkBinding {
  repository : string;
  pr_number : Z;
  head_sha : string;
}.

#[export] Instance binding_eq_dec : EqDecision ExactHeadBinding.
Proof. solve_decision. Defined.

(** [^[0-9a-f]{40}$] *)
Definition FULL_SHA_fullmatch (s : string) : bool := all_chars is_hex s && (py_len s =? 40)%Z.

(** [^[^/\s]+/[^/\s]+$] *)
Definition segment_char (c : ascii) : bool := negb (py_isspace c) && negb (bool_decide (c = "/"%char)).

Fixpoint after_slash (s : string) : option string :=
  match s with
  | EmptyString => None
  | String c rest =>
      if bool_decide (c = "/"%char) then Some rest
      else if segment_char c then after_slash rest else None
  end.

Definition REPOSITORY_fullmatch (s : string) : bool :=
  match s with
  | EmptyString => false
  | String c rest =>
      segment_char c &&
      match after_slash rest with
      | Some name => negb (bool_decide (name = "")) && all_chars segment_char name
      | None => false
      end
  end.

Definition ExactHeadBinding_post_init (b : ExactHeadBinding) : outcome ci_error unit :=
  refuse_if (negb (REPOSITORY_fullmatch (repository b)))
    (ValueError "repository must be an exact owner/name value") >>?
  refuse_if (pr_number b <? 1)%Z (ValueError "pr_number must be a positive integer") >>?
  refuse_if (negb (FULL_SHA_fullmatch (head_sha b)))
    (ValueError "head_sha must be a lowercase full 40-character commit SHA").

Definition binding_to_dict (b : ExactHeadBinding) : dict :=
  [("repository", JStr (repository b)); ("prNumber", JInt (pr_number b)); ("headSha", JStr (head_sha b))].

Record CIObservation := mkObservation {
  o_run_id : string;
  o_binding : ExactHeadBinding;
  o_status : CIStatus;
  o_detail : string;
}.

Definition new_observation (run_id : string) (b : ExactHeadBinding) (s : CIStatus)
    : outcome ci_error CIObservation :=
  refuse_if (negb (nonblank run_id)) (ValueError "run_id is required") >>?
  Ok (mkObservation run_id b s "").

(** [f"{n:03d}"] for a natural number *)
Definition pad3 (n : Z) : string :=
  let s := pretty n in
  (if (py_len s <? 3)%Z then if (py_len s <? 2)%Z then "00" else "0" else "") +:+ s.

(** ** The scripted provider *)

Record FakeCIProvider := mkProvider {
  outcomes : list CIStatus;
  p_binding : option ExactHeadBinding;
  p_run_id : option string;
  next_index : nat;
  run_number : Z;
  calls : list (string * string * ExactHeadBinding);
}.

Definition provider_id : string := "fake-ci-provider".

Inductive outcome_input := OMember (s : CIStatus) | OText (s : string).

Fixpoint parse_outcomes (l : list outcome_input) : outcome ci_error (list CIStatus) :=
  match l with
  | [] => Ok []
  | x :: rest =>
      let? s := match x with
                | OMember s => Ok s
                | OText t => match status_of_text t with
                             | Some s => Ok s
                             | None => Raise (ValueError ("invalid fake CI outcome: " +:+ repr (JStr t)))
                             end
                end in
      let? ss := parse_outcomes rest in
      Ok (s :: ss)
  end.

Definition new_provider (l : list outcome_input) : outcome ci_error FakeCIProvider :=
  refuse_if (bool_decide (length l = 0)) (ValueError "at least one fake CI outcome is required") >>?
  let? parsed := parse_outcomes l in
  refuse_if (negb (bool_decide (head parsed = Some RUNNING)))
    (ValueError "the first fake CI outcome must be RUNNING") >>?
  Ok (mkProvider parsed None None 0 0 []).

Definition provider_start (b : ExactHeadBinding) : M FakeCIProvider ci_error string :=
  let* p := get in
  raise_if (match p_binding p with Some b' => negb (bool_decide (b' = b)) | None => false end)
    (BindingMismatchError "fake provider is already bound to a different repository/PR/head") >>*
  raise_if (negb (bool_decide (outcomes p !! next_index p = Some RUNNING)))
    (ProviderContractError "each fake CI attempt must start with a RUNNING outcome") >>*
  let n := (run_number p + 1)%Z in
  let run := "fake-run-" +:+ pad3 n in
  put (mkProvider (outcomes p) (Some b) (Some run) (S (next_index p)) n
         (calls p ++ [("start", run, b)])) >>*
  ret run.

Definition provider_poll (run_id : string) (b : ExactHeadBinding) : M FakeCIProvider ci_error CIObservation :=
  let* p := get in
  raise_if (negb (bool_decide (p_binding p = Some b)))
    (BindingMismatchError "fake provider poll binding does not match the exact head") >>*
  raise_if (negb (bool_decide (p_run_id p = Some run_id)))
    (ProviderContractError "unknown fake provider run id") >>*
  match outcomes p !! next_index p with
  | None => raise (ProviderContractError "fake provider outcome script is exhausted")
  | Some s =>
      put (mkProvider (outcomes p) (p_binding p) (p_run_id p) (S (next_index p)) (run_number p)
             (calls p ++ [("poll", run_id, b)])) >>*
      lift (new_observation run_id b s)
  end.

(** ** Decisions *)

Record DecisionRequest := mkDecisionRequest {
  request_id : string;
  q_binding : ExactHeadBinding;
  q_state : ContinuationState;
  q_revision : Z;
  allowed_decisions : list AuthorizationDecision;
}.

Record HumanAuthorization := mkAuthorization {
  authorization_id : string;
  h_request_id : string;
  h_binding : ExactHeadBinding;
  h_decision : AuthorizationDecision;
  issued_revision : Z;
  h_actor : string;
}.

Definition HumanAuthorization_post_init (h : HumanAuthorization) : outcome ci_error unit :=
  refuse_if (negb (nonblank (authorization_id h)) || negb (nonblank (h_request_id h)))
    (ValueError "authorization_id and request_id are required") >>?
  refuse_if (negb (nonblank (h_actor h))) (ValueError "actor is required").

Definition HumanAuthorization_to_dict (h : HumanAuthorization) : dict :=
  [("authorizationId", JStr (authorization_id h)); ("requestId", JStr (h_request_id h))]
  ++ binding_to_dict (h_binding h)
  ++ [("decision", JStr (decision_text (h_decision h))); ("issuedRevision", JInt (issued_revision h));
      ("actor", JStr (h_actor h))].

(** ** The audit *)

Record AuditRecord := mkRecord {
  sequence : Z;
  action : string;
  from_state : option ContinuationState;
  to_state : ContinuationState;
  r_revision : Z;
  r_binding : ExactHeadBinding;
  r_actor : string;
  data : json;
  previous_hash : string;
  hash : string;
}.

Definition audit_payload (e : AuditRecord) : dict :=
  [("sequence", JInt (sequence e)); ("action", JStr (action e));
   ("fromState", match from_state e with Some s => JStr (state_text s) | None => JNull end);
   ("toState", JStr (state_text (to_state e))); ("revision", JInt (r_revision e))]
  ++ binding_to_dict (r_binding e)
  ++ [("actor", JStr (r_actor e)); ("data", data e); ("previousHash", JStr (previous_hash e))].

Definition canonical (d : dict) : string := encode (dumps true (JObj d)).

Fixpoint verify_records (index : Z) (previous : string) (es : list AuditRecord) : bool :=
  match es with
  | [] => true
  | e :: rest =>
      if negb (sequence e =? index)%Z || negb (bool_decide (previous_hash e = previous)) then false
      else if negb (bool_decide (hash e = "sha256:" +:+ sha256_hex (canonical (audit_payload e)))) then false
      else verify_records (index + 1) (hash e) rest
  end.

(** ** The workflow *)

Record Workflow := mkWorkflow {
  binding : ExactHeadBinding;
  provider : FakeCIProvider;
  state : ContinuationState;
  revision : Z;
  attempt : Z;
  run_id : option string;
  audit : list AuditRecord;
  decision_number : Z;
  consumed : gset string;
}.

Abbreviation op := (M Workflow ci_error).

Definition set_provider p w := mkWorkflow (binding w) p (state w) (revision w) (attempt w) (run_id w)
  (audit w) (decision_number w) (consumed w).
Definition set_state s n w := mkWorkflow (binding w) (provider w) s n (attempt w) (run_id w)
  (audit w) (decision_number w) (consumed w).
Definition set_attempt n w := mkWorkflow (binding w) (provider w) (state w) (revision w) n (run_id w)
  (audit w) (decision_number w) (consumed w).
Definition set_run_id r w := mkWorkflow (binding w) (provider w) (state w) (revision w) (attempt w) r
  (audit w) (decision_number w) (consumed w).
Definition set_audit l w := mkWorkflow (binding w) (provider w) (state w) (revision w) (attempt w) (run_id w)
  l (decision_number w) (consumed w).
Definition set_decision_number n w := mkWorkflow (binding w) (provider w) (state w) (revision w) (attempt w)
  (run_id w) (audit w) n (consumed w).
Definition set_consumed c w := mkWorkflow (binding w) (provider w) (state w) (revision w) (attempt w)
  (run_id w) (audit w) (decision_number w) c.

Definition opt_text (o : option string) : json := match o with Some s => JStr s | None => JNull end.

(** [json.loads(json.dumps(data, sort_keys=True))] *)
Definition reload (d : dict) : json := norm (JObj d).

(** The record [_record] appends, given the log and the workflow's fields. *)
Definition next_record (l : list AuditRecord) (act : string) (from : option ContinuationState)
    (to : ContinuationState) (rev : Z) (b : ExactHeadBinding) (actor : string) (d : dict) : AuditRecord :=
  let previous := match last l with Some e => hash e | None => "genesis" end in
  let event := mkRecord (Z.of_nat (length l) + 1) act from to rev b actor (reload d) previous "" in
  mkRecord (sequence event) (action event) (from_state event) (to_state event) (r_revision event)
    (r_binding event) (r_actor event) (data event) (previous_hash event)
    ("sha256:" +:+ sha256_hex (canonical (audit_payload event))).

Definition record (act : string) (from : option ContinuationState) (to : ContinuationState)
    (actor : string) (d : dict) : op unit :=
  modify (fun w => set_audit (audit w ++ [next_record (audit w) act from to (revision w) (binding w) actor d]) w).

Definition transition (act : string) (to : ContinuationState) (actor : string) (d : dict) : op unit :=
  let* w := get in
  let from := state w in
  modify (fun w => set_state to (revision w + 1)%Z w) >>*
  record act (Some from) to actor d.

(** [WorkflowContinuation(binding, provider)] *)
Definition new_workflow (b : ExactHeadBinding) (p : FakeCIProvider) : Workflow :=
  fst (record "created" None PR_READY "system"
         [("provider", JStr provider_id); ("remoteCiPassed", JBool false)]
         (mkWorkflow b p PR_READY 0 0 None [] 0 ∅)).

Definition assert_binding (b : ExactHeadBinding) : op unit :=
  let* w := get in
  raise_if (negb (bool_decide (b = binding w)))
    (BindingMismatchError "repository, PR number, and head SHA must match the exact continuation binding").

(** A call on the provider object, from inside the workflow or beside it. *)
Definition on_provider {A} (m : M FakeCIProvider ci_error A) : op A :=
  fun w => let '(p, r) := m (provider w) in (set_provider p w, r).

Definition start_ci (b : ExactHeadBinding) (actor : string) : op CIObservation :=
  assert_binding b >>*
  let* w := get in
  raise_if (negb (bool_decide (state w = PR_READY)))
    (InvalidTransitionError "CI may start only from PR_READY") >>*
  modify (set_attempt (attempt w + 1)%Z) >>*
  let* run := on_provider (provider_start (binding w)) in
  modify (set_run_id (Some run)) >>*
  let* w := get in
  transition "ci_started" CI_RUNNING actor
    [("attempt", JInt (attempt w)); ("runId", JStr run); ("provider", JStr provider_id)] >>*
  lift (new_observation run (binding w) RUNNING).

Definition target (s : CIStatus) : ContinuationState :=
  match s with
  | RUNNING => CI_RUNNING
  | PASSED => CI_PASSED
  | FAILED => CI_FAILED
  | BLOCKED_EXTERNAL => CI_BLOCKED_EXTERNAL
  end.

Definition poll_ci (b : ExactHeadBinding) (actor : string) : op CIObservation :=
  assert_binding b >>*
  let* w := get in
  match run_id w with
  | Some run =>
      raise_if (negb (bool_decide (state w = CI_RUNNING)))
        (InvalidTransitionError "CI may be polled only from CI_RUNNING") >>*
      let* observation := on_provider (provider_poll run (binding w)) in
      raise_if (negb (bool_decide (o_binding observation = binding w))
                || negb (bool_decide (o_run_id observation = run)))
        (ProviderContractError "fake provider observation is not bound to the active exact head") >>*
      transition "ci_observed" (target (o_status observation)) actor
        [("attempt", JInt (attempt w)); ("runId", JStr run); ("provider", JStr provider_id);
         ("providerStatus", JStr (status_text (o_status observation))); ("remoteCiPassed", JBool false)] >>*
      ret observation
  | None => raise (InvalidTransitionError "CI may be polled only from CI_RUNNING")
  end.

Definition await_human (b : ExactHeadBinding) (actor : string) : op DecisionRequest :=
  assert_binding b >>*
  let* w := get in
  raise_if (negb (bool_decide (state w ∈ [CI_FAILED; CI_BLOCKED_EXTERNAL])))
    (InvalidTransitionError "human decision is available only after failed or externally blocked CI") >>*
  transition "awaiting_human_decision" AWAITING_HUMAN_DECISION actor
    [("attempt", JInt (attempt w)); ("runId", opt_text (run_id w))] >>*
  modify (fun w => set_decision_number (decision_number w + 1)%Z w) >>*
  let* w := get in
  ret (mkDecisionRequest ("decision-" +:+ pad3 (decision_number w)) (binding w) (state w) (revision w)
         [RETRY; CANCEL; EXACT_HEAD_OVERRIDE]).

Inductive decision_input := DMember (d : AuthorizationDecision) | DText (s : string).

Definition parse_decision (x : decision_input) : outcome ci_error AuthorizationDecision :=
  match x with
  | DMember d => Ok d
  | DText s => match decision_of_text s with
               | Some d => Ok d
               | None => Raise (ValueError ("unsupported human decision: " +:+ repr (JStr s)))
               end
  end.

Definition authorize (q : DecisionRequest) (decision : decision_input) (actor : string)
    : op HumanAuthorization :=
  let* w := get in
  raise_if (negb (bool_decide (state w = AWAITING_HUMAN_DECISION)))
    (StaleAuthorizationError "decision request is no longer current") >>*
  assert_binding (q_binding q) >>*
  raise_if (negb (q_revision q =? revision w)%Z || negb (bool_decide (q_state q = state w)))
    (StaleAuthorizationError "decision request revision is stale") >>*
  let* parsed := lift (parse_decision decision) in
  raise_if (negb (bool_decide (parsed ∈ allowed_decisions q)))
    (ValueError "human decision is not allowed by the current request") >>*
  raise_if (negb (nonblank actor)) (ValueError "actor is required") >>*
  let authorization := mkAuthorization
    ("authorization-" +:+ pad3 (decision_number w) +:+ "-" +:+ decision_text parsed)
    (request_id q) (binding w) parsed (revision w) actor in
  lift (HumanAuthorization_post_init authorization) >>*
  record "human_authorized" (Some (state w)) (state w) actor
    [("authorization", JObj (HumanAuthorization_to_dict authorization))] >>*
  ret authorization.

Definition validate_authorization (a : HumanAuthorization) : op unit :=
  let* w := get in
  raise_if (negb (bool_decide (state w = AWAITING_HUMAN_DECISION)))
    (StaleAuthorizationError "authorization is no longer usable in the current state") >>*
  raise_if (bool_decide (authorization_id a ∈ consumed w))
    (StaleAuthorizationError "authorization has already been consumed") >>*
  raise_if (negb (bool_decide (h_binding a = binding w)))
    (StaleAuthorizationError "authorization is bound to a different repository/PR/head") >>*
  raise_if (negb (issued_revision a =? revision w)%Z)
    (StaleAuthorizationError "authorization revision is stale") >>*
  raise_if (negb (startswith ("authorization-" +:+ pad3 (decision_number w) +:+ "-") (authorization_id a)))
    (StaleAuthorizationError "authorization was issued for an older decision request").

Definition apply_authorization (b : ExactHeadBinding) (a : HumanAuthorization) : op unit :=
  assert_binding b >>*
  validate_authorization a >>*
  modify (fun w => set_consumed ({[authorization_id a]} ∪ consumed w) w) >>*
  match h_decision a with
  | RETRY =>
      modify (fun w => set_attempt (attempt w + 1)%Z w) >>*
      let* w := get in
      let* run := on_provider (provider_start (binding w)) in
      modify (set_run_id (Some run)) >>*
      transition "retry" CI_RUNNING (h_actor a)
        [("attempt", JInt (attempt w)); ("runId", JStr run); ("provider", JStr provider_id)]
  | CANCEL =>
      transition "cancel" CANCELLED (h_actor a)
        [("reason", JStr "human authorization"); ("remoteCiPassed", JBool false)]
  | EXACT_HEAD_OVERRIDE =>
      transition "exact_head_override" EXACT_HEAD_OVERRIDE_APPROVED (h_actor a)
        [("authorizationId", JStr (authorization_id a)); ("remoteCiPassed", JBool false);
         ("note", JStr "human override is not a CI pass")]
  end.

Definition retry (b : ExactHeadBinding) (a : HumanAuthorization) : op unit :=
  raise_if (negb (bool_decide (h_decision a = RETRY)))
    (InvalidTransitionError "authorization is not a retry decision") >>*
  apply_authorization b a.

Definition cancel (b : ExactHeadBinding) (a : HumanAuthorization) : op unit :=
  raise_if (negb (bool_decide (h_decision a = CANCEL)))
    (InvalidTransitionError "authorization is not a cancel decision") >>*
  apply_authorization b a.

Definition exact_head_override (b : ExactHeadBinding) (a : HumanAuthorization) : op unit :=
  raise_if (negb (bool_decide (h_decision a = EXACT_HEAD_OVERRIDE)))
    (InvalidTransitionError "authorization is not an exact-head override decision") >>*
  apply_authorization b a.

(** [remote_ci_passed] *)
Definition remote_ci_passed (w : Workflow) : bool := false.

(** [self._audit[-1]] of an empty list is never taken: the log starts with one record. *)
Definition snapshot (w : Workflow) : dict :=
  [("binding", JObj (binding_to_dict (binding w))); ("state", JStr (state_text (state w)));
   ("revision", JInt (revision w)); ("attempt", JInt (attempt w)); ("runId", opt_text (run_id w));
   ("provider", JStr provider_id); ("remoteCiPassed", JBool (remote_ci_passed w));
   ("auditLength", JInt (Z.of_nat (length (audit w))));
   ("auditHead", match last (audit w) with Some e => JStr (hash e) | None => JNull end)].

Definition verify_audit (w : Workflow) : bool := verify_records 1 "genesis" (audit w).

(** ** The protocol

    The states a workflow moves between, with the action and data its audit
    records for each move. *)

Inductive edge : ContinuationState -> string -> ContinuationState -> dict -> Prop :=
| edge_start d : edge PR_READY "ci_started" CI_RUNNING d
| edge_observe s d : dict_get "providerStatus" d = Some (JStr (status_text s)) ->
    edge CI_RUNNING "ci_observed" (target s) d
| edge_await s d : s ∈ [CI_FAILED; CI_BLOCKED_EXTERNAL] ->
    edge s "awaiting_human_decision" AWAITING_HUMAN_DECISION d
| edge_retry d : edge AWAITING_HUMAN_DECISION "retry" CI_RUNNING d
| edge_cancel d : edge AWAITING_HUMAN_DECISION "cancel" CANCELLED d
| edge_override d : edge AWAITING_HUMAN_DECISION "exact_head_override" EXACT_HEAD_OVERRIDE_APPROVED d.

(** Nothing a reader of the workflow or its audit sees has changed. *)
Record quiet (w w' : Workflow) : Prop := {
  quiet_binding : binding w' = binding w;
  quiet_state : state w' = state w;
  quiet_revision : revision w' = revision w;
  quiet_audit : audit w' = audit w;
  quiet_decision : decision_number w' = decision_number w;
  quiet_consumed : consumed w ⊆ consumed w';
}.

(** The workflow moved along an edge and recorded it. *)
Record moved (act : string) (to : ContinuationState) (w w' : Workflow) : Prop := {
  moved_binding : binding w' = binding w;
  moved_state : state w' = to;
  moved_revision : revision w' = (revision w + 1)%Z;
  moved_consumed : consumed w ⊆ consumed w';
  moved_audit : exists actor d, edge (state w) act to d /\ wf_json (JObj d) /\
    audit w' = audit w ++ [next_record (audit w) act (Some (state w)) to (revision w + 1)%Z (binding w) actor d];
}.

(** A decision was recorded. *)
Record authorized (a : HumanAuthorization) (w w' : Workflow) : Prop := {
  authorized_awaiting : state w = AWAITING_HUMAN_DECISION;
  authorized_only : w' = set_audit (audit w ++
    [next_record (audit w) "human_authorized" (Some AWAITING_HUMAN_DECISION) AWAITING_HUMAN_DECISION
       (revision w) (binding w) (h_actor a) [("authorization", JObj (HumanAuthorization_to_dict a))]]) w;
}.

Inductive step (w w' : Workflow) : Prop :=
| step_quiet : quiet w w' -> step w w'
| step_moved act to : moved act to w w' -> step w w'
| step_authorized a : authorized a w w' -> step w w'.

Lemma quiet_refl w : quiet w w.
Proof. by split. Qed.
#[local] Hint Resolve quiet_refl : core.

Lemma wp_on_provider {A} (m : M FakeCIProvider ci_error A) Q R w :
  (forall p a, m (provider w) = (p, Ok a) -> Q a (set_provider p w)) ->
  (forall p e, m (provider w) = (p, Raise e) -> R e (set_provider p w)) ->
  wp (on_provider m) Q R w.
Proof. unfold wp, on_provider. destruct (m (provider w)) as [p [a|e]]; auto. Qed.

Lemma nonblank_cons c s : py_isspace c = false -> nonblank (String c s) = true.
Proof.
  intros H. unfold nonblank. apply negb_true_iff, bool_decide_eq_false. unfold py_strip. cbn. rewrite H.
  cbn. rewrite H. by destruct (py_rstrip s).
Qed.

Lemma provider_start_Ok b p p' run :
  provider_start b p = (p', Ok run) -> nonblank run = true.
Proof.
  unfold provider_start. intros H. repeat (apply bind_Ok in H as (? & ? & ? & H)).
  apply ret_Ok in H as [_ ->]. by apply nonblank_cons.
Qed.

Lemma new_observation_Ok run b s : nonblank run = true ->
  new_observation run b s = Ok (mkObservation run b s "").
Proof. unfold new_observation. by intros ->. Qed.

Ltac ci_step :=
  first
  [ match goal with
    | |- wp (on_provider _) _ _ _ => apply wp_on_provider; intros ? ? ?
    | H : provider_start _ _ = (_, Ok _) |- wp (lift (new_observation _ _ _)) _ _ _ =>
        rewrite (new_observation_Ok _ _ _ (provider_start_Ok _ _ _ _ H)); apply wp_lift; intros ? [=]; subst
    | |- wp (assert_binding _) _ _ _ => unfold assert_binding
    | |- wp (transition _ _ _ _) _ _ _ => unfold transition
    | |- wp (record _ _ _ _ _) _ _ _ => unfold record
    | |- wp (validate_authorization _) _ _ _ => unfold validate_authorization
    | H : negb _ = false |- _ => apply negb_false_iff in H
    | H : bool_decide _ = true |- _ => apply bool_decide_eq_true in H
    end
  | wp_step ].

(** Ends the branch that recorded a move. *)
Ltac ci_moved :=
  split; cbn; [done|done|done|set_solver|];
  eexists _, _; split; [|split; [|done]]; [|by apply wf_jsonb_wf];
  match goal with H : state ?w = _ |- edge (state ?w) _ _ _ => rewrite H | _ => idtac end;
  try by constructor.

Lemma wp_start_ci b actor w :
  wp (start_ci b actor) (fun _ => moved "ci_started" CI_RUNNING w) (fun _ => quiet w) w.
Proof.
  unfold start_ci. repeat ci_step; try by split. ci_moved.
Qed.

Lemma provider_poll_Ok run b p p' o : provider_poll run b p = (p', Ok o) -> o_binding o = b /\ o_run_id o = run.
Proof.
  unfold provider_poll. intros H. do 3 (apply bind_Ok in H as (? & ? & ? & H)).
  destruct (_ !! _); [|done]. apply bind_Ok in H as (? & ? & ? & H). apply lift_Ok in H as [_ H].
  unfold new_observation in H. inv_ok. by split.
Qed.

Lemma wp_poll_ci b actor w :
  wp (poll_ci b actor) (fun o => moved "ci_observed" (target (o_status o)) w) (fun _ => quiet w) w.
Proof.
  unfold poll_ci. do 2 ci_step; repeat ci_step; try by split.
  destruct (run_id w) eqn:Hrun; repeat ci_step; try by split. ci_moved.
Qed.

Lemma wp_await_human b actor w :
  wp (await_human b actor)
    (fun q w' => moved "awaiting_human_decision" AWAITING_HUMAN_DECISION w w' /\
       q = mkDecisionRequest ("decision-" +:+ pad3 (decision_number w')) (binding w') (state w') (revision w')
             [RETRY; CANCEL; EXACT_HEAD_OVERRIDE])
    (fun _ => quiet w) w.
Proof.
  unfold await_human. repeat ci_step; try by split.
  split; [|done]. split; cbn; [done|done|done|set_solver|].
  eexists _, _. split; [by constructor|]. split; [|done]. apply wf_jsonb_wf. by destruct (run_id w).
Qed.

Lemma wp_authorize q x actor w :
  wp (authorize q x actor) (fun a => authorized a w) (fun _ => quiet w) w.
Proof.
  unfold authorize. repeat ci_step; try apply quiet_refl.
  split; [done|]. match goal with H : state w = _ |- _ => by rewrite H end.
Qed.

(** What [apply_authorization] does once its checks have passed. *)
Definition applied (a : HumanAuthorization) (w w' : Workflow) : Prop :=
  authorization_id a ∈ consumed w' /\
  match h_decision a with
  | RETRY => moved "retry" CI_RUNNING w w'
  | CANCEL => moved "cancel" CANCELLED w w'
  | EXACT_HEAD_OVERRIDE => moved "exact_head_override" EXACT_HEAD_OVERRIDE_APPROVED w w'
  end.

Lemma wp_apply_authorization b a w :
  wp (apply_authorization b a) (fun _ => applied a w) (fun _ => quiet w) w.
Proof.
  unfold apply_authorization, applied. repeat ci_step; try by split.
  destruct (h_decision a) eqn:Hd; repeat ci_step; try (split; cbn; done || set_solver).
  all: split; [cbn; set_solver|]; ci_moved.
Qed.

(** ** Calls, in any order *)

Inductive call :=
| CStart (b : ExactHeadBinding) (actor : string)
| CPoll (b : ExactHeadBinding) (actor : string)
| CAwait (b : ExactHeadBinding) (actor : string)
| CAuthorize (q : DecisionRequest) (x : decision_input) (actor : string)
| CApply (b : ExactHeadBinding) (a : HumanAuthorization)
| CRetry (b : ExactHeadBinding) (a : HumanAuthorization)
| CCancel (b : ExactHeadBinding) (a : HumanAuthorization)
| COverride (b : ExactHeadBinding) (a : HumanAuthorization)
| CProviderStart (b : ExactHeadBinding)
| CProviderPoll (run : string) (b : ExactHeadBinding).

Definition run_call (w : Workflow) (c : call) : Workflow :=
  match c with
  | CStart b actor => fst (start_ci b actor w)
  | CPoll b actor => fst (poll_ci b actor w)
  | CAwait b actor => fst (await_human b actor w)
  | CAuthorize q x actor => fst (authorize q x actor w)
  | CApply b a => fst (apply_authorization b a w)
  | CRetry b a => fst (retry b a w)
  | CCancel b a => fst (cancel b a w)
  | COverride b a => fst (exact_head_override b a w)
  | CProviderStart b => fst (on_provider (provider_start b) w)
  | CProviderPoll run b => fst (on_provider (provider_poll run b) w)
  end.

Lemma step_of {A} (m : op A) (Q : A -> Workflow -> Prop) w :
  wp m Q (fun _ => quiet w) w -> (forall x w', Q x w' -> step w w') -> step w (fst (m w)).
Proof.
  intros H HQ. apply (wp_final m (step w)). eapply wp_mono; [exact H|done|].
  intros e w'. apply step_quiet.
Qed.

Lemma applied_step a w w' : applied a w w' -> step w w'.
Proof. intros [_ H]. destruct (h_decision a); by eapply step_moved. Qed.

Lemma wp_guarded (g : bool) e (m : op unit) Q w :
  wp m Q (fun _ => quiet w) w -> wp (raise_if g e >>* m) Q (fun _ => quiet w) w.
Proof. intros H. apply wp_bind, wp_raise_if; intros _; [done|exact H]. Qed.

Lemma call_step w c : step w (run_call w c).
Proof.
  destruct c as [b ac|b ac|b ac|q x ac|b a|b a|b a|b a|b|r b]; cbn [run_call].
  - eapply step_of; [apply wp_start_ci|]. intros ? w'. apply step_moved.
  - eapply step_of; [apply wp_poll_ci|]. intros o w'. apply step_moved.
  - eapply step_of; [apply wp_await_human|]. intros q w' [H _]. by eapply step_moved.
  - eapply step_of; [apply wp_authorize|]. intros a w'. apply step_authorized.
  - eapply step_of; [apply wp_apply_authorization|]. intros ? w'. apply applied_step.
  - eapply step_of; [apply wp_guarded, wp_apply_authorization|]. intros ? w'. apply applied_step.
  - eapply step_of; [apply wp_guarded, wp_apply_authorization|]. intros ? w'. apply applied_step.
  - eapply step_of; [apply wp_guarded, wp_apply_authorization|]. intros ? w'. apply applied_step.
  - unfold on_provider. destruct (provider_start b _). by apply step_quiet.
  - unfold on_provider. destruct (provider_poll r b _). by apply step_quiet.
Qed.

(** A workflow some sequence of calls leads to. *)
Definition reachable (b : ExactHeadBinding) (p : FakeCIProvider) (w : Workflow) : Prop :=
  exists tr, w = run_trace run_call (new_workflow b p) tr.

(** ** What an audit says *)

(** [history b l s n]: the records [l] are all of binding [b], and following them
    from the creation leads along the protocol to state [s] at revision [n]. *)
Inductive history (b : ExactHeadBinding) : list AuditRecord -> ContinuationState -> Z -> Prop :=
| history_created r :
    r_binding r = b -> action r = "created" -> from_state r = None -> to_state r = PR_READY ->
    r_revision r = 0%Z ->
    history b [r] PR_READY 0
| history_moved l s n r d :
    history b l s n -> r_binding r = b -> from_state r = Some s -> edge s (action r) (to_state r) d ->
    wf_json (JObj d) -> data r = reload d -> r_revision r = (n + 1)%Z ->
    history b (l ++ [r]) (to_state r) (n + 1)
| history_authorized l n r :
    history b l AWAITING_HUMAN_DECISION n -> r_binding r = b -> action r = "human_authorized" ->
    from_state r = Some AWAITING_HUMAN_DECISION -> to_state r = AWAITING_HUMAN_DECISION ->
    r_revision r = n ->
    history b (l ++ [r]) AWAITING_HUMAN_DECISION n.

#[export] Instance record_chain : ChainEvent AuditRecord := {|
  ce_sequence r := JInt (sequence r);
  ce_previous r := JStr (previous_hash r);
  ce_hash r := JStr (hash r);
  ce_payload := audit_payload;
|}.

Lemma verify_records_chain i p es : verify_records i p es = verify_from i (JStr p) es.
Proof.
  revert i p. induction es as [|e es IH]; intros i p; [done|].
  cbn [verify_records verify_from ce_sequence ce_previous ce_hash record_chain].
  unfold expected_hash. rewrite !py_eqb_str, py_eqb_int.
  change (chain_document e) with (canonical (audit_payload e)).
  destruct (sequence e =? i)%Z, (bool_decide (previous_hash e = p)); cbn [negb orb]; try done.
  destruct (bool_decide (hash e = _)); cbn [negb]; [apply IH|done].
Qed.

Lemma head_hash_record (l : list AuditRecord) :
  head_hash (JStr "genesis") l = JStr (match last l with Some e => hash e | None => "genesis" end).
Proof. unfold head_hash. by destruct (last l). Qed.

Lemma next_record_verifies l act from to n b actor d :
  verify_records 1 "genesis" l = true ->
  verify_records 1 "genesis" (l ++ [next_record l act from to n b actor d]) = true.
Proof.
  rewrite !verify_records_chain. intros Hv. apply verify_append; [done| | |].
  - cbn [ce_sequence record_chain next_record sequence]. f_equal. lia.
  - rewrite head_hash_record. done.
  - done.
Qed.

Record consistent (w : Workflow) : Prop := {
  consistent_verified : verify_audit w = true;
  consistent_history : history (binding w) (audit w) (state w) (revision w);
  consistent_data : Forall (fun r => norm (data r) = data r) (audit w);
}.

Lemma new_workflow_consistent b p : consistent (new_workflow b p).
Proof.
  split.
  - unfold verify_audit, new_workflow. cbn [fst record modify set_audit audit app].
    by apply (next_record_verifies []).
  - by constructor.
  - repeat constructor.
Qed.

Lemma step_consistent w w' : consistent w -> step w w' -> consistent w'.
Proof.
  intros [Hv Hh Hd] [[Hb Hs Hr Ha _ _]|act to [Hb Hs Hr _ (ac & d & He & Hw & Ha)]|a [Hst ->]];
    unfold verify_audit in *.
  - split; unfold verify_audit; by rewrite ?Hb, ?Hs, ?Hr, ?Ha.
  - split; unfold verify_audit; rewrite ?Hb, ?Hs, ?Hr, ?Ha.
    + by apply next_record_verifies.
    + by eapply (history_moved _ _ _ _ (next_record (audit w) act (Some (state w)) to (revision w + 1)
        (binding w) ac d)).
    + apply Forall_app. split; [done|]. constructor; [|constructor]. cbn [data next_record]. by apply norm_idem.
  - split; unfold verify_audit; cbn [audit set_audit binding state revision].
    + by apply next_record_verifies.
    + rewrite Hst in *. by apply history_authorized.
    + apply Forall_app. split; [done|]. constructor; [|constructor].
      cbn [data next_record]. apply norm_idem. by apply wf_jsonb_wf.
Qed.

Lemma reachable_consistent b p w : reachable b p w -> consistent w.
Proof.
  intros [tr ->]. apply run_trace_invariant; [|apply new_workflow_consistent].
  intros w c Hc. eapply step_consistent; [exact Hc|apply call_step].
Qed.

Lemma step_binding w w' : step w w' -> binding w' = binding w.
Proof. by intros [[]|act to []|a [_ ->]]. Qed.

Lemma reachable_binding b p w : reachable b p w -> binding w = b.
Proof.
  intros [tr ->]. apply (run_trace_invariant _ (fun w => binding w = b)); [|done].
  intros w c <-. apply step_binding, call_step.
Qed.

(** The records a call adds. *)
Lemma step_appends w w' :
  step w w' -> exists l, audit w' = audit w ++ l /\ length l <= 1 /\
    (l = [] -> state w' = state w /\ revision w' = revision w).
Proof.
  intros [[]|act to [_ _ _ _ (ac & d & _ & _ & Ha)]|a [_ ->]].
  - exists []. rewrite app_nil_r. repeat split; [done|cbn; lia|done..].
  - eexists. split; [exact Ha|]. split; [cbn; lia|done].
  - eexists. split; [done|]. split; [cbn; lia|done].
Qed.

(** C10 The audit tells what happened: in any reachable workflow the hash chain
    verifies, the records lead along the protocol's moves to the present state and
    revision for the one bound head, and a further call of any kind appends at most one
    record, and changes the state or the revision only by appending one. *)
Theorem audit_tells_history (b : ExactHeadBinding) (p : FakeCIProvider) (w : Workflow) :
  reachable b p w ->
  verify_audit w = true /\ history b (audit w) (state w) (revision w) /\
  forall c, exists l, audit (run_call w c) = audit w ++ l /\ length l <= 1 /\
    (l = [] -> state (run_call w c) = state w /\ revision (run_call w c) = revision w).
Proof.
  intros Hr. destruct (reachable_consistent _ _ _ Hr) as [Hv Hh _].
  rewrite (reachable_binding _ _ _ Hr) in Hh. split; [done|]. split; [done|].
  intros c. apply step_appends, call_step.
Qed.

Definition head_a : ExactHeadBinding := mkBinding "acme/app" 7 "0123456789abcdef0123456789abcdef01234567".
Definition script : FakeCIProvider :=
  mkProvider [RUNNING; FAILED; RUNNING; PASSED] None None 0 0 [].
Definition ask : DecisionRequest :=
  mkDecisionRequest "decision-001" head_a AWAITING_HUMAN_DECISION 3 [RETRY; CANCEL; EXACT_HEAD_OVERRIDE].
Definition grant (d : AuthorizationDecision) : HumanAuthorization :=
  mkAuthorization ("authorization-001-" +:+ decision_text d) "decision-001" head_a d 3 "user:ada".
Definition until_decision : list call :=
  [CStart head_a "system"; CPoll head_a "system"; CAwait head_a "system"].
Definition override_calls : list call :=
  until_decision ++ [CAuthorize ask (DText "exact_head_override") "user:ada";
                     CApply head_a (grant EXACT_HEAD_OVERRIDE)].

Lemma audit_tells_history_witness :
  verify_audit (run_trace run_call (new_workflow head_a script) until_decision) = true /\
  state (run_trace run_call (new_workflow head_a script) until_decision) = AWAITING_HUMAN_DECISION.
Proof.
  destruct (audit_tells_history head_a script (run_trace run_call (new_workflow head_a script) until_decision))
    as [H _]; [by exists until_decision|]. split; [exact H|reflexivity].
Defined.

Definition terminal (s : ContinuationState) : Prop :=
  s ∈ [CI_PASSED; CANCELLED; EXACT_HEAD_OVERRIDE_APPROVED].

Lemma no_edge_from_terminal s act to d : edge s act to d -> terminal s -> False.
Proof.
  unfold terminal. rewrite !elem_of_cons, elem_of_nil.
  intros He Hs. destruct He as [d|s' d _|s d Hin|d|d|d]; [naive_solver..| | | |]; try naive_solver.
  rewrite !elem_of_cons, elem_of_nil in Hin. naive_solver.
Qed.

Lemma step_terminal w w' : terminal (state w) -> step w w' ->
  state w' = state w /\ revision w' = revision w /\ audit w' = audit w.
Proof.
  intros Ht [[]|act to [_ _ _ _ (ac & d & He & _)]|a [Hst _]]; [done| |].
  - destruct (no_edge_from_terminal _ _ _ _ He Ht).
  - unfold terminal in Ht. rewrite Hst in Ht. by rewrite !elem_of_cons, elem_of_nil in Ht; naive_solver.
Qed.

(** A passed, cancelled or overridden workflow is final: no sequence of calls,
    authorizations included, changes its state, its revision or its audit. *)
Theorem terminal_workflow_final (w : Workflow) (tr : list call) :
  terminal (state w) ->
  let w' := run_trace run_call w tr in
  state w' = state w /\ revision w' = revision w /\ audit w' = audit w.
Proof.
  intros Ht w'. unfold w'.
  apply (run_trace_invariant _ (fun x => state x = state w /\ revision x = revision w /\ audit x = audit w)); [|done].
  intros x c (Hs & Hr & Ha). rewrite <-Hs in Ht.
  destruct (step_terminal x (run_call x c) Ht (call_step x c)) as (-> & -> & ->). done.
Qed.

Lemma terminal_workflow_final_witness :
  state (run_trace run_call (run_trace run_call (new_workflow head_a script) override_calls) override_calls)
  = EXACT_HEAD_OVERRIDE_APPROVED.
Proof.
  etransitivity; [apply terminal_workflow_final|].
  - apply (bool_decide_unpack _). vm_compute. constructor.
  - vm_compute. reflexivity.
Defined.

(** *** What the states mean *)

Definition moved_to (s : ContinuationState) (l : list AuditRecord) : Prop :=
  exists r, r ∈ l /\ to_state r = s.

Lemma moved_to_app s l1 l2 : moved_to s (l1 ++ l2) <-> moved_to s l1 \/ moved_to s l2.
Proof. unfold moved_to. setoid_rewrite elem_of_app. naive_solver. Qed.
Lemma moved_to_one s r : moved_to s [r] <-> to_state r = s.
Proof. unfold moved_to. setoid_rewrite list_elem_of_singleton. naive_solver. Qed.

Lemma history_passed b l s n : history b l s n -> moved_to CI_PASSED l -> s = CI_PASSED.
Proof.
  intros H. induction H as [r Hb Ha Hf Ht Hr|l s n r d Hh IH Hb Hf He Hw Hd Hr|l n r Hh IH Hb Ha Hf Ht Hr];
    rewrite ?moved_to_app, ?moved_to_one; [congruence| |].
  - intros [Hp|Hp]; [|done]. rewrite (IH Hp) in He. exfalso. eapply no_edge_from_terminal; [exact He|]. left.
  - intros [Hp|Hp]; [exact (IH Hp)|congruence].
Qed.

(** Awaiting, cancelled and overridden workflows have failed or blocked CI behind them. *)
Lemma history_asked b l s n : history b l s n ->
  s ∈ [AWAITING_HUMAN_DECISION; CANCELLED; EXACT_HEAD_OVERRIDE_APPROVED] ->
  moved_to CI_FAILED l \/ moved_to CI_BLOCKED_EXTERNAL l.
Proof.
  intros H. induction H as [r Hb Ha Hf Ht Hr|l s n r d Hh IH Hb Hf He Hw Hd Hr|l n r Hh IH Hb Ha Hf Ht Hr];
    rewrite ?moved_to_app; intros Hin.
  - by rewrite !elem_of_cons, elem_of_nil in Hin; naive_solver.
  - assert (Hcur : moved_to s l \/ s = PR_READY).
    { inversion Hh; subst; [by right|left..]; rewrite moved_to_app, moved_to_one; by right. }
    inversion He; subst.
    + match goal with H : _ = to_state r |- _ => rewrite <-H in Hin end.
      by rewrite !elem_of_cons, elem_of_nil in Hin; naive_solver.
    + match goal with H : _ = to_state r |- _ => rewrite <-H in Hin end.
      by destruct s0; rewrite !elem_of_cons, elem_of_nil in Hin; naive_solver.
    + match goal with H : _ ∈ [CI_FAILED; _] |- _ => rewrite !elem_of_cons, elem_of_nil in H end.
      destruct Hcur as [Hc|Hc]; naive_solver.
    + match goal with H : _ = to_state r |- _ => rewrite <-H in Hin end.
      by rewrite !elem_of_cons, elem_of_nil in Hin; naive_solver.
    + destruct IH as [?|?]; [left| |]; tauto.
    + destruct IH as [?|?]; [left| |]; tauto.
  - destruct IH as [?|?]; [left| |]; tauto.
Qed.

Lemma history_pass_observed b l n : history b l CI_PASSED n ->
  exists l0 r fs, l = l0 ++ [r] /\ action r = "ci_observed" /\ data r = JObj fs /\
    dict_get "providerStatus" fs = Some (JStr "PASSED").
Proof.
  intros H. inversion H as [|l0 s n0 r d Hh Hb Hf He Hw Hd Hr El Es En|]; subst.
  exists l0, r, (sort_fields (norm_fields d)). split; [done|].
  rewrite Es in He. inversion He as [|s' d' Hst E1 E2 Ht E4| | | |]; subst.
  split; [done|]. rewrite Hd. split; [apply norm_obj|].
  apply wf_json_obj in Hw as [Hnd _]. rewrite dict_get_sort_norm, Hst by done.
  by destruct s'.
Qed.

(** An override is not a CI pass: a workflow approved by exact-head override
    reached that state after its CI failed or was blocked, without CI having passed
    at any point of its history, and its snapshot says so; while the state
    CI_PASSED is reached only by an observation of the provider that says PASSED. *)
Theorem override_is_not_ci_pass (b : ExactHeadBinding) (p : FakeCIProvider) (w : Workflow) :
  reachable b p w ->
  (state w = EXACT_HEAD_OVERRIDE_APPROVED ->
     ~ moved_to CI_PASSED (audit w) /\
     (moved_to CI_FAILED (audit w) \/ moved_to CI_BLOCKED_EXTERNAL (audit w)) /\
     dict_get "remoteCiPassed" (snapshot w) = Some (JBool false)) /\
  (state w = CI_PASSED ->
     exists l r fs, audit w = l ++ [r] /\ action r = "ci_observed" /\ data r = JObj fs /\
       dict_get "providerStatus" fs = Some (JStr "PASSED")).
Proof.
  intros Hr. destruct (reachable_consistent _ _ _ Hr) as [_ Hh _]. split; intros Hs; rewrite Hs in Hh.
  - split; [|split; [|done]].
    + intros Hp. by discriminate (history_passed _ _ _ _ Hh Hp).
    + apply (history_asked _ _ _ _ Hh). rewrite !elem_of_cons. tauto.
  - by eapply history_pass_observed.
Qed.

Lemma override_is_not_ci_pass_witness :
  state (run_trace run_call (new_workflow head_a script) override_calls) = EXACT_HEAD_OVERRIDE_APPROVED /\
  ~ moved_to CI_PASSED (audit (run_trace run_call (new_workflow head_a script) override_calls)).
Proof.
  assert (Hs : state (run_trace run_call (new_workflow head_a script) override_calls)
               = EXACT_HEAD_OVERRIDE_APPROVED) by (vm_compute; reflexivity).
  split; [exact Hs|].
  destruct (override_is_not_ci_pass head_a script (run_trace run_call (new_workflow head_a script) override_calls))
    as [H _]; [by exists override_calls|]. exact (proj1 (H Hs)).
Defined.

(** *** Authorizations *)

(** [apply_authorization], by its conditions. *)
Definition usable (b : ExactHeadBinding) (a : HumanAuthorization) (w : Workflow) : Prop :=
  b = binding w /\ state w = AWAITING_HUMAN_DECISION /\ ~ (authorization_id a ∈ consumed w) /\
  h_binding a = binding w /\ issued_revision a = revision w /\
  startswith ("authorization-" +:+ pad3 (decision_number w) +:+ "-") (authorization_id a) = true.

#[export] Instance usable_dec b a w : Decision (usable b a w).
Proof. unfold usable. apply _. Defined.

Definition stale (e : ci_error) : bool :=
  match e with StaleAuthorizationError _ | BindingMismatchError _ => true | _ => false end.

Lemma wp_validate a w :
  wp (validate_authorization a)
    (fun _ w' => w' = w /\ usable (binding w) a w)
    (fun e w' => w' = w /\ stale e = true /\ ~ usable (binding w) a w) w.
Proof.
  unfold validate_authorization, usable. repeat ci_step; split_bool;
    try (split; [done|split; [done|intros (_ & ? & ? & ? & ? & ?); congruence]]). naive_solver.
Qed.

Lemma apply_unusable b a w : ~ usable b a w -> exists e, apply_authorization b a w = (w, Raise e) /\ stale e = true.
Proof.
  intros Hu.
  assert (H : wp (apply_authorization b a) (fun _ _ => False) (fun e w' => w' = w /\ stale e = true) w).
  { unfold apply_authorization. unfold assert_binding. repeat (apply wp_bind || apply wp_get || apply wp_raise_if); intros Hb;
      split_bool; [done|]. subst b. apply wp_bind. eapply wp_mono; [apply wp_validate| |].
    - intros _ w' [-> Hu']. by destruct (Hu Hu').
    - intros e w' (-> & He & _). done. }
  unfold wp in H. destruct (apply_authorization b a w) as [w' [x|e]]; [done|].
  destruct H as [-> He]. by exists e.
Qed.

Lemma apply_Ok b a w w' x : apply_authorization b a w = (w', Ok x) -> usable b a w /\ applied a w w'.
Proof.
  intros H. pose proof (wp_apply_authorization b a w) as W. unfold wp in W. rewrite H in W. split; [|done].
  destruct (decide (usable b a w)) as [Hu|Hu]; [done|].
  destruct (apply_unusable _ _ _ Hu) as (e & He & _). congruence.
Qed.

Lemma consumed_grows tr w : consumed w ⊆ consumed (run_trace run_call w tr).
Proof.
  apply (run_trace_invariant _ (fun x => consumed w ⊆ consumed x)); [|done].
  intros x c Hx. transitivity (consumed x); [exact Hx|].
  destruct (call_step x c) as [[]|act to []|a [_ ->]]; done.
Qed.

(** An authorization is used at most once: after one has been applied, whatever
    calls follow, applying it or any other under its identifier is refused as stale or
    misbound, and the refusal changes nothing. *)
Theorem authorization_single_use (w w1 : Workflow) (b : ExactHeadBinding) (a : HumanAuthorization)
    (tr : list call) (b' : ExactHeadBinding) (a' : HumanAuthorization) :
  apply_authorization b a w = (w1, Ok tt) -> authorization_id a' = authorization_id a ->
  let w2 := run_trace run_call w1 tr in
  exists e, apply_authorization b' a' w2 = (w2, Raise e) /\ stale e = true.
Proof.
  intros H Hid w2. apply apply_unusable. intros (_ & _ & Hc & _). apply Hc. rewrite Hid.
  apply (consumed_grows tr). by apply apply_Ok in H as [_ [Hin _]].
Qed.

Lemma authorization_single_use_witness :
  exists e, snd (apply_authorization head_a (grant RETRY)
    (run_trace run_call (new_workflow head_a script)
       (until_decision ++ [CRetry head_a (grant RETRY)]))) = Raise e /\ stale e = true.
Proof.
  destruct (apply_authorization head_a (grant RETRY) (run_trace run_call (new_workflow head_a script) until_decision))
    as [w1 [[]|e]] eqn:E; [|vm_compute in E; discriminate E].
  destruct (authorization_single_use _ w1 head_a (grant RETRY) [] head_a (grant RETRY) E eq_refl) as (e & He & Hs).
  exists e. split; [|exact Hs].
  rewrite run_trace_app. cbn [run_trace foldl run_call retry] in *.
  replace (fst (retry head_a (grant RETRY) _)) with w1; [by rewrite He|].
  unfold retry. rewrite bind_raise_if_pass by reflexivity. by rewrite E.
Defined.

(** *** Numbered identifiers

    [read_number] reads the number back out of an identifier's prefix, so
    prefixes of different numbers are different. *)

Fixpoint read_number (acc : N) (s : string) : option N :=
  match s with
  | EmptyString => None
  | String c rest =>
      if bool_decide (c = "-"%char) then Some acc
      else read_number (acc * 10 + (N_of_ascii c - 48)) rest
  end.

Lemma read_pretty_go x s : read_number 0 (pretty_N_go x s) = read_number x s.
Proof.
  revert s. induction (N.lt_wf_0 x) as [x _ IH]; intros s.
  assert (x = 0 \/ 0 < x)%N as [->|Hx] by lia; [done|].
  rewrite pretty_N_go_step by done. rewrite IH by by apply N.div_lt.
  assert (Hm : (x `mod` 10 < 10)%N) by by apply N.mod_lt.
  assert (Hc : forall d s a, (d < 10)%N -> read_number a (String (pretty_N_char d) s) = read_number (a * 10 + d) s).
  { intros d s0 a Hd.
    assert (d = 0 \/ d = 1 \/ d = 2 \/ d = 3 \/ d = 4 \/ d = 5 \/ d = 6 \/ d = 7 \/ d = 8 \/ d = 9)%N as Hd' by lia.
    repeat destruct Hd' as [->|Hd']; try done. by subst d. }
  rewrite Hc by done. f_equal. rewrite (N.div_mod x 10) at 3 by done. lia.
Qed.

Lemma pretty_go_app x s k : pretty_N_go x s +:+ k = pretty_N_go x (s +:+ k).
Proof.
  revert s. induction (N.lt_wf_0 x) as [x _ IH]; intros s.
  assert (x = 0 \/ 0 < x)%N as [->|Hx] by lia; [done|].
  rewrite !(pretty_N_go_step x) by done. apply IH. by apply N.div_lt.
Qed.

Lemma read_pad3 z k : (0 <= z)%Z -> read_number 0 (pad3 z +:+ ("-" +:+ k)) = Some (Z.to_N z).
Proof.
  intros Hz. unfold pad3.
  assert (Hp : read_number 0 (pretty z +:+ ("-" +:+ k)) = Some (Z.to_N z)).
  { destruct z as [|p|p]; [done| |lia].
    change (pretty (Z.pos p)) with (if decide (N.pos p = 0)%N then "0" else pretty_N_go (N.pos p) "").
    rewrite decide_False by done. rewrite pretty_go_app, read_pretty_go. done. }
  repeat case_match; rewrite <-Hp; done.
Qed.

Definition issue_prefix (n : Z) : string := "authorization-" +:+ pad3 n +:+ "-".

Lemma prefix_split p s : String.prefix p s = true -> exists r, s = p +:+ r.
Proof.
  revert s. induction p as [|c p IH]; intros s H; [by exists s|].
  destruct s as [|c' s]; [done|]. cbn in H. destruct (ascii_dec c c') as [->|]; [|done].
  destruct (IH _ H) as [r ->]. by exists r.
Qed.

Lemma prefix_app p r : String.prefix p (p +:+ r) = true.
Proof.
  induction p as [|c p IH]; [by destruct r|]. rewrite str_cons_app. cbn.
  by destruct (ascii_dec c c).
Qed.

Lemma issue_prefix_unique n m s :
  (0 <= n)%Z -> (0 <= m)%Z -> startswith (issue_prefix n) s = true ->
  startswith (issue_prefix m) s = true -> n = m.
Proof.
  intros Hn Hm H1 H2. apply prefix_split in H1 as [r1 ->]. apply prefix_split in H2 as [r2 H2].
  unfold issue_prefix in H2. rewrite !str_app_assoc in H2.
  apply str_app_inj_l in H2. apply (f_equal (read_number 0)) in H2. rewrite !read_pad3 in H2 by done.
  injection H2 as H2. lia.
Qed.

(** What a call may add to the consumed identifiers: one of the present decision. *)
Record grown (w w' : Workflow) : Prop := {
  grown_number : (decision_number w <= decision_number w')%Z;
  grown_consumed : forall id, id ∈ consumed w' ->
    id ∈ consumed w \/ startswith (issue_prefix (decision_number w)) id = true;
}.

Lemma wp_apply_grown b a w : wp (apply_authorization b a) (fun _ => grown w) (fun _ => grown w) w.
Proof.
  assert (Hg : forall w', consumed w' = {[authorization_id a]} ∪ consumed w ->
    decision_number w' = decision_number w -> 
    startswith (issue_prefix (decision_number w)) (authorization_id a) = true -> grown w w').
  { intros w' Hc Hn Hp. split; [lia|]. intros id. rewrite Hc. set_unfold. intros [->|]; tauto. }
  unfold apply_authorization. repeat ci_step; try by (split; [done|auto]).
  destruct (h_decision a); repeat ci_step; by apply Hg.
Qed.

Lemma step_grown w w' : consumed w' = consumed w -> (decision_number w <= decision_number w')%Z -> grown w w'.
Proof. intros Hc Hn. split; [done|]. intros id. rewrite Hc. auto. Qed.

Ltac ci_grown := repeat ci_step; apply step_grown; cbn; (done || lia).

Lemma call_grown w c : grown w (run_call w c).
Proof.
  assert (Hf : forall (A : Type) (m : op A), wp m (fun _ => grown w) (fun _ => grown w) w -> grown w (fst (m w)))
    by (intros A m; apply wp_final).
  destruct c as [b ac|b ac|b ac|q x ac|b a|b a|b a|b a|b|r b]; cbn [run_call]; apply Hf.
  - unfold start_ci. ci_grown.
  - unfold poll_ci. do 2 ci_step; repeat ci_step; try by apply step_grown.
    destruct (run_id w); ci_grown.
  - unfold await_human. ci_grown.
  - unfold authorize. ci_grown.
  - apply wp_apply_grown.
  - apply wp_bind, wp_raise_if; intros _; [by apply step_grown|apply wp_apply_grown].
  - apply wp_bind, wp_raise_if; intros _; [by apply step_grown|apply wp_apply_grown].
  - apply wp_bind, wp_raise_if; intros _; [by apply step_grown|apply wp_apply_grown].
  - ci_grown.
  - ci_grown.
Qed.

Definition numbered (w : Workflow) : Prop :=
  (0 <= decision_number w)%Z /\
  forall id, id ∈ consumed w -> exists n, (0 <= n <= decision_number w)%Z /\
    startswith (issue_prefix n) id = true.

Lemma reachable_numbered b p w : reachable b p w -> numbered w.
Proof.
  intros [tr ->]. apply run_trace_invariant; [|by split].
  intros x c [Hz Hx]. destruct (call_grown x c) as [Hn Hc]. split; [lia|].
  intros id Hid. destruct (Hc id Hid) as [H|H].
  - destruct (Hx id H) as (n & ? & ?). exists n. split; [lia|done].
  - exists (decision_number x). split; [lia|done].
Qed.

Definition end_state (d : AuthorizationDecision) : ContinuationState :=
  match d with RETRY => CI_RUNNING | CANCEL => CANCELLED | EXACT_HEAD_OVERRIDE => EXACT_HEAD_OVERRIDE_APPROVED end.

(** The provider can start another run, if that is what the decision asks for. *)
Definition can_resume (d : AuthorizationDecision) (w : Workflow) : Prop :=
  d = RETRY -> exists p run, provider_start (binding w) (provider w) = (p, Ok run).

Lemma apply_usable b a w : usable b a w -> can_resume (h_decision a) w ->
  exists w', apply_authorization b a w = (w', Ok tt) /\ state w' = end_state (h_decision a).
Proof.
  intros Hu Hres. pose proof (apply_Ok b a w) as HOk.
  assert (H : wp (apply_authorization b a) (fun _ _ => True) (fun _ _ => False) w).
  { unfold apply_authorization. pose proof Hu as (Hb & Hs & Hrest). subst b.
    repeat (apply wp_bind || apply wp_get || apply wp_raise_if || unfold assert_binding); intros Hb'; split_bool; [done|].
    apply wp_bind. eapply wp_mono; [apply wp_validate| |].
    - intros _ w' [-> _]. repeat ci_step. destruct (h_decision a); repeat ci_step; try done.
      destruct (Hres eq_refl) as (pr & run & Hpr). cbn [provider set_attempt set_consumed binding] in *. congruence.
    - by intros e w' (_ & _ & Hn). }
  unfold wp in H. destruct (apply_authorization b a w) as [w' [[]|e]]; [|done]. exists w'. split; [done|].
  destruct (HOk w' tt eq_refl) as [_ [_ Ha]]. by destruct (h_decision a), Ha.
Qed.

Lemma startswith_issue n d : startswith (issue_prefix n) ("authorization-" +:+ pad3 n +:+ "-" +:+ decision_text d) = true.
Proof. unfold issue_prefix, startswith. rewrite <-!str_app_assoc. apply prefix_app. Qed.

(** [authorize] on the current request succeeds, and its result is usable if no
    authorization of this request was used. *)
Lemma authorize_fresh w q d actor :
  state w = AWAITING_HUMAN_DECISION -> q_binding q = binding w -> q_state q = state w ->
  q_revision q = revision w -> d ∈ allowed_decisions q -> nonblank (request_id q) = true ->
  nonblank actor = true ->
  (forall id, id ∈ consumed w -> startswith (issue_prefix (decision_number w)) id = false) ->
  exists w2 a, authorize q (DMember d) actor w = (w2, Ok a) /\ h_decision a = d /\ h_actor a = actor /\
    usable (binding w) a w2 /\ binding w2 = binding w.
Proof.
  intros Hs Hb Hqs Hqr Hd Hid Hac Hfresh. unfold authorize. run_m.
  rewrite bind_raise_if_pass by (rewrite bool_decide_true by done; done).
  unfold assert_binding.
  rewrite (bind_run _ _ w w tt) by (run_m; apply raise_if_pass; rewrite bool_decide_true by done; done).
  rewrite bind_raise_if_pass by (rewrite Hqr, Z.eqb_refl, bool_decide_true by done; done).
  cbn [parse_decision]. run_m.
  rewrite bind_raise_if_pass by (rewrite bool_decide_true by done; done).
  rewrite bind_raise_if_pass by (by rewrite Hac).
  set (a := mkAuthorization _ _ _ _ _ _).
  replace (HumanAuthorization_post_init a) with (Ok tt : outcome ci_error unit).
  2: { unfold HumanAuthorization_post_init, a. cbn [authorization_id h_request_id h_actor].
       rewrite Hid, Hac.
       assert (Hn : forall s, nonblank ("authorization-" +:+ s) = true) by (intros s; by apply nonblank_cons).
       by rewrite Hn. }
  run_m. unfold record. run_m. eexists _, a. split; [done|]. repeat (split; [done|]). split; [|done].
  repeat (split; [done|]). split; [|split; [done|split; [done|apply startswith_issue]]].
  cbn [consumed set_audit]. intros Hin. specialize (Hfresh _ Hin).
  unfold a in Hfresh. cbn [authorization_id] in Hfresh. by rewrite startswith_issue in Hfresh.
Qed.

Lemma step_await b ac w w1 q : await_human b ac w = (w1, Ok q) ->
  decision_number w1 = (decision_number w + 1)%Z /\ consumed w1 = consumed w.
Proof.
  intros H. assert (W : wp (await_human b ac)
    (fun _ w' => decision_number w' = (decision_number w + 1)%Z /\ consumed w' = consumed w)
    (fun _ _ => True) w) by (unfold await_human; by repeat ci_step).
  unfold wp in W. by rewrite H in W.
Qed.

(** The human path is open: when a reachable workflow asks for a decision, a named
    human can authorize any of the three decisions on that request, and applying the
    authorization takes the workflow to the state the decision names; a retry also
    needs a provider that can start a run. *)
Theorem fresh_decision_applies (b : ExactHeadBinding) (p : FakeCIProvider) (w w1 : Workflow)
    (b1 : ExactHeadBinding) (actor human : string) (q : DecisionRequest) (d : AuthorizationDecision) :
  reachable b p w -> await_human b1 actor w = (w1, Ok q) -> nonblank human = true ->
  exists w2 a, authorize q (DMember d) human w1 = (w2, Ok a) /\ h_decision a = d /\ h_actor a = human /\
    (can_resume d w2 ->
     exists w3, apply_authorization b a w2 = (w3, Ok tt) /\ state w3 = end_state d).
Proof.
  intros Hr Haw Hh. destruct (reachable_numbered _ _ _ Hr) as [Hz Hnum].
  pose proof (wp_await_human b1 actor w) as W. unfold wp in W. rewrite Haw in W. destruct W as [Hm ->].
  destruct (step_await _ _ _ _ _ Haw) as [Hn Hc].
  assert (Hb : binding w1 = b) by (rewrite (moved_binding _ _ _ _ Hm); by eapply reachable_binding).
  edestruct (authorize_fresh w1 (mkDecisionRequest ("decision-" +:+ pad3 (decision_number w1)) (binding w1)
      (state w1) (revision w1) [RETRY; CANCEL; EXACT_HEAD_OVERRIDE]) d human)
    as (w2 & a & Ha & Hd & Hac & Hu & Hb2);
    [by apply Hm|reflexivity|reflexivity|reflexivity| | |exact Hh| |].
  - cbn [allowed_decisions]. rewrite !elem_of_cons. destruct d; [left|right; left|right; right; left]; reflexivity.
  - cbn [request_id]. by apply (nonblank_cons "d").
  - intros id Hid. destruct (startswith _ id) eqn:E; [|done]. rewrite Hc in Hid.
    destruct (Hnum id Hid) as (n & Hn' & En).
    pose proof (issue_prefix_unique n (decision_number w1) id) as Huq. specialize (Huq ltac:(lia) ltac:(lia) En E). lia.
  - exists w2, a. rewrite Hb in Hu. split; [exact Ha|]. split; [done|]. split; [done|]. intros Hres.
    rewrite <-Hd. apply apply_usable; [done|]. by rewrite Hd.
Qed.

Lemma fresh_decision_applies_witness :
  exists w2 a w3, authorize ask (DMember CANCEL) "user:ada"
    (run_trace run_call (new_workflow head_a script) until_decision) = (w2, Ok a) /\
  apply_authorization head_a a w2 = (w3, Ok tt) /\ state w3 = CANCELLED.
Proof.
  set (w := run_trace run_call (new_workflow head_a script) (firstn 2 until_decision)).
  set (w1 := fst (await_human head_a "system" w)).
  assert (E : await_human head_a "system" w = (w1, Ok ask))
    by (apply injective_projections; [reflexivity|vm_compute; reflexivity]).
  destruct (fresh_decision_applies head_a script w w1 head_a "system" "user:ada" ask CANCEL)
    as (w2 & a & Ha & _ & _ & Hgo); [exists (firstn 2 until_decision); reflexivity|exact E|reflexivity|].
  destruct (Hgo (fun h : CANCEL = RETRY => ltac:(discriminate h))) as (w3 & H3 & Hs).
  exists w2, a, w3. split; [|split; [exact H3|exact Hs]].
  replace until_decision with (firstn 2 until_decision ++ [CAwait head_a "system"]) by reflexivity.
  rewrite run_trace_app. exact Ha.
Defined.

(** *** Tamper evidence *)

#[export] Instance record_chain_laws : ChainEventLaws AuditRecord.
Proof.
  constructor. intros a b Hn. apply (f_equal (fun j => match j with JObj fs => dict_get "previousHash" fs | _ => None end)) in Hn.
  rewrite !norm_obj in Hn. rewrite !dict_get_sort_norm in Hn by (apply (bool_decide_unpack _); reflexivity).
  cbn in Hn. injection Hn as Hn. cbn. by rewrite Hn.
Qed.

Lemma state_text_inj s t : state_text s = state_text t -> s = t.
Proof. by destruct s, t. Qed.

(** The payload determines the record, but for its hash and the key order of its data. *)
Lemma payload_determines a b :
  norm (JObj (audit_payload a)) = norm (JObj (audit_payload b)) ->
  norm (data a) = data a -> norm (data b) = data b -> hash a = hash b -> a = b.
Proof.
  intros Hn Ha Hb Hh.
  assert (Hk : forall k, norm <$> dict_get k (audit_payload a) = norm <$> dict_get k (audit_payload b)).
  { intros k. rewrite !norm_obj in Hn.
    apply (f_equal (fun j => match j with JObj fs => fs | _ => [] end)) in Hn. rewrite <-!dict_get_sort_norm by
      (apply (bool_decide_unpack _); reflexivity). by rewrite Hn. }
  destruct a as [sa aa fa ta ra [b1 b2 b3] ca da pa ha], b as [sb ab fb tb rb [b1' b2' b3'] cb db pb hb].
  pose proof (Hk "sequence") as K1. pose proof (Hk "action") as K2. pose proof (Hk "fromState") as K3.
  pose proof (Hk "toState") as K4. pose proof (Hk "revision") as K5. pose proof (Hk "repository") as K6.
  pose proof (Hk "prNumber") as K7. pose proof (Hk "headSha") as K8. pose proof (Hk "actor") as K9.
  pose proof (Hk "data") as K10. pose proof (Hk "previousHash") as K11. cbn -[norm] in *.
  cbn in K1, K2, K4, K5, K6, K7, K8, K9, K11.
  injection K1 as ->. injection K2 as ->. injection K4 as K4. apply state_text_inj in K4 as ->.
  injection K5 as ->. injection K6 as ->. injection K7 as ->. injection K8 as ->. injection K9 as ->.
  injection K11 as ->. injection K10 as K10. rewrite Ha, Hb in K10. subst.
  f_equal. destruct fa as [s|], fb as [s'|]; cbn in K3; try done. injection K3 as K3. f_equal. by apply state_text_inj.
Qed.

(** Two workflows with the same snapshot have the same history: a snapshot's audit
    head and length fix every record of a reachable workflow's audit, unless SHA-256
    collides on the canonical texts of the two audits' records. *)
Theorem snapshot_fixes_history (b b' : ExactHeadBinding) (p p' : FakeCIProvider) (w w' : Workflow) :
  reachable b p w -> reachable b' p' w' ->
  collision_free (map chain_document (audit w) ++ map chain_document (audit w')) ->
  dict_get "auditHead" (snapshot w) = dict_get "auditHead" (snapshot w') ->
  dict_get "auditLength" (snapshot w) = dict_get "auditLength" (snapshot w') ->
  audit w = audit w'.
Proof.
  intros Hr Hr' Hcf Hhead Hlen.
  destruct (reachable_consistent _ _ _ Hr) as [Hv _ Hd]. destruct (reachable_consistent _ _ _ Hr') as [Hv' _ Hd'].
  unfold verify_audit in *. rewrite verify_records_chain in Hv, Hv'.
  cbn [dict_get snapshot String.eqb Ascii.eqb Bool.eqb] in Hhead, Hlen. injection Hlen as Hlen.
  assert (Hl : length (audit w) = length (audit w')) by lia.
  assert (HF : Forall2 same_record (audit w) (audit w')).
  { eapply head_fixes_records; [exact Hv|exact Hv'|done| |done]. unfold head_hash.
    destruct (last (audit w)) eqn:E1, (last (audit w')) eqn:E2; cbn [ce_hash record_chain]; [by injection Hhead as ->|done|done|done]. }
  clear -HF Hd Hd'. revert Hd Hd'. induction HF as [|x y l l' [Hn Hh] _ IH]; intros Hd Hd'; [done|].
  inversion Hd; inversion Hd'; subst. f_equal; [|by apply IH].
  apply payload_determines; [done..|]. cbn in Hh. by injection Hh.
Qed.

Definition other_script : FakeCIProvider := mkProvider [RUNNING; PASSED] None None 0 0 [].

Lemma snapshot_fixes_history_witness :
  audit (run_trace run_call (new_workflow head_a script) [CStart head_a "system"])
  = audit (run_trace run_call (new_workflow head_a other_script) [CStart head_a "system"; CProviderPoll "fake-run-001" head_a]).
Proof.
  apply (snapshot_fixes_history head_a head_a script other_script).
  - eexists; reflexivity.
  - eexists; reflexivity.
  - apply collision_free_dups, collision_free_compute. apply (bool_decide_unpack _). vm_compute. constructor.
  - vm_compute. reflexivity.
  - vm_compute. reflexivity.
Defined.
