(* ===== verification/MigrationContract.v ===== *)
(** * Lifecycle migrations: the declarative contract (packages/lifecycle-migrations, contract.py)

    A migration is data: versions, the exact paths it may read and write, and
    a list of file operations from a closed set.  The constructors of the code
    validate their arguments, which may come from parsed JSON; here
    [new_contract] and [new_operation] are those constructors: they take the
    arguments as the caller has them and return the typed record, or the first
    error.  A Python [Mapping] is a [dict] of JSON values. *)

From S2P Require Import Prelude Json Sha256 Paths.

(** [RegistryError] is a [MigrationError]; [OSError] stands for every error of the
    operating system, whose text is not modelled; [RollbackFailed e] is the
    [MigrationError] that reports [e] after a failed migration. *)
Inductive mig_error :=
| MigrationError (message : string)
| RegistryError (message : string)
| OSError
| RollbackFailed (rollback_error : mig_error).

Abbreviation checked := (outcome mig_error).

Definition CONTRACT_FORMAT : string := "stateport.lifecycle-migration/v1".
Definition RECEIPT_FORMAT : string := "stateport.migration-receipt/v1".
Definition REGISTRY_FORMAT : string := "stateport.migration-registry/v1".

(** [^sha256:[0-9a-f]{64}$] *)
Definition DIGEST_fullmatch (s : string) : bool :=
  startswith "sha256:" s && (py_len s =? 71)%Z && all_chars is_hex (String.substring 7 64 s).

(** [^stateport\.[a-z0-9][a-z0-9._-]*$] *)
Definition ID_fullmatch (s : string) : bool :=
  startswith "stateport." s &&
  match String.substring 10 (String.length s - 10) s with
  | EmptyString => false
  | String c rest =>
      (is_lower c || is_digit c)
      && all_chars (fun c => is_lower c || is_digit c || one_of "._-" c) rest
  end.

Inductive OperationKind := COPY | MOVE | DELETE | WRITE_TEXT | REPLACE_TEXT.

#[export] Instance kind_eq_dec : EqDecision OperationKind.
Proof. solve_decision. Defined.

Definition kind_text (k : OperationKind) : string :=
  match k with
  | COPY => "copy"
  | MOVE => "move"
  | DELETE => "delete"
  | WRITE_TEXT => "write_text"
  | REPLACE_TEXT => "replace_text"
  end.

(** [OperationKind(value)] *)
Definition kind_of (v : json) : option OperationKind :=
  match v with
  | JStr s => List.find (fun k => bool_decide (kind_text k = s)) [COPY; MOVE; DELETE; WRITE_TEXT; REPLACE_TEXT]
  | _ => None
  end.

(** ** Validators *)

(** [_string]; an absent key reads as [None]. *)
Definition string_ (value : json) (label : string) : checked string :=
  match value with
  | JStr s =>
      refuse_if (negb (nonblank s)) (MigrationError (label +:+ " must be a non-empty string")) >>?
      refuse_if (any_char (fun c => (code c =? 0)%Z) s) (MigrationError (label +:+ " contains a NUL byte")) >>?
      Ok s
  | _ => Raise (MigrationError (label +:+ " must be a non-empty string"))
  end.

(** [PurePosixPath(path)] of a path that is not absolute: empty and single-dot
    components are dropped. *)
Definition pure_parts (path : string) : list string :=
  List.filter (fun part => negb (mem part [""; "."])) (split_slash "" path).
Definition as_posix (parts : list string) : string :=
  if bool_decide (parts = []) then "." else join_slash parts.

Definition second_is_colon (s : string) : bool :=
  match s with String _ (String c _) => bool_decide (c = ":"%char) | _ => false end.

Definition RESERVED : list string := [".git"; ".statedd"; ".stateport"].

Definition safe_relative_path (value : json) (label : string) : checked string :=
  let? path := string_ value label in
  refuse_if (any_char (fun c => bool_decide (c = "\"%char)) path || startswith "/" path || second_is_colon path)
    (MigrationError (label +:+ " must be a relative POSIX path")) >>?
  let parts := pure_parts path in
  refuse_if (negb (bool_decide (path = as_posix parts)))
    (MigrationError (label +:+ " is not in canonical relative path form")) >>?
  refuse_if (existsb (fun part => mem part [""; "."; ".."]) parts)
    (MigrationError (label +:+ " must not contain empty, '.', or '..' components")) >>?
  refuse_if (bool_decide (path = ".") || bool_decide (parts = []))
    (MigrationError (label +:+ " must name a file")) >>?
  refuse_if (match head parts with Some p => mem p RESERVED | None => false end)
    (MigrationError (label +:+ " targets a reserved StatePort path")) >>?
  Ok path.

Definition digest_of (value : json) : string :=
  "sha256:" +:+ sha256_hex (encode (dumps true value)).

Definition hash_or_none (value : json) (label : string) : checked (option string) :=
  match value with
  | JNull => Ok None
  | _ =>
      let? result := string_ value label in
      refuse_if (negb (DIGEST_fullmatch result)) (MigrationError (label +:+ " must be a sha256 digest")) >>?
      Ok (Some result)
  end.

(** ** Owned paths and operations *)

(** The owner is always [PathOwner.INSTANCE]. *)
Record OwnedPath := mkOwnedPath { owned : string }.

Definition new_owned_path (path : string) : checked OwnedPath :=
  safe_relative_path (JStr path) "owned path" >>? Ok (mkOwnedPath path).

Definition owned_to_dict (o : OwnedPath) : dict :=
  [("path", JStr (owned o)); ("owner", JStr "instance")].

Definition owned_from_dict (value : json) (label : string) : checked OwnedPath :=
  match value with
  | JObj fs =>
      refuse_if (negb (same_set (dict_keys fs) ["path"; "owner"]))
        (MigrationError (label +:+ " must contain only path and owner")) >>?
      refuse_if (negb (bool_decide (dict_get "owner" fs = Some (JStr "instance"))))
        (MigrationError (label +:+ ".owner must be 'instance'")) >>?
      let? path := safe_relative_path (default JNull (dict_get "path" fs)) (label +:+ ".path") in
      new_owned_path path
  | _ => Raise (MigrationError (label +:+ " must contain only path and owner"))
  end.

Record MigrationOperation := mkOperation {
  op_kind : OperationKind;
  op_target : string;
  op_source : option string;
  op_content : option string;
  op_old : option string;
  op_new : option string;
  expected_hash : option string;
}.

#[export] Instance owned_eq_dec : EqDecision OwnedPath.
Proof. solve_decision. Defined.
#[export] Instance operation_eq_dec : EqDecision MigrationOperation.
Proof. solve_decision. Defined.

Definition given {A} (o : option A) : bool := match o with Some _ => true | None => false end.

Definition MigrationOperation_post_init (o : MigrationOperation) : checked unit :=
  safe_relative_path (JStr (op_target o)) "operation target" >>?
  match op_source o with
  | Some s => safe_relative_path (JStr s) "operation source" >>? Ok tt
  | None => Ok tt
  end >>?
  match expected_hash o with
  | Some h => hash_or_none (JStr h) "operation expectedHash" >>? Ok tt
  | None => Ok tt
  end >>?
  match op_kind o with
  | COPY | MOVE =>
      refuse_if (negb (given (op_source o)) || given (op_content o) || given (op_old o) || given (op_new o))
        (MigrationError (kind_text (op_kind o) +:+ " requires only source and target"))
  | DELETE =>
      refuse_if (given (op_source o) || given (op_content o) || given (op_old o) || given (op_new o))
        (MigrationError "delete requires only target")
  | WRITE_TEXT =>
      refuse_if (given (op_source o) || negb (given (op_content o)) || given (op_old o) || given (op_new o))
        (MigrationError "write_text requires content and target")
  | REPLACE_TEXT =>
      refuse_if (given (op_source o) || given (op_content o) || negb (given (op_old o)) || negb (given (op_new o)))
        (MigrationError "replace_text requires old, new, and target") >>?
      refuse_if (bool_decide (op_old o = Some "")) (MigrationError "replace_text.old must not be empty")
  end.

(** [MigrationOperation(...)] *)
Definition new_operation (o : MigrationOperation) : checked MigrationOperation :=
  MigrationOperation_post_init o >>? Ok o.

Definition opt_field (key : string) (o : option string) : dict :=
  match o with Some s => [(key, JStr s)] | None => [] end.

Definition op_to_dict (o : MigrationOperation) : dict :=
  [("kind", JStr (kind_text (op_kind o))); ("target", JStr (op_target o))]
  ++ opt_field "source" (op_source o) ++ opt_field "content" (op_content o)
  ++ opt_field "old" (op_old o) ++ opt_field "new" (op_new o)
  ++ opt_field "expectedHash" (expected_hash o).

(** [f"{sorted(unknown)}"] *)
Definition unknown_keys (fs : dict) (allowed : list string) : list string :=
  merge_sort String.le (List.filter (fun k => negb (mem k allowed)) (dict_keys fs)).

(** [key in value and not isinstance(value[key], str)], and then [value.get(key)]. *)
Definition text_field (key label : string) (fs : dict) : checked (option string) :=
  match dict_get key fs with
  | None => Ok None
  | Some (JStr s) => Ok (Some s)
  | Some _ => Raise (MigrationError (label +:+ "." +:+ key +:+ " must be a string"))
  end.

Definition op_from_dict (value : json) (label : string) : checked MigrationOperation :=
  match value with
  | JObj fs =>
      let unknown := unknown_keys fs ["kind"; "target"; "source"; "content"; "old"; "new"; "expectedHash"] in
      refuse_if (negb (bool_decide (unknown = [])))
        (MigrationError (label +:+ " contains unknown fields: " +:+ repr_list unknown)) >>?
      match kind_of (key_json "kind" fs) with
      | None => Raise (MigrationError (label +:+ ".kind is unsupported"))
      | Some kind =>
          let? source_text := text_field "source" label fs in
          let? content := text_field "content" label fs in
          let? old := text_field "old" label fs in
          let? new := text_field "new" label fs in
          let? target := safe_relative_path (key_json "target" fs) (label +:+ ".target") in
          let? source := match source_text with
                         | Some s => let? p := safe_relative_path (JStr s) (label +:+ ".source") in Ok (Some p)
                         | None => Ok None
                         end in
          let? expected := hash_or_none (key_json "expectedHash" fs) (label +:+ ".expectedHash") in
          new_operation (mkOperation kind target source content old new expected)
      end
  | _ => Raise (MigrationError (label +:+ " must be a mapping"))
  end.

(** ** The contract *)

Record MigrationContract := mkContract {
  migration_id : string;
  from_version : string;
  to_version : string;
  read_paths : list string;
  write_paths : list string;
  owned_paths : list OwnedPath;
  operations : list MigrationOperation;
  description : string;
  c_owner : string;
  format_version : string;
}.

#[export] Instance contract_eq_dec : EqDecision MigrationContract.
Proof. solve_decision. Defined.

(** The arguments of [MigrationContract(...)] before they are checked. *)
Record contract_args := mkArgs {
  a_id : json;
  a_from : json;
  a_to : json;
  a_reads : list json;
  a_writes : list json;
  a_owned : list OwnedPath;
  a_operations : list MigrationOperation;
  a_description : string;
  a_owner : json;
  a_format : json;
}.

Definition args_of (c : MigrationContract) : contract_args :=
  mkArgs (JStr (migration_id c)) (JStr (from_version c)) (JStr (to_version c))
    (map JStr (read_paths c)) (map JStr (write_paths c)) (owned_paths c) (operations c) (description c)
    (JStr (c_owner c)) (JStr (format_version c)).

Fixpoint each {A B} (f : A -> checked B) (values : list A) : checked (list B) :=
  match values with
  | [] => Ok []
  | v :: rest => let? r := f v in let? rs := each f rest in Ok (r :: rs)
  end.

(** [f(item, f"{label}[{i}]") for i, item in enumerate(values)] *)
Fixpoint each_indexed {A B} (f : A -> string -> checked B) (label : string) (i : Z) (values : list A)
    : checked (list B) :=
  match values with
  | [] => Ok []
  | v :: rest =>
      let? r := f v (label +:+ "[" +:+ pretty i +:+ "]") in
      let? rs := each_indexed f label (i + 1) rest in
      Ok (r :: rs)
  end.

Definition is_sorted (l : list string) : bool := bool_decide (merge_sort String.le l = l).

Definition check_operation (reads writes : list string) (o : MigrationOperation) (at_ : string)
    : checked unit :=
  refuse_if (negb (mem (op_target o) writes))
    (MigrationError (at_ +:+ ".target is not a declared write path")) >>?
  refuse_if (bool_decide (op_kind o = REPLACE_TEXT) && negb (mem (op_target o) reads))
    (MigrationError "replace_text target must also be a read path") >>?
  refuse_if (bool_decide (op_kind o ∈ [COPY; MOVE])
             && negb (match op_source o with Some s => mem s reads | None => false end))
    (MigrationError (at_ +:+ ".source is not a declared read path")).

(** [MigrationContract(...)]: the fields and [__post_init__].  Owners and operations
    are typed, and that some operation has a target follows from there being one. *)
Definition new_contract (a : contract_args) : checked MigrationContract :=
  let? id := string_ (a_id a) "migration_id" in
  refuse_if (negb (ID_fullmatch id)) (MigrationError "migration_id must use the stateport.<name> form") >>?
  let? from := string_ (a_from a) "from_version" in
  let? to := string_ (a_to a) "to_version" in
  refuse_if (bool_decide (from = to)) (MigrationError "from_version and to_version must differ") >>?
  refuse_if (negb (bool_decide (a_owner a = JStr "stateport")))
    (MigrationError "migration owner must be 'stateport'") >>?
  refuse_if (negb (bool_decide (a_format a = JStr CONTRACT_FORMAT)))
    (MigrationError ("format_version must be " +:+ repr (JStr CONTRACT_FORMAT))) >>?
  refuse_if (bool_decide (a_operations a = []))
    (MigrationError "a migration must declare at least one operation") >>?
  let? reads := each (fun p => safe_relative_path p "read path") (a_reads a) in
  let? writes := each (fun p => safe_relative_path p "write path") (a_writes a) in
  refuse_if (has_dups reads || has_dups writes) (MigrationError "read and write paths must be unique") >>?
  refuse_if (negb (is_sorted reads) || negb (is_sorted writes))
    (MigrationError "read and write paths must be sorted deterministically") >>?
  let owned_ := map owned (a_owned a) in
  refuse_if (has_dups owned_ || negb (is_sorted owned_))
    (MigrationError "owned paths must be unique and sorted deterministically") >>?
  refuse_if (negb (same_set owned_ (reads ++ writes)))
    (MigrationError "owned paths must exactly cover declared reads and writes") >>?
  each_indexed (check_operation reads writes) "operations" 0 (a_operations a) >>?
  Ok (mkContract id from to reads writes (a_owned a) (a_operations a) (a_description a)
        "stateport" CONTRACT_FORMAT).

Definition contract_fields (c : MigrationContract) : dict :=
  [("formatVersion", JStr (format_version c)); ("owner", JStr (c_owner c));
   ("migrationId", JStr (migration_id c)); ("fromVersion", JStr (from_version c));
   ("toVersion", JStr (to_version c)); ("description", JStr (description c));
   ("readPaths", JArr (map JStr (read_paths c))); ("writePaths", JArr (map JStr (write_paths c)));
   ("ownedPaths", JArr (map (fun o => JObj (owned_to_dict o)) (owned_paths c)));
   ("operations", JArr (map (fun o => JObj (op_to_dict o)) (operations c)))].

(** [digest] *)
Definition contract_digest (c : MigrationContract) : string := digest_of (JObj (contract_fields c)).

Definition contract_to_dict (include_digest : bool) (c : MigrationContract) : dict :=
  contract_fields c ++ (if include_digest then [("contractDigest", JStr (contract_digest c))] else []).

Definition CONTRACT_KEYS : list string :=
  ["formatVersion"; "owner"; "migrationId"; "fromVersion"; "toVersion"; "description"; "readPaths";
   "writePaths"; "ownedPaths"; "operations"; "contractDigest"].

(** A key whose value must be a list. *)
Definition list_key (key : string) (fs : dict) : checked (list json) :=
  match dict_get key fs with
  | Some (JArr l) => Ok l
  | _ => Raise (MigrationError (key +:+ " must be a list"))
  end.

Definition contract_from_dict (value : json) : checked MigrationContract :=
  match value with
  | JObj fs =>
      let unknown := unknown_keys fs CONTRACT_KEYS in
      refuse_if (negb (bool_decide (unknown = [])))
        (MigrationError ("migration contract contains unknown fields: " +:+ repr_list unknown)) >>?
      let? reads := list_key "readPaths" fs in
      let? writes := list_key "writePaths" fs in
      let? owned_ := list_key "ownedPaths" fs in
      let? ops := list_key "operations" fs in
      let? description_ := match default (JStr "") (dict_get "description" fs) with
                           | JStr s => Ok s
                           | _ => Raise (MigrationError "description must be a string")
                           end in
      let? id := string_ (key_json "migrationId" fs) "migrationId" in
      let? from := string_ (key_json "fromVersion" fs) "fromVersion" in
      let? to := string_ (key_json "toVersion" fs) "toVersion" in
      let? owned_values := each_indexed owned_from_dict "ownedPaths" 0 owned_ in
      let? op_values := each_indexed op_from_dict "operations" 0 ops in
      let? contract := new_contract (mkArgs (JStr id) (JStr from) (JStr to) reads writes owned_values op_values
        description_ (default (JStr "stateport") (dict_get "owner" fs))
        (default (JStr CONTRACT_FORMAT) (dict_get "formatVersion" fs))) in
      let supplied_digest := key_json "contractDigest" fs in
      refuse_if (negb (bool_decide (supplied_digest = JNull))
                 && negb (py_eqb supplied_digest (JStr (contract_digest contract))))
        (MigrationError "contractDigest does not match canonical contract") >>?
      Ok contract
  | _ => Raise (MigrationError "migration contract must be a mapping")
  end.

(** A contract that its constructor accepts. *)
Definition valid_contract (c : MigrationContract) : Prop :=
  new_contract (args_of c) = Ok c /\
  Forall (fun o => new_owned_path (owned o) = Ok o) (owned_paths c) /\
  Forall (fun o => new_operation o = Ok o) (operations c).

(** ** Lemmas on the validators *)

Definition path_okb (p : string) : bool :=
  nonblank p && negb (any_char (fun c => (code c =? 0)%Z) p)
  && negb (any_char (fun c => bool_decide (c = "\"%char)) p || startswith "/" p || second_is_colon p)
  && bool_decide (p = as_posix (pure_parts p))
  && negb (existsb (fun part => mem part [""; "."; ".."]) (pure_parts p))
  && negb (bool_decide (p = ".") || bool_decide (pure_parts p = []))
  && negb (match head (pure_parts p) with Some d => mem d RESERVED | None => false end).

Lemma string_Ok v label s : string_ v label = Ok s <->
  v = JStr s /\ nonblank s && negb (any_char (fun c => (code c =? 0)%Z) s) = true.
Proof.
  destruct v as [| | |t| |]; cbn [string_]; try (split; [done|intros [? _]; done]).
  destruct (nonblank t) eqn:E1, (any_char _ t) eqn:E2; cbn; (split; [|intros [[= ->] ?]]); try done;
    try congruence; intros; simplify_eq; rewrite ?E1, ?E2 in *; done.
Qed.

Lemma safe_path_Ok v label p : safe_relative_path v label = Ok p <-> v = JStr p /\ path_okb p = true.
Proof.
  unfold safe_relative_path, path_okb. split.
  - intros H. apply obind_Ok in H as (q & Hs & H). apply string_Ok in Hs as [-> Hs].
    repeat (apply obind_Ok in H as ([] & ?%refuse_if_Ok & H)). injection H as ->.
    split; [done|]. rewrite !andb_true_iff, !negb_true_iff in *.
    match goal with H : negb _ = false |- _ => apply negb_false_iff in H end. tauto.
  - intros [-> H]. rewrite !andb_true_iff, !negb_true_iff in H.
    destruct H as ((((((H1 & H2) & H3) & H4) & H5) & H6) & H7).
    rewrite (proj2 (string_Ok (JStr p) label p)) by (by rewrite H1, H2).
    cbn [obind]. by rewrite H3, H4, H5, H6, H7.
Qed.

Lemma safe_path_label p l l' : safe_relative_path (JStr p) l = Ok p -> safe_relative_path (JStr p) l' = Ok p.
Proof. rewrite !safe_path_Ok. done. Qed.

Lemma hash_or_none_label h l l' o : hash_or_none (JStr h) l = Ok o -> hash_or_none (JStr h) l' = Ok (Some h).
Proof.
  unfold hash_or_none. intros H. apply obind_Ok in H as (s & Hs & H). apply string_Ok in Hs as [[= <-] Hs].
  apply obind_Ok in H as ([] & Hd%refuse_if_Ok & H).
  rewrite (proj2 (string_Ok (JStr h) l' h)) by done. cbn [obind]. by rewrite Hd.
Qed.

Lemma path_parts p : path_okb p = true ->
  pure_parts p <> [] /\ p = join_slash (pure_parts p) /\
  Forall (fun part => part <> "" /\ part <> "." /\ part <> "..") (pure_parts p) /\
  forall d, head (pure_parts p) = Some d -> d ∉ RESERVED.
Proof.
  unfold path_okb, as_posix. intros H. rewrite !andb_true_iff, !negb_true_iff, bool_decide_eq_true in H.
  destruct H as ((((_ & Hp) & Hd) & Hn) & Hr). apply orb_false_iff in Hn as [_ Hn].
  apply bool_decide_eq_false in Hn. rewrite bool_decide_eq_false_2 in Hp by done.
  split; [done|]. split; [done|]. split.
  - apply Forall_forall. intros part Hin. rewrite existsb_false in Hd. specialize (Hd _ Hin).
    apply mem_false in Hd. rewrite !not_elem_of_cons in Hd. naive_solver.
  - intros d Hh. rewrite Hh in Hr. by apply mem_false.
Qed.

Lemma pure_parts_inj p q : path_okb p = true -> path_okb q = true -> pure_parts p = pure_parts q -> p = q.
Proof.
  intros Hp Hq H. destruct (path_parts p Hp) as (_ & -> & _). destruct (path_parts q Hq) as (_ & Hq' & _).
  by rewrite H, <-Hq'.
Qed.

(** ** Round trips

    A contract survives being written as canonical JSON and read again: [norm] is
    what [json.loads] gives back for the text of [json.dumps] with sorted keys. *)

Lemma unknown_keys_nil fs allowed : (forall k, k ∈ dict_keys fs -> k ∈ allowed) -> unknown_keys fs allowed = [].
Proof.
  intros H. unfold unknown_keys. replace (List.filter _ _) with (@nil string); [done|].
  symmetry. induction (dict_keys fs) as [|k l IH]; [done|]. cbn.
  rewrite (proj2 (mem_true k allowed)) by (apply H; by left). cbn. apply IH. intros k' ?. apply H. by right.
Qed.

Lemma text_field_some key label fs o : dict_get key fs = JStr <$> o -> text_field key label fs = Ok o.
Proof. unfold text_field. intros ->. by destruct o. Qed.

Lemma each_indexed_map {A B} (f : A -> string -> checked B) (g : B -> A) label i l :
  Forall (fun x => forall lab, f (g x) lab = Ok x) l -> each_indexed f label i (map g l) = Ok l.
Proof.
  intros H. revert i. induction H as [|x l Hx _ IH]; intros i; [done|]. cbn. rewrite Hx. cbn. by rewrite IH.
Qed.

(** The fields of a dictionary whose keys were sorted. *)
Section sorted_fields.
Context (d : dict) (Hd : NoDup (dict_keys d)).

Lemma sorted_key k v : dict_get k d = v -> dict_get k (sort_fields (norm_fields d)) = norm <$> v.
Proof. intros <-. by apply dict_get_sort_norm. Qed.

Lemma sorted_no_unknown allowed : (forall k, k ∈ dict_keys d -> k ∈ allowed) ->
  unknown_keys (sort_fields (norm_fields d)) allowed = [].
Proof.
  intros H. apply unknown_keys_nil. intros k. rewrite sorted_fields_keys, norm_fields_keys. apply H.
Qed.
Lemma sorted_str k s : dict_get k d = Some (JStr s) ->
  dict_get k (sort_fields (norm_fields d)) = Some (JStr s).
Proof. intros H. by rewrite (sorted_key _ _ H). Qed.

Lemma sorted_opt k o : dict_get k d = JStr <$> o -> dict_get k (sort_fields (norm_fields d)) = JStr <$> o.
Proof. intros H. rewrite (sorted_key _ _ H). by destruct o. Qed.
End sorted_fields.

Lemma op_keys_NoDup o : NoDup (dict_keys (op_to_dict o)).
Proof. destruct o as [k t [] [] [] [] []]; apply (bool_decide_unpack _); reflexivity. Qed.

Lemma op_keys_allowed o k : k ∈ dict_keys (op_to_dict o) ->
  k ∈ ["kind"; "target"; "source"; "content"; "old"; "new"; "expectedHash"].
Proof. destruct o as [k' t [] [] [] [] []]; cbn; rewrite !elem_of_cons, !elem_of_nil; tauto. Qed.

Lemma kind_of_text k : kind_of (JStr (kind_text k)) = Some k.
Proof. by destruct k. Qed.

Lemma op_fields_get o :
  let d := op_to_dict o in
  dict_get "kind" d = Some (JStr (kind_text (op_kind o))) /\ dict_get "target" d = Some (JStr (op_target o)) /\
  dict_get "source" d = JStr <$> op_source o /\ dict_get "content" d = JStr <$> op_content o /\
  dict_get "old" d = JStr <$> op_old o /\ dict_get "new" d = JStr <$> op_new o /\
  dict_get "expectedHash" d = JStr <$> expected_hash o.
Proof. by destruct o as [k t [] [] [] [] []]. Qed.

Lemma op_roundtrip o label : new_operation o = Ok o ->
  op_from_dict (norm (JObj (op_to_dict o))) label = Ok o.
Proof.
  intros Hv. pose proof Hv as Hc. unfold new_operation in Hc. apply obind_Ok in Hc as ([] & Hc & _).
  unfold MigrationOperation_post_init in Hc.
  apply obind_Ok in Hc as (t & Ht & Hc). apply safe_path_Ok in Ht as [[= <-] Ht].
  apply obind_Ok in Hc as ([] & Hs & Hc). apply obind_Ok in Hc as ([] & Hh & _).
  rewrite norm_obj. unfold op_from_dict. pose proof (op_keys_NoDup o) as Hd.
  destruct (op_fields_get o) as (G1 & G2 & G3 & G4 & G5 & G6 & G7).
  rewrite sorted_no_unknown by (done || apply op_keys_allowed). cbn [obind refuse_if negb bool_decide decide_rel].
  apply (sorted_str _ Hd) in G1, G2. apply (sorted_opt _ Hd) in G3, G4, G5, G6, G7.
  rewrite (key_json_some _ _ _ G1), kind_of_text, (key_json_some _ _ _ G2).
  rewrite !(text_field_some _ _ _ _ G3), !(text_field_some _ _ _ _ G4), !(text_field_some _ _ _ _ G5),
    !(text_field_some _ _ _ _ G6). unfold key_json. rewrite G7. cbn [obind].
  rewrite (proj2 (safe_path_Ok _ _ (op_target o))) by done. cbn [obind].
  replace (match op_source o with Some s => _ | None => Ok None end) with (Ok (op_source o) : checked (option string)).
  2: { destruct (op_source o) as [s|]; [|done]. apply obind_Ok in Hs as (p & Hp & _).
       apply safe_path_Ok in Hp as [[= <-] Hp]. by rewrite (proj2 (safe_path_Ok _ _ s)). }
  cbn [obind].
  replace (hash_or_none _ _) with (Ok (expected_hash o) : checked (option string)).
  2: { destruct (expected_hash o) as [h|]; [|done]. apply obind_Ok in Hh as (r & Hr & _).
       symmetry. by eapply hash_or_none_label. }
  cbn [obind]. by destruct o.
Qed.

Lemma owned_roundtrip o label : new_owned_path (owned o) = Ok o ->
  owned_from_dict (norm (JObj (owned_to_dict o))) label = Ok o.
Proof.
  intros Hv. pose proof Hv as Hp. unfold new_owned_path in Hp. apply obind_Ok in Hp as (p & Hp & _).
  apply safe_path_Ok in Hp as [[= <-] Hp].
  rewrite norm_obj. change (sort_fields (norm_fields (owned_to_dict o)))
    with ([("owner", JStr "instance"); ("path", JStr (owned o))]).
  unfold owned_from_dict. cbn [dict_get String.eqb Ascii.eqb Bool.eqb default from_option id].
  rewrite bool_decide_eq_true_2 by done.
  change (same_set _ _) with true. cbn [negb refuse_if obind].
  rewrite (proj2 (safe_path_Ok _ _ (owned o))) by done. done.
Qed.

Lemma contract_keys_NoDup c : NoDup (dict_keys (contract_to_dict true c)).
Proof. apply (bool_decide_unpack _); reflexivity. Qed.

Lemma norm_strs l : norm (JArr (map JStr l)) = JArr (map JStr l).
Proof. rewrite norm_arr, map_map. done. Qed.

Lemma list_key_some key fs l : dict_get key fs = Some (JArr l) -> list_key key fs = Ok l.
Proof. unfold list_key. by intros ->. Qed.

Lemma string_label s l l' : string_ (JStr s) l = Ok s -> string_ (JStr s) l' = Ok s.
Proof. rewrite !string_Ok. done. Qed.

(** What a valid contract says of its own fields. *)
Lemma valid_strings c : valid_contract c ->
  (forall l, string_ (JStr (migration_id c)) l = Ok (migration_id c)) /\
  (forall l, string_ (JStr (from_version c)) l = Ok (from_version c)) /\
  (forall l, string_ (JStr (to_version c)) l = Ok (to_version c)) /\
  c_owner c = "stateport" /\ format_version c = CONTRACT_FORMAT.
Proof.
  intros (Hc & _ & _). unfold new_contract in Hc. cbn [args_of a_id a_from a_to a_owner a_format] in Hc.
  apply obind_Ok in Hc as (i & Hi & Hc). apply obind_Ok in Hc as ([] & _ & Hc).
  apply obind_Ok in Hc as (f & Hf & Hc). apply obind_Ok in Hc as (t & Ht & Hc).
  apply string_Ok in Hi as [[= <-] Hi], Hf as [[= <-] Hf], Ht as [[= <-] Ht].
  repeat (apply obind_Ok in Hc as (? & ? & Hc)).
  apply (f_equal (fun o => match o with Ok k => (c_owner k, format_version k) | Raise _ => ("", "") end)) in Hc.
  injection Hc as Hown Hfo.
  split; [|split; [|split]]; [intros l; by apply string_Ok..|]. done.
Qed.

Lemma contract_roundtrip (c : MigrationContract) :
  valid_contract c -> contract_from_dict (norm (JObj (contract_to_dict true c))) = Ok c.
Proof.
  intros Hv. pose proof (valid_strings c Hv) as (Hi & Hf & Ht & Hown & Hfo).
  destruct Hv as (Hc & Hows & Hops). rewrite norm_obj.
  pose proof (contract_keys_NoDup c) as Hd. set (d := contract_to_dict true c) in *. unfold contract_from_dict.
  assert (Hk : forall k v, dict_get k d = Some v ->
    dict_get k (sort_fields (norm_fields d)) = Some (norm v)) by (intros k v H; by rewrite (sorted_key d Hd k _ H)).
  rewrite (sorted_no_unknown d CONTRACT_KEYS) by (intros k; unfold d, CONTRACT_KEYS; cbn; rewrite !elem_of_cons, !elem_of_nil; tauto).
  rewrite bool_decide_eq_true_2 by done. cbn [negb refuse_if obind].
  pose proof (Hk "readPaths" (JArr (map JStr (read_paths c))) eq_refl) as K1.
  pose proof (Hk "writePaths" (JArr (map JStr (write_paths c))) eq_refl) as K2.
  pose proof (Hk "ownedPaths" (JArr (map (fun o => JObj (owned_to_dict o)) (owned_paths c))) eq_refl) as K3.
  pose proof (Hk "operations" (JArr (map (fun o => JObj (op_to_dict o)) (operations c))) eq_refl) as K4.
  rewrite norm_strs in K1, K2. rewrite norm_arr, map_map in K3, K4.
  rewrite (list_key_some _ _ _ K1), (list_key_some _ _ _ K2), (list_key_some _ _ _ K3), (list_key_some _ _ _ K4).
  rewrite (Hk "description" (JStr (description c)) eq_refl), (Hk "owner" (JStr (c_owner c)) eq_refl),
    (Hk "formatVersion" (JStr (format_version c)) eq_refl).
  rewrite (key_json_some _ _ _ (Hk "migrationId" (JStr (migration_id c)) eq_refl)),
    (key_json_some _ _ _ (Hk "fromVersion" (JStr (from_version c)) eq_refl)),
    (key_json_some _ _ _ (Hk "toVersion" (JStr (to_version c)) eq_refl)),
    (key_json_some _ _ _ (Hk "contractDigest" (JStr (contract_digest c)) eq_refl)).
  cbn [default from_option id obind].
  change (norm (JStr (description c))) with (JStr (description c)).
  change (norm (JStr (migration_id c))) with (JStr (migration_id c)).
  change (norm (JStr (from_version c))) with (JStr (from_version c)).
  change (norm (JStr (to_version c))) with (JStr (to_version c)).
  change (norm (JStr (c_owner c))) with (JStr (c_owner c)).
  change (norm (JStr (format_version c))) with (JStr (format_version c)).
  change (norm (JStr (contract_digest c))) with (JStr (contract_digest c)).
  rewrite Hi, Hf, Ht. cbn [obind].
  rewrite (each_indexed_map _ (fun o => norm (JObj (owned_to_dict o))))
    by (eapply Forall_impl; [exact Hows|]; intros o Ho lab; by apply owned_roundtrip).
  rewrite (each_indexed_map _ (fun o => norm (JObj (op_to_dict o))))
    by (eapply Forall_impl; [exact Hops|]; intros o Ho lab; by apply op_roundtrip).
  cbn [obind]. unfold args_of in Hc. rewrite Hc. cbn [obind].
  rewrite py_eqb_refl, andb_false_r. done.
Qed.

(** ** What the constructor establishes *)

Lemma each_paths label ps rs :
  each (fun p => safe_relative_path p label) (map JStr ps) = Ok rs ->
  rs = ps /\ Forall (fun p => path_okb p = true) ps.
Proof.
  revert rs. induction ps as [|p ps IH]; intros rs H; cbn [map each] in H; [by injection H as <-|].
  apply obind_Ok in H as (q & Hq & H). apply safe_path_Ok in Hq as [[= <-] Hp].
  apply obind_Ok in H as (qs & Hqs & H). apply IH in Hqs as [-> Hf]. injection H as <-.
  split; [done|by constructor].
Qed.

Record checked_contract (c : MigrationContract) : Prop := {
  checked_id : ID_fullmatch (migration_id c) = true;
  checked_reads : Forall (fun p => path_okb p = true) (read_paths c);
  checked_writes : Forall (fun p => path_okb p = true) (write_paths c);
  checked_read_unique : NoDup (read_paths c);
  checked_write_unique : NoDup (write_paths c);
}.

(** Checking a contract again changes nothing in it. *)
Lemma new_contract_Ok c c' : new_contract (args_of c) = Ok c' -> c' = c /\ checked_contract c.
Proof.
  unfold new_contract. cbn [args_of a_id a_from a_to a_owner a_format a_reads a_writes a_owned a_operations a_description].
  intros H. apply obind_Ok in H as (i & Hi & H). apply obind_Ok in H as ([] & Hid%refuse_if_Ok & H).
  apply obind_Ok in H as (f & Hf & H). apply obind_Ok in H as (t & Ht & H).
  apply string_Ok in Hi as [[= <-] _], Hf as [[= <-] _], Ht as [[= <-] _].
  apply obind_Ok in H as ([] & _ & H). apply obind_Ok in H as ([] & Hown%refuse_if_Ok & H).
  apply obind_Ok in H as ([] & Hfmt%refuse_if_Ok & H). apply obind_Ok in H as ([] & _ & H).
  apply obind_Ok in H as (rs & Hrs & H). apply obind_Ok in H as (ws & Hws & H).
  apply each_paths in Hrs as [-> Hrs], Hws as [-> Hws].
  apply obind_Ok in H as ([] & Hd%refuse_if_Ok & H). apply orb_false_iff in Hd as [Hd1 Hd2].
  apply has_dups_false in Hd1, Hd2. split_bool.
  do 4 apply obind_Ok in H as (? & _ & H).
  assert (Ho : c_owner c = "stateport") by congruence.
  assert (Hf : format_version c = CONTRACT_FORMAT) by congruence.
  split; [|by split]. destruct c. cbn in *. congruence.
Qed.

Definition rename_settings : MigrationContract :=
  mkContract "stateport.rename-settings" "1" "2" ["config/old.txt"] ["config/new.txt"; "config/old.txt"]
    [mkOwnedPath "config/new.txt"; mkOwnedPath "config/old.txt"]
    [mkOperation MOVE "config/new.txt" (Some "config/old.txt") None None None None] "" "stateport" CONTRACT_FORMAT.

Lemma rename_settings_valid : valid_contract rename_settings.
Proof. split; [vm_compute; reflexivity|]. split; repeat constructor; vm_compute; reflexivity. Qed.
