(* ===== verification/MigrationRegistry.v ===== *)
(** * Lifecycle migrations: the registry (packages/lifecycle-migrations, registry.py)

    An immutable list of contracts, sorted by identifier, and the search for a
    shortest sequence of migrations between two versions.  The search is the
    code's breadth-first loop over an explicit frontier; its fuel is the number
    of registered migrations plus one, which is shown to be enough. *)

From S2P Require Import Prelude Json Sha256 Paths MigrationContract.

Record MigrationRegistry := mkRegistry { migrations : list MigrationContract }.

Definition id_le (a b : MigrationContract) : Prop := String.le (migration_id a) (migration_id b).
#[export] Instance id_le_dec : RelDecision id_le.
Proof. intros a b. unfold id_le. apply _. Defined.

Definition sort_by_id (l : list MigrationContract) : list MigrationContract := merge_sort id_le l.

Definition edge_of (m : MigrationContract) : string * string := (from_version m, to_version m).

Fixpoint validate_entries (ids : list string) (edges : list (string * string)) (l : list MigrationContract)
    : checked unit :=
  match l with
  | [] => Ok tt
  | m :: rest =>
      refuse_if (mem (migration_id m) ids)
        (RegistryError ("duplicate migration id: " +:+ migration_id m)) >>?
      refuse_if (bool_decide (edge_of m ∈ edges))
        (RegistryError ("duplicate migration edge: " +:+ from_version m +:+ " -> " +:+ to_version m)) >>?
      validate_entries (migration_id m :: ids) (edge_of m :: edges) rest
  end.

(** [validate], which [__post_init__] runs *)
Definition validate (r : MigrationRegistry) : checked unit :=
  validate_entries [] [] (migrations r) >>?
  refuse_if (negb (bool_decide (sort_by_id (migrations r) = migrations r)))
    (RegistryError "registry entries must be sorted by migration id").

(** [MigrationRegistry(migrations)] *)
Definition new_registry (l : list MigrationContract) : checked MigrationRegistry :=
  validate (mkRegistry l) >>? Ok (mkRegistry l).

Definition from_contracts (l : list MigrationContract) : checked MigrationRegistry :=
  new_registry (sort_by_id l).

Definition registry_fields (r : MigrationRegistry) : dict :=
  [("formatVersion", JStr REGISTRY_FORMAT); ("owner", JStr "stateport");
   ("migrations", JArr (map (fun m => JObj (contract_to_dict true m)) (migrations r)))].

(** [digest] *)
Definition registry_digest (r : MigrationRegistry) : string := digest_of (JObj (registry_fields r)).

Definition registry_to_dict (include_digest : bool) (r : MigrationRegistry) : dict :=
  registry_fields r ++ (if include_digest then [("registryDigest", JStr (registry_digest r))] else []).

Definition REGISTRY_KEYS : list string := ["formatVersion"; "owner"; "migrations"; "registryDigest"].

Definition registry_from_dict (value : json) : checked MigrationRegistry :=
  match value with
  | JObj fs =>
      let unknown := unknown_keys fs REGISTRY_KEYS in
      refuse_if (negb (bool_decide (unknown = [])))
        (RegistryError ("registry contains unknown fields: " +:+ repr_list unknown)) >>?
      refuse_if (negb (bool_decide (key_json "formatVersion" fs = JStr REGISTRY_FORMAT))
                 || negb (bool_decide (key_json "owner" fs = JStr "stateport")))
        (RegistryError "registry must be StatePort-owned and use the migration format") >>?
      match key_json "migrations" fs with
      | JArr raw =>
          let? contracts := each contract_from_dict raw in
          let? registry := from_contracts contracts in
          let supplied := key_json "registryDigest" fs in
          refuse_if (negb (bool_decide (supplied = JNull))
                     && negb (py_eqb supplied (JStr (registry_digest registry))))
            (RegistryError "registryDigest does not match canonical registry") >>?
          Ok registry
      | _ => Raise (RegistryError "registry.migrations must be a list")
      end
  | _ => Raise (RegistryError "registry must be a mapping")
  end.

(** [get] *)
Definition find_migration (id : string) (r : MigrationRegistry) : checked MigrationContract :=
  match List.find (fun m => bool_decide (migration_id m = id)) (migrations r) with
  | Some m => Ok m
  | None => Raise (RegistryError ("migration is not registered: " +:+ id))
  end.

(** ** Paths between versions *)

Abbreviation route := (list MigrationContract).
Abbreviation frontier := (list (string * route)).

(** The inner loop over the edges leaving a version: either the target is
    reached, or the newly seen versions join the frontier. *)
Fixpoint expand (target : string) (so_far : route) (edges : list MigrationContract)
    (visited : list string) (queue : frontier) : route + (list string * frontier) :=
  match edges with
  | [] => inr (visited, queue)
  | m :: rest =>
      let candidate := so_far ++ [m] in
      if bool_decide (to_version m = target) then inl candidate
      else if mem (to_version m) visited then expand target so_far rest visited queue
      else expand target so_far rest (to_version m :: visited) (queue ++ [(to_version m, candidate)])
  end.

Definition next_edges (v : string) (r : MigrationRegistry) : list MigrationContract :=
  List.filter (fun m => bool_decide (from_version m = v)) (migrations r).

Inductive search_result := Found (p : route) | NotFound | OutOfFuel.

Fixpoint search (fuel : nat) (r : MigrationRegistry) (target : string) (visited : list string)
    (queue : frontier) : search_result :=
  match fuel with
  | O => OutOfFuel
  | S fuel =>
      match queue with
      | [] => NotFound
      | (v, so_far) :: queue =>
          match expand target so_far (next_edges v r) visited queue with
          | inl p => Found p
          | inr (visited, queue) => search fuel r target visited queue
          end
      end
  end.

Definition search_fuel (r : MigrationRegistry) : nat := S (S (length (migrations r))).

(** [path] *)
Definition path (a b : string) (r : MigrationRegistry) : option (checked route) :=
  if bool_decide (a = b) then Some (Ok [])
  else match search (search_fuel r) r b [a] [(a, [])] with
       | Found p => Some (Ok p)
       | NotFound => Some (Raise (RegistryError ("no migration path from " +:+ a +:+ " to " +:+ b)))
       | OutOfFuel => None
       end.

(** ** The reference: sequences of registered migrations *)

Inductive leads (r : MigrationRegistry) : string -> route -> string -> Prop :=
| leads_nil v : leads r v [] v
| leads_cons m p w : m ∈ migrations r -> leads r (to_version m) p w -> leads r (from_version m) (m :: p) w.

(** ** Lemmas on the search *)

Lemma leads_snoc r a p u m : leads r a p u -> m ∈ migrations r -> from_version m = u ->
  leads r a (p ++ [m]) (to_version m).
Proof.
  intros H Hm. revert H. induction 1 as [v|m' p w Hm' _ IH]; intros <-.
  - apply leads_cons; [done|]. apply leads_nil.
  - cbn. apply leads_cons; [done|]. by apply IH.
Qed.

Lemma leads_unsnoc r a p w : leads r a p w -> p <> [] ->
  exists q m, p = q ++ [m] /\ leads r a q (from_version m) /\ m ∈ migrations r /\ w = to_version m.
Proof.
  induction 1 as [v|m p w Hm Hp IH]; intros Hne; [done|]. destruct p as [|m' p].
  - inversion Hp; subst. exists [], m. repeat split; [apply leads_nil|done].
  - destruct IH as (q & m1 & Hq & Hl & Hm1 & Hw); [done|]. exists (m :: q), m1. rewrite Hq.
    split; [done|]. split; [by apply leads_cons|]. done.
Qed.

Lemma elem_next_edges v r m : m ∈ next_edges v r <-> m ∈ migrations r /\ from_version m = v.
Proof.
  unfold next_edges. rewrite list_elem_of_In, filter_In, <-list_elem_of_In, bool_decide_eq_true. done.
Qed.

(** What the inner loop did: it reached the target, or it queued the newly seen
    versions, each once. *)
Lemma expand_found target p edges vis queue c :
  expand target p edges vis queue = inl c -> exists m, m ∈ edges /\ to_version m = target /\ c = p ++ [m].
Proof.
  revert vis queue. induction edges as [|m edges IH]; intros vis queue; cbn [expand]; [done|].
  case_bool_decide as Ht.
  - intros [= <-]. exists m. split; [by left|done].
  - destruct (mem _ _); intros H; apply IH in H as (m' & ? & ?); exists m'; (split; [by right|done]).
Qed.

Definition queued (p : route) (news : list MigrationContract) : frontier :=
  map (fun m => (to_version m, p ++ [m])) news.

Lemma expand_queued target p edges vis queue vis' queue' :
  expand target p edges vis queue = inr (vis', queue') ->
  exists news, queue' = queue ++ queued p news /\ news ⊆ edges /\
    (forall v, v ∈ vis' <-> v ∈ vis \/ v ∈ map to_version news) /\
    (forall v, v ∈ map to_version news -> v ∉ vis) /\ NoDup (map to_version news) /\
    (forall m, m ∈ edges -> to_version m <> target /\ to_version m ∈ vis').
Proof.
  revert vis queue. induction edges as [|m edges IH]; intros vis queue; cbn [expand].
  { intros [= <- <-]. exists []. cbn. rewrite app_nil_r. split; [done|]. split; [done|].
    split; [set_solver|]. split; [set_solver|]. split; [constructor|set_solver]. }
  case_bool_decide as Ht; [done|]. destruct (mem (to_version m) vis) eqn:Hv.
  - apply mem_true in Hv. intros H. apply IH in H as (news & -> & Hs & Hvis & Hnew & Hnd & Hall).
    exists news. split; [done|]. split; [set_solver|]. split; [done|]. split; [done|]. split; [done|].
    intros m' [->|Hm']%elem_of_cons; [split; [done|]; apply Hvis; by left|by apply Hall].
  - apply mem_false in Hv. intros H. apply IH in H as (news & -> & Hs & Hvis & Hnew & Hnd & Hall).
    exists (m :: news). split; [by rewrite <-app_assoc|]. split; [set_solver|].
    split; [intros v; rewrite Hvis; cbn; set_solver|].
    split; [intros v; cbn; rewrite elem_of_cons; intros [->|Hin]; [done|]; specialize (Hnew v Hin); set_solver|].
    split; [cbn; constructor; [|done]; intros Hin; specialize (Hnew _ Hin); set_solver|].
    intros m' [->|Hm']%elem_of_cons; [split; [done|]; apply Hvis; left; set_solver|by apply Hall].
Qed.

(** *** The search's invariant *)

Definition shorter (x y : string * route) : Prop := length (snd x) <= length (snd y).

Record searching (r : MigrationRegistry) (a b : string) (visited : list string) (queue : frontier) : Prop := {
  searching_routes : forall v p, (v, p) ∈ queue -> leads r a p v /\ v ∈ visited;
  searching_shortest : forall v p q, (v, p) ∈ queue -> leads r a q v -> length p <= length q;
  searching_levels : forall v p rest w q, queue = (v, p) :: rest -> (w, q) ∈ queue ->
    length q <= S (length p);
  searching_sorted : StronglySorted shorter queue;
  searching_seen : forall v p rest w q, queue = (v, p) :: rest -> leads r a q w ->
    length q <= length p -> w ∈ visited;
  searching_closed : forall u m, u ∈ visited -> (forall p, (u, p) ∉ queue) -> m ∈ migrations r ->
    from_version m = u -> to_version m <> b /\ to_version m ∈ visited;
  searching_target : b ∉ visited;
  searching_start : a ∈ visited;
}.

Lemma searching_init r a b : a <> b -> searching r a b [a] [(a, [])].
Proof.
  intros Hab. split.
  - intros v p Hin%list_elem_of_singleton. injection Hin as -> ->. split; [apply leads_nil|by left].
  - intros v p q Hin%list_elem_of_singleton. injection Hin as -> ->. cbn. lia.
  - intros v p rest w q [= <- <- <-] Hin%list_elem_of_singleton. injection Hin as -> ->. cbn. lia.
  - repeat constructor.
  - intros v p rest w q [= <- <- <-] Hq Hlen. destruct q; [|cbn in Hlen; lia]. inversion Hq. by left.
  - intros u m Hu%list_elem_of_singleton Hno. subst u. exfalso. by apply (Hno []), list_elem_of_singleton.
  - intros Hin%list_elem_of_singleton. congruence.
  - by left.
Qed.

Section one_pop.
Context (r : MigrationRegistry) (a b : string) (visited : list string) (v : string) (p : route)
  (queue : frontier) (HI : searching r a b visited ((v, p) :: queue)).

Lemma pop_route : leads r a p v /\ v ∈ visited.
Proof using HI. apply (searching_routes _ _ _ _ _ HI). by left. Qed.

Lemma pop_found c : expand b p (next_edges v r) visited queue = inl c ->
  leads r a c b /\ forall q, leads r a q b -> length c <= length q.
Proof.
  intros H. apply expand_found in H as (m & Hm & Hb & ->). apply elem_next_edges in Hm as [Hm Hf].
  split; [rewrite <-Hb; by apply (leads_snoc _ _ _ v); [apply pop_route|..]|].
  intros q Hq. rewrite length_app. cbn [length].
  destruct (decide (length q <= length p)) as [Hle|]; [|lia].
  destruct (searching_target _ _ _ _ _ HI).
  by apply (searching_seen _ _ _ _ _ HI v p queue b q).
Qed.

Lemma pop_queued vis' queue' : expand b p (next_edges v r) visited queue = inr (vis', queue') ->
  searching r a b vis' queue'.
Proof.
  intros H. apply expand_queued in H as (news & -> & Hs & Hvis & Hnew & Hnd & Hall).
  pose proof HI as [Hro Hsh Hlev Hso Hseen Hcl Hta Hst]. destruct pop_route as [Hp Hv].
  assert (Hin : forall w q, (w, q) ∈ queue ++ queued p news ->
    (w, q) ∈ queue \/ exists m, m ∈ news /\ w = to_version m /\ q = p ++ [m]).
  { intros w q [Hq|Hq]%elem_of_app; [by left|right]. unfold queued in Hq.
    apply list_elem_of_fmap in Hq as (m & [= -> ->] & Hm). by exists m. }
  assert (Hnews : forall m, m ∈ news -> m ∈ migrations r /\ from_version m = v)
    by (intros m Hm; by apply elem_next_edges, Hs).
  assert (Hnewseen : forall m, m ∈ news -> forall q, leads r a q (to_version m) -> length p < length q).
  { intros m Hm q Hq. destruct (decide (length q <= length p)) as [Hle|]; [|lia]. exfalso.
    apply (Hnew (to_version m)); [by apply list_elem_of_fmap_2|].
    by apply (Hseen v p queue _ q). }
  assert (Hlen : forall w q, (w, q) ∈ queue ++ queued p news -> length p <= length q <= S (length p)).
  { intros w q [Hq|(m & _ & _ & ->)]%Hin; [|rewrite length_app; cbn; lia].
    split; [|apply (Hlev v p queue w q); [done|by right]].
    apply StronglySorted_cons in Hso as [Hso _]. rewrite Forall_forall in Hso. by apply (Hso (w, q)). }
  assert (Hsorted : StronglySorted shorter (queue ++ queued p news)).
  { apply StronglySorted_app. apply StronglySorted_cons in Hso as [_ Hso].
    split; [|split; [done|]].
    - intros [w1 q1] [w2 q2] H1 (m & [= -> ->] & _)%list_elem_of_fmap. unfold shorter. cbn [snd].
      rewrite length_app. cbn. specialize (Hlev v p queue w1 q1 eq_refl). rewrite elem_of_cons in Hlev. lia || (specialize (Hlev (or_intror H1)); lia).
    - clear. induction news as [|m news IH]; [constructor|]. apply StronglySorted_cons. split; [|done].
      apply Forall_forall. intros x (m' & -> & _)%list_elem_of_fmap. unfold shorter. cbn. rewrite !length_app. done. }
  assert (Hgen : forall w q, (w, q) ∈ queue ++ queued p news -> forall q', leads r a q' w -> length q <= length q').
  { intros w q [Hq|(m & Hm & -> & ->)]%Hin q' Hq'.
    - apply (Hsh w q q'); [by right|done].
    - rewrite length_app. cbn. specialize (Hnewseen m Hm q' Hq'). lia. }
  assert (Hclosed : forall u m, u ∈ vis' -> (forall q, (u, q) ∉ queue ++ queued p news) -> m ∈ migrations r ->
    from_version m = u -> to_version m <> b /\ to_version m ∈ vis').
  { intros u m Hu Hno Hm Hf. destruct (decide (u = v)) as [->|Hne].
    - apply Hall. by apply elem_next_edges.
    - apply Hvis in Hu as [Hu|Hu].
      + destruct (Hcl u m Hu) as [Hb Hw]; [|done|done|split; [done|apply Hvis; by left]].
        intros q [[= <- <-]|Hq]%elem_of_cons; [done|]. apply (Hno q), elem_of_app. by left.
      + exfalso. apply list_elem_of_fmap in Hu as (m' & -> & Hm').
        apply (Hno (p ++ [m'])), elem_of_app. right.
        by apply (list_elem_of_fmap_2 (fun m => (to_version m, p ++ [m]))). }
  split.
  - intros w q [Hq|(m & Hm & -> & ->)]%Hin.
    + destruct (Hro w q) as [? ?]; [by right|]. split; [done|]. apply Hvis. by left.
    + destruct (Hnews m Hm) as [? ?]. split; [by apply (leads_snoc _ _ _ v)|].
      apply Hvis. right. by apply list_elem_of_fmap_2.
  - intros w q q' Hq Hq'. by apply (Hgen w q).
  - intros w q rest w' q' Hqu Hin'. rewrite Hqu in Hlen. rewrite Hqu in Hin'.
    pose proof (Hlen w q ltac:(by left)) as H1. pose proof (Hlen w' q' Hin') as H2. lia.
  - done.
  - intros w q rest x q' Hqu Hq' Hle.
    pose proof (Hlen w q ltac:(rewrite Hqu; by left)) as H1.
    destruct (decide (length q' <= length p)) as [Hshort|Hlong]; [apply Hvis; left; by apply (Hseen v p queue x q')|].
    destruct (leads_unsnoc _ _ _ _ Hq') as (q0 & m & -> & Hq0 & Hm & ->); [by destruct q'; cbn in Hlong; [lia|]|].
    rewrite length_app in *. cbn [length] in *.
    apply (Hclosed (from_version m) m); [|intros q1 Hq1|done|done].
    + apply Hvis. left. apply (Hseen v p queue _ q0); [done|done|lia].
    + specialize (Hgen _ _ Hq1 _ Hq0). rewrite Hqu in Hsorted, Hq1. apply StronglySorted_cons in Hsorted as [Hs1 _].
      apply elem_of_cons in Hq1 as [[= _ <-]|Hq1]; [lia|]. rewrite Forall_forall in Hs1.
      specialize (Hs1 _ Hq1). unfold shorter in Hs1. cbn in Hs1. lia.
  - done.
  - intros Hb. apply Hvis in Hb as [Hb|Hb]; [done|]. apply list_elem_of_fmap in Hb as (m & Hm & Hin').
    destruct (Hall m (Hs _ Hin')) as [Hne _]. congruence.
  - apply Hvis. by left.
Qed.
End one_pop.

(** *** Enough fuel

    Each turn of the loop takes one version off the frontier, and a version
    enters it once. *)

Definition unseen (r : MigrationRegistry) (visited : list string) : list string :=
  List.filter (fun v => negb (mem v visited)) (remove_dups (map to_version (migrations r))).

Lemma elem_unseen r visited v : v ∈ unseen r visited <-> v ∈ map to_version (migrations r) /\ v ∉ visited.
Proof.
  unfold unseen. rewrite list_elem_of_In, filter_In, <-list_elem_of_In, elem_of_remove_dups, negb_true_iff, mem_false.
  done.
Qed.

Lemma unseen_NoDup r visited : NoDup (unseen r visited).
Proof. unfold unseen. apply NoDup_ListNoDup, List.NoDup_filter, NoDup_ListNoDup, NoDup_remove_dups. Qed.

Lemma expand_measure r b p v visited queue vis' queue' :
  expand b p (next_edges v r) visited queue = inr (vis', queue') ->
  length queue' + length (unseen r vis') <= length queue + length (unseen r visited).
Proof.
  intros H. apply expand_queued in H as (news & -> & Hs & Hvis & Hnew & Hnd & _).
  rewrite length_app. unfold queued. rewrite length_map.
  enough (length (map to_version news ++ unseen r vis') <= length (unseen r visited)) as Hle
    by (rewrite length_app, length_map in Hle; lia).
  apply submseteq_length, NoDup_submseteq.
  - apply NoDup_app. split; [done|]. split; [|apply unseen_NoDup].
    intros w Hw Hu. apply elem_unseen in Hu as [_ Hu]. apply Hu, Hvis. by right.
  - intros w [Hw|Hw]%elem_of_app; apply elem_unseen.
    + split; [|by apply Hnew]. apply list_elem_of_fmap in Hw as (m & -> & Hm).
      apply list_elem_of_fmap_2. by apply Hs, elem_next_edges in Hm as [Hm _].
    + apply elem_unseen in Hw as [? Hw]. split; [done|]. intros Hv. apply Hw, Hvis. by left.
Qed.

Lemma search_ends r b fuel visited queue :
  length queue + length (unseen r visited) < fuel -> search fuel r b visited queue <> OutOfFuel.
Proof.
  revert visited queue. induction fuel as [|fuel IH]; intros visited queue Hf; [lia|]. cbn [search].
  destruct queue as [|[v p] queue]; [done|].
  destruct (expand b p (next_edges v r) visited queue) as [c|[vis' queue']] eqn:E; [done|].
  apply IH. apply expand_measure in E. cbn [length] in Hf. lia.
Qed.

Lemma search_fuel_bound r a : length ([(a, [])] : frontier) + length (unseen r [a]) < search_fuel r.
Proof.
  unfold search_fuel. cbn [length]. enough (length (unseen r [a]) <= length (migrations r)) by lia.
  rewrite <-(length_map to_version). apply submseteq_length, NoDup_submseteq; [apply unseen_NoDup|].
  intros v Hv. by apply elem_unseen in Hv as [? _].
Qed.

Lemma search_spec r a b fuel visited queue : searching r a b visited queue ->
  match search fuel r b visited queue with
  | Found p => leads r a p b /\ forall q, leads r a q b -> length p <= length q
  | NotFound => forall q, ~ leads r a q b
  | OutOfFuel => True
  end.
Proof.
  revert visited queue. induction fuel as [|fuel IH]; intros visited queue HI; cbn [search]; [done|].
  destruct queue as [|[v p] queue].
  - intros q Hq. destruct HI as [_ _ _ _ _ Hcl Hta Hst].
    assert (Hall : forall w, leads r a q w -> w ∈ visited).
    { clear Hq. induction q as [|m q IHq] using rev_ind; intros w Hw; [by inversion Hw; subst|].
      destruct (leads_unsnoc _ _ _ _ Hw) as (q0 & m0 & Heq & Hq0 & Hm & ->); [by destruct q|].
      apply app_inj_tail in Heq as [-> ->]. apply (Hcl (from_version m0) m0); [by apply IHq| |done|done].
      intros p Hp. by apply elem_of_nil in Hp. }
    by apply Hta, Hall.
  - destruct (expand b p (next_edges v r) visited queue) as [c|[vis' queue']] eqn:E.
    + by eapply pop_found.
    + apply IH. by eapply pop_queued.
Qed.

(** C15 The migration search ends: the loop empties its frontier within one turn more
    than there are registered migrations, so more fuel than the model gives it never
    changes the result. *)
Theorem migration_search_terminates (r : MigrationRegistry) (a b : string) (fuel : nat) :
  search_fuel r <= fuel -> search fuel r b [a] [(a, [])] <> OutOfFuel /\
  search fuel r b [a] [(a, [])] = search (search_fuel r) r b [a] [(a, [])].
Proof.
  intros Hf. pose proof (search_fuel_bound r a) as Hb. pose proof (search_ends r b (search_fuel r) [a] [(a, [])] Hb) as H0.
  assert (Hmono : forall f1 f2 vis q, f1 <= f2 -> search f1 r b vis q <> OutOfFuel ->
    search f2 r b vis q = search f1 r b vis q).
  { clear. induction f1 as [|f1 IH]; intros [|f2] vis q Hle Hne; [done|done|lia|]. cbn [search] in *.
    destruct q as [|[v p] q]; [done|]. destruct (expand _ _ _ _ _) as [c|[vis' q']]; [done|]. apply IH; [lia|done]. }
  rewrite (Hmono _ fuel _ _ Hf H0). done.
Qed.

(** C14 [path] returns a shortest sequence of registered migrations that leads from one
    version to the other, and refuses exactly when there is none. *)
Theorem migration_path_is_shortest (r : MigrationRegistry) (a b : string) :
  (exists p, path a b r = Some (Ok p) /\ leads r a p b /\ forall q, leads r a q b -> length p <= length q) \/
  (path a b r = Some (Raise (RegistryError ("no migration path from " +:+ a +:+ " to " +:+ b))) /\
   forall q, ~ leads r a q b).
Proof.
  unfold path. case_bool_decide as Hab.
  { subst b. left. exists []. split; [done|]. split; [apply leads_nil|]. cbn. lia. }
  pose proof (search_spec r a b (search_fuel r) _ _ (searching_init r a b Hab)) as H.
  pose proof (search_ends r b (search_fuel r) [a] [(a, [])] (search_fuel_bound r a)) as Hf.
  destruct (search _ _ _ _ _) as [p| |]; [left; by exists p|by right|done].
Qed.

Definition two_step : MigrationContract :=
  mkContract "stateport.b" "2" "3" ["a"] ["a"] [mkOwnedPath "a"] [mkOperation DELETE "a" None None None None None]
    "" "stateport" CONTRACT_FORMAT.

Lemma migration_search_terminates_witness :
  search 9 (mkRegistry [rename_settings; two_step]) "3" ["1"] [("1", [])] <> OutOfFuel /\
  path "1" "3" (mkRegistry [rename_settings; two_step]) = Some (Ok [rename_settings; two_step]).
Proof.
  split; [|reflexivity].
  apply (migration_search_terminates (mkRegistry [rename_settings; two_step]) "1" "3" 9).
  apply (bool_decide_unpack _). reflexivity.
Defined.

(** ** Registered contracts *)

Lemma each_map {A B} (f : A -> checked B) (g : B -> A) l : Forall (fun x => f (g x) = Ok x) l ->
  each f (map g l) = Ok l.
Proof. induction 1 as [|x l Hx _ IH]; [done|]. cbn. rewrite Hx. cbn. by rewrite IH. Qed.

Definition valid_registry (r : MigrationRegistry) : Prop :=
  validate r = Ok tt /\ Forall valid_contract (migrations r).

Lemma registry_keys_NoDup r : NoDup (dict_keys (registry_to_dict true r)).
Proof. apply (bool_decide_unpack _); reflexivity. Qed.

(** A registry survives serialisation, with every contract in it: written with its
    digests as canonical JSON and read back, a registry that passes its validation is
    the same registry. *)
Theorem registry_survives_json (r : MigrationRegistry) :
  valid_registry r -> registry_from_dict (norm (JObj (registry_to_dict true r))) = Ok r.
Proof.
  intros [Hv Hall]. rewrite norm_obj. pose proof (registry_keys_NoDup r) as Hd. set (d := registry_to_dict true r) in *.
  assert (Hk : forall k v, dict_get k d = Some v ->
    dict_get k (sort_fields (norm_fields d)) = Some (norm v)) by (intros k v H; by rewrite (sorted_key d Hd k _ H)).
  unfold registry_from_dict.
  rewrite (sorted_no_unknown d REGISTRY_KEYS)
    by (intros k; unfold d, REGISTRY_KEYS; cbn; rewrite !elem_of_cons, !elem_of_nil; tauto).
  rewrite bool_decide_eq_true_2 by done. cbn [negb refuse_if obind].
  rewrite (key_json_some _ _ _ (Hk "formatVersion" (JStr REGISTRY_FORMAT) eq_refl)),
    (key_json_some _ _ _ (Hk "owner" (JStr "stateport") eq_refl)),
    (key_json_some _ _ _ (Hk "migrations" (JArr (map (fun m => JObj (contract_to_dict true m)) (migrations r))) eq_refl)),
    (key_json_some _ _ _ (Hk "registryDigest" (JStr (registry_digest r)) eq_refl)).
  change (norm (JStr REGISTRY_FORMAT)) with (JStr REGISTRY_FORMAT). change (norm (JStr "stateport")) with (JStr "stateport").
  change (norm (JStr (registry_digest r))) with (JStr (registry_digest r)).
  rewrite !bool_decide_eq_true_2 by done. cbn [negb orb refuse_if obind].
  rewrite norm_arr, map_map.
  rewrite (each_map _ (fun m => norm (JObj (contract_to_dict true m)))).
  2: { eapply Forall_impl; [exact Hall|]. intros m Hm. 
       assert (Hc := Hm). by apply contract_roundtrip. }
  cbn [obind]. unfold from_contracts, new_registry.
  assert (Hs : sort_by_id (migrations r) = migrations r).
  { unfold validate in Hv. apply obind_Ok in Hv as (_ & _ & Hv). apply refuse_if_Ok in Hv.
    apply negb_false_iff in Hv. by apply bool_decide_eq_true in Hv. }
  rewrite Hs. destruct r as [ms]. cbn [migrations] in *. rewrite Hv. cbn [obind].
  rewrite py_eqb_refl, andb_false_r. done.
Qed.

Lemma registry_survives_json_witness :
  registry_from_dict (norm (JObj (registry_to_dict true (mkRegistry [rename_settings]))))
  = Ok (mkRegistry [rename_settings]).
Proof.
  apply registry_survives_json. split; [vm_compute; reflexivity|]. constructor; [exact rename_settings_valid|constructor].
Defined.
