(* ===== verification/MigrationExecutor.v ===== *)
(** * Lifecycle migrations: the executor (packages/lifecycle-migrations, executor.py)

    The files below the instance root are a finite map from the components of a
    path to a node.  Every system call that reads a file or changes the tree may
    fail: the world carries a schedule of faults, consumed one per call, and a
    failing write may leave the first bytes of what it was given.  Absolute
    paths, permissions and concurrent writers are outside the model; so is the
    death of the process between two calls.  [path.resolve] stays below the root
    once no component is a link, so the check that it does has no counterpart. *)

From S2P Require Import Prelude Json JsonParse Sha256 Paths MigrationContract MigrationRegistry.

Create HintDb frames.

(** ** The files of an instance *)

Abbreviation key := (list string).

Inductive node :=
| File (bytes : string)
| Dir
| Link (live : bool)   (* a symbolic link, to something that exists or not *)
| Special.             (* a socket, a device, a named pipe *)

#[export] Instance node_eq_dec : EqDecision node.
Proof. solve_decision. Defined.

Abbreviation tree_map := (gmap key node).

(** One system call: it succeeds, or fails after [n] bytes. *)
Abbreviation fault := (option nat).

Record world := mkWorld {
  root_is_dir : bool;
  tree : tree_map;
  faults : list fault;
  snapshots : list (string * option string);   (* of the running transaction *)
}.

Abbreviation run := (M world mig_error).

Definition set_tree (t : tree_map) (w : world) : world :=
  mkWorld (root_is_dir w) t (faults w) (snapshots w).
Definition set_faults (l : list fault) (w : world) : world :=
  mkWorld (root_is_dir w) (tree w) l (snapshots w).
Definition set_snapshots (l : list (string * option string)) (w : world) : world :=
  mkWorld (root_is_dir w) (tree w) (faults w) l.

(** [act] is what the call does, [None] when the operating system refuses it;
    [broken n] is what is left when it fails by a fault. *)
Definition os_call (act : tree_map -> option tree_map) (broken : nat -> tree_map -> tree_map) : run unit :=
  fun w =>
    match faults w with
    | Some n :: rest => (set_tree (broken n (tree w)) (set_faults rest w), Raise OSError)
    | _ =>
        let w' := set_faults (tail (faults w)) w in
        match act (tree w) with
        | Some t => (set_tree t w', Ok tt)
        | None => (w', Raise OSError)
        end
    end.

Definition unchanged (n : nat) (t : tree_map) : tree_map := t.

Definition is_symlink (t : tree_map) (k : key) : bool :=
  match t !! k with Some (Link _) => true | _ => false end.
Definition exists_ (t : tree_map) (k : key) : bool :=
  match t !! k with None | Some (Link false) => false | _ => true end.
Definition is_file (t : tree_map) (k : key) : bool :=
  match t !! k with Some (File _) => true | _ => false end.

Definition parent (k : key) : key := take (length k - 1) k.
Definition name (k : key) : string := default "" (last k).
Definition prefixes (k : key) : list key := map (fun n => take n k) (seq 1 (length k)).

(** [os.mkdir], when a directory in the way is fine. *)
Definition mkdir (k : key) : run unit :=
  let* t := gets tree in
  match t !! k with
  | Some Dir => ret tt
  | None => os_call (fun t => Some (<[k := Dir]> t)) unchanged
  | Some _ => raise OSError
  end.

(** [path.mkdir(parents=True, exist_ok=True)], given the path and its ancestors, from
    the outermost inwards. *)
Fixpoint mkdirs (ks : list key) : run unit :=
  match ks with
  | [] => ret tt
  | k :: rest => mkdir k >>* mkdirs rest
  end.

Definition read_bytes (k : key) : run string :=
  os_call Some unchanged >>*
  let* t := gets tree in
  match t !! k with Some (File b) => ret b | _ => raise OSError end.

Definition unlink (k : key) : run unit :=
  os_call (fun t => match t !! k with
                    | Some Dir | None => None
                    | Some _ => Some (delete k t)
                    end) unchanged.

(** [try: body finally: cleanup] *)
Definition try_finally {A} (body : run A) (cleanup : run unit) : run A := fun w =>
  let '(w1, r) := body w in
  match cleanup w1 with
  | (w2, Ok _) => (w2, r)
  | (w2, Raise e) => (w2, Raise e)
  end.

Definition rename (source target : key) (t : tree_map) : option tree_map :=
  match t !! source, t !! target with
  | _, Some Dir | None, _ => None
  | Some n, _ => Some (<[target := n]> (delete source t))
  end.

(** The body that [write] and [_write_receipt] share: [temporary.open("xb")], the
    write with its flush and [fsync], [os.replace], and the clean-up. *)
Definition replace_with (temporary target : key) (value : string) : run unit :=
  try_finally
    (os_call (fun t => match t !! temporary with
                       | None => Some (<[temporary := File ""]> t)
                       | Some _ => None
                       end) unchanged >>*
     os_call (fun t => Some (<[temporary := File value]> t))
       (fun n => <[temporary := File (String.substring 0 n value)]>) >>*
     os_call (rename temporary target) unchanged)
    (let* t := gets tree in
     if exists_ t temporary then unlink temporary else ret tt).

(** ** [SafeOwnedWorkspace] *)

Section workspace.
(** [self._owned] *)
Variable owned_set : list string.

Definition ws_path (relative declared : string) : run key :=
  let* value := lift (safe_relative_path (JStr relative) "migration path") in
  raise_if (negb (mem value owned_set))
    (MigrationError (declared +:+ " path is not declared as owned: " +:+ value)) >>*
  let* t := gets tree in
  raise_if (existsb (is_symlink t) (prefixes (pure_parts value)))
    (MigrationError ("owned path traverses a symlink: " +:+ value)) >>*
  ret (pure_parts value).

Definition read (relative : string) : run (option string) :=
  let* target := ws_path relative "read" in
  let* t := gets tree in
  if negb (exists_ t target) then ret None
  else
    raise_if (negb (is_file t target)) (MigrationError ("owned path is not a regular file: " +:+ relative)) >>*
    let* value := read_bytes target in
    ret (Some value).

Definition temporary_of (target : key) : key :=
  parent target ++ ["." +:+ name target +:+ ".stateport-migration.tmp"].

Definition write (relative value : string) (replace : bool) : run unit :=
  let* target := ws_path relative "write" in
  let* t := gets tree in
  raise_if (exists_ t target && is_symlink t target)
    (MigrationError ("write target is a symlink: " +:+ relative)) >>*
  raise_if (exists_ t target && negb (is_file t target))
    (MigrationError ("write target is not a regular file: " +:+ relative)) >>*
  raise_if (exists_ t target && negb replace)
    (MigrationError ("write target already exists: " +:+ relative)) >>*
  mkdirs (prefixes (parent target)) >>*
  ws_path relative "write" >>*
  let* t := gets tree in
  raise_if (exists_ t (temporary_of target) || is_symlink t (temporary_of target))
    (MigrationError ("temporary write path already exists: " +:+ relative)) >>*
  replace_with (temporary_of target) target value.

(** [delete] *)
Definition delete_file (relative : string) : run unit :=
  let* target := ws_path relative "write" in
  let* t := gets tree in
  if negb (exists_ t target) then ret tt
  else
    raise_if (is_symlink t target || negb (is_file t target))
      (MigrationError ("delete target is not a regular file: " +:+ relative)) >>*
    unlink target.

(** ** [MigrationTransaction] *)

Definition capture (p : string) : run unit :=
  lift (safe_relative_path (JStr p) "transaction path") >>*
  let* taken := gets snapshots in
  if mem p (map fst taken) then ret tt
  else let* value := read p in
       modify (fun w => set_snapshots (snapshots w ++ [(p, value)]) w).

Fixpoint restore (l : list (string * option string)) : run unit :=
  match l with
  | [] => ret tt
  | (p, value) :: rest =>
      let* current := read p in
      match value, current with
      | None, None => ret tt
      | None, Some _ => delete_file p
      | Some v, _ => write p v (given current)
      end >>*
      restore rest
  end.

Definition rollback : run unit :=
  let* taken := gets snapshots in
  restore (rev taken).

(** ** Operations *)

Definition hash_bytes (value : string) : string := "sha256:" +:+ sha256_hex value.

(** [_hashes]; the paths are distinct once the contract was checked. *)
Fixpoint hashes (paths : list string) : run dict :=
  match paths with
  | [] => ret []
  | p :: rest =>
      let* value := read p in
      let* others := hashes rest in
      ret ((p, match value with Some v => JStr (hash_bytes v) | None => JNull end) :: others)
  end.

Definition check_expected (o : MigrationOperation) (value : option string) : run unit :=
  raise_if (given (expected_hash o) && negb (bool_decide (expected_hash o = hash_bytes <$> value)))
    (MigrationError ("expected hash does not match " +:+ op_target o)).

Fixpoint is_prefix (old s : list N) : bool :=
  match old, s with
  | [], _ => true
  | a :: old', b :: s' => (a =? b)%N && is_prefix old' s'
  | _, [] => false
  end.

(** [s.count(old)], occurrences that do not overlap; [skip] characters of the last one
    are left. *)
Fixpoint count_of (old : list N) (skip : nat) (s : list N) : nat :=
  match s with
  | [] => 0
  | _ :: s' =>
      match skip with
      | S n => count_of old n s'
      | O => if is_prefix old s then S (count_of old (length old - 1) s') else count_of old 0 s'
      end
  end.

(** [s.replace(old, new, 1)] *)
Fixpoint replace_first (old new s : list N) : list N :=
  match s with
  | [] => []
  | c :: s' => if is_prefix old s then new ++ drop (length old) s else c :: replace_first old new s'
  end.

Definition from_option_text (o : option string) : string := default "" o.

Definition apply_operation (o : MigrationOperation) : run unit :=
  let* source_value := read (match op_source o with Some s => s | None => op_target o end) in
  check_expected o source_value >>*
  capture (op_target o) >>*
  match op_source o with Some s => capture s | None => ret tt end >>*
  match op_kind o with
  | COPY =>
      match source_value with
      | None => raise (MigrationError ("copy source is missing: " +:+ from_option_text (op_source o)))
      | Some v => write (op_target o) v false
      end
  | MOVE =>
      match source_value with
      | None => raise (MigrationError ("move source is missing: " +:+ from_option_text (op_source o)))
      | Some v => write (op_target o) v false >>* delete_file (from_option_text (op_source o))
      end
  | DELETE => delete_file (op_target o)
  | WRITE_TEXT => write (op_target o) (encode (from_option_text (op_content o))) false
  | REPLACE_TEXT =>
      match source_value with
      | None => raise (MigrationError ("replace_text target is missing: " +:+ op_target o))
      | Some v =>
          match utf8_decode v with
          | None => raise (MigrationError ("replace_text target is not UTF-8: " +:+ op_target o))
          | Some current =>
              let old := codes (from_option_text (op_old o)) in
              raise_if (negb (count_of old 0 current =? 1)%nat)
                (MigrationError ("replace_text requires exactly one old value: " +:+ op_target o)) >>*
              write (op_target o)
                (utf8_encode (replace_first old (codes (from_option_text (op_new o))) current)) true
          end
      end
  end.

Fixpoint apply_operations (l : list MigrationOperation) : run unit :=
  match l with
  | [] => ret tt
  | o :: rest => apply_operation o >>* apply_operations rest
  end.
End workspace.

(** ** Receipts *)

Definition RECEIPTS : key := [".stateport"; "migrations"; "receipts"].

Definition receipt_directory : run key :=
  let* t := gets tree in
  raise_if (is_symlink t [".stateport"]) (MigrationError "StatePort receipt directory is a symlink") >>*
  raise_if (existsb (fun k => exists_ t k && is_symlink t k) (prefixes RECEIPTS))
    (MigrationError "StatePort receipt path contains a symlink") >>*
  mkdirs (prefixes RECEIPTS) >>*
  ret RECEIPTS.

Definition receipt_path (id : string) : run key :=
  let* receipts := receipt_directory in
  ret (receipts ++ [id +:+ ".json"]).

(** [path.read_text(encoding="utf-8")] and [json.loads]; the translation of line
    endings changes no JSON text's value. *)
Definition parse_receipt (bytes : string) : option json :=
  match utf8_decode bytes with
  | Some points => match of_codes points with Some text => loads text | None => None end
  | None => None
  end.

(** The text of the error behind a receipt that cannot be read is left out. *)
Definition unreadable : mig_error := MigrationError "could not read migration receipt".

Definition read_receipt (path : key) : run (option dict) :=
  let* t := gets tree in
  if negb (exists_ t path) then ret None
  else
    raise_if (is_symlink t path || negb (is_file t path))
      (MigrationError "migration receipt is not a regular file") >>*
    let* bytes := (fun w => match read_bytes path w with
                            | (w', Raise _) => (w', Raise unreadable)
                            | r => r
                            end) in
    match parse_receipt bytes with
    | None => raise unreadable
    | Some (JObj value) =>
        raise_if (negb (py_eqb (key_json "formatVersion" value) (JStr RECEIPT_FORMAT)))
          (MigrationError "migration receipt format is unsupported") >>*
        ret (Some value)
    | Some _ => raise (MigrationError "migration receipt format is unsupported")
    end.

Definition receipt_bytes (value : dict) : string := encode (dumps true (JObj value)) +:+ String "010" "".

Definition receipt_temporary (path : key) : key := parent path ++ ["." +:+ name path +:+ ".tmp"].

Definition write_receipt (path : key) (value : dict) : run unit :=
  let* t := gets tree in
  raise_if (exists_ t (receipt_temporary path) || is_symlink t (receipt_temporary path))
    (MigrationError "migration receipt temporary path already exists") >>*
  replace_with (receipt_temporary path) path (receipt_bytes value).

Record ApplyResult := mkResult { receipt : dict; idempotent : bool }.

(** [to_dict] and [__getitem__] *)
Definition result_to_dict (r : ApplyResult) : dict := dict_set "idempotent" (JBool (idempotent r)) (receipt r).
Definition result_item (r : ApplyResult) (k : string) : option json := dict_get k (result_to_dict r).

(** ** [MigrationExecutor] *)

Record MigrationExecutor := mkExecutor {
  registry : option MigrationRegistry;
  applied_at : option string;
}.

Inductive supplied := ById (id : string) | ByContract (c : MigrationContract).

(** The contract that will run: only what the registry holds, when there is one. *)
Definition admitted_contract (x : MigrationExecutor) (m : supplied) : checked MigrationContract :=
  match registry x, m with
  | Some r, ById id => find_migration id r
  | Some r, ByContract c =>
      let? contract := find_migration (migration_id c) r in
      refuse_if (negb (bool_decide (contract_digest contract = contract_digest c)))
        (RegistryError "supplied migration differs from the registered contract") >>?
      Ok contract
  | None, ByContract c => Ok c
  | None, ById _ => Raise (MigrationError "an unregistered migration requires a MigrationContract")
  end.

Definition receipt_of (c : MigrationContract) (stamp : string) (before after : dict) : dict :=
  [("formatVersion", JStr RECEIPT_FORMAT); ("status", JStr "applied");
   ("migrationId", JStr (migration_id c)); ("contractDigest", JStr (contract_digest c));
   ("fromVersion", JStr (from_version c)); ("toVersion", JStr (to_version c));
   ("appliedAt", JStr stamp); ("beforeHashes", JObj before); ("afterHashes", JObj after);
   ("operations", JArr (map (fun o => JObj (op_to_dict o)) (operations c)));
   ("rollback", JObj [("supported", JBool true); ("onFailure", JStr "restore-before-state")])].

(** [except Exception: transaction.rollback(); raise].  [RollbackFailed] is the
    [MigrationError] whose message starts with [migration failed and rollback failed]. *)
Definition or_rollback {A} (owned_set : list string) (body : run A) : run A := fun w =>
  match body w with
  | (w1, Raise e) =>
      match rollback owned_set w1 with
      | (w2, Ok _) => (w2, Raise e)
      | (w2, Raise e') => (w2, Raise (RollbackFailed e'))
      end
  | r => r
  end.

(** The existing receipt: the same migration, with its output still in place. *)
Definition check_existing (owned_set : list string) (c : MigrationContract) (existing : dict) : run ApplyResult :=
  raise_if (negb (py_eqb (key_json "migrationId" existing) (JStr (migration_id c)))
            || negb (py_eqb (key_json "contractDigest" existing) (JStr (contract_digest c))))
    (MigrationError "existing receipt does not match the migration contract") >>*
  let* now_hashes := hashes owned_set (write_paths c) in
  raise_if (negb (py_eqb (key_json "afterHashes" existing) (JObj now_hashes)))
    (MigrationError "existing migration receipt is stale or output was modified") >>*
  ret (mkResult existing true).

(** The body of the transaction; the receipt is written last. *)
Definition perform (owned_set : list string) (c : MigrationContract) (stamp : string) (path : key)
    (before : dict) : run ApplyResult :=
  apply_operations owned_set (operations c) >>*
  let* after := hashes owned_set (write_paths c) in
  let value := receipt_of c stamp before after in
  write_receipt path value >>*
  ret (mkResult value false).

(** The rest of [apply], once the contract is chosen. *)
Definition apply_contract (x : MigrationExecutor) (now : string) (contract : MigrationContract) : run ApplyResult :=
  lift (new_contract (args_of contract)) >>*
  let* root_ok := gets root_is_dir in
  raise_if (negb root_ok) (MigrationError "migration root must be an existing regular directory") >>*
  let owned_set := map owned (owned_paths contract) in
  let* path := receipt_path (migration_id contract) in
  let* existing := read_receipt path in
  match existing with
  | Some value => check_existing owned_set contract value
  | None =>
      let* before := hashes owned_set (read_paths contract) in
      modify (set_snapshots []) >>*
      let stamp := match applied_at x with
                   | Some s => if bool_decide (s = "") then now else s
                   | None => now
                   end in
      or_rollback owned_set (perform owned_set contract stamp path before)
  end.

(** [apply]; [now] is [datetime.now(timezone.utc).isoformat()]. *)
Definition apply (x : MigrationExecutor) (now : string) (m : supplied) : run ApplyResult :=
  let* contract := lift (admitted_contract x m) in
  apply_contract x now contract.

(** [apply_migration] *)
Definition apply_migration (m : supplied) (r : option MigrationRegistry) (at_ : option string) (now : string)
    : run ApplyResult :=
  apply (mkExecutor r at_) now m.

(** ** What a computation may change

    [respects R m]: every run of [m], whatever the faults and the outcome, relates
    the world before to the world after by [R]. *)

Definition respects {A} (R : relation world) (m : run A) : Prop :=
  forall w w' r, m w = (w', r) -> R w w'.

(** A key keeps its node, or becomes a directory that was not there. *)
Definition kept (t t' : tree_map) (k : key) : Prop :=
  t' !! k = t !! k \/ (t !! k = None /\ t' !! k = Some Dir).

Definition outside (P : key -> Prop) (w w' : world) : Prop :=
  forall k, ~ P k -> kept (tree w) (tree w') k.

Definition same_journal (w w' : world) : Prop := snapshots w' = snapshots w.

#[export] Instance kept_preorder k : PreOrder (fun t t' => kept t t' k).
Proof.
  split; [by left|]. intros t1 t2 t3 [H1|[H1 H1']] [H2|[H2 H2']]; unfold kept; rewrite ?H1, ?H2 in *; auto.
Qed.

Lemma kept_trans t1 t2 t3 k : kept t1 t2 k -> kept t2 t3 k -> kept t1 t3 k.
Proof. apply (@PreOrder_Transitive _ _ (kept_preorder k)). Qed.

#[export] Instance outside_preorder P : PreOrder (outside P).
Proof.
  split; [intros w k _; by left|].
  intros w1 w2 w3 H1 H2 k Hk. eapply kept_trans; auto.
Qed.

#[export] Instance same_journal_preorder : PreOrder same_journal.
Proof. split; unfold same_journal; intros ?; congruence. Qed.

Section respects.
Context (R : relation world) `{!PreOrder R}.

Lemma respects_ret {A} (a : A) : respects R (ret a).
Proof. intros w w' r [= <- _]. done. Qed.
Lemma respects_raise {A} e : respects R (raise e : run A).
Proof. intros w w' r [= <- _]. done. Qed.
Lemma respects_lift {A} (o : checked A) : respects R (lift o).
Proof. intros w w' r [= <- _]. done. Qed.
Lemma respects_gets {A} (f : world -> A) : respects R (gets f).
Proof. intros w w' r [= <- _]. done. Qed.
Lemma respects_raise_if b e : respects R (raise_if b e).
Proof. apply respects_lift. Qed.

Lemma respects_bind {A B} (m : run A) (k : A -> run B) :
  respects R m -> (forall a, respects R (k a)) -> respects R (bind m k).
Proof.
  intros Hm Hk w w' r. unfold bind. destruct (m w) as [w1 [a|e]] eqn:E.
  - intros H. etrans; [by eapply Hm|by eapply Hk].
  - intros [= <- <-]. by eapply Hm.
Qed.

Lemma respects_finally {A} (m : run A) c : respects R m -> respects R c -> respects R (try_finally m c).
Proof.
  intros Hm Hc w w' r. unfold try_finally. destruct (m w) as [w1 r1] eqn:E.
  destruct (c w1) as [w2 [u|e]] eqn:E2; intros [= <- <-]; (etrans; [by eapply Hm|by eapply Hc]).
Qed.

Lemma respects_if {A} (b : bool) (m1 m2 : run A) : respects R m1 -> respects R m2 ->
  respects R (if b then m1 else m2).
Proof. by destruct b. Qed.
End respects.

#[export] Hint Resolve respects_ret respects_raise respects_lift respects_gets respects_raise_if : frames.

(** [respectful] goes through a computation, leaving its system calls. *)
Ltac respectful :=
  repeat first
    [ match goal with |- forall _, _ => intro end
    | solve [eauto 2 with frames typeclass_instances]
    | apply respects_bind; [apply _| |]
    | apply respects_finally; [apply _| |]
    | apply respects_if
    | match goal with |- respects _ (match ?x with _ => _ end) => destruct x end ].

Lemma os_call_journal act broken : respects same_journal (os_call act broken).
Proof. intros w w' r. unfold os_call. by repeat case_match; intros [= <- _]. Qed.

Lemma os_call_outside P act broken :
  (forall t t' k, act t = Some t' -> ~ P k -> kept t t' k) ->
  (forall n t k, ~ P k -> kept t (broken n t) k) ->
  respects (outside P) (os_call act broken).
Proof.
  intros Ha Hb w w' r. unfold os_call.
  repeat case_match; intros [= <- _] k Hk; simpl; eauto; by left.
Qed.

Lemma os_call_Ok act broken w w' : os_call act broken w = (w', Ok tt) -> act (tree w) = Some (tree w').
Proof. unfold os_call. repeat case_match; by intros [= <-]. Qed.

Lemma kept_insert t k n k' : k' <> k -> kept t (<[k := n]> t) k'.
Proof. intros H. left. by apply lookup_insert_ne. Qed.

(** The calls that leave every node alone. *)
Lemma idle_call_outside P : respects (outside P) (os_call Some unchanged).
Proof. apply os_call_outside; [intros t t' k [= <-] _|intros n t k _]; by left. Qed.

#[export] Hint Resolve os_call_journal idle_call_outside : frames.

Lemma mkdir_journal k : respects same_journal (mkdir k).
Proof. unfold mkdir. respectful. Qed.

Lemma mkdir_outside P k : respects (outside P) (mkdir k).
Proof.
  intros w w' r. unfold mkdir. rewrite bind_gets.
  destruct (tree w !! k) as [[]|] eqn:E; try (by intros [= <- _]).
  unfold os_call. repeat case_match; intros [= <- _] k' _; try by left.
  all: destruct (decide (k' = k)) as [->|Hne]; [right|by apply kept_insert].
  all: split; [done|]; by apply lookup_insert_eq.
Qed.

Lemma mkdirs_respects (R : relation world) `{!PreOrder R} ks :
  (forall k, respects R (mkdir k)) -> respects R (mkdirs ks).
Proof. intros H. induction ks as [|k ks IH]; cbn [mkdirs]; respectful. Qed.

Lemma mkdirs_journal ks : respects same_journal (mkdirs ks).
Proof. apply mkdirs_respects; [apply _|]. apply mkdir_journal. Qed.
Lemma mkdirs_outside P ks : respects (outside P) (mkdirs ks).
Proof. apply mkdirs_respects; [apply _|]. apply mkdir_outside. Qed.
#[export] Hint Resolve mkdirs_journal mkdirs_outside : frames.

Lemma read_bytes_journal k : respects same_journal (read_bytes k).
Proof. unfold read_bytes. respectful. Qed.
Lemma read_bytes_outside P k : respects (outside P) (read_bytes k).
Proof. unfold read_bytes. respectful. Qed.
Lemma unlink_outside (P : key -> Prop) k : P k -> respects (outside P) (unlink k).
Proof.
  intros Hk. apply os_call_outside; [|by left]. intros t t' k' H Hk'. left.
  repeat case_match; simplify_eq; apply lookup_delete_ne; congruence.
Qed.
#[export] Hint Resolve read_bytes_journal read_bytes_outside unlink_outside : frames.

Lemma replace_with_journal temporary target v : respects same_journal (replace_with temporary target v).
Proof. unfold replace_with, unlink. respectful. Qed.

Lemma replace_with_outside (P : key -> Prop) temporary target v :
  P temporary -> P target -> respects (outside P) (replace_with temporary target v).
Proof.
  intros Ht Hg. unfold replace_with. respectful; apply os_call_outside; try by left.
  - intros t t' k H Hk. case_match; simplify_eq. apply kept_insert. congruence.
  - intros t t' k [= <-] Hk. apply kept_insert. congruence.
  - intros n t k Hk. apply kept_insert. congruence.
  - intros t t' k H Hk. left. unfold rename in H. repeat case_match; simplify_eq;
      (rewrite lookup_insert_ne, lookup_delete_ne by congruence; done).
Qed.
#[export] Hint Resolve replace_with_journal replace_with_outside : frames.

(** The nodes an owned path stands for: itself, and the temporary its writes go through. *)
Definition zone (p : string) (k : key) : Prop :=
  k = pure_parts p \/ k = temporary_of (pure_parts p).

Section workspace_frames.
Context (own : list string).

Lemma ws_path_respects (R : relation world) `{!PreOrder R} p d : respects R (ws_path own p d).
Proof. unfold ws_path. respectful. Qed.

Lemma ws_path_Ok p d w w' k : ws_path own p d w = (w', Ok k) ->
  w' = w /\ k = pure_parts p /\ path_okb p = true /\ p ∈ own /\ is_symlink (tree w) k = false.
Proof.
  unfold ws_path. intros H. apply bind_Ok in H as (w1 & q & Hq & H).
  apply lift_Ok in Hq as [-> Hq]. apply safe_path_Ok in Hq as [[= <-] Hp].
  apply bind_Ok in H as (w1 & [] & [-> Hm]%raise_if_Ok & H). rewrite bind_gets in H.
  apply bind_Ok in H as (w1 & [] & [-> Hs]%raise_if_Ok & H). apply ret_Ok in H as [-> ->].
  apply negb_false_iff, mem_true in Hm. repeat split; try done.
  destruct (path_parts p Hp) as (Hne & _). rewrite existsb_false in Hs. apply Hs.
  unfold prefixes. apply list_elem_of_fmap. exists (length (pure_parts p)).
  rewrite firstn_all. split; [done|]. apply elem_of_seq. destruct (pure_parts p); [done|simpl; lia].
Qed.

Lemma read_journal p : respects same_journal (read own p).
Proof. unfold read. respectful; apply ws_path_respects, _. Qed.
Lemma read_outside P p : respects (outside P) (read own p).
Proof. unfold read. respectful; apply ws_path_respects, _. Qed.

Lemma read_Ok p w w' v : read own p w = (w', Ok v) ->
  tree w' = tree w /\ path_okb p = true /\ p ∈ own /\ tree w !! pure_parts p = File <$> v.
Proof.
  unfold read. intros H. apply bind_Ok in H as (w1 & k & Hk & H).
  apply ws_path_Ok in Hk as (-> & -> & Hp & Ho & Hs). rewrite bind_gets in H.
  unfold exists_, is_file, is_symlink in *. destruct (tree w !! pure_parts p) as [[b| |[]|]|] eqn:E; cbn [negb] in H;
    try discriminate; try (by inv_ok).
  apply bind_Ok in H as (w1 & [] & [-> _]%raise_if_Ok & H).
  apply bind_Ok in H as (w1 & b' & Hb & H). apply ret_Ok in H as [-> ->].
  unfold read_bytes in Hb. apply bind_Ok in Hb as (w2 & [] & Hc & Hb). apply os_call_Ok in Hc.
  injection Hc as Hc. rewrite bind_gets, <-Hc, E in Hb. apply ret_Ok in Hb as [-> ->].
  by rewrite Hc.
Qed.

Lemma write_journal p v b : respects same_journal (write own p v b).
Proof. unfold write. respectful; apply ws_path_respects, _. Qed.

Lemma delete_journal p : respects same_journal (delete_file own p).
Proof. unfold delete_file, unlink. respectful; apply ws_path_respects, _. Qed.

(** The body may run with what the path check established. *)
Lemma ws_path_bind {B} (R : relation world) `{!PreOrder R} p d (k : key -> run B) :
  (path_okb p = true -> p ∈ own -> respects R (k (pure_parts p))) -> respects R (bind (ws_path own p d) k).
Proof.
  intros Hk w w' r. unfold bind. destruct (ws_path own p d w) as [w1 [a|e]] eqn:E.
  - apply ws_path_Ok in E as (-> & -> & Hp & Ho & _). by apply Hk.
  - intros [= <- _]. by eapply ws_path_respects.
Qed.

Lemma write_outside (P : key -> Prop) p v b :
  (path_okb p = true -> p ∈ own -> forall k, zone p k -> P k) -> respects (outside P) (write own p v b).
Proof.
  intros Hz. unfold write. apply ws_path_bind; [apply _|]. intros Hp Ho. specialize (Hz Hp Ho).
  assert (P (temporary_of (pure_parts p))) by (apply Hz; by right).
  assert (P (pure_parts p)) by (apply Hz; by left).
  respectful.
Qed.

Lemma delete_outside (P : key -> Prop) p :
  (path_okb p = true -> p ∈ own -> P (pure_parts p)) -> respects (outside P) (delete_file own p).
Proof.
  intros Hz. unfold delete_file. apply ws_path_bind; [apply _|]. intros Hp Ho. specialize (Hz Hp Ho).
  respectful.
Qed.
End workspace_frames.

#[export] Hint Resolve read_journal read_outside write_journal delete_journal : frames.

Lemma temporary_ne k : k <> [] -> temporary_of k <> k.
Proof.
  intros Hk H. unfold temporary_of, name in H.
  apply (f_equal last) in H. rewrite last_snoc in H.
  destruct (last k) as [s|] eqn:E; [|by apply last_None in E].
  injection H as H. apply (f_equal String.length) in H.
  rewrite !str_length_app in H. simpl in H. lia.
Qed.

(** ** What the calls did when they succeed *)

Lemma finally_Ok {A} (m : run A) c w w' a : try_finally m c w = (w', Ok a) ->
  exists w1, m w = (w1, Ok a) /\ c w1 = (w', Ok tt).
Proof.
  unfold try_finally. destruct (m w) as [w1 r]. destruct (c w1) as [w2 [[]|e]] eqn:E; [|done].
  intros [= <- ->]. by exists w1.
Qed.

Lemma replace_with_Ok temporary target v w w' :
  temporary <> target -> replace_with temporary target v w = (w', Ok tt) ->
  tree w' = <[target := File v]> (tree w).
Proof.
  intros Hne H. unfold replace_with in H. apply finally_Ok in H as (w1 & H & Hc).
  apply bind_Ok in H as (w2 & [] & H1%os_call_Ok & H). apply bind_Ok in H as (w3 & [] & H2%os_call_Ok & H3%os_call_Ok).
  destruct (tree w !! temporary) eqn:E; [done|]. injection H1 as H1. injection H2 as H2.
  unfold rename in H3. rewrite <-H2, <-H1, lookup_insert_eq in H3.
  assert (Hw1 : tree w1 = <[target := File v]> (tree w)).
  { repeat case_match; simplify_eq; (rewrite <-H3; f_equal;
      rewrite insert_insert_eq; by apply delete_insert_id). }
  rewrite <-Hw1. rewrite bind_gets in Hc. unfold exists_ in Hc.
  rewrite Hw1, lookup_insert_ne, E in Hc by done. cbn in Hc. by injection Hc as ->.
Qed.

Section workspace_success.
Context (own : list string).

(** A successful write leaves the value at its target and nothing else. *)
Lemma write_Ok p v b w w' : write own p v b w = (w', Ok tt) ->
  path_okb p = true /\ p ∈ own /\ tree w' !! pure_parts p = Some (File v) /\
  forall k, k <> pure_parts p -> kept (tree w) (tree w') k.
Proof.
  unfold write. intros H. apply bind_Ok in H as (w1 & k & Hk & H).
  apply ws_path_Ok in Hk as (-> & -> & Hp & Ho & _). rewrite bind_gets in H.
  do 3 apply bind_Ok in H as (? & [] & [-> _]%raise_if_Ok & H).
  apply bind_Ok in H as (w2 & [] & Hm & H). apply bind_Ok in H as (w3 & ? & Hk & H).
  apply ws_path_Ok in Hk as (-> & _). rewrite bind_gets in H.
  apply bind_Ok in H as (w3 & [] & [-> _]%raise_if_Ok & H).
  apply replace_with_Ok in H; [|apply temporary_ne; by apply path_parts].
  split; [done|]. split; [done|]. rewrite H. split; [apply lookup_insert_eq|].
  intros k Hne. eapply kept_trans; [|by apply kept_insert].
  apply (mkdirs_outside (fun _ => False) _ _ _ _ Hm). tauto.
Qed.

Lemma delete_Ok p w w' : delete_file own p w = (w', Ok tt) ->
  path_okb p = true /\ p ∈ own /\ tree w' = delete (pure_parts p) (tree w).
Proof.
  unfold delete_file. intros H. apply bind_Ok in H as (w1 & k & Hk & H).
  apply ws_path_Ok in Hk as (-> & -> & Hp & Ho & Hs). rewrite bind_gets in H.
  split; [done|]. split; [done|]. unfold exists_, is_symlink in *.
  destruct (tree w !! pure_parts p) as [[| |[]|]|] eqn:E; cbn [negb] in H; try done;
    try (apply bind_Ok in H as (w1 & [] & [-> _]%raise_if_Ok & H%os_call_Ok); rewrite E in H; congruence).
  apply ret_Ok in H as [-> _]. by rewrite delete_id.
Qed.

Lemma hashes_respects (R : relation world) `{!PreOrder R} l :
  (forall p, respects R (read own p)) -> respects R (hashes own l).
Proof. intros H. induction l as [|p l IH]; cbn [hashes]; respectful. Qed.

Lemma hashes_journal l : respects same_journal (hashes own l).
Proof. apply hashes_respects; [apply _|]. apply read_journal. Qed.
Lemma hashes_outside P l : respects (outside P) (hashes own l).
Proof. apply hashes_respects; [apply _|]. apply read_outside. Qed.
End workspace_success.

#[export] Hint Resolve hashes_journal hashes_outside : frames.

(** ** The transaction

    [t0] is the tree before the first operation, [scratch] the nodes nothing is
    claimed of, the temporaries among them.  The journal holds what the captured
    paths were in [t0], and every node outside the journal is still what it was. *)

Section transaction.
Context (own : list string) (t0 : tree_map) (scratch : key -> Prop).
Context (scratch_covers : forall p, p ∈ own -> scratch (temporary_of (pure_parts p))).

Definition taken (w : world) : list string := map fst (snapshots w).

Record journaled (l : list string) (w : world) : Prop := {
  journal_holds : forall p v, (p, v) ∈ snapshots w ->
    path_okb p = true /\ (~ scratch (pure_parts p) -> t0 !! pure_parts p = File <$> v);
  journal_rest : forall k, ~ scratch k -> (forall p, p ∈ taken w -> k <> pure_parts p) ->
    kept t0 (tree w) k;
  journal_covers : l ⊆ taken w;
}.

Lemma wp_frame {A} (m : run A) P l w :
  respects same_journal m -> respects (outside P) m ->
  (forall k, P k -> scratch k \/ exists p, p ∈ l /\ k = pure_parts p) ->
  journaled l w -> wp m (fun _ => journaled l) (fun _ => journaled l) w.
Proof.
  intros Hs Ho HP [H1 H2 H3]. unfold wp. destruct (m w) as [w' r] eqn:E.
  apply Hs in E as Hj. apply Ho in E. unfold same_journal, outside in *.
  assert (journaled l w') by (split; unfold taken in *; rewrite ?Hj; [done| |done];
    intros k Hk Hn; eapply kept_trans; [by apply H2|]; apply E; intros [?|(p & Hp & ->)]%HP; [done|];
    by apply (Hn p); [apply H3|]).
  by destruct r.
Qed.

Lemma wp_read p l w : journaled l w ->
  wp (read own p) (fun _ => journaled l) (fun _ => journaled l) w.
Proof. apply (wp_frame _ (fun _ => False)); [apply read_journal|apply read_outside|done]. Qed.

Lemma wp_capture p l w : journaled l w ->
  wp (capture own p) (fun _ => journaled (p :: l)) (fun _ => journaled l) w.
Proof.
  intros J. unfold capture. wp_step. apply wp_lift; [|done]. intros q Hq.
  apply safe_path_Ok in Hq as [[= <-] Hp]. wp_step. wp_step.
  destruct (mem p (map fst (snapshots w))) eqn:E.
  - apply mem_true in E. wp_step. destruct J as [J1 J2 J3]. split; [done..|]. set_solver.
  - apply mem_false in E. wp_step.
    pose proof (wp_read p l w J) as Hw. unfold wp in *. destruct (read own p w) as [w1 [v|e]] eqn:Er; [|done].
    assert (Hsame : snapshots w1 = snapshots w) by exact (read_journal own p w w1 (Ok v) Er).
    apply read_Ok in Er as (Ht & _ & _ & Hv). destruct Hw as [J1 J2 J3]. destruct J as [_ J4 _]. split; unfold taken in *; cbn in *; rewrite Hsame in *.
    + intros q' v' [Hin|[= -> ->]%list_elem_of_singleton]%elem_of_app; [by apply J1|].
      split; [done|]. intros Hs.
      destruct (J4 (pure_parts p)) as [He|[_ He]]; [done| | |].
      * intros q' Hq' Heq. apply list_elem_of_fmap in Hq' as (x & -> & Hx). apply E. apply list_elem_of_fmap.
        exists x. split; [|done]. destruct x as [q' v']. cbn in *. apply (pure_parts_inj p q'); [done| |done].
        by apply (J1 q' v').
      * by rewrite <-He.
      * rewrite He in Hv. by destruct v.
    + intros k Hk Hn. apply J2; [done|]. intros q' Hq'. apply Hn. rewrite map_app. set_solver.
    + rewrite map_app. set_solver.
Qed.

Lemma journaled_weaken l l' w : l' ⊆ l -> journaled l w -> journaled l' w.
Proof. intros H [? ? ?]. split; [done..|]. by etrans. Qed.

Lemma wp_write p v b l w : p ∈ l -> journaled l w ->
  wp (write own p v b) (fun _ => journaled l) (fun _ => journaled l) w.
Proof.
  intros Hl. apply (wp_frame _ (fun k => path_okb p = true /\ p ∈ own /\ zone p k)).
  - apply write_journal.
  - apply write_outside. auto.
  - intros k (_ & Ho & [->| ->]); [right; by exists p|left; auto].
Qed.

Lemma wp_delete p l w : (path_okb p = true -> p ∈ l) -> journaled l w ->
  wp (delete_file own p) (fun _ => journaled l) (fun _ => journaled l) w.
Proof.
  intros Hl. apply (wp_frame _ (fun k => path_okb p = true /\ k = pure_parts p)).
  - apply delete_journal.
  - apply delete_outside. auto.
  - intros k (Hp & ->). right. exists p. auto.
Qed.

Lemma wp_operation o w : journaled [] w ->
  wp (apply_operation own o) (fun _ => journaled []) (fun _ => journaled []) w.
Proof.
  intros J. unfold apply_operation, check_expected.
  set (l := match op_source o with Some s => [s; op_target o] | None => [op_target o] end).
  assert (Hl : op_target o ∈ l) by (unfold l; destruct (op_source o); set_solver).
  assert (Hs : path_okb (from_option_text (op_source o)) = true -> from_option_text (op_source o) ∈ l)
    by (unfold l; destruct (op_source o); [intros _; by left|done]).
  wp_step. eapply wp_mono; [by apply wp_read| |done]. intros value w1 J1.
  wp_step. wp_step; [done|]. wp_step. eapply wp_mono; [apply wp_capture; exact J1| |done]. intros ? w2 J2.
  wp_step. apply (wp_mono _ (fun _ => journaled l) _ (fun _ => journaled [])).
  { unfold l. destruct (op_source o) as [s|]; [|by wp_step].
    eapply wp_mono; [apply wp_capture; exact J2|done|]. intros ? w3. apply journaled_weaken. set_solver. }
  2: done.
  intros ? w3 J3. apply (wp_mono _ (fun _ => journaled l) _ (fun _ => journaled l));
    [|intros ? w4; apply journaled_weaken; set_solver..].
  destruct (op_kind o).
  - destruct value as [v|]; [by apply wp_write|by wp_step].
  - destruct value as [v|]; [|by wp_step]. wp_step.
    eapply wp_mono; [by apply wp_write| |done]. intros ? w4 J4. by apply wp_delete.
  - apply wp_delete; [|done]. auto.
  - by apply wp_write.
  - destruct value as [v|]; [|by wp_step]. destruct (utf8_decode v) as [current|]; [|by wp_step].
    wp_step. wp_step; [done|]. by apply wp_write.
Qed.

Lemma wp_operations os w : journaled [] w ->
  wp (apply_operations own os) (fun _ => journaled []) (fun _ => journaled []) w.
Proof.
  revert w. induction os as [|o os IH]; intros w J; cbn [apply_operations]; [by wp_step|].
  wp_step. eapply wp_mono; [by apply wp_operation| |done]. intros ? w1 J1. by apply IH.
Qed.

(** Undoing the journal, last capture first, brings every node back. *)
Lemma restore_Ok l w w' :
  (forall p v, (p, v) ∈ l -> path_okb p = true /\ (~ scratch (pure_parts p) -> t0 !! pure_parts p = File <$> v)) ->
  (forall k, ~ scratch k -> (forall p, p ∈ map fst l -> k <> pure_parts p) -> kept t0 (tree w) k) ->
  restore own l w = (w', Ok tt) ->
  forall k, ~ scratch k -> kept t0 (tree w') k.
Proof.
  revert w. induction l as [|[p value] l IH]; intros w Hl Hr H; cbn [restore] in H.
  { apply ret_Ok in H as [-> _]. intros k Hk. apply Hr; [done|]. intros p Hp. inversion Hp. }
  apply bind_Ok in H as (w1 & current & Hc & H). apply read_Ok in Hc as (Ht & Hp & Ho & Hc).
  apply bind_Ok in H as (w2 & [] & Hu & H). apply (IH w2); [intros q v Hq; apply Hl; by right| |done].
  destruct (Hl p value) as [_ H0]; [by left|].
  assert (Hstep : (~ scratch (pure_parts p) -> kept t0 (tree w2) (pure_parts p)) /\
                  forall k, k <> pure_parts p -> kept (tree w) (tree w2) k).
  { rewrite <-Ht in *. destruct value as [v|].
    - apply write_Ok in Hu as (_ & _ & Hv & Hk). split; [|done]. intros Hs. left. by rewrite Hv, H0.
    - destruct current as [c|].
      + apply delete_Ok in Hu as (_ & _ & Hd). rewrite Hd. split.
        * intros Hs. left. by rewrite lookup_delete_eq, H0.
        * intros k Hne. left. by apply lookup_delete_ne.
      + apply ret_Ok in Hu as [-> _]. split; [|by left]. intros Hs. left. by rewrite Hc, H0. }
  destruct Hstep as [Hself Hothers]. intros k Hk Hn.
  destruct (decide (k = pure_parts p)) as [->|Hne]; [by apply Hself|].
  eapply kept_trans; [|by apply Hothers]. apply Hr; [done|].
  intros q Hq. cbn in Hq. apply elem_of_cons in Hq as [->|Hq]; [done|by apply Hn].
Qed.

Lemma rollback_Ok w w' : journaled [] w -> rollback own w = (w', Ok tt) ->
  forall k, ~ scratch k -> kept t0 (tree w') k.
Proof.
  intros [J1 J2 _]. unfold rollback. rewrite bind_gets. apply restore_Ok.
  - intros p v Hin. apply J1. rewrite list_elem_of_In, <-in_rev, <-list_elem_of_In in Hin. done.
  - intros k Hk Hn. apply J2; [done|]. intros p Hp. apply Hn. unfold taken in Hp.
    rewrite map_rev, list_elem_of_In, <-in_rev, <-list_elem_of_In. done.
Qed.
End transaction.

(** ** The whole application *)

Lemma os_call_raise act broken w w' e : os_call act broken w = (w', Raise e) ->
  tree w' = tree w \/ exists n, tree w' = broken n (tree w).
Proof. unfold os_call. repeat case_match; intros [= <- _]; simpl; eauto. Qed.

(** A failed replacement touched the temporary only. *)
Lemma replace_with_raise temporary target v w w' e :
  temporary <> target -> replace_with temporary target v w = (w', Raise e) ->
  outside (eq temporary) w w'.
Proof.
  intros Hne H. unfold replace_with, try_finally in H.
  destruct (bind _ _ w) as [w1 r1] eqn:E1. destruct (bind _ _ w1) as [w2 r2] eqn:E2.
  assert (Hclean : outside (eq temporary) w1 w2).
  { revert E2. apply respects_bind; [apply _|apply respects_gets, _|]. intros t.
    apply respects_if; [by apply unlink_outside|apply respects_ret, _]. }
  assert (w' = w2) as -> by (destruct r2; by injection H).
  transitivity w1; [|done]. clear Hclean.
  assert (Hopen : respects (outside (eq temporary)) (os_call (fun t => match t !! temporary with
      | None => Some (<[temporary := File ""]> t) | Some _ => None end) unchanged)).
  { apply os_call_outside; [|by left]. intros t t' k Ht Hk. case_match; simplify_eq. by apply kept_insert. }
  assert (Hfill : respects (outside (eq temporary)) (os_call (fun t => Some (<[temporary := File v]> t))
      (fun n => <[temporary := File (String.substring 0 n v)]>))).
  { apply os_call_outside; [intros t t' k [= <-] Hk|intros n t k Hk]; by apply kept_insert. }
  destruct r1 as [[]|e1].
  - exfalso. assert (Hok : replace_with temporary target v w = (w2, Ok tt) \/ exists e2, r2 = Raise e2).
    { destruct r2 as [[]|e2]; [left|right; by exists e2]. unfold replace_with, try_finally. by rewrite E1, E2. }
    destruct Hok as [Hok|[e2 ->]]; [unfold replace_with, try_finally in Hok; rewrite E1, E2 in Hok; congruence|].
    apply bind_Ok in E1 as (w3 & [] & H1%os_call_Ok & E1). apply bind_Ok in E1 as (w4 & [] & H2%os_call_Ok & H3%os_call_Ok).
    injection H2 as H2. unfold rename in H3. rewrite <-H2, lookup_insert_eq in H3.
    assert (Hgone : tree w1 !! temporary = None).
    { repeat case_match; simplify_eq; rewrite <-H3, lookup_insert_ne by done; apply lookup_delete_eq. }
    rewrite bind_gets in E2. unfold exists_ in E2. by rewrite Hgone in E2.
  - unfold bind in E1. destruct (os_call _ unchanged w) as [w3 [[]|e3]] eqn:H1.
    2: { injection E1 as <- _. by apply Hopen in H1. }
    apply Hopen in H1. transitivity w3; [done|].
    destruct (os_call _ _ w3) as [w4 [[]|e4]] eqn:H2.
    2: { injection E1 as <- _. by apply Hfill in H2. }
    apply Hfill in H2. transitivity w4; [done|].
    apply os_call_raise in E1 as [E1|[n E1]]; intros k _; left; by rewrite E1.
Qed.

Definition own_of (c : MigrationContract) : list string := map owned (owned_paths c).
Definition receipt_key (c : MigrationContract) : key := RECEIPTS ++ [migration_id c +:+ ".json"].

(** The names writes go through before they are renamed into place. *)
Definition temporary (c : MigrationContract) (k : key) : Prop :=
  k = receipt_temporary (receipt_key c) \/
  exists p, p ∈ own_of c /\ k = temporary_of (pure_parts p).

Lemma receipt_temporary_ne c : receipt_temporary (receipt_key c) <> receipt_key c.
Proof.
  unfold receipt_temporary, receipt_key, name. cbn. intros [= H].
  apply (f_equal String.length) in H. rewrite !str_length_app in H. simpl in H. lia.
Qed.

Lemma wp_outside {A} (m : run A) P w0 w : respects (outside P) m -> outside P w0 w ->
  wp m (fun _ => outside P w0) (fun _ => outside P w0) w.
Proof.
  intros Hm H. unfold wp. destruct (m w) as [w' r] eqn:E. apply Hm in E.
  assert (outside P w0 w') by by transitivity w. by destruct r.
Qed.

Lemma receipt_directory_outside P : respects (outside P) receipt_directory.
Proof. unfold receipt_directory. respectful. Qed.

Lemma receipt_path_outside P id : respects (outside P) (receipt_path id).
Proof.
  unfold receipt_path. apply respects_bind; [apply _|apply receipt_directory_outside|].
  intros k. apply respects_ret, _.
Qed.

Lemma receipt_path_Ok id w w' k : receipt_path id w = (w', Ok k) -> k = RECEIPTS ++ [id +:+ ".json"].
Proof.
  unfold receipt_path, receipt_directory. intros H.
  apply bind_Ok in H as (w1 & d & H & Hk). apply ret_Ok in Hk as [_ ->]. rewrite bind_gets in H.
  apply bind_Ok in H as (w2 & [] & _ & H). apply bind_Ok in H as (w3 & [] & _ & H).
  apply bind_Ok in H as (w4 & [] & _ & H). by apply ret_Ok in H as [_ ->].
Qed.

Lemma receipt_path_bind {B} P id (k : key -> run B) :
  respects (outside P) (k (RECEIPTS ++ [id +:+ ".json"])) -> respects (outside P) (bind (receipt_path id) k).
Proof.
  intros Hk w w' r. unfold bind. destruct (receipt_path id w) as [w1 [d|e]] eqn:E.
  - intros H. transitivity w1; [by eapply receipt_path_outside|].
    apply receipt_path_Ok in E as ->. by eapply Hk.
  - intros [= <- _]. by eapply receipt_path_outside.
Qed.

Lemma read_receipt_outside P k : respects (outside P) (read_receipt k).
Proof.
  unfold read_receipt. respectful. intros w w' r H.
  destruct (read_bytes k w) as [w1 [b|e]] eqn:E; injection H as <- _; by apply (read_bytes_outside P) in E.
Qed.

Lemma find_registered id r c : find_migration id r = Ok c -> migration_id c = id /\ c ∈ migrations r.
Proof.
  unfold find_migration. destruct (List.find _ _) as [c'|] eqn:E; [|done]. intros [= ->].
  apply List.find_some in E as [Hin Hid]. apply bool_decide_eq_true in Hid. by rewrite list_elem_of_In.
Qed.

Section application.
Context (c : MigrationContract).

Lemma wp_perform t0 stamp before w :
  journaled t0 (temporary c) [] w ->
  wp (perform (own_of c) c stamp (receipt_key c) before)
    (fun _ _ => True) (fun _ => journaled t0 (temporary c) []) w.
Proof.
  assert (Hcov : forall p, p ∈ own_of c -> temporary c (temporary_of (pure_parts p))) by (right; eauto).
  intros J. unfold perform. wp_step. eapply wp_mono; [by apply wp_operations| |done]. intros ? w1 J1.
  wp_step. eapply wp_mono; [apply (wp_frame t0 (temporary c) _ (fun _ => False) []); [apply hashes_journal|apply hashes_outside|done|exact J1]| |done]. intros after w2 J2.
  wp_step. unfold write_receipt. wp_step. wp_step. wp_step. wp_step; [done|].
  unfold wp. destruct (replace_with _ _ _ w2) as [w3 [[]|e]] eqn:E; [done|].
  apply (replace_with_journal _ _ _ w2) in E as Hj.
  apply replace_with_raise in E; [|apply receipt_temporary_ne].
  destruct J2 as [H1 H2 H3]. unfold same_journal in Hj. split; unfold taken in *; rewrite ?Hj; [done| |done].
  intros k Hk Hn. eapply kept_trans; [by apply H2|]. apply E. intros <-. apply Hk. by left.
Qed.

Lemma wp_rollback stamp before w :
  wp (or_rollback (own_of c) (perform (own_of c) c stamp (receipt_key c) before))
    (fun _ _ => True)
    (fun e w' => (exists e', e = RollbackFailed e') \/ outside (temporary c) w w')
    (set_snapshots [] w).
Proof.
  assert (J : journaled (tree w) (temporary c) [] (set_snapshots [] w)).
  { split; unfold taken; cbn; [intros p v H; inversion H|intros k _ _; by left|set_solver]. }
  apply (wp_perform _ stamp before) in J. unfold wp, or_rollback in *.
  destruct (perform _ _ _ _ _ _) as [w1 [v|e]]; [done|].
  destruct (rollback (own_of c) w1) as [w2 [[]|e']] eqn:E; [right|left; by exists e'].
  intros k Hk. by eapply rollback_Ok.
Qed.
End application.

(** C11 A migration is all or nothing.  Whatever system calls fail and wherever an
    operation is refused, when [apply] raises then either it says that the
    rollback failed, or no file was changed: outside the temporaries every node is
    what it was, new directories aside. *)
Theorem migration_all_or_nothing (x : MigrationExecutor) (now : string) (m : supplied)
    (c : MigrationContract) (w w' : world) (e : mig_error) :
  admitted_contract x m = Ok c ->
  apply x now m w = (w', Raise e) ->
  (exists e', e = RollbackFailed e') \/
  forall k, ~ temporary c k -> tree w' !! k = tree w !! k \/ (tree w !! k = None /\ tree w' !! k = Some Dir).
Proof.
  intros Hm H.
  enough (Hw : wp (apply x now m) (fun _ _ => True)
    (fun e w' => (exists e', e = RollbackFailed e') \/ outside (temporary c) w w') w)
    by (unfold wp in Hw; rewrite H in Hw; exact Hw).
  unfold apply. rewrite Hm. wp_step. apply wp_lift; [intros ? [= <-]|done]. unfold apply_contract.
  wp_step. wp_step; [|by right]. wp_step. wp_step. wp_step. wp_step; [by right|].
  wp_step. unfold wp at 1. destruct (receipt_path (migration_id c) w) as [w1 [k|e1]] eqn:Ep;
    pose proof (receipt_path_outside (temporary c) _ _ _ _ Ep) as F1; [|by right].
  apply receipt_path_Ok in Ep as ->.
  wp_step. eapply wp_mono; [apply (wp_outside _ (temporary c) w), F1; apply read_receipt_outside| |by right].
  intros existing w2 F2. destruct existing as [value|].
  - unfold check_existing. wp_step. wp_step; [by right|]. wp_step.
    eapply wp_mono; [apply (wp_outside _ (temporary c) w), F2; apply hashes_outside| |by right].
    intros hs w3 F3. wp_step. wp_step; [by right|]. by wp_step.
  - wp_step. eapply wp_mono; [apply (wp_outside _ (temporary c) w), F2; apply hashes_outside| |by right].
    intros before w3 F3. wp_step. wp_step. cbn beta.
    eapply wp_mono; [apply wp_rollback|done|]. intros e2 w4 [F4|F4]; [by left|right].
    by transitivity w3.
Qed.

(** *** Confinement *)

(** A run stays inside [P] when [P] holds of the owned paths and their temporaries. *)
Section reach.
Context (own : list string) (P : key -> Prop).
Context (covers : forall p k, path_okb p = true -> p ∈ own -> zone p k -> P k).
Abbreviation confined := (respects (outside P)).

Lemma confined_write p v b : confined (write own p v b).
Proof. apply write_outside. eauto. Qed.

Lemma confined_delete p : confined (delete_file own p).
Proof. apply delete_outside. intros Hp Ho. apply (covers p); [done..|by left]. Qed.

Lemma confined_capture p : confined (capture own p).
Proof. unfold capture. respectful. intros w w' r [= <- _] k _. by left. Qed.
Local Hint Resolve confined_write confined_delete confined_capture : frames.

Lemma confined_operation o : confined (apply_operation own o).
Proof.
  assert (Hif : forall b e, confined (raise_if b e)) by (intros; apply respects_raise_if, _).
  unfold apply_operation, check_expected. respectful.
Qed.

Lemma confined_operations os : confined (apply_operations own os).
Proof.
  induction os as [|o os IH]; cbn [apply_operations]; [apply respects_ret, _|].
  apply respects_bind; [apply _|apply confined_operation|]. intros _. exact IH.
Qed.

Lemma confined_restore l : confined (restore own l).
Proof. induction l as [|[p v] l IH]; cbn [restore]; respectful. Qed.
End reach.

Definition within_reach (c : MigrationContract) (k : key) : Prop :=
  temporary c k \/ k = receipt_key c \/ exists p, p ∈ own_of c /\ k = pure_parts p.

Section contract_reach.
Context (c : MigrationContract).
Abbreviation confined := (respects (outside (within_reach c))).

Lemma reach_covers p k : path_okb p = true -> p ∈ own_of c -> zone p k -> within_reach c k.
Proof. intros _ Hp [->| ->]; [right; right|left; right]; by exists p. Qed.

Lemma confined_perform stamp before : confined (perform (own_of c) c stamp (receipt_key c) before).
Proof.
  assert (Hr : forall v, confined (replace_with (receipt_temporary (receipt_key c)) (receipt_key c) v)).
  { intros v. apply replace_with_outside; [by left; left|by right; left]. }
  unfold perform, write_receipt.
  apply respects_bind; [apply _|apply confined_operations, reach_covers|]. respectful.
Qed.

Lemma confined_transaction stamp before :
  confined (or_rollback (own_of c) (perform (own_of c) c stamp (receipt_key c) before)).
Proof.
  intros w w' r. unfold or_rollback. destruct (perform _ _ _ _ _ w) as [w1 [v|e]] eqn:E;
    apply confined_perform in E; [by intros [= <- _]|].
  intros H. transitivity w1; [done|]. destruct (rollback (own_of c) w1) as [w2 r2] eqn:E2.
  assert (w2 = w') as -> by (destruct r2; by injection H). revert E2. unfold rollback. rewrite bind_gets.
  apply confined_restore, reach_covers.
Qed.

Lemma confined_existing value : confined (check_existing (own_of c) c value).
Proof. unfold check_existing. respectful. Qed.

Lemma confined_apply x now : confined (apply_contract x now c).
Proof.
  unfold apply_contract. apply respects_bind; [apply _|apply respects_lift, _|intros _].
  apply respects_bind; [apply _|apply respects_gets, _|intros ok].
  apply respects_bind; [apply _|apply respects_raise_if, _|intros _]. cbn zeta.
  apply receipt_path_bind. apply respects_bind; [apply _|apply read_receipt_outside|intros [value|]].
  { apply confined_existing. }
  apply respects_bind; [apply _|apply hashes_outside|intros before].
  apply respects_bind; [apply _|intros w w' r [= <- _] k _; by left|intros _].
  apply confined_transaction.
Qed.
End contract_reach.

(** C13 A migration is confined to what its contract owns.  Whatever the outcome and
    the faults, a node that is not an owned path of the contract, one of the
    temporaries or the receipt stays what it was; where there was nothing, at most a
    directory appears. *)
Theorem migration_is_confined (x : MigrationExecutor) (now : string) (m : supplied)
    (c : MigrationContract) (w w' : world) (r : checked ApplyResult) (k : key) :
  admitted_contract x m = Ok c ->
  apply x now m w = (w', r) ->
  ~ temporary c k -> k <> receipt_key c -> (forall p, p ∈ own_of c -> k <> pure_parts p) ->
  tree w' !! k = tree w !! k \/ (tree w !! k = None /\ tree w' !! k = Some Dir).
Proof.
  intros Hm H Ht Hr Hp.
  assert (Hk : ~ within_reach c k) by (intros [?|[?|(p & Hin & ->)]]; [done..|by apply (Hp p)]).
  enough (Ha : respects (outside (within_reach c)) (apply x now m)) by by apply (Ha _ _ _ H).
  intros w1 w2 r1. unfold apply. rewrite Hm, bind_lift_ok. apply confined_apply.
Qed.

(** ** What a migration means

    The specification: each operation is a function on the contents of the files,
    and a migration is the composition of its operations. *)

Abbreviation contents := (key -> option string).

Definition files (t : tree_map) : contents := fun k =>
  match t !! k with Some (File b) => Some b | _ => None end.

Definition assign (k : key) (v : option string) (f : contents) : contents :=
  fun k' => if decide (k' = k) then v else f k'.

Definition op_input (o : MigrationOperation) : string :=
  match op_source o with Some s => s | None => op_target o end.

Definition replaced (o : MigrationOperation) (bytes : string) : option string :=
  utf8_encode ∘ replace_first (codes (from_option_text (op_old o))) (codes (from_option_text (op_new o)))
    <$> utf8_decode bytes.

Definition op_effect (o : MigrationOperation) (f : contents) : contents :=
  let input := f (pure_parts (op_input o)) in
  let target := pure_parts (op_target o) in
  match op_kind o with
  | COPY => assign target input f
  | MOVE => assign (pure_parts (from_option_text (op_source o))) None (assign target input f)
  | DELETE => assign target None f
  | WRITE_TEXT => assign target (Some (encode (from_option_text (op_content o)))) f
  | REPLACE_TEXT => assign target (input ≫= replaced o) f
  end.

Definition migration_effect (os : list MigrationOperation) (f : contents) : contents :=
  foldl (fun f o => op_effect o f) f os.

#[export] Instance assign_proper k v :
  Proper (pointwise_relation key eq ==> pointwise_relation key eq) (assign k v).
Proof. intros f g H k'. unfold assign. by case_decide. Qed.

#[export] Instance op_effect_proper o :
  Proper (pointwise_relation key eq ==> pointwise_relation key eq) (op_effect o).
Proof.
  intros f g H. unfold op_effect. rewrite (H (pure_parts (op_input o))).
  destruct (op_kind o); repeat apply assign_proper; exact H.
Qed.

#[export] Instance migration_effect_proper os :
  Proper (pointwise_relation key eq ==> pointwise_relation key eq) (migration_effect os).
Proof.
  unfold migration_effect. induction os as [|o os IH]; intros f g H; [exact H|].
  apply IH, op_effect_proper, H.
Qed.

Lemma kept_files t t' k : kept t t' k -> files t' k = files t k.
Proof. unfold files. by intros [->|[-> ->]]. Qed.

Lemma files_lookup t k v : t !! k = File <$> v -> files t k = v.
Proof. unfold files. intros ->. by destruct v. Qed.

Section effects.
Context (own : list string).

Lemma write_files p v b w w' : write own p v b w = (w', Ok tt) ->
  pointwise_relation key eq (files (tree w')) (assign (pure_parts p) (Some v) (files (tree w))).
Proof.
  intros (_ & _ & Hv & Hk)%write_Ok k. unfold assign. case_decide as Hd.
  - subst k. unfold files. by rewrite Hv.
  - by apply kept_files, Hk.
Qed.

Lemma delete_files p w w' : delete_file own p w = (w', Ok tt) ->
  pointwise_relation key eq (files (tree w')) (assign (pure_parts p) None (files (tree w))).
Proof.
  intros (_ & _ & Hd)%delete_Ok k. unfold assign, files. rewrite Hd. case_decide as Hk.
  - subst k. by rewrite lookup_delete_eq.
  - by rewrite lookup_delete_ne.
Qed.

Lemma capture_tree p w w' u : capture own p w = (w', Ok u) -> tree w' = tree w.
Proof.
  unfold capture. intros H. apply bind_Ok in H as (w1 & q & [-> _]%lift_Ok & H). rewrite bind_gets in H.
  destruct (mem _ _); [by apply ret_Ok in H as [-> _]|].
  apply bind_Ok in H as (w1 & v & (Ht & _)%read_Ok & H). by apply modify_Ok in H as ->.
Qed.

Lemma operation_files o w w' : apply_operation own o w = (w', Ok tt) ->
  pointwise_relation key eq (files (tree w')) (op_effect o (files (tree w))).
Proof.
  unfold apply_operation, check_expected. intros H.
  apply bind_Ok in H as (w1 & v & (Ht & _ & _ & Hv)%read_Ok & H). apply files_lookup in Hv.
  apply bind_Ok in H as (w2 & [] & [-> _]%raise_if_Ok & H).
  apply bind_Ok in H as (w3 & [] & Hc1%capture_tree & H). apply bind_Ok in H as (w4 & [] & Hc2 & H).
  assert (Hw4 : tree w4 = tree w).
  { destruct (op_source o); [apply capture_tree in Hc2|apply ret_Ok in Hc2 as [-> _]]; congruence. }
  clear Hc1 Hc2. unfold op_effect. fold (op_input o) in Hv. rewrite Hv, <-Hw4.
  destruct (op_kind o).
  - destruct v as [v|]; [by apply write_files in H|by apply raise_Ok in H].
  - destruct v as [v|]; [|by apply raise_Ok in H].
    apply bind_Ok in H as (w5 & [] & H1%write_files & H2%delete_files). 
    etrans; [exact H2|]. apply assign_proper, H1.
  - by apply delete_files in H.
  - by apply write_files in H.
  - destruct v as [v|]; [|by apply raise_Ok in H]. cbn. unfold replaced.
    destruct (utf8_decode v) as [current|]; [|by apply raise_Ok in H].
    apply bind_Ok in H as (w5 & [] & [-> _]%raise_if_Ok & H). by apply write_files in H.
Qed.

Lemma operations_files os w w' : apply_operations own os w = (w', Ok tt) ->
  pointwise_relation key eq (files (tree w')) (migration_effect os (files (tree w))).
Proof.
  revert w. induction os as [|o os IH]; intros w H; cbn [apply_operations] in H.
  - by apply ret_Ok in H as [-> _].
  - apply bind_Ok in H as (w1 & [] & Ho%operation_files & H). apply IH in H.
    etrans; [exact H|]. apply (migration_effect_proper os), Ho.
Qed.
End effects.

Lemma hashes_tree own l w w' d : hashes own l w = (w', Ok d) -> tree w' = tree w.
Proof.
  revert w w' d. induction l as [|p l IH]; intros w w' d H; cbn [hashes] in H.
  - by apply ret_Ok in H as [-> _].
  - apply bind_Ok in H as (w1 & v & (Ht & _)%read_Ok & H). apply bind_Ok in H as (w2 & d' & H2 & H).
    apply IH in H2. apply ret_Ok in H as [-> _]. congruence.
Qed.

Lemma read_receipt_Ok k w w' o : read_receipt k w = (w', Ok o) -> tree w' = tree w.
Proof.
  unfold read_receipt. rewrite bind_gets. destruct (negb _); [by intros [-> _]%ret_Ok|].
  intros H. apply bind_Ok in H as (w1 & [] & [-> _]%raise_if_Ok & H).
  apply bind_Ok in H as (w2 & b & Hb & H).
  assert (Ht : tree w2 = tree w).
  { destruct (read_bytes k w) as [w3 [b'|e]] eqn:E; [|done]. injection Hb as <- <-.
    unfold read_bytes in E. apply bind_Ok in E as (w4 & [] & Hc%os_call_Ok & E). injection Hc as Hc.
    rewrite bind_gets in E. repeat case_match; try done. by apply ret_Ok in E as [-> _]. }
  destruct (parse_receipt b) as [[]|]; try done.
  apply bind_Ok in H as (w4 & [] & [-> _]%raise_if_Ok & H). by apply ret_Ok in H as [-> _].
Qed.

Section performed.
Context (c : MigrationContract).

Lemma perform_Ok stamp before w w' v :
  perform (own_of c) c stamp (receipt_key c) before w = (w', Ok v) ->
  exists w1 w2 after, apply_operations (own_of c) (operations c) w = (w1, Ok tt) /\
    hashes (own_of c) (write_paths c) w1 = (w2, Ok after) /\
    v = mkResult (receipt_of c stamp before after) false /\
    tree w' = <[receipt_key c := File (receipt_bytes (receipt v))]> (tree w1).
Proof.
  unfold perform. intros H. apply bind_Ok in H as (w1 & [] & Ho & H).
  apply bind_Ok in H as (w2 & after & Hh & H). apply bind_Ok in H as (w3 & [] & Hw & H).
  apply ret_Ok in H as [-> ->]. exists w1, w2, after. split; [done|]. split; [done|]. split; [done|].
  unfold write_receipt in Hw. rewrite bind_gets in Hw. apply bind_Ok in Hw as (w4 & [] & [-> _]%raise_if_Ok & Hw).
  apply replace_with_Ok in Hw; [|apply receipt_temporary_ne]. rewrite Hw. cbn [receipt].
  by rewrite (hashes_tree _ _ _ _ _ Hh).
Qed.

(** A migration that was really applied went through these steps. *)
Lemma apply_contract_Ok x now w w' v :
  apply_contract x now c w = (w', Ok v) -> idempotent v = false ->
  exists w1 w2 w3 before stamp, new_contract (args_of c) = Ok c /\ root_is_dir w = true /\
    receipt_path (migration_id c) w = (w1, Ok (receipt_key c)) /\ tree w2 = tree w1 /\
    hashes (own_of c) (read_paths c) w2 = (w3, Ok before) /\
    perform (own_of c) c stamp (receipt_key c) before (set_snapshots [] w3) = (w', Ok v).
Proof.
  unfold apply_contract. intros H Hi. apply bind_Ok in H as (w1 & c' & [-> Hn]%lift_Ok & H).
  rewrite bind_gets in H. apply bind_Ok in H as (w1 & [] & [-> Hr]%raise_if_Ok & H). cbn zeta in H.
  apply bind_Ok in H as (w1 & k & Hp & H). pose proof (receipt_path_Ok _ _ _ _ Hp) as Hk. subst k.
  apply bind_Ok in H as (w2 & existing & He%read_receipt_Ok & H). destruct existing as [value|].
  { exfalso. unfold check_existing in H. apply bind_Ok in H as (w3 & [] & _ & H).
    apply bind_Ok in H as (w4 & hs & _ & H). apply bind_Ok in H as (w5 & [] & _ & H).
    apply ret_Ok in H as [_ ->]. done. }
  apply bind_Ok in H as (w3 & before & Hh & H). rewrite bind_modify in H.
  unfold or_rollback in H. destruct (perform _ _ _ _ _ _) as [w4 [v'|e]] eqn:E.
  2: { by destruct (rollback _ w4) as [? [?|?]]. }
  injection H as -> ->. eexists w1, w2, w3, before, _. apply negb_false_iff in Hr.
  split; [|split; [done|split; [done|split; [done|split; [exact Hh|exact E]]]]].
  apply new_contract_Ok in Hn as Hc. destruct Hc as [-> _]. exact Hn.
Qed.
End performed.

(** C12 A migration does what its operations say, and then writes its receipt.  An
    application that is not a replay leaves every file with the contents that the
    operations give, one after the other, to the files there were; no other file
    changes but the receipt, which holds the text of the receipt returned. *)
Theorem migration_refines_operations (x : MigrationExecutor) (now : string) (m : supplied)
    (c : MigrationContract) (w w' : world) (v : ApplyResult) :
  admitted_contract x m = Ok c ->
  apply x now m w = (w', Ok v) -> idempotent v = false ->
  (forall k, k <> receipt_key c ->
    files (tree w') k = migration_effect (operations c) (files (tree w)) k) /\
  files (tree w') (receipt_key c) = Some (receipt_bytes (receipt v)).
Proof.
  intros Hm H Hi. unfold apply in H. rewrite Hm, bind_lift_ok in H.
  destruct (apply_contract_Ok c x now w w' v H Hi) as (w1 & w2 & w3 & before & stamp & _ & _ & Hp & Ht & Hh & Hf).
  apply hashes_tree in Hh. destruct (perform_Ok c stamp before _ _ _ Hf) as (w4 & w5 & after & Ho & _ & _ & Hw).
  rewrite Hw. split; [|unfold files; by rewrite lookup_insert_eq].
  intros k Hk. unfold files at 1. rewrite lookup_insert_ne by done. fold (files (tree w4) k).
  rewrite (operations_files _ _ _ _ Ho k). cbn [tree set_snapshots]. apply migration_effect_proper.
  intros k'. rewrite Hh, Ht. apply kept_files.
  apply (receipt_path_outside (fun _ => False) _ _ _ _ Hp). tauto.
Qed.

(** ** Applying a migration again *)

(** No system call fails. *)
Definition quiet (w : world) : Prop := Forall (eq None) (faults w).

(** A quiet run that returns a value and leaves the tree alone. *)
Definition settles {A} (m : run A) (w : world) (a : A) : Prop :=
  exists w', m w = (w', Ok a) /\ tree w' = tree w /\ quiet w'.

Lemma settles_ret {A} (a : A) w : quiet w -> settles (ret a) w a.
Proof. intros H. by exists w. Qed.

Lemma settles_bind {A B} (m : run A) (k : A -> run B) w a b :
  settles m w a -> (forall w', tree w' = tree w -> quiet w' -> settles (k a) w' b) -> settles (bind m k) w b.
Proof.
  intros (w1 & H1 & Ht & Hq) Hk. destruct (Hk w1 Ht Hq) as (w2 & H2 & Ht2 & Hq2).
  exists w2. unfold bind. rewrite H1. split; [done|]. split; [congruence|done].
Qed.

Lemma settles_read_bytes k w b : quiet w -> tree w !! k = Some (File b) -> settles (read_bytes k) w b.
Proof.
  destruct w as [rd t fl sn]. unfold quiet. cbn. intros Hq Hk.
  exists (mkWorld rd t (tail fl) sn). split; [|split; [done|]].
  - unfold read_bytes, bind, os_call. destruct Hq as [|f l <- Hq]; cbn; rewrite Hk; reflexivity.
  - destruct Hq as [|f l <- Hq]; [constructor|exact Hq].
Qed.

Lemma settles_mkdirs ks w : quiet w -> (forall k, k ∈ ks -> tree w !! k = Some Dir) -> settles (mkdirs ks) w tt.
Proof.
  revert w. induction ks as [|k ks IH]; intros w Hq Hd; cbn [mkdirs]; [by apply settles_ret|].
  eapply settles_bind; [|intros w1 Ht Hq1; apply IH; [done|]; intros k' Hk'; rewrite Ht; apply Hd; by right].
  unfold mkdir. exists w. rewrite bind_gets, (Hd k) by by left. done.
Qed.

Lemma mkdirs_Ok ks w w' : mkdirs ks w = (w', Ok tt) -> forall k, k ∈ ks -> tree w' !! k = Some Dir.
Proof.
  revert w. induction ks as [|k ks IH]; intros w H k' Hk'; [inversion Hk'|].
  cbn [mkdirs] in H. apply bind_Ok in H as (w1 & [] & H1 & H2).
  apply elem_of_cons in Hk' as [->|Hk']; [|by eapply IH].
  assert (Hd : tree w1 !! k = Some Dir).
  { unfold mkdir in H1. rewrite bind_gets in H1. destruct (tree w !! k) as [[]|] eqn:E; try done.
    - by apply ret_Ok in H1 as [-> _].
    - apply os_call_Ok in H1. injection H1 as <-. apply lookup_insert_eq. }
  destruct (mkdirs_outside (fun _ => False) _ _ _ _ H2 k) as [->|[? _]]; [tauto|done|congruence].
Qed.

Definition control (k : key) : Prop := head k = Some ".stateport".

(** Two trees that differ in the control directory only. *)
Definition same_data (t t' : tree_map) : Prop := forall k, ~ control k -> t' !! k = t !! k.

Lemma prefix_head {A} (k k' : list A) n : k' = take n k -> k' = [] \/ head k' = head k.
Proof. intros ->. destruct n as [|n], k; cbn; auto. Qed.

Lemma data_key p : path_okb p = true -> ~ control (pure_parts p).
Proof.
  intros Hp Hc. destruct (path_parts p Hp) as (_ & _ & _ & Hr). apply (Hr _ Hc).
  unfold RESERVED. set_solver.
Qed.

Lemma data_prefix p k : path_okb p = true -> k ∈ prefixes (pure_parts p) -> ~ control k.
Proof.
  intros Hp Hk. unfold prefixes in Hk. apply list_elem_of_fmap in Hk as (n & Hn & _).
  apply prefix_head in Hn as [->|Hn]; [done|]. unfold control. rewrite Hn. by apply data_key.
Qed.

Section again.
Context (own : list string).

Lemma ws_path_again p d d' w w' k u :
  ws_path own p d w = (w', Ok k) -> quiet u -> same_data (tree w) (tree u) -> settles (ws_path own p d') u k.
Proof.
  intros H Hq Hs. pose proof (ws_path_Ok _ _ _ _ _ _ H) as (-> & -> & Hp & Ho & _).
  exists u. split; [|done]. unfold ws_path in *.
  apply bind_Ok in H as (w1 & q & Hc & H). apply lift_Ok in Hc as [-> Hc]. apply safe_path_Ok in Hc as [[= <-] _].
  apply bind_Ok in H as (w1 & [] & [-> _]%raise_if_Ok & H). rewrite bind_gets in H.
  apply bind_Ok in H as (w1 & [] & [-> Hl]%raise_if_Ok & _).
  rewrite (proj2 (safe_path_Ok (JStr p) _ p)), bind_lift_ok by done.
  rewrite bind_raise_if_pass by (by rewrite (proj2 (mem_true p own))). rewrite bind_gets.
  rewrite bind_raise_if_pass; [done|]. apply existsb_false. intros k Hk. rewrite existsb_false in Hl.
  specialize (Hl k Hk). unfold is_symlink in *. rewrite Hs; [done|]. by eapply data_prefix.
Qed.

Lemma read_again p w w' v u :
  read own p w = (w', Ok v) -> quiet u -> same_data (tree w) (tree u) -> settles (read own p) u v.
Proof.
  intros H Hq Hs. pose proof (read_Ok _ _ _ _ _ H) as (_ & Hp & _ & Hv). rewrite <-(Hs _ (data_key p Hp)) in Hv.
  unfold read in *. apply bind_Ok in H as (w1 & k & Hk & _).
  pose proof (ws_path_Ok _ _ _ _ _ _ Hk) as (_ & -> & _).
  eapply settles_bind; [by eapply ws_path_again|]. intros u1 Ht Hq1.
  eapply settles_bind; [by exists u1|]. intros u2 Ht2 Hq2. rewrite Ht in *. unfold exists_, is_file.
  rewrite Hv. destruct v as [v|]; cbn; [|by apply settles_ret].
  eapply settles_bind; [by exists u2|]. intros u3 Ht3 Hq3.
  eapply settles_bind; [apply settles_read_bytes; [done|]; by rewrite Ht3, Ht2|].
  intros u4 _ Hq4. by apply settles_ret.
Qed.

Lemma hashes_again l w w' d u :
  hashes own l w = (w', Ok d) -> quiet u -> same_data (tree w) (tree u) -> settles (hashes own l) u d.
Proof.
  revert w w' u d. induction l as [|p l IH]; intros w w' u d H Hq Hs; cbn [hashes] in *.
  { apply ret_Ok in H as [_ ->]. by apply settles_ret. }
  apply bind_Ok in H as (w1 & v & Hr & H). apply bind_Ok in H as (w2 & d' & Hd & H). apply ret_Ok in H as [_ ->].
  pose proof (read_Ok _ _ _ _ _ Hr) as (Ht & _).
  eapply settles_bind; [by eapply read_again|]. intros u1 Hu1 Hq1.
  eapply settles_bind; [eapply IH; [exact Hd|done|by rewrite Hu1, Ht]|]. intros u2 _ Hq2. by apply settles_ret.
Qed.

Lemma hashes_shape l w w' d : hashes own l w = (w', Ok d) ->
  dict_keys d = l /\ Forall (fun kv => wf_json (snd kv)) d.
Proof.
  revert w w' d. induction l as [|p l IH]; intros w w' d H; cbn [hashes] in H.
  { by apply ret_Ok in H as [_ ->]. }
  apply bind_Ok in H as (w1 & v & _ & H). apply bind_Ok in H as (w2 & d' & Hd & H). apply ret_Ok in H as [_ ->].
  apply IH in Hd as [<- Hf]. split; [done|]. constructor; [|done]. destruct v; constructor.
Qed.
End again.

(** *** The receipt read back *)

Lemma encode_app s t : encode (s +:+ t) = encode s +:+ encode t.
Proof.
  induction s as [|c s IH]; [done|]. rewrite str_cons_app. cbn [encode]. rewrite IH.
  by destruct (code c <? 128)%Z; rewrite !str_cons_app.
Qed.

Lemma receipt_parses r : wf_json (JObj r) -> parse_receipt (receipt_bytes r) = Some (norm (JObj r)).
Proof.
  intros Hw. unfold parse_receipt, receipt_bytes.
  change (String "010" "") with (encode (String "010" "")). rewrite <-encode_app, utf8_decode_encode, of_codes_codes.
  by apply loads_dumps.
Qed.

Lemma op_wf o : wf_json (JObj (op_to_dict o)).
Proof.
  apply wf_json_obj. split; [apply op_keys_NoDup|].
  destruct o as [k t [] [] [] [] []]; repeat constructor.
Qed.

Lemma receipt_wf c stamp before after :
  wf_json (JObj before) -> wf_json (JObj after) -> wf_json (JObj (receipt_of c stamp before after)).
Proof.
  intros Hb Ha. apply wf_json_obj. split; [apply (bool_decide_unpack _); reflexivity|].
  assert (wf_json (JArr (map (fun o => JObj (op_to_dict o)) (operations c)))).
  { constructor. apply Forall_forall. intros j Hj. apply list_elem_of_fmap in Hj as (o & -> & _). apply op_wf. }
  assert (wf_json (JObj [("supported", JBool true); ("onFailure", JStr "restore-before-state")]))
    by by apply wf_jsonb_wf.
  unfold receipt_of. repeat (apply Forall_cons_2; [first [assumption|apply wf_str]|]). constructor.
Qed.

Lemma control_receipts k : k ∈ prefixes RECEIPTS -> control k.
Proof. cbn. rewrite !elem_of_cons, elem_of_nil. intros [->|[->|[->|[]]]]; done. Qed.

Lemma receipt_path_dirs id w w' k : receipt_path id w = (w', Ok k) ->
  forall d, d ∈ prefixes RECEIPTS -> tree w' !! d = Some Dir.
Proof.
  unfold receipt_path, receipt_directory. intros H. apply bind_Ok in H as (w1 & r & H & Hr).
  apply ret_Ok in Hr as [-> _]. rewrite bind_gets in H.
  apply bind_Ok in H as (w2 & [] & _ & H). apply bind_Ok in H as (w3 & [] & _ & H).
  apply bind_Ok in H as (w4 & [] & Hm & H). apply ret_Ok in H as [-> _]. exact (mkdirs_Ok _ _ _ Hm).
Qed.

Lemma settles_receipt_path id u :
  quiet u -> (forall d, d ∈ prefixes RECEIPTS -> tree u !! d = Some Dir) ->
  settles (receipt_path id) u (RECEIPTS ++ [id +:+ ".json"]).
Proof.
  intros Hq Hd. assert (Hl : forall d, d ∈ prefixes RECEIPTS -> is_symlink (tree u) d = false)
    by (intros d Hin; unfold is_symlink; by rewrite Hd).
  assert (Hsp : is_symlink (tree u) [".stateport"] = false) by (apply Hl; by left).
  unfold receipt_path. eapply settles_bind; [|intros u1 _ Hq1; by apply settles_ret].
  unfold receipt_directory. eapply settles_bind; [by exists u|]. intros u1 Hu1 Hq1.
  eapply settles_bind; [exists u1; by rewrite raise_if_pass|]. intros u2 Hu2 Hq2.
  eapply settles_bind.
  { exists u2. rewrite raise_if_pass; [done|]. apply existsb_false. intros d Hin. by rewrite Hl, andb_false_r. }
  intros u3 Hu3 Hq3. eapply settles_bind; [|intros u4 _ Hq4; by apply settles_ret].
  apply settles_mkdirs; [done|]. intros d Hin. rewrite Hu3, Hu2, Hu1. by apply Hd.
Qed.

Lemma settles_read_receipt k u r :
  quiet u -> tree u !! k = Some (File (receipt_bytes r)) -> wf_json (JObj r) ->
  dict_get "formatVersion" r = Some (JStr RECEIPT_FORMAT) ->
  settles (read_receipt k) u (Some (sort_fields (norm_fields r))).
Proof.
  intros Hq Hk Hw Hf. unfold read_receipt. eapply settles_bind; [by exists u|]. intros u1 Hu1 Hq1.
  unfold exists_, is_symlink, is_file. rewrite Hk. cbn [negb orb].
  eapply settles_bind; [by exists u1|]. intros u2 Hu2 Hq2.
  destruct (settles_read_bytes k u2 (receipt_bytes r)) as (u3 & Hr & Ht & Hq3); [done|by rewrite Hu2, Hu1|].
  eapply settles_bind; [exists u3; rewrite Hr; split; [reflexivity|done]|].
  intros u4 _ Hq4. rewrite receipt_parses, norm_obj by done.
  eapply settles_bind; [|intros u5 _ Hq5; by apply settles_ret].
  exists u4. rewrite raise_if_pass; [done|]. apply wf_json_obj in Hw as [Hnd _].
  rewrite (key_json_some _ _ _ (sorted_str _ Hnd _ _ Hf)), py_eqb_refl. done.
Qed.

(** *** The second application *)

Lemma temporary_data p k : path_okb p = true -> zone p k -> ~ control k.
Proof.
  intros Hp [->| ->]; [by apply data_key|]. intros Hc. unfold temporary_of, control, parent in Hc.
  destruct (pure_parts p) as [|d [|d' k']] eqn:E.
  - by destruct (path_parts p Hp).
  - cbn in Hc. injection Hc as Hc. apply (f_equal String.length) in Hc. rewrite !str_length_app in Hc.
    simpl in Hc. lia.
  - apply (data_key p Hp). unfold control. rewrite E. cbn in Hc. done.
Qed.

Lemma receipt_key_control c : control (receipt_key c).
Proof. reflexivity. Qed.

Lemma receipt_key_deep c d : d ∈ prefixes RECEIPTS -> d <> receipt_key c.
Proof. unfold receipt_key. cbn. rewrite !elem_of_cons, elem_of_nil. intros [->|[->|[->|[]]]]; done. Qed.

Section replay.
Context (c : MigrationContract) (x : MigrationExecutor) (now : string).

(** The tree that an application leaves, as far as a replay looks at it. *)
Record applied (t : tree_map) (r : dict) : Prop := {
  applied_checked : new_contract (args_of c) = Ok c;
  applied_dirs : forall d, d ∈ prefixes RECEIPTS -> t !! d = Some Dir;
  applied_receipt : t !! receipt_key c = Some (File (receipt_bytes r));
  applied_shape : exists stamp before after wh wh', r = receipt_of c stamp before after /\
    wf_json (JObj r) /\ wf_json (JObj after) /\
    hashes (own_of c) (write_paths c) wh = (wh', Ok after) /\ same_data (tree wh) t;
}.

Lemma apply_leaves w w' v :
  apply_contract x now c w = (w', Ok v) -> idempotent v = false -> applied (tree w') (receipt v).
Proof.
  intros H Hi.
  destruct (apply_contract_Ok c x now w w' v H Hi)
    as (w1 & w2 & w3 & before & stamp & Hn & _ & Hp & Ht & Hh & Hf).
  destruct (perform_Ok c stamp before _ _ _ Hf) as (w4 & w5 & after & Ho & Ha & Hv & Hw).
  pose proof (new_contract_Ok c c Hn) as [_ Hc].
  destruct (hashes_shape _ _ _ _ _ Hh) as [Hkb Hfb]. destruct (hashes_shape _ _ _ _ _ Ha) as [Hka Hfa].
  assert (Hwa : wf_json (JObj after)) by (apply wf_json_obj; rewrite Hka; split; [apply Hc|done]).
  assert (Hwb : wf_json (JObj before)) by (apply wf_json_obj; rewrite Hkb; split; [apply Hc|done]).
  apply hashes_tree in Hh. split; [done| | |].
  - intros d Hd. rewrite Hw, lookup_insert_ne by (symmetry; by apply receipt_key_deep).
    assert (Hk : kept (tree w3) (tree w4) d).
    { apply (confined_operations (own_of c) (fun k => ~ control k)) in Ho.
      - apply Ho. intros Hnc. by apply Hnc, control_receipts.
      - intros p k Hpk _. by apply temporary_data. }
    pose proof (receipt_path_dirs _ _ _ _ Hp d Hd) as Hdir. rewrite <-Ht, <-Hh in Hdir.
    destruct Hk as [->|[Hnone _]]; [done|congruence].
  - rewrite Hw. apply lookup_insert_eq.
  - exists stamp, before, after, w4, w5. rewrite Hv. cbn [receipt]. split; [done|].
    split; [by apply receipt_wf|]. split; [done|]. split; [done|].
    intros k Hk. rewrite Hw. apply lookup_insert_ne. intros <-. by apply Hk, receipt_key_control.
Qed.

Lemma replay r u : applied (tree u) r -> root_is_dir u = true -> quiet u ->
  settles (apply_contract x now c) u (mkResult (sort_fields (norm_fields r)) true).
Proof.
  intros [Hn Hd Hr (stamp & before & after & wh & wh' & Hrc & Hwr & Hwa & Hh & Hs)] Hroot Hq.
  assert (Hg : forall k v, dict_get k r = Some v -> key_json k (sort_fields (norm_fields r)) = norm v).
  { intros k v Hk. apply key_json_some. apply wf_json_obj in Hwr as [Hnd _]. by rewrite (sorted_key r Hnd k _ Hk). }
  unfold apply_contract, settles. rewrite Hn, bind_lift_ok, bind_gets, Hroot. rewrite bind_raise_if_pass by done.
  cbn zeta. eapply settles_bind; [by apply settles_receipt_path|]. intros u1 Hu1 Hq1.
  eapply settles_bind; [apply settles_read_receipt; [done|rewrite Hu1; exact Hr|done|by rewrite Hrc]|].
  intros u2 Hu2 Hq2. unfold check_existing.
  eapply settles_bind.
  { exists u2. rewrite (Hg "migrationId" (JStr (migration_id c))) by by rewrite Hrc.
    rewrite (Hg "contractDigest" (JStr (contract_digest c))) by (rewrite Hrc; reflexivity).
    cbn [norm]. rewrite !py_eqb_refl. done. }
  intros u3 Hu3 Hq3. eapply settles_bind; [eapply hashes_again; [exact Hh|done|by rewrite Hu3, Hu2, Hu1]|].
  intros u4 Hu4 Hq4. eapply settles_bind; [|intros u5 _ Hq5; by apply settles_ret].
  exists u4. rewrite (Hg "afterHashes" (JObj after)) by (rewrite Hrc; reflexivity).
  rewrite py_eqb_norm_l by done. done.
Qed.
End replay.

(** Applying a migration again changes nothing and returns the same receipt.  After
    an application that is not a replay, applying the same contract where nothing has
    been touched and no system call fails, through whatever executor and at whatever
    time, leaves the tree as it is and returns, marked as a replay, the receipt of the
    first application, read back from its file. *)
Theorem migration_is_idempotent (x x' : MigrationExecutor) (now now' : string) (m m' : supplied)
    (c : MigrationContract) (w w1 u : world) (v : ApplyResult) :
  admitted_contract x m = Ok c -> admitted_contract x' m' = Ok c ->
  apply x now m w = (w1, Ok v) -> idempotent v = false ->
  tree u = tree w1 -> root_is_dir u = true -> quiet u ->
  exists u' fs, apply x' now' m' u = (u', Ok (mkResult fs true)) /\ JObj fs = norm (JObj (receipt v)) /\ tree u' = tree u.
Proof.
  intros Hm Hm' H Hi Hu Hroot Hq. unfold apply in H. rewrite Hm, bind_lift_ok in H.
  apply apply_leaves in H; [|done]. rewrite <-Hu in H.
  destruct (replay c x' now' _ u H Hroot Hq) as (u' & Hr & Ht & _).
  exists u', (sort_fields (norm_fields (receipt v))). split; [|by rewrite norm_obj].
  unfold apply. by rewrite Hm', bind_lift_ok.
Qed.

(** ** A concrete migration *)

Definition before_rename (l : list fault) : world :=
  mkWorld true {[ ["config"] := Dir; ["config"; "old.txt"] := File "a=1" ]} l [].

Definition plain : MigrationExecutor := mkExecutor None (Some "2026-01-01T00:00:00+00:00").

Definition rename_run (l : list fault) : world * checked ApplyResult :=
  apply plain "" (ByContract rename_settings) (before_rename l).

(** The fault hits the renaming of the receipt, the last call before success. *)
Definition late_fault : list fault := repeat None 13 ++ [Some 0].

Lemma migration_all_or_nothing_witness :
  rename_run late_fault = (fst (rename_run late_fault), Raise OSError) /\
  ((exists e', OSError = RollbackFailed e') \/
   forall k, ~ temporary rename_settings k ->
     tree (fst (rename_run late_fault)) !! k = tree (before_rename late_fault) !! k \/
     (tree (before_rename late_fault) !! k = None /\ tree (fst (rename_run late_fault)) !! k = Some Dir)).
Proof.
  assert (H : rename_run late_fault = (fst (rename_run late_fault), Raise OSError)) by (vm_compute; reflexivity).
  split; [exact H|].
  exact (migration_all_or_nothing plain "" (ByContract rename_settings) rename_settings (before_rename late_fault)
    (fst (rename_run late_fault)) OSError eq_refl H).
Defined.

Lemma migration_is_confined_witness :
  tree (fst (rename_run [])) !! ["notes.txt"] = tree (before_rename []) !! ["notes.txt"] \/
  (tree (before_rename []) !! ["notes.txt"] = None /\ tree (fst (rename_run [])) !! ["notes.txt"] = Some Dir).
Proof.
  apply (migration_is_confined plain "" (ByContract rename_settings) rename_settings (before_rename [])
    (fst (rename_run [])) (snd (rename_run [])) ["notes.txt"]).
  - reflexivity.
  - apply surjective_pairing.
  - intros [H|(p & Hp & H)]; [discriminate H|].
    cbn in Hp. apply elem_of_cons in Hp as [->|Hp%list_elem_of_singleton]; [discriminate H|subst p; discriminate H].
  - discriminate.
  - intros p Hp H. cbn in Hp.
    apply elem_of_cons in Hp as [->|Hp%list_elem_of_singleton]; [discriminate H|subst p; discriminate H].
Defined.

Definition rename_result : ApplyResult :=
  match snd (rename_run []) with Ok v => v | Raise _ => mkResult [] true end.

Lemma rename_run_Ok : rename_run [] = (fst (rename_run []), Ok rename_result).
Proof. vm_compute. reflexivity. Qed.

Lemma rename_first : idempotent rename_result = false.
Proof. vm_compute. reflexivity. Qed.
Lemma rename_root : root_is_dir (fst (rename_run [])) = true.
Proof. vm_compute. reflexivity. Qed.
Lemma rename_quiet : quiet (fst (rename_run [])).
Proof. vm_compute. constructor. Qed.

Lemma migration_refines_operations_witness :
  (forall k, k <> receipt_key rename_settings ->
    files (tree (fst (rename_run []))) k
    = migration_effect (operations rename_settings) (files (tree (before_rename []))) k) /\
  files (tree (fst (rename_run []))) (receipt_key rename_settings) = Some (receipt_bytes (receipt rename_result)).
Proof.
  exact (migration_refines_operations plain "" (ByContract rename_settings) rename_settings (before_rename [])
    (fst (rename_run [])) rename_result eq_refl rename_run_Ok rename_first).
Defined.

Lemma migration_is_idempotent_witness :
  exists u' fs,
    apply (mkExecutor None None) "2027" (ByContract rename_settings) (fst (rename_run [])) = (u', Ok (mkResult fs true)) /\
    JObj fs = norm (JObj (receipt rename_result)) /\ tree u' = tree (fst (rename_run [])).
Proof.
  exact (migration_is_idempotent plain (mkExecutor None None) "" "2027" (ByContract rename_settings)
    (ByContract rename_settings) rename_settings (before_rename []) (fst (rename_run []))
    (fst (rename_run [])) rename_result eq_refl eq_refl rename_run_Ok rename_first eq_refl rename_root rename_quiet).
Defined.

(** The same rename with its source declared as a read path only. *)
Definition move_from_read_path : MigrationContract :=
  mkContract "stateport.move-settings" "1" "2" ["config/old.txt"] ["config/new.txt"]
    [mkOwnedPath "config/new.txt"; mkOwnedPath "config/old.txt"]
    [mkOperation MOVE "config/new.txt" (Some "config/old.txt") None None None None] "" "stateport" CONTRACT_FORMAT.

(** A move deletes its source without a declaration that it may write there.  The
    contract check asks that the source of a move is a declared read path, and the
    executor deletes any owned path: a valid contract whose write paths do not name
    [config/old.txt] removes that file. *)
Theorem move_deletes_a_read_path :
  valid_contract move_from_read_path /\
  ("config/old.txt" ∉ write_paths move_from_read_path) /\
  files (tree (before_rename [])) ["config"; "old.txt"] = Some "a=1" /\
  files (tree (fst (apply plain "" (ByContract move_from_read_path) (before_rename [])))) ["config"; "old.txt"] = None /\
  exists v, snd (apply plain "" (ByContract move_from_read_path) (before_rename [])) = Ok v.
Proof.
  split; [split; [vm_compute; reflexivity|split; repeat constructor; vm_compute; reflexivity]|].
  split; [by apply mem_false|]. split; [vm_compute; reflexivity|]. split; [vm_compute; reflexivity|].
  eexists. vm_compute. reflexivity.
Qed.
