(* ===== verification/Contracts.v ===== *)
(** * Contract validators: the common vocabulary

    What the validators of the execution host and of the runtime contracts share: their
    errors, the regular expressions of identifiers and digests, the canonical digest of a
    document, iteration that stops at the first error, membership in sets of strings, the
    components of a POSIX path; and the lemmas that compare two documents field by field. *)

From S2P Require Import Prelude Json Sha256 Paths.

(** [ValueError], and the [TypeError] of looking up or collecting a list or a dictionary,
    which have no hash, in a set. *)
Inductive contract_error :=
| Invalid (message : string)
| Unhashable.

Abbreviation checked := (outcome contract_error).

Definition invalid {A} (message : string) : checked A := Raise (Invalid message).
Definition invalid_if (b : bool) (message : string) : checked unit := refuse_if b (Invalid message).

Definition canonical_digest (value : json) : string :=
  "sha256:" +:+ sha256_hex (encode (dumps false value)).

Definition document (j : json) : string := encode (dumps false j).

(** Two documents with one digest are one document, unless their texts collide. *)
Lemma digest_norm docs a b : collision_free docs -> document a ∈ docs -> document b ∈ docs ->
  canonical_digest a = canonical_digest b -> norm a = norm b.
Proof.
  unfold canonical_digest. intros Hc Ha Hb H. apply str_app_inj_l in H.
  specialize (Hc _ _ Ha Hb H). by apply encode_inj, dumps_inj in Hc.
Qed.

(** ** Texts and collections *)

(** [^[A-Za-z0-9][A-Za-z0-9._:-]{0,127}$] *)
Definition ID_fullmatch (s : string) : bool :=
  match s with
  | EmptyString => false
  | String c rest =>
      is_alnum c && all_chars (fun c => is_alnum c || one_of "._:-" c) rest && (py_len rest <=? 127)%Z
  end.

(** [^sha256:[0-9a-f]{64}$] *)
Definition DIGEST_fullmatch (s : string) : bool :=
  startswith "sha256:" s && (py_len s =? 71)%Z && all_chars is_hex (String.substring 7 64 s).

(** [[f(item) for item in l]]: the first error wins. *)
Fixpoint each {A B} (f : A -> checked B) (l : list A) : checked (list B) :=
  match l with
  | [] => Ok []
  | x :: rest => let? y := f x in let? ys := each f rest in Ok (y :: ys)
  end.

(** [v in {...}] and [v in (...)] for strings *)
Definition in_set (v : json) (l : list string) : checked bool :=
  match v with
  | JStr s => Ok (mem s l)
  | JArr _ | JObj _ => Raise Unhashable
  | _ => Ok false
  end.

Definition in_tuple (v : json) (l : list string) : bool :=
  match v with JStr s => mem s l | _ => false end.

(** [len(set(l)) == len(l)] *)
Fixpoint distinct (l : list json) : bool :=
  match l with
  | [] => true
  | v :: rest => negb (existsb (py_eqb v) rest) && distinct rest
  end.

Definition hashable (v : json) : bool := match v with JArr _ | JObj _ => false | _ => true end.

Definition all_distinct (l : list json) : checked bool :=
  if forallb hashable l then Ok (distinct l) else Raise Unhashable.

(** [PurePosixPath(s).parts] below the root: no empty and no dot component *)
Definition path_parts (s : string) : list string :=
  List.filter (fun p => negb (mem p [""; "."])) (split_slash "" s).

Definition has_backslash (s : string) : bool := any_char (fun c => bool_decide (c = "\"%char)) s.

(** [enumerate] *)
Fixpoint each_numbered {A B} (f : nat -> A -> checked B) (n : nat) (l : list A) : checked (list B) :=
  match l with
  | [] => Ok []
  | x :: rest => let? y := f n x in let? ys := each_numbered f (S n) rest in Ok (y :: ys)
  end.

Definition has_nul (s : string) : bool := any_char (fun c => bool_decide (c = "000"%char)) s.

Definition jstrs (l : list string) : json := JArr (JStr <$> l).

(** ** Lemmas *)

Lemma canonical_digest_fullmatch v : DIGEST_fullmatch (canonical_digest v) = true.
Proof.
  unfold canonical_digest, DIGEST_fullmatch. pose proof (sha256_hex_hex (encode (dumps false v))) as Hh.
  pose proof (sha256_hex_length (encode (dumps false v))) as Hl. revert Hh Hl.
  generalize (sha256_hex (encode (dumps false v))). intros h Hh Hl.
  unfold py_len. rewrite str_length_app, Hl. change (String.substring 7 64 ("sha256:" +:+ h)) with (String.substring 0 64 h).
  rewrite <-Hl, substring_all, Hh, Hl. by destruct h.
Qed.

Lemma wf_jstrs l : wf_json (jstrs l).
Proof. constructor. apply Forall_fmap, Forall_true. intros s. constructor. Qed.

Lemma dict_get_app k (d e : dict) :
  dict_get k (d ++ e) = match dict_get k d with Some v => Some v | None => dict_get k e end.
Proof. induction d as [|[k' v] d IH]; [done|]. cbn [app dict_get]. by destruct (String.eqb k k'). Qed.

Lemma dict_get_absent k (d : dict) : k ∉ dict_keys d -> dict_get k d = None.
Proof.
  intros Hk. destruct (dict_get k d) eqn:E; [|done]. exfalso. apply Hk, mem_true, (proj2 (dict_has_get k d)). by eexists.
Qed.

Lemma invalid_if_Ok b m u : invalid_if b m = Ok u -> b = false.
Proof. unfold invalid_if. by rewrite refuse_if_Ok. Qed.

Lemma each_Ok {A B} (f : A -> checked B) (h : B -> A) l r :
  (forall x y, f x = Ok y -> x = h y) -> each f l = Ok r -> l = h <$> r.
Proof.
  intros Hf. revert r. induction l as [|x l IH]; intros r H; cbn [each] in H; [by injection H as <-|].
  apply obind_Ok in H as (y & Hy & H). apply obind_Ok in H as (ys & Hys & [= <-]).
  rewrite fmap_cons. by rewrite <-(Hf _ _ Hy), <-(IH _ Hys).
Qed.

Lemma each_Forall {A B} (f : A -> checked B) (P : B -> Prop) l r :
  (forall x y, f x = Ok y -> P y) -> each f l = Ok r -> Forall P r.
Proof.
  intros Hf. revert r. induction l as [|x l IH]; intros r H; cbn [each] in H; [injection H as <-; constructor|].
  apply obind_Ok in H as (y & Hy & H). apply obind_Ok in H as (ys & Hys & [= <-]).
  constructor; [by eapply Hf|by apply IH].
Qed.

(** *** Documents that agree field by field *)

Lemma norm_agree (d e : dict) : NoDup (dict_keys d) -> NoDup (dict_keys e) ->
  same_set (dict_keys d) (dict_keys e) = true ->
  Forall (fun k => norm (key_json k d) = norm (key_json k e)) (dict_keys e) -> norm (JObj d) = norm (JObj e).
Proof.
  intros Hd He Hs Hf. apply norm_ext; [done..|]. intros k. rewrite same_set_spec in Hs.
  destruct (decide (k ∈ dict_keys e)) as [Hk|Hk].
  - pose proof (proj1 (Forall_forall _ _) Hf k Hk) as Hn. unfold key_json in Hn.
    pose proof (proj2 (Hs k) Hk) as Hk'. unfold dict_has in *.
    apply (proj2 (mem_true _ _)), dict_has_get in Hk as [y Hy]. apply (proj2 (mem_true _ _)), dict_has_get in Hk' as [x Hx].
    rewrite Hx, Hy in *. cbn in *. by rewrite Hn.
  - assert (Hk' : k ∉ dict_keys d) by (by rewrite Hs).
    assert (Hnone : forall f : dict, k ∉ dict_keys f -> dict_get k f = None).
    { intros f Hf'. destruct (dict_get k f) eqn:E; [|done]. exfalso. apply Hf'. apply mem_true.
      apply (proj2 (dict_has_get k f)). by eexists. }
    by rewrite !Hnone.
Qed.

Lemma wf_key (k : string) (d : dict) : wf_json (JObj d) -> wf_json (key_json k d).
Proof.
  rewrite wf_json_obj. intros [_ Hf]. unfold key_json. destruct (dict_get k d) as [v|] eqn:E; [|constructor].
  apply dict_get_elem in E. exact (proj1 (Forall_forall _ _) Hf _ E).
Qed.

(** [agree_fields]: both documents hold the same value at each key of the second, which
    is written out. *)
Ltac agree_field :=
  match goal with
  | E : key_json ?k ?d = _ |- norm (key_json ?k ?d) = _ => rewrite E; reflexivity
  | E : norm (key_json ?k ?d) = _ |- norm (key_json ?k ?d) = _ => etransitivity; [exact E|reflexivity]
  | |- norm (key_json ?k ?d) = _ => reflexivity
  end.
Ltac agree_fields :=
  match goal with |- Forall ?P ?l => let l' := eval lazy in l in change (Forall P l') end;
  repeat (apply Forall_cons; split; [agree_field|]); apply Forall_nil_2.
