(* ===== verification/ExecutionContract.v ===== *)
(** * Execution host: the daemon contract (packages/execution-host, daemon_contract.py)

    The validators of everything that crosses the daemon's socket or comes from the
    operator: sealed workload specs, request envelopes, authority grants, the
    revocation document, receipts.  Their arguments are parsed JSON; a validator
    returns the normalized document, as a record where its fields are fixed.  Payloads
    of deployment operations, which belong to the deployment package, are left out. *)

From S2P Require Import Prelude Json Sha256 Paths Contracts.

(** ** Constants *)

Definition OPERATION_FORMAT : string := "stateport.execution-host-operation/v1".
Definition RECEIPT_FORMAT : string := "stateport.execution-host-receipt/v1".
Definition GRANT_FORMAT : string := "stateport.execution-host-grant/v2".
Definition LEGACY_GRANT_FORMAT : string := "stateport.execution-host-grant/v1".

Definition DEPLOYMENT_OPERATIONS : list string :=
  ["probeDeploymentTarget"; "applyDeployment"; "updateDeployment"; "observeDeployment"; "collectDeploymentLogs";
   "restartDeployment"; "removeDeploymentRuntime"; "backupDeploymentData"; "restoreDeploymentData";
   "purgeDeploymentData"].
Definition OPERATIONS : list string :=
  ["describeCapabilities"; "createWorkload"; "start"; "stop"; "status"; "logs"; "cancel"; "removeWorkload";
   "openTerminal"; "resizeTerminal"; "signalTerminal"; "closeTerminal"; "execWorkload"; "listWorkloads";
   "collectGarbage"; "runValidator"] ++ DEPLOYMENT_OPERATIONS.
Definition TERMINAL_STATES : list string :=
  ["exited"; "timed_out"; "cancelled"; "interrupted"; "failed"; "removed"].

Definition MiB : Z := 1024 * 1024.
Definition MAX_TIMEOUT_SECONDS : Z := 86400.
Definition MAX_REQUEST_TIMEOUT_SECONDS : Z := 600.
Definition MAX_DEPLOYMENT_REQUEST_TIMEOUT_SECONDS : Z := 1200.
Definition MAX_OUTPUT_BYTES : Z := 4 * MiB.
Definition MAX_WORK_SECONDS : Z := 3600.
Definition MAX_EMIT_BYTES : Z := 16 * MiB.
Definition MAX_DEPLOYMENT_CONTEXT_BYTES : Z := 512 * MiB.
Definition MAX_DEPLOYMENT_ARCHIVE_BYTES : Z := MAX_DEPLOYMENT_CONTEXT_BYTES + 64 * MiB.
Definition MAX_DEPLOYMENT_FILES : Z := 10000.
Definition MAX_MEMORY_MAX_BYTES : Z := 1073741824.
Definition MAX_PIDS_MAX : Z := 512.
Definition INT_MAX : Z := 2 ^ 31 - 1.

Inductive WorkloadKind := AgentRun | CapsuleService | BrowserJourney | Terminal | Workspace | ValidatorRun.
#[export] Instance WorkloadKind_eq_dec : EqDecision WorkloadKind.
Proof. solve_decision. Defined.

Definition kind_text (k : WorkloadKind) : string :=
  match k with
  | AgentRun => "agent-run"
  | CapsuleService => "capsule-service"
  | BrowserJourney => "browser-journey"
  | Terminal => "terminal"
  | Workspace => "workspace"
  | ValidatorRun => "validator-run"
  end.

Definition WORKLOAD_KINDS : list WorkloadKind :=
  [AgentRun; CapsuleService; BrowserJourney; Terminal; Workspace; ValidatorRun].

Definition kind_of (v : json) : option WorkloadKind :=
  match v with
  | JStr s => List.find (fun k => bool_decide (kind_text k = s)) WORKLOAD_KINDS
  | _ => None
  end.

(** ** Field validators *)

(** [^[0-9a-f]{40}$] *)
Definition GIT_SHA_fullmatch (s : string) : bool := all_chars is_hex s && (py_len s =? 40)%Z.

(** [^[a-z0-9][a-z0-9._/:-]{0,255}@sha256:[0-9a-f]{64}$]: the last 72 characters are the
    [@] and the digest. *)
Definition IMAGE_fullmatch (s : string) : bool :=
  let n := String.length s - 72 in
  let name := String.substring 0 n s in
  let pinned := String.substring n 72 s in
  (72 <? py_len s)%Z
  && match name with
     | EmptyString => false
     | String c rest =>
         (is_lower c || is_digit c)
         && all_chars (fun c => is_lower c || is_digit c || one_of "._/:-" c) rest && (py_len rest <=? 255)%Z
     end
  && match pinned with
     | String c digest => bool_decide (c = "@"%char) && DIGEST_fullmatch digest
     | EmptyString => false
     end.

(** [_SECRET_KEY.search(key)] with [re.I] *)
Definition SECRET_KEY_search (key : string) : bool :=
  existsb (fun p => has_sub p (lower key))
    (optional_separator "api" "key"
     ++ ["authorization"; "cookie"; "credential"; "password"; "secret"]
     ++ optional_separator "access" "token" ++ optional_separator "refresh" "token").

Definition string_ (value : json) (name : string) : checked string :=
  match value with
  | JStr s => if nonblank s then Ok s else invalid (name +:+ " must be a non-empty string")
  | _ => invalid (name +:+ " must be a non-empty string")
  end.

Definition id_ (value : json) (name : string) : checked string :=
  let? s := string_ value name in
  if ID_fullmatch s then Ok s else invalid (name +:+ " has invalid characters").

Definition digest_ (value : json) (name : string) : checked string :=
  let? s := string_ value name in
  if DIGEST_fullmatch s then Ok s else invalid (name +:+ " must be a sha256 digest").

Definition int_ (value : json) (name : string) (minimum maximum : Z) : checked Z :=
  let error := name +:+ " must be an integer in [" +:+ pretty minimum +:+ ", " +:+ pretty maximum +:+ "]" in
  match value with
  | JInt z => if (minimum <=? z)%Z && (z <=? maximum)%Z then Ok z else invalid error
  | _ => invalid error
  end.

(** [_mapping]; after it [data[key]] is [key_json key data] for each of the keys. *)
Definition mapping (value : json) (name : string) (keys : list string) : checked dict :=
  match value with
  | JObj d => if same_set (dict_keys d) keys then Ok d else invalid (name +:+ " has an invalid shape")
  | _ => invalid (name +:+ " has an invalid shape")
  end.

Fixpoint no_secrets (value : json) (path : string) {struct value} : checked unit :=
  match value with
  | JObj fs =>
      (fix go (fs : dict) : checked unit :=
         match fs with
         | [] => Ok tt
         | (key, item) :: rest =>
             if SECRET_KEY_search key then
               if mem key ["secrets"; "secretCapabilities"] && bool_decide (item = JArr []) then go rest
               else invalid ("credential-like field is forbidden at " +:+ path +:+ "." +:+ key)
             else no_secrets item (path +:+ "." +:+ key) >>? go rest
         end) fs
  | JArr l =>
      (fix go (l : list json) (index : nat) : checked unit :=
         match l with
         | [] => Ok tt
         | item :: rest => no_secrets item (path +:+ "[" +:+ pretty index +:+ "]") >>? go rest (S index)
         end) l 0
  | _ => Ok tt
  end.

Definition validate_image_reference (value : json) : checked string :=
  let? reference := string_ value "image.reference" in
  if IMAGE_fullmatch reference then Ok reference
  else invalid "image.reference must be a digest-pinned lowercase OCI reference".

Definition posix_absolute (value : json) (name : string) : checked string :=
  let? s := string_ value name in
  if startswith "/" s && negb (has_backslash s) && negb (mem ".." (path_parts s)) then Ok s
  else invalid (name +:+ " must be an absolute non-traversing POSIX path").

Definition bounded_argv (value : json) (name : string) : checked (list string) :=
  match value with
  | JArr l =>
      if bool_decide (l = []) || (32 <? Z.of_nat (length l))%Z then invalid (name +:+ " must be a bounded non-empty argv")
      else
        let? result := each_numbered (fun i v => string_ v (name +:+ "[" +:+ pretty i +:+ "]")) 0 l in
        if existsb (fun s => (256 <? py_len s)%Z || has_nul s) result then invalid (name +:+ " entries are invalid")
        else Ok result
  | _ => invalid (name +:+ " must be a bounded non-empty argv")
  end.

(** ** Source material *)

Definition archive_metadata (value : json) : checked dict :=
  let? data := mapping value "deployment source archive"
    ["formatVersion"; "archiveDigest"; "archiveBytes"; "contextDigest"; "fileCount"] in
  if negb (py_eqb (key_json "formatVersion" data) (JStr "stateport.deployment-context-archive/v1"))
  then invalid "deployment source archive format is unsupported"
  else
    let? archive := digest_ (key_json "archiveDigest" data) "sourceArchive.archiveDigest" in
    let? bytes := int_ (key_json "archiveBytes" data) "sourceArchive.archiveBytes" 1 MAX_DEPLOYMENT_ARCHIVE_BYTES in
    let? context := digest_ (key_json "contextDigest" data) "sourceArchive.contextDigest" in
    let? files := int_ (key_json "fileCount" data) "sourceArchive.fileCount" 1 MAX_DEPLOYMENT_FILES in
    Ok [("formatVersion", key_json "formatVersion" data); ("archiveDigest", JStr archive); ("archiveBytes", JInt bytes);
        ("contextDigest", JStr context); ("fileCount", JInt files)].

(** [PurePosixPath(s).as_posix()] of a relative path *)
Definition as_posix (s : string) : string :=
  match path_parts s with [] => "." | parts => join_slash parts end.

Definition unsafe_relative (paths : list string) (s : string) : bool :=
  startswith "/" s || negb (bool_decide (as_posix s = s)) || mem ".." (path_parts s) || mem s ["."; ""]
  || has_backslash s || has_nul s || (4096 <? py_len (encode s))%Z || mem s paths.

(** One row of the inventory, after the rows whose paths are given. *)
Definition inventory_row (paths : list string) (item : json) : checked (string * json) :=
  let? row := mapping item "sourceInventory entry" ["path"; "mode"; "contentDigest"] in
  let? relative := string_ (key_json "path" row) "sourceInventory.path" in
  invalid_if (unsafe_relative paths relative) "source inventory path is unsafe or duplicated" >>?
  let? regular := in_set (key_json "mode" row) ["100644"; "100755"] in
  invalid_if (negb regular) "source inventory admits regular files only" >>?
  let? digest := digest_ (key_json "contentDigest" row) "sourceInventory.contentDigest" in
  Ok (relative, JObj [("path", JStr relative); ("mode", key_json "mode" row); ("contentDigest", JStr digest)]).

Fixpoint inventory_rows (paths : list string) (l : list json) : checked (list json) :=
  match l with
  | [] => Ok []
  | item :: rest =>
      let? row := inventory_row paths item in
      let? rows := inventory_rows (fst row :: paths) rest in
      Ok (snd row :: rows)
  end.

Definition source_material (inventory archive_value : json) : checked (list json * dict) :=
  match inventory with
  | JArr l =>
      if negb ((1 <=? Z.of_nat (length l))%Z && (Z.of_nat (length l) <=? MAX_DEPLOYMENT_FILES)%Z)
      then invalid "source inventory must be bounded and nonempty"
      else
        let? rows := inventory_rows [] l in
        let? archive := archive_metadata archive_value in
        if negb (py_eqb (key_json "fileCount" archive) (JInt (Z.of_nat (length rows))))
        then invalid "source file count differs from inventory"
        else Ok (rows, archive)
  | _ => invalid "source inventory must be bounded and nonempty"
  end.

(** ** Sealed workload specs *)

Definition WORKSPACE_VOLUME_PREFIX : string := "stateport-workspace-".
Definition DEVELOPMENT_SEED_POLICY : string := "stateport.development-python-seed/v1".
Definition DEVELOPMENT_SEED_IMAGE : string :=
  "ghcr.io/lennertvhoy/stateport-dev-workspace@sha256:0102c422aa8cf9ba1abb5f708f5ba5280799e9407d9db938f2e771d069524b0f".
Definition SIGNED_DEVELOPMENT_SEED_POLICY : string := "stateport.signed-development-python-seed/v1".
Definition AGENT_PROVIDER_PROFILE : string := "opencode-provider-v1".

(** [sorted(_KIND_IDENTITY_FIELDS[kind])] *)
Definition identity_fields (k : WorkloadKind) : list string :=
  match k with
  | AgentRun => ["runSpecDigest"; "statePackReference"]
  | CapsuleService => ["serviceName"]
  | BrowserJourney => ["journeyId"]
  | Terminal => ["sessionId"]
  | Workspace => ["volumeName"; "workspaceId"; "workspaceSpecDigest"]
  | ValidatorRun =>
      ["command"; "commandDigest"; "stagingIdentityDigest"; "stagingPath"; "validatorId"; "validatorSpecDigest"]
  end.

Definition SOURCE_FIELDS : list string := ["command"; "commandDigest"; "sourceInventory"; "sourceArchive"].

Definition allowed_fields (k : WorkloadKind) : list string :=
  identity_fields k ++ ["workSeconds"; "emitBytes"] ++
  match k with
  | AgentRun => ["baseRevision"; "ownership"] ++ SOURCE_FIELDS
  | Workspace =>
      ["baseRevision"; "ownership"; "sourceSeed"; "stopAfterIdle"; "shell"; "networkMode"; "cacheVolumes";
       "cpuQuotaPercent"; "diskMaxBytes"; "agentProviderProfile"]
  | ValidatorRun => ["network"; "stagingReadOnly"; "providerAccess"; "runtimeSocketAccess"; "hostMounts"]
  | _ => []
  end.

Definition parameters_shape (k : WorkloadKind) (value : json) : checked dict :=
  match value with
  | JObj d =>
      if subset_of (dict_keys d) (allowed_fields k) && subset_of (identity_fields k) (dict_keys d) then Ok d
      else invalid "parameters has an invalid shape"
  | _ => invalid "parameters has an invalid shape"
  end.

Definition identity_value (field : string) (raw : json) : checked json :=
  let name := "parameters." +:+ field in
  if mem field ["runSpecDigest"; "workspaceSpecDigest"; "validatorSpecDigest"; "stagingIdentityDigest"; "commandDigest"]
  then let? s := digest_ raw name in Ok (JStr s)
  else if bool_decide (field = "statePackReference") then let? s := string_ raw name in Ok (JStr s)
  else if bool_decide (field = "stagingPath") then let? s := posix_absolute raw name in Ok (JStr s)
  else if bool_decide (field = "command") then let? l := bounded_argv raw name in Ok (jstrs l)
  else if bool_decide (field = "volumeName") then
    let? s := id_ raw name in
    if startswith WORKSPACE_VOLUME_PREFIX s then Ok (JStr s) else invalid "parameters.volumeName must be daemon-owned"
  else let? s := id_ raw name in Ok (JStr s).

(** The loop over the identity fields of the kind. *)
Definition identity_parameters (k : WorkloadKind) (parameters : dict) : checked dict :=
  each (fun field => let? v := identity_value field (key_json field parameters) in Ok (field, v)) (identity_fields k).

Definition is_value (v expected : json) : bool := bool_decide (v = expected).

(** The isolation of a validator run; [np] are the parameters normalized so far. *)
Definition validator_parameters (parameters np : dict) : checked dict :=
  invalid_if (negb (py_eqb (key_json "network" parameters) (JStr "disabled")))
    "validator-run parameters.network must be disabled" >>?
  invalid_if (negb (is_value (key_json "stagingReadOnly" parameters) (JBool true)))
    "validator-run parameters.stagingReadOnly must be true" >>?
  invalid_if (negb (is_value (key_json "providerAccess" parameters) (JBool false)))
    "validator-run parameters.providerAccess must be false" >>?
  invalid_if (negb (is_value (key_json "runtimeSocketAccess" parameters) (JBool false)))
    "validator-run parameters.runtimeSocketAccess must be false" >>?
  invalid_if (negb (is_value (key_json "hostMounts" parameters) (JArr [])))
    "validator-run parameters.hostMounts must be empty" >>?
  invalid_if (negb (py_eqb (key_json "commandDigest" np) (JStr (canonical_digest (key_json "command" np)))))
    "validator-run parameters.commandDigest does not match parameters.command" >>?
  Ok [("network", JStr "disabled"); ("stagingReadOnly", JBool true); ("providerAccess", JBool false);
      ("runtimeSocketAccess", JBool false); ("hostMounts", JArr [])].

(** The command and the sources of an agent run, all or none of them. *)
Definition agent_parameters (parameters : dict) : checked dict :=
  let present := List.filter (fun f => mem f SOURCE_FIELDS) (dict_keys parameters) in
  if bool_decide (present = []) then Ok []
  else if negb (same_set present SOURCE_FIELDS)
  then invalid "agent-run command and source fields must be supplied together"
  else
    let? command := bounded_argv (key_json "command" parameters) "parameters.command" in
    let? _ := posix_absolute (JStr (default "" (head command))) "parameters.command[0]" in
    let? digest := digest_ (key_json "commandDigest" parameters) "parameters.commandDigest" in
    invalid_if (negb (bool_decide (canonical_digest (jstrs command) = digest)))
      "agent-run command digest does not match its exact argv" >>?
    let? material := source_material (key_json "sourceInventory" parameters) (key_json "sourceArchive" parameters) in
    Ok [("command", jstrs command); ("commandDigest", JStr digest); ("sourceInventory", JArr (fst material));
        ("sourceArchive", JObj (snd material))].

Definition ownership_of (value : json) : checked json :=
  let? owner := mapping value "parameters.ownership" ["applicationId"; "instanceId"; "catalogIdentityDigest"; "runId"] in
  let? application := id_ (key_json "applicationId" owner) "ownership.applicationId" in
  let? instance := id_ (key_json "instanceId" owner) "ownership.instanceId" in
  let? catalog := digest_ (key_json "catalogIdentityDigest" owner) "ownership.catalogIdentityDigest" in
  let? run := match key_json "runId" owner with
              | JNull => Ok JNull
              | v => let? s := id_ v "ownership.runId" in Ok (JStr s)
              end in
  Ok (JObj [("applicationId", JStr application); ("instanceId", JStr instance);
            ("catalogIdentityDigest", JStr catalog); ("runId", run)]).

Definition base_revision_of (value : json) : checked json :=
  match value with
  | JStr s => if GIT_SHA_fullmatch s then Ok (JStr s) else invalid "parameters.baseRevision must be a full lowercase git sha"
  | _ => invalid "parameters.baseRevision must be a full lowercase git sha"
  end.

(** [{field: f(parameters[field])}] when the field is given *)
Definition given (field : string) (f : json -> checked json) (parameters : dict) : checked dict :=
  match dict_get field parameters with
  | None => Ok []
  | Some raw => let? v := f raw in Ok [(field, v)]
  end.

Definition helper_policy (seed : dict) : dict :=
  match dict_get "helperPolicy" seed with Some p => [("helperPolicy", p)] | None => [] end.

(** The source of a workspace; its review digest binds it to its owner. *)
Definition source_seed_of (k : WorkloadKind) (workload_id reference : string) (np : dict) (raw : json) : checked json :=
  invalid_if (negb (bool_decide (k = Workspace)) || negb (dict_has "ownership" np) || negb (dict_has "baseRevision" np))
    "workspace source seed requires exact application ownership and base revision" >>?
  let with_policy := match raw with JObj d => dict_has "helperPolicy" d | _ => false end in
  let? seed := mapping raw "parameters.sourceSeed"
    (["sourceInventory"; "sourceArchive"; "descriptorDigest"; "reviewDigest"]
     ++ if with_policy then ["helperPolicy"] else []) in
  let? known := if dict_has "helperPolicy" seed
                then in_set (key_json "helperPolicy" seed) [DEVELOPMENT_SEED_POLICY; SIGNED_DEVELOPMENT_SEED_POLICY]
                else Ok true in
  invalid_if (negb known
              || (py_eqb (key_json "helperPolicy" seed) (JStr DEVELOPMENT_SEED_POLICY)
                  && negb (bool_decide (reference = DEVELOPMENT_SEED_IMAGE))))
    "workspace seed helper policy requires its exact development image" >>?
  let? material := source_material (key_json "sourceInventory" seed) (key_json "sourceArchive" seed) in
  let? descriptor := digest_ (key_json "descriptorDigest" seed) "sourceSeed.descriptorDigest" in
  let review :=
    [("workloadId", JStr workload_id); ("image", JStr reference); ("ownership", key_json "ownership" np);
     ("baseRevision", key_json "baseRevision" np); ("sourceInventory", JArr (fst material));
     ("sourceArchive", JObj (snd material)); ("descriptorDigest", JStr descriptor)] ++ helper_policy seed in
  let? digest := digest_ (key_json "reviewDigest" seed) "sourceSeed.reviewDigest" in
  invalid_if (negb (bool_decide (canonical_digest (JObj review) = digest)))
    "workspace source review digest does not bind exact source and ownership" >>?
  Ok (JObj ([("sourceInventory", JArr (fst material)); ("sourceArchive", JObj (snd material));
             ("descriptorDigest", JStr descriptor); ("reviewDigest", JStr digest)] ++ helper_policy seed)).

(** One cache volume, after the mount paths and volume ids that were seen. *)
Definition cache_volume (mounts ids : list string) (item : json) : checked (string * string * json) :=
  let? data := mapping item "parameters.cacheVolumes[]" ["volumeId"; "mountPath"; "readOnly"] in
  let? volume := id_ (key_json "volumeId" data) "parameters.cacheVolumes[].volumeId" in
  let? mount := posix_absolute (key_json "mountPath" data) "parameters.cacheVolumes[].mountPath" in
  invalid_if (any_char (one_of ",:") mount) "parameters.cacheVolumes[].mountPath carries unsafe characters" >>?
  invalid_if (negb (startswith "/workspace/" mount) || mem mount mounts)
    "parameters.cacheVolumes mount paths must be unique and below /workspace" >>?
  invalid_if (mem volume ids) "parameters.cacheVolumes volume ids must be unique" >>?
  match key_json "readOnly" data with
  | JBool b => Ok (mount, volume, JObj [("volumeId", JStr volume); ("mountPath", JStr mount); ("readOnly", JBool b)])
  | _ => invalid "parameters.cacheVolumes[].readOnly must be boolean"
  end.

Fixpoint cache_volumes (mounts ids : list string) (l : list json) : checked (list json) :=
  match l with
  | [] => Ok []
  | item :: rest =>
      let? entry := cache_volume mounts ids item in
      let '(mount, volume, v) := entry in
      let? vs := cache_volumes (mount :: mounts) (volume :: ids) rest in
      Ok (v :: vs)
  end.

Definition workspace_cache_volumes (value : json) : checked (list json) :=
  match value with
  | JArr l =>
      if (16 <? Z.of_nat (length l))%Z then invalid "parameters.cacheVolumes must be a bounded array"
      else cache_volumes [] [] l
  | _ => invalid "parameters.cacheVolumes must be a bounded array"
  end.

(** [parameters.get(field, default)] *)
Definition field_or (field : string) (otherwise : json) (parameters : dict) : json :=
  default otherwise (dict_get field parameters).

(** The marker of an agent provider, which only the developer network may see. *)
Definition provider_profile (parameters : dict) (network_mode : json) : checked dict :=
  let profile := key_json "agentProviderProfile" parameters in
  if is_value profile JNull then Ok []
  else if negb (py_eqb profile (JStr AGENT_PROVIDER_PROFILE))
  then invalid "parameters.agentProviderProfile is not the sealed agent provider profile"
  else if negb (py_eqb network_mode (JStr "developer"))
  then invalid "parameters.agentProviderProfile requires the developer network mode"
  else Ok [("agentProviderProfile", JStr AGENT_PROVIDER_PROFILE)].

Definition workspace_parameters (workload_id : string) (parameters np : dict) : checked dict :=
  invalid_if (negb (py_eqb (key_json "workspaceId" np) (JStr workload_id)))
    "parameters.workspaceId must equal workloadId" >>?
  invalid_if (negb (py_eqb (key_json "volumeName" np) (JStr (WORKSPACE_VOLUME_PREFIX +:+ workload_id))))
    "parameters.volumeName must be the workload's daemon-owned volume" >>?
  match field_or "stopAfterIdle" (JBool true) parameters with
  | JBool stop =>
      let? shell := bounded_argv (field_or "shell" (jstrs ["/bin/sh"]) parameters) "parameters.shell" in
      let? _ := posix_absolute (JStr (default "" (head shell))) "parameters.shell[0]" in
      let network := field_or "networkMode" (JStr "none") parameters in
      let? known := in_set network ["none"; "developer"] in
      invalid_if (negb known) "parameters.networkMode is invalid" >>?
      let? profile := provider_profile parameters network in
      let? caches := workspace_cache_volumes (field_or "cacheVolumes" (JArr []) parameters) in
      let? cpu := int_ (field_or "cpuQuotaPercent" (JInt 100) parameters) "parameters.cpuQuotaPercent" 1 800 in
      let? disk := int_ (field_or "diskMaxBytes" (JInt 268435456) parameters) "parameters.diskMaxBytes"
                     (16 * MiB) (4 * 1024 ^ 3) in
      Ok ([("stopAfterIdle", JBool stop); ("shell", jstrs shell); ("networkMode", network)] ++ profile
          ++ [("cacheVolumes", JArr caches); ("cpuQuotaPercent", JInt cpu); ("diskMaxBytes", JInt disk)])
  | _ => invalid "parameters.stopAfterIdle must be boolean"
  end.

(** What depends on the kind alone, after its identity fields. *)
Definition kind_parameters (k : WorkloadKind) (parameters np : dict) : checked dict :=
  match k with
  | ValidatorRun => validator_parameters parameters np
  | AgentRun => agent_parameters parameters
  | _ => Ok []
  end.

Definition normalized_parameters (k : WorkloadKind) (workload_id reference : string) (parameters : dict)
    : checked dict :=
  let? identity := identity_parameters k parameters in
  let? own := kind_parameters k parameters identity in
  let np := identity ++ own in
  let? owner := given "ownership" ownership_of parameters in
  let? base := given "baseRevision" base_revision_of parameters in
  let np := np ++ owner ++ base in
  let? seed := given "sourceSeed" (source_seed_of k workload_id reference np) parameters in
  let np := np ++ seed in
  let? workspace := match k with Workspace => workspace_parameters workload_id parameters np | _ => Ok [] end in
  let? work := int_ (field_or "workSeconds" (JInt 0) parameters) "parameters.workSeconds" 0 MAX_WORK_SECONDS in
  let? emit := int_ (field_or "emitBytes" (JInt 0) parameters) "parameters.emitBytes" 0 MAX_EMIT_BYTES in
  Ok (np ++ workspace ++ [("workSeconds", JInt work); ("emitBytes", JInt emit)]).

(** The ceilings of a workload; runs carry all four in [resources]. *)
Record Resources := {
  r_memory : Z;
  r_pids : Z;
  r_cpu_disk : option (Z * Z);
}.

Definition is_run (k : WorkloadKind) : bool := match k with AgentRun | ValidatorRun => true | _ => false end.

Definition resources_of (k : WorkloadKind) (value : json) : checked Resources :=
  let? data := mapping value "resources"
    (if is_run k then ["memoryMaxBytes"; "cpuQuotaPercent"; "pidsMax"; "diskMaxBytes"] else ["memoryMaxBytes"; "pidsMax"]) in
  let? memory := int_ (key_json "memoryMaxBytes" data) "resources.memoryMaxBytes" (16 * MiB) MAX_MEMORY_MAX_BYTES in
  let? pids := int_ (key_json "pidsMax" data) "resources.pidsMax" 16 MAX_PIDS_MAX in
  if is_run k then
    let? cpu := int_ (key_json "cpuQuotaPercent" data) "resources.cpuQuotaPercent" 1 800 in
    let? disk := int_ (key_json "diskMaxBytes" data) "resources.diskMaxBytes" (16 * MiB) (4 * 1024 ^ 3) in
    Ok {| r_memory := memory; r_pids := pids; r_cpu_disk := Some (cpu, disk) |}
  else Ok {| r_memory := memory; r_pids := pids; r_cpu_disk := None |}.

Definition resources_dict (r : Resources) : dict :=
  [("memoryMaxBytes", JInt (r_memory r)); ("pidsMax", JInt (r_pids r))] ++
  match r_cpu_disk r with
  | Some (cpu, disk) => [("cpuQuotaPercent", JInt cpu); ("diskMaxBytes", JInt disk)]
  | None => []
  end.

(** A normalized spec. *)
Record Workload := {
  w_kind : WorkloadKind;
  w_id : string;
  w_image : string;
  w_parameters : dict;
  w_timeout : Z;
  w_output_bound : Z;
  w_resources : Resources;
}.

Definition workload_dict (w : Workload) : dict :=
  [("kind", JStr (kind_text (w_kind w))); ("workloadId", JStr (w_id w));
   ("image", JObj [("reference", JStr (w_image w))]); ("parameters", JObj (w_parameters w));
   ("timeoutSeconds", JInt (w_timeout w)); ("outputByteBound", JInt (w_output_bound w));
   ("resources", JObj (resources_dict (w_resources w)))].

Definition validate_workload_spec (value : json) : checked Workload :=
  no_secrets value "$" >>?
  let? data := mapping value "workload spec"
    ["kind"; "workloadId"; "image"; "parameters"; "timeoutSeconds"; "outputByteBound"; "resources"] in
  match kind_of (key_json "kind" data) with
  | None => invalid ("unknown sealed workload kind: " +:+ repr (key_json "kind" data))
  | Some kind =>
      let? id := id_ (key_json "workloadId" data) "workloadId" in
      let? image := mapping (key_json "image" data) "image" ["reference"] in
      let? reference := validate_image_reference (key_json "reference" image) in
      let? parameters := parameters_shape kind (key_json "parameters" data) in
      let? np := normalized_parameters kind id reference parameters in
      let? resources := resources_of kind (key_json "resources" data) in
      let? timeout := int_ (key_json "timeoutSeconds" data) "timeoutSeconds" 1 MAX_TIMEOUT_SECONDS in
      let? bound := int_ (key_json "outputByteBound" data) "outputByteBound" 1 MAX_OUTPUT_BYTES in
      Ok {| w_kind := kind; w_id := id; w_image := reference; w_parameters := np; w_timeout := timeout;
            w_output_bound := bound; w_resources := resources |}
  end.

(** ** Request envelopes *)

Record Request := {
  q_id : string;
  q_operation : string;
  q_grant_id : string;
  q_grant_digest : string;
  q_timeout : Z;
  q_output_bound : Z;
}.

Definition request_dict (q : Request) : dict :=
  [("formatVersion", JStr OPERATION_FORMAT); ("operationId", JStr (q_id q)); ("operation", JStr (q_operation q));
   ("requester", JObj [("grantId", JStr (q_grant_id q)); ("authorityGrantDigest", JStr (q_grant_digest q))]);
   ("timeoutSeconds", JInt (q_timeout q)); ("outputByteBound", JInt (q_output_bound q))].

Definition REQUEST_KEYS : list string :=
  ["formatVersion"; "operationId"; "operation"; "requester"; "timeoutSeconds"; "outputByteBound"].

Definition NO_PAYLOAD_OPERATIONS : list string :=
  ["describeCapabilities"; "listWorkloads"; "collectGarbage"; "probeDeploymentTarget"].

Definition validate_operation_request (value : json) : checked Request :=
  no_secrets value "$" >>?
  match value with
  | JObj data =>
      if negb (same_set (dict_keys data) REQUEST_KEYS) && negb (same_set (dict_keys data) ("payload" :: REQUEST_KEYS))
      then invalid "operation request has an invalid shape"
      else if negb (py_eqb (key_json "formatVersion" data) (JStr OPERATION_FORMAT))
      then invalid "operation request has an invalid formatVersion"
      else match key_json "operation" data with
      | JStr operation =>
          if negb (mem operation OPERATIONS) then invalid ("unknown operation: " +:+ repr (JStr operation))
          else
            invalid_if (mem operation NO_PAYLOAD_OPERATIONS && dict_has "payload" data)
              (operation +:+ " must not carry a payload") >>?
            invalid_if (negb (mem operation NO_PAYLOAD_OPERATIONS) && negb (dict_has "payload" data))
              (operation +:+ " requires a payload") >>?
            let? requester := mapping (key_json "requester" data) "requester" ["grantId"; "authorityGrantDigest"] in
            let? id := id_ (key_json "operationId" data) "operationId" in
            let? grant := id_ (key_json "grantId" requester) "requester.grantId" in
            let? digest := digest_ (key_json "authorityGrantDigest" requester) "requester.authorityGrantDigest" in
            let? timeout := int_ (key_json "timeoutSeconds" data) "timeoutSeconds" 1
              (if mem operation DEPLOYMENT_OPERATIONS then MAX_DEPLOYMENT_REQUEST_TIMEOUT_SECONDS
               else MAX_REQUEST_TIMEOUT_SECONDS) in
            let? bound := int_ (key_json "outputByteBound" data) "outputByteBound" 1 MAX_OUTPUT_BYTES in
            Ok {| q_id := id; q_operation := operation; q_grant_id := grant; q_grant_digest := digest;
                  q_timeout := timeout; q_output_bound := bound |}
      | v => invalid ("unknown operation: " +:+ repr v)
      end
  | _ => invalid "operation request has an invalid shape"
  end.

(** What a request carries besides its envelope. *)
Inductive Payload :=
| NewWorkload (w : Workload)
| Fields (d : dict).

Definition payload_dict (p : Payload) : dict :=
  match p with
  | NewWorkload w => [("workload", JObj (workload_dict w))]
  | Fields d => d
  end.

Definition SIGNAL_NAMES : list string := ["SIGINT"; "SIGQUIT"; "SIGTSTP"].

Definition terminal_size (data : dict) : checked (Z * Z) :=
  let? columns := int_ (key_json "columns" data) "columns" 1 1000 in
  let? rows := int_ (key_json "rows" data) "rows" 1 1000 in
  Ok (columns, rows).

Definition open_terminal_payload (payload : json) : checked dict :=
  let expected := match payload with JObj d => dict_has "expectedContainerIdentityDigest" d | _ => false end in
  let? data := mapping payload "openTerminal payload"
    (["workloadId"; "sessionId"; "columns"; "rows"] ++ if expected then ["expectedContainerIdentityDigest"] else []) in
  let? identity :=
    if expected then
      let? s := digest_ (key_json "expectedContainerIdentityDigest" data) "expectedContainerIdentityDigest" in
      Ok [("expectedContainerIdentityDigest", JStr s)]
    else Ok [] in
  let? workload := id_ (key_json "workloadId" data) "workloadId" in
  let? session := id_ (key_json "sessionId" data) "sessionId" in
  let? size := terminal_size data in
  Ok (identity ++ [("workloadId", JStr workload); ("sessionId", JStr session); ("columns", JInt (fst size));
                   ("rows", JInt (snd size))]).

(** The payload of a validated request; [deployment] is [_validate_deployment_payload]. *)
Definition validate_request_payload (deployment : string -> json -> checked dict) (operation : string) (payload : json)
    : checked Payload :=
  if mem operation ["createWorkload"; "runValidator"] then
    let? data := mapping payload (operation +:+ " payload") ["workload"] in
    let? w := validate_workload_spec (key_json "workload" data) in
    invalid_if (bool_decide (operation = "runValidator") && negb (bool_decide (w_kind w = ValidatorRun)))
      "runValidator requires a validator-run workload" >>?
    Ok (NewWorkload w)
  else if mem operation ["start"; "stop"; "status"; "logs"; "cancel"; "removeWorkload"] then
    let? data := mapping payload (operation +:+ " payload") ["workloadId"] in
    let? id := id_ (key_json "workloadId" data) "workloadId" in
    Ok (Fields [("workloadId", JStr id)])
  else if bool_decide (operation = "openTerminal") then
    let? d := open_terminal_payload payload in Ok (Fields d)
  else if bool_decide (operation = "resizeTerminal") then
    let? data := mapping payload "resizeTerminal payload" ["sessionId"; "columns"; "rows"] in
    let? session := id_ (key_json "sessionId" data) "sessionId" in
    let? size := terminal_size data in
    Ok (Fields [("sessionId", JStr session); ("columns", JInt (fst size)); ("rows", JInt (snd size))])
  else if bool_decide (operation = "signalTerminal") then
    let? data := mapping payload "signalTerminal payload" ["sessionId"; "signal"] in
    let? signal := string_ (key_json "signal" data) "signal" in
    invalid_if (negb (mem signal SIGNAL_NAMES)) "signalTerminal carries an unsupported signal" >>?
    let? session := id_ (key_json "sessionId" data) "sessionId" in
    Ok (Fields [("sessionId", JStr session); ("signal", JStr signal)])
  else if bool_decide (operation = "closeTerminal") then
    let? data := mapping payload "closeTerminal payload" ["sessionId"] in
    let? session := id_ (key_json "sessionId" data) "sessionId" in
    Ok (Fields [("sessionId", JStr session)])
  else if bool_decide (operation = "execWorkload") then
    let? data := mapping payload "execWorkload payload" ["workloadId"; "argv"] in
    let? argv := bounded_argv (key_json "argv" data) "execWorkload argv" in
    let? id := id_ (key_json "workloadId" data) "workloadId" in
    Ok (Fields [("workloadId", JStr id); ("argv", jstrs argv)])
  else if mem operation DEPLOYMENT_OPERATIONS then
    let? d := deployment operation payload in Ok (Fields d)
  else if negb (is_value payload JNull) then invalid (operation +:+ " must not carry a payload")
  else Ok (Fields []).

(** ** Authority grants *)

(** [s.endswith(c)] for one character *)
Fixpoint ends_with (c : ascii) (s : string) : bool :=
  match s with
  | EmptyString => false
  | String d EmptyString => bool_decide (d = c)
  | String _ rest => ends_with c rest
  end.

Definition iso_z (value : json) (name : string) : checked string :=
  let? s := string_ value name in
  if negb (ends_with "Z"%char s) || any_char (fun c => bool_decide (c = "010"%char)) s || (64 <? py_len s)%Z
  then invalid (name +:+ " must be a bounded UTC timestamp")
  else Ok s.

Record DeploymentScope := {
  ds_target_id : string;
  ds_allow_purge : bool;
  ds_max_archive_bytes : Z;
  ds_max_files : Z;
}.

Definition scope_dict (s : DeploymentScope) : dict :=
  [("authorityMode", JStr "canonical-control-plane"); ("targetAdapter", JStr "rootless-podman-local");
   ("targetId", JStr (ds_target_id s)); ("allowDataPurge", JBool (ds_allow_purge s));
   ("maxArchiveBytes", JInt (ds_max_archive_bytes s)); ("maxFiles", JInt (ds_max_files s))].

Record Budgets := {
  b_timeout : Z;
  b_output : Z;
  b_memory : Z;
  b_pids : Z;
  b_active : Z;
  b_cpu : Z;
  b_disk : Z;
}.

Definition GRANT_BUDGET_KEYS : list string :=
  ["maxTimeoutSeconds"; "maxOutputBytes"; "maxMemoryMaxBytes"; "maxPidsMax"; "maxActiveWorkloads";
   "maxCpuQuotaPercent"; "maxDiskMaxBytes"].

Definition budgets_dict (b : Budgets) : dict :=
  [("maxTimeoutSeconds", JInt (b_timeout b)); ("maxOutputBytes", JInt (b_output b));
   ("maxMemoryMaxBytes", JInt (b_memory b)); ("maxPidsMax", JInt (b_pids b));
   ("maxActiveWorkloads", JInt (b_active b)); ("maxCpuQuotaPercent", JInt (b_cpu b));
   ("maxDiskMaxBytes", JInt (b_disk b))].

Definition budgets_of (value : json) : checked Budgets :=
  let? d := mapping value "budgets" GRANT_BUDGET_KEYS in
  let? timeout := int_ (key_json "maxTimeoutSeconds" d) "budgets.maxTimeoutSeconds" 1 MAX_TIMEOUT_SECONDS in
  let? output := int_ (key_json "maxOutputBytes" d) "budgets.maxOutputBytes" 1 MAX_OUTPUT_BYTES in
  let? memory := int_ (key_json "maxMemoryMaxBytes" d) "budgets.maxMemoryMaxBytes" (16 * MiB) MAX_MEMORY_MAX_BYTES in
  let? pids := int_ (key_json "maxPidsMax" d) "budgets.maxPidsMax" 16 MAX_PIDS_MAX in
  let? active := int_ (key_json "maxActiveWorkloads" d) "budgets.maxActiveWorkloads" 1 256 in
  let? cpu := int_ (key_json "maxCpuQuotaPercent" d) "budgets.maxCpuQuotaPercent" 1 800 in
  let? disk := int_ (key_json "maxDiskMaxBytes" d) "budgets.maxDiskMaxBytes" (16 * MiB) (4 * 1024 ^ 3) in
  Ok {| b_timeout := timeout; b_output := output; b_memory := memory; b_pids := pids; b_active := active;
        b_cpu := cpu; b_disk := disk |}.

(** A normalized grant. *)
Record Grant := {
  g_format : string;
  g_id : string;
  g_peer_uid : Z;
  g_operations : list string;
  g_workload_ids : list string;
  g_kinds : list WorkloadKind;
  g_spec_digests : list (string * string);
  g_image : string;
  g_base_revision : option string;
  g_issued_at : string;
  g_expires_at : string;
  g_epoch : Z;
  g_budgets : Budgets;
  g_scope : option DeploymentScope;
}.

Definition grant_dict (g : Grant) : dict :=
  [("formatVersion", JStr (g_format g)); ("grantId", JStr (g_id g)); ("peerUid", JInt (g_peer_uid g));
   ("operations", jstrs (g_operations g)); ("workloadIds", jstrs (g_workload_ids g));
   ("workloadKinds", jstrs (kind_text <$> g_kinds g));
   ("workloadSpecDigests", JObj ((fun kv => (fst kv, JStr (snd kv))) <$> g_spec_digests g));
   ("imageReference", JStr (g_image g));
   ("baseRevision", match g_base_revision g with Some s => JStr s | None => JNull end);
   ("issuedAt", JStr (g_issued_at g)); ("expiresAt", JStr (g_expires_at g)); ("revocationEpoch", JInt (g_epoch g));
   ("budgets", JObj (budgets_dict (g_budgets g)))]
  ++ match g_scope g with Some s => [("deploymentScope", JObj (scope_dict s))] | None => [] end.

Definition GRANT_KEYS : list string :=
  ["formatVersion"; "grantId"; "peerUid"; "operations"; "workloadIds"; "workloadKinds"; "workloadSpecDigests";
   "imageReference"; "baseRevision"; "issuedAt"; "expiresAt"; "revocationEpoch"; "budgets"].

Definition operations_of (value : json) : checked (list string) :=
  let error := "authority grant operations must be a unique subset of the contract operations" in
  match value with
  | JArr l =>
      if bool_decide (l = []) || (Z.of_nat (length OPERATIONS) <? Z.of_nat (length l))%Z
         || existsb (fun v => negb (in_tuple v OPERATIONS)) l || negb (distinct l)
      then invalid error
      else each (fun v => match v with JStr s => Ok s | _ => invalid error end) l
  | _ => invalid error
  end.

Definition kinds_of (value : json) : checked (list WorkloadKind) :=
  let error := "authority grant workloadKinds must be a unique subset of the workload kinds" in
  match value with
  | JArr l =>
      if bool_decide (l = []) || existsb (fun v => match kind_of v with None => true | Some _ => false end) l
         || negb (distinct l)
      then invalid error
      else each (fun v => match kind_of v with Some k => Ok k | None => invalid error end) l
  | _ => invalid error
  end.

Definition workload_ids_of (value : json) : checked (list string) :=
  let error := "authority grant workloadIds must be a bounded unique list" in
  match value with
  | JArr l =>
      if bool_decide (l = []) || (256 <? Z.of_nat (length l))%Z then invalid error
      else
        let? unique := all_distinct l in
        invalid_if (negb unique) error >>?
        each (fun v => id_ v "workloadIds[]") l
  | _ => invalid error
  end.

Definition spec_digests_of (value : json) : checked (list (string * string)) :=
  match value with
  | JObj fs =>
      if (256 <? Z.of_nat (length fs))%Z then invalid "authority grant workloadSpecDigests must be a bounded object"
      else each (fun kv =>
             let? k := id_ (JStr (fst kv)) "workloadSpecDigests key" in
             let? d := digest_ (snd kv) "workloadSpecDigests value" in
             Ok (k, d)) fs
  | _ => invalid "authority grant workloadSpecDigests must be a bounded object"
  end.

Definition scope_of (operations : list string) (value : json) : checked DeploymentScope :=
  let? raw := mapping value "deploymentScope"
    ["authorityMode"; "targetAdapter"; "targetId"; "allowDataPurge"; "maxArchiveBytes"; "maxFiles"] in
  invalid_if (negb (py_eqb (key_json "authorityMode" raw) (JStr "canonical-control-plane")))
    "deploymentScope.authorityMode is unsupported" >>?
  invalid_if (negb (py_eqb (key_json "targetAdapter" raw) (JStr "rootless-podman-local")))
    "deploymentScope.targetAdapter is unsupported" >>?
  let? target := id_ (key_json "targetId" raw) "deploymentScope.targetId" in
  match key_json "allowDataPurge" raw with
  | JBool purge =>
      invalid_if (mem "purgeDeploymentData" operations && negb purge)
        "a grant covering purgeDeploymentData must explicitly allow data purge" >>?
      let? archive := int_ (key_json "maxArchiveBytes" raw) "deploymentScope.maxArchiveBytes" 1 MAX_DEPLOYMENT_ARCHIVE_BYTES in
      let? files := int_ (key_json "maxFiles" raw) "deploymentScope.maxFiles" 1 MAX_DEPLOYMENT_FILES in
      Ok {| ds_target_id := target; ds_allow_purge := purge; ds_max_archive_bytes := archive; ds_max_files := files |}
  | _ => invalid "deploymentScope.allowDataPurge must be boolean"
  end.

(** The scope that deployment operations need and that nothing else may carry. *)
Definition deployment_scope_of (format : string) (operations : list string) (data : dict)
    : checked (option DeploymentScope) :=
  if existsb (fun o => mem o DEPLOYMENT_OPERATIONS) operations then
    match dict_get "deploymentScope" data with
    | Some value =>
        if negb (bool_decide (format = GRANT_FORMAT))
        then invalid "a grant with deployment operations requires a v2 deploymentScope"
        else let? s := scope_of operations value in Ok (Some s)
    | None => invalid "a grant with deployment operations requires a v2 deploymentScope"
    end
  else if dict_has "deploymentScope" data then invalid "deploymentScope requires at least one deployment operation"
  else Ok None.

Definition validate_grant_document (value : json) : checked Grant :=
  no_secrets value "$" >>?
  match value with
  | JObj data =>
      let format := key_json "formatVersion" data in
      invalid_if (negb (same_set (dict_keys data) GRANT_KEYS
                        || (py_eqb format (JStr GRANT_FORMAT)
                            && same_set (dict_keys data) ("deploymentScope" :: GRANT_KEYS))))
        "authority grant has an invalid shape" >>?
      let? known := in_set format [GRANT_FORMAT; LEGACY_GRANT_FORMAT] in
      invalid_if (negb known) "authority grant has an invalid formatVersion" >>?
      let format := py_str format in
      let? id := id_ (key_json "grantId" data) "grantId" in
      let? peer := int_ (key_json "peerUid" data) "peerUid" 0 INT_MAX in
      let? operations := operations_of (key_json "operations" data) in
      let? scope := deployment_scope_of format operations data in
      let? ids := workload_ids_of (key_json "workloadIds" data) in
      let? kinds := kinds_of (key_json "workloadKinds" data) in
      let? digests := spec_digests_of (key_json "workloadSpecDigests" data) in
      invalid_if (negb (subset_of (fst <$> digests) ids))
        "authority grant workloadSpecDigests names workloads outside its scope" >>?
      invalid_if ((mem "createWorkload" operations || mem "runValidator" operations)
                  && negb (same_set (fst <$> digests) ids))
        ("a grant that may create workloads must bind the complete canonical "
         +:+ "sealed-spec digest of every workload in its scope") >>?
      let? image := validate_image_reference (key_json "imageReference" data) in
      let? base := match key_json "baseRevision" data with
                   | JNull => Ok None
                   | JStr s =>
                       if GIT_SHA_fullmatch s then Ok (Some s)
                       else invalid "authority grant baseRevision must be null or a full lowercase git sha"
                   | _ => invalid "authority grant baseRevision must be null or a full lowercase git sha"
                   end in
      let? issued := iso_z (key_json "issuedAt" data) "issuedAt" in
      let? expires := iso_z (key_json "expiresAt" data) "expiresAt" in
      let? epoch := int_ (key_json "revocationEpoch" data) "revocationEpoch" 0 INT_MAX in
      let? budgets := budgets_of (key_json "budgets" data) in
      Ok {| g_format := format; g_id := id; g_peer_uid := peer; g_operations := operations; g_workload_ids := ids;
            g_kinds := kinds; g_spec_digests := digests; g_image := image; g_base_revision := base;
            g_issued_at := issued; g_expires_at := expires; g_epoch := epoch; g_budgets := budgets; g_scope := scope |}
  | _ => invalid "authority grant has an invalid shape"
  end.

(** ** Revocation *)

Record Revocation := {
  rv_revoked : list string;
  rv_paused : list string;
  rv_epoch : Z;
}.

Definition revoked_ids (field : string) (data : dict) : checked (list string) :=
  match key_json field data with
  | JArr l =>
      if (4096 <? Z.of_nat (length l))%Z then invalid (field +:+ " must be a bounded list")
      else each (fun v => id_ v (field +:+ "[]")) l
  | _ => invalid (field +:+ " must be a bounded list")
  end.

Definition validate_revocation_document (value : json) : checked Revocation :=
  let? data := mapping value "revocation document" ["revokedGrantIds"; "pausedGrantIds"; "revocationEpoch"] in
  let? epoch := int_ (key_json "revocationEpoch" data) "revocationEpoch" 0 INT_MAX in
  let? revoked := revoked_ids "revokedGrantIds" data in
  let? paused := revoked_ids "pausedGrantIds" data in
  Ok {| rv_revoked := revoked; rv_paused := paused; rv_epoch := epoch |}.

(** ** What the field validators return *)

Lemma nonempty_Ok v name s : string_ v name = Ok s -> v = JStr s.
Proof. unfold string_. destruct v; try done. destruct (nonblank _); [by intros [= <-]|done]. Qed.

Lemma id_Ok v name s : id_ v name = Ok s -> v = JStr s /\ ID_fullmatch s = true.
Proof.
  unfold id_. intros H. apply obind_Ok in H as (t & Ht & H). apply nonempty_Ok in Ht as ->.
  destruct (ID_fullmatch t) eqn:E; [|done]. by injection H as <-.
Qed.

Lemma digest_Ok v name s : digest_ v name = Ok s -> v = JStr s /\ DIGEST_fullmatch s = true.
Proof.
  unfold digest_. intros H. apply obind_Ok in H as (t & Ht & H). apply nonempty_Ok in Ht as ->.
  destruct (DIGEST_fullmatch t) eqn:E; [|done]. by injection H as <-.
Qed.

Lemma image_Ok v s : validate_image_reference v = Ok s -> v = JStr s /\ IMAGE_fullmatch s = true.
Proof.
  unfold validate_image_reference. intros H. apply obind_Ok in H as (t & Ht & H). apply nonempty_Ok in Ht as ->.
  destruct (IMAGE_fullmatch t) eqn:E; [|done]. by injection H as <-.
Qed.

Lemma iso_Ok v name s : iso_z v name = Ok s -> v = JStr s.
Proof.
  unfold iso_z. intros H. apply obind_Ok in H as (t & Ht & H). apply nonempty_Ok in Ht as ->.
  destruct (_ || _); [done|]. by injection H as <-.
Qed.

Lemma int_Ok v name lo hi z : int_ v name lo hi = Ok z -> v = JInt z /\ (lo <= z <= hi)%Z.
Proof.
  unfold int_. destruct v; try done. destruct ((lo <=? z0)%Z && (z0 <=? hi)%Z) eqn:E; [|done].
  intros [= <-]. apply andb_true_iff in E as [E1%Z.leb_le E2%Z.leb_le]. by split.
Qed.

Lemma mapping_Ok v name keys d : mapping v name keys = Ok d -> v = JObj d /\ same_set (dict_keys d) keys = true.
Proof.
  unfold mapping. destruct v; try done. destruct (same_set _ _) eqn:E; [|done]. by intros [= <-].
Qed.

(** [field H]: the next validator of the chain in [H] returned; its field held the value. *)
Ltac field H :=
  let x := fresh "got" in let E := fresh "E" in
  apply obind_Ok in H as (x & E & H);
  first [ apply int_Ok in E as [E _] | apply id_Ok in E as [E _] | apply digest_Ok in E as [E _]
        | apply image_Ok in E as [E _] | apply iso_Ok in E | apply nonempty_Ok in E | apply invalid_if_Ok in E | idtac ].

Lemma budgets_exact v b : wf_json v -> budgets_of v = Ok b -> norm v = norm (JObj (budgets_dict b)).
Proof.
  intros Hwf H. unfold budgets_of in H.
  apply obind_Ok in H as (d & Hd & H). apply mapping_Ok in Hd as [-> Hk].
  do 7 field H. injection H as <-.
  apply norm_agree; [by apply wf_json_obj in Hwf as []|by apply (bool_decide_unpack _)|done|].
  agree_fields.
Qed.

Lemma scope_exact operations v s : wf_json v -> scope_of operations v = Ok s -> norm v = norm (JObj (scope_dict s)).
Proof.
  intros Hwf H. unfold scope_of in H. apply obind_Ok in H as (d & Hd & H). apply mapping_Ok in Hd as [-> Hk].
  field H. field H. field H. destruct (key_json "allowDataPurge" d) as [|purge| | | |] eqn:Ep; try done.
  field H. field H. field H. injection H as <-.
  apply negb_false_iff, bool_decide_eq_true in E, E0. symmetry in E, E0. apply py_eq_str_l in E, E0.
  apply norm_agree; [by apply wf_json_obj in Hwf as []|by apply (bool_decide_unpack _)|done|].
  agree_fields.
Qed.

Lemma operations_exact v ops : operations_of v = Ok ops -> v = jstrs ops.
Proof.
  unfold operations_of, jstrs. destruct v as [| | | |l|]; try done. destruct (_ || _); [done|]. intros H. f_equal.
  eapply each_Ok; [|exact H]. intros x y. destruct x; try done. by intros [= <-].
Qed.

Lemma kind_of_Ok v k : kind_of v = Some k -> v = JStr (kind_text k).
Proof.
  unfold kind_of. destruct v as [| | |s| |]; try done. intros H.
  apply List.find_some in H as [_ H]. by apply bool_decide_eq_true in H as ->.
Qed.

Lemma kinds_exact v ks : kinds_of v = Ok ks -> v = jstrs (kind_text <$> ks).
Proof.
  unfold kinds_of, jstrs. destruct v as [| | | |l|]; try done. destruct (_ || _); [done|]. intros H. f_equal.
  rewrite <-list_fmap_compose. eapply (each_Ok _ (fun k => JStr (kind_text k))); [|exact H].
  intros x y. cbn beta. destruct (kind_of x) as [k|] eqn:E; [|done]. intros [= <-]. by apply kind_of_Ok.
Qed.

Lemma ids_exact v ids : workload_ids_of v = Ok ids -> v = jstrs ids.
Proof.
  unfold workload_ids_of, jstrs. destruct v as [| | | |l|]; try done. destruct (_ || _); [done|]. intros H.
  apply obind_Ok in H as (u & _ & H). field H. f_equal. eapply each_Ok; [|exact H]. by intros x y [-> _]%id_Ok.
Qed.

Lemma digests_exact v ds : spec_digests_of v = Ok ds -> v = JObj ((fun kv => (fst kv, JStr (snd kv))) <$> ds).
Proof.
  unfold spec_digests_of. destruct v as [| | | | |fs]; try done. destruct (256 <? _)%Z; [done|]. intros H. f_equal.
  eapply (each_Ok _ (fun kv => (fst kv, JStr (snd kv)))); [|exact H]. intros [k x] y Hy. cbn in Hy.
  apply obind_Ok in Hy as (k' & [E _]%id_Ok & Hy). apply obind_Ok in Hy as (d & [E' _]%digest_Ok & Hy).
  injection E as <-. injection Hy as <-. cbn. by rewrite E'.
Qed.

Lemma base_exact v o :
  match v with
  | JNull => Ok None
  | JStr s => if GIT_SHA_fullmatch s then Ok (Some s) else invalid "authority grant baseRevision must be null or a full lowercase git sha"
  | _ => invalid "authority grant baseRevision must be null or a full lowercase git sha"
  end = Ok o -> v = match o with Some s => JStr s | None => JNull end.
Proof.
  destruct v as [| | |s| |]; try done; [by intros [= <-]|]. destruct (GIT_SHA_fullmatch s); [by intros [= <-]|done].
Qed.

Lemma deployment_scope_exact format ops data scope : wf_json (JObj data) ->
  deployment_scope_of format ops data = Ok scope ->
  match scope with
  | Some s => dict_has "deploymentScope" data = true /\
              norm (key_json "deploymentScope" data) = norm (JObj (scope_dict s))
  | None => dict_has "deploymentScope" data = false
  end.
Proof.
  intros Hwf. unfold deployment_scope_of. destruct (existsb _ ops).
  - destruct (dict_get "deploymentScope" data) as [v|] eqn:E; [|done]. destruct (negb _); [done|]. intros H.
    apply obind_Ok in H as (s & Hs & [= <-]). split; [apply dict_has_get; by eexists|].
    pose proof (wf_key "deploymentScope" data Hwf) as Hv. unfold key_json in *. rewrite E in *.
    by apply scope_exact in Hs.
  - destruct (dict_has _ data); [done|]. by intros [= <-].
Qed.

(** The keys of an accepted grant tell whether it has a scope. *)
Lemma grant_keys (data : dict) (v2 : bool) :
  negb (same_set (dict_keys data) GRANT_KEYS
        || (v2 && same_set (dict_keys data) ("deploymentScope" :: GRANT_KEYS))) = false ->
  same_set (dict_keys data)
    (if dict_has "deploymentScope" data then GRANT_KEYS ++ ["deploymentScope"] else GRANT_KEYS) = true.
Proof.
  intros H. apply negb_false_iff, orb_true_iff in H as [H|H].
  - destruct (dict_has "deploymentScope" data) eqn:E; [|done].
    apply mem_true in E. rewrite same_set_spec in H. apply H in E.
    apply mem_true in E. by vm_compute in E.
  - apply andb_true_iff in H as [_ H]. rewrite same_set_spec in H.
    assert (Hin : "deploymentScope" ∈ dict_keys data) by (apply H; by left).
    unfold dict_has. rewrite (proj2 (mem_true _ _) Hin), same_set_spec. intros k. rewrite H.
    rewrite elem_of_app, elem_of_cons, list_elem_of_singleton. tauto.
Qed.

Lemma grant_dict_wf g : wf_json (JObj ((fun kv => (fst kv, JStr (snd kv))) <$> g_spec_digests g)) ->
  wf_json (JObj (grant_dict g)).
Proof.
  intros Hds. apply wf_json_obj. split.
  - destruct (g_scope g) as [s|] eqn:Es; unfold grant_dict; rewrite Es; by apply (bool_decide_unpack _).
  - unfold grant_dict. apply Forall_app. split.
    + repeat (apply Forall_cons; split; cbn [snd];
        [first [exact Hds | apply wf_jstrs | by constructor | by (destruct (g_base_revision g); constructor) | by apply wf_jsonb_wf]|]).
      constructor.
    + destruct (g_scope g) as [d|]; [|constructor]. constructor; [by apply wf_jsonb_wf|constructor].
Qed.

Lemma grant_exact (raw : json) (g : Grant) :
  wf_json raw -> validate_grant_document raw = Ok g ->
  norm (JObj (grant_dict g)) = norm raw /\ wf_json (JObj (grant_dict g)).
Proof.
  intros Hwf H.
  unfold validate_grant_document in H. apply obind_Ok in H as ([] & _ & H).
  destruct raw as [| | | | |data]; try done. cbv zeta in H.
  field H. apply obind_Ok in H as (known & Hknown & H). field H.
  destruct (key_json "formatVersion" data) as [| | |format| |] eqn:Ef; try (injection Hknown as <-; done); try done.
  cbn [py_str] in H. field H. field H.
  apply obind_Ok in H as (ops & Hops%operations_exact & H).
  apply obind_Ok in H as (scope & Hscope%deployment_scope_exact & H); [|done].
  apply obind_Ok in H as (ids & Hids%ids_exact & H). apply obind_Ok in H as (ks & Hks%kinds_exact & H).
  apply obind_Ok in H as (ds & Hds%digests_exact & H). field H. field H. field H.
  apply obind_Ok in H as (base & Hbase%base_exact & H). do 3 field H.
  apply obind_Ok in H as (b & Hb & H). apply budgets_exact in Hb; [|by apply wf_key].
  injection H as <-. apply grant_keys in E. split; [symmetry|].
  2: { apply grant_dict_wf. cbn. rewrite <-Hds. by apply wf_key. }
  apply norm_agree; [by apply wf_json_obj in Hwf as []| | |]; destruct scope as [s|].
  1,2: by apply (bool_decide_unpack _).
  1,2: first [rewrite (proj1 Hscope) in E|rewrite Hscope in E]; exact E.
  - destruct Hscope as [_ Hscope]. agree_fields.
  - agree_fields.
Qed.

(** The digest that names a grant is the digest of the stored document itself.
    [validate_grant_document] returns the document it was given, field by field, so the
    digest of the normalized grant, which [verify] compares with the one the client
    presents, is that of the file's contents: no field is dropped, defaulted or
    rewritten between the file and the digest. *)
Theorem grant_digest_is_exact (raw : json) (g : Grant) :
  wf_json raw -> validate_grant_document raw = Ok g ->
  canonical_digest (JObj (grant_dict g)) = canonical_digest raw.
Proof.
  intros Hwf H. unfold canonical_digest. by rewrite (dumps_norm false _ _ (proj1 (grant_exact raw g Hwf H))).
Qed.

(** ** The ceilings of a validated workload are integers *)

Lemma identity_keys k parameters d : identity_parameters k parameters = Ok d -> dict_keys d = identity_fields k.
Proof.
  unfold identity_parameters. generalize (identity_fields k). intros fields. revert d.
  induction fields as [|f fields IH]; intros d H; cbn [each] in H; [by injection H as <-|].
  apply obind_Ok in H as (y & Hy & H). apply obind_Ok in H as (ys & Hys & [= <-]).
  apply obind_Ok in Hy as (v & _ & [= <-]). cbn. f_equal. by apply IH.
Qed.

Lemma given_absent k field f parameters d : given field f parameters = Ok d -> k <> field -> dict_get k d = None.
Proof.
  unfold given. destruct (dict_get field parameters) as [raw|]; [|by intros [= <-]]. intros H Hk.
  apply obind_Ok in H as (v & _ & [= <-]). cbn. by rewrite (proj2 (String.eqb_neq k field) Hk).
Qed.

(** Where the two ceilings of a workload that is not a run come from. *)
Lemma parameters_limits k id reference parameters np key lo :
  normalized_parameters k id reference parameters = Ok np -> is_run k = false ->
  (key = "cpuQuotaPercent" \/ key = "diskMaxBytes") -> exists z, field_or key (JInt lo) np = JInt z.
Proof.
  unfold normalized_parameters. intros H Hrun Hkey.
  apply obind_Ok in H as (identity & Hi%identity_keys & H). apply obind_Ok in H as (own & Hown & H).
  assert (own = []) as -> by (destruct k; try done; by injection Hown as <-).
  apply obind_Ok in H as (owner & Ho & H). apply obind_Ok in H as (base & Hb & H). apply obind_Ok in H as (seed & Hs & H).
  apply obind_Ok in H as (ws & Hw & H). apply obind_Ok in H as (work & _ & H). apply obind_Ok in H as (emit & _ & [= <-]).
  assert (Hpre : dict_get key (((identity ++ []) ++ owner ++ base) ++ seed) = None).
  { rewrite !dict_get_app, (dict_get_absent _ identity), (given_absent _ _ _ _ _ Ho), (given_absent _ _ _ _ _ Hb),
      (given_absent _ _ _ _ _ Hs); try (by destruct Hkey as [->| ->]).
    rewrite Hi. apply mem_false. by destruct k, Hkey as [->| ->]. }
  unfold field_or. rewrite dict_get_app, Hpre, dict_get_app.
  assert (Hws : dict_get key ws = None \/ exists z, dict_get key ws = Some (JInt z)).
  { destruct k; try (injection Hw as <-; by left). right. unfold workspace_parameters in Hw.
    field Hw. field Hw. destruct (field_or "stopAfterIdle" _ _) as [|stop| | | |]; try done.
    apply obind_Ok in Hw as (shell & _ & Hw). apply obind_Ok in Hw as (s0 & _ & Hw).
    apply obind_Ok in Hw as (known & _ & Hw). field Hw. apply obind_Ok in Hw as (profile & Hp & Hw).
    apply obind_Ok in Hw as (caches & _ & Hw). apply obind_Ok in Hw as (cpu & _ & Hw).
    apply obind_Ok in Hw as (disk & _ & [= <-]).
    assert (Hprofile : dict_get key profile = None).
    { unfold provider_profile in Hp. cbv zeta in Hp. destruct (is_value _ _); [by injection Hp as <-|].
      destruct (negb (py_eqb (key_json "agentProviderProfile" parameters) _)); [done|].
      destruct (negb (py_eqb (field_or _ _ _) _)); [done|]. injection Hp as <-. by destruct Hkey as [->| ->]. }
    destruct Hkey as [->| ->]; [exists cpu|exists disk]; (cbn; by rewrite dict_get_app, Hprofile). }
  destruct Hws as [->|[z ->]]; [|by exists z]. destruct Hkey as [->| ->]; cbn; by eexists.
Qed.

(** ** A concrete grant *)

Definition some_digest : string := "sha256:0102c422aa8cf9ba1abb5f708f5ba5280799e9407d9db938f2e771d069524b0f".
Definition some_image : string := "ghcr.io/example/agent@" +:+ some_digest.

(** A grant for the workload [w1], with the given digest of its spec and expiry. *)
Definition grant_document (spec_digest expires : string) (ids : list json) : dict :=
  [("budgets", JObj [("maxTimeoutSeconds", JInt 600); ("maxOutputBytes", JInt 65536); ("maxMemoryMaxBytes", JInt 268435456);
                     ("maxPidsMax", JInt 64); ("maxActiveWorkloads", JInt 2); ("maxCpuQuotaPercent", JInt 100);
                     ("maxDiskMaxBytes", JInt 268435456)]);
   ("formatVersion", JStr GRANT_FORMAT); ("grantId", JStr "g1"); ("peerUid", JInt 1000);
   ("operations", jstrs ["createWorkload"; "status"]); ("workloadIds", JArr ids);
   ("workloadKinds", jstrs ["agent-run"]); ("workloadSpecDigests", JObj [("w1", JStr spec_digest)]);
   ("imageReference", JStr some_image); ("baseRevision", JNull); ("issuedAt", JStr "2026-01-01T00:00:00Z");
   ("expiresAt", JStr expires); ("revocationEpoch", JInt 3)].

Definition some_grant : dict := grant_document some_digest "2027-01-01T00:00:00Z" [JStr "w1"].

Lemma some_grant_Ok : exists g, validate_grant_document (JObj some_grant) = Ok g.
Proof. vm_compute. by eexists. Qed.

Lemma grant_digest_is_exact_witness :
  exists g, validate_grant_document (JObj some_grant) = Ok g /\
    canonical_digest (JObj (grant_dict g)) = canonical_digest (JObj some_grant).
Proof.
  destruct some_grant_Ok as [g Hg]. exists g. split; [exact Hg|].
  apply (grant_digest_is_exact (JObj some_grant) g); [by apply wf_jsonb_wf|exact Hg].
Defined.
