(* ===== verification/ExecutionLedger.v ===== *)
(** * Execution host: the operation ledger (packages/execution-host, ledger.py)

    One JSON document per workload and one per deployment operation.  A directory
    is a finite map from file names to documents; [None] is a file whose text does
    not parse.  A document is kept as [json.loads] would return it, that is with
    its keys in order.  Each public method holds the ledger's lock from its first
    read to its last write, so a call is one step.  A write can fail before or
    after the file was renamed into place: the world holds a schedule of such
    faults.  Workload and operation identifiers are file names, that is they hold
    no slash; the daemon contract checks that before the ledger is called. *)

From S2P Require Import Prelude Json Sha256 Contracts ExecutionContract.

(** [TypeError] also stands for the [AttributeError] of a method called on a value
    of another type. *)
Inductive ledger_error :=
| LedgerError (message : string)
| KeyError (key : string)
| TypeError
| ValueError
| OSError.

Abbreviation file := (option json).
Abbreviation directory := (gmap string file).

Inductive write_fault :=
| Lost          (* nothing was renamed into place *)
| Unsynced.     (* the file is in place, and the directory could not be synced *)

Record ledger := mkLedger {
  workloads : directory;
  deployment_operations : directory;
  recovery : directory;
  faults : list (option write_fault);
}.

Abbreviation call := (M ledger ledger_error).

(** ** Python values *)

(** A value used as a mapping. *)
Definition as_dict (v : json) : outcome ledger_error dict :=
  match v with JObj fs => Ok fs | _ => Raise TypeError end.

(** [d[key]] *)
Definition subscript (key : string) (d : dict) : outcome ledger_error json :=
  match dict_get key d with Some v => Ok v | None => Raise (KeyError key) end.

(** [v in {...}]; lists and dictionaries have no hash. *)
Definition in_set (v : json) (states : list string) : outcome ledger_error bool :=
  match v with
  | JStr s => Ok (mem s states)
  | JArr _ | JObj _ => Raise TypeError
  | _ => Ok false
  end.

(** [bool(v)] *)
Definition truthy (v : json) : bool :=
  match v with
  | JNull => false
  | JBool b => b
  | JInt z => negb (z =? 0)%Z
  | JStr s => negb (bool_decide (s = ""))
  | JArr l => negb (bool_decide (l = []))
  | JObj fs => negb (bool_decide (fs = []))
  end.

(** [int(text)]: decimal digits, single underscores between them, a sign, blanks. *)
Fixpoint int_digits (acc : Z) (after_digit : bool) (s : string) : option Z :=
  match s with
  | EmptyString => if after_digit then Some acc else None
  | String c r =>
      if is_digit c then int_digits (acc * 10 + (code c - 48)) true r
      else if bool_decide (c = "_"%char) && after_digit then int_digits acc false r
      else None
  end.

Definition int_text (s : string) : option Z :=
  match py_strip s with
  | String c r =>
      if bool_decide (c = "-"%char) then Z.opp <$> int_digits 0 false r
      else if bool_decide (c = "+"%char) then int_digits 0 false r
      else int_digits 0 false (String c r)
  | EmptyString => None
  end.

Definition py_int (v : json) : outcome ledger_error Z :=
  match v with
  | JInt z => Ok z
  | JBool b => Ok (if b then 1 else 0)%Z
  | JStr s => match int_text s with Some z => Ok z | None => Raise ValueError end
  | _ => Raise TypeError
  end.

(** [dict(value)] of a value that is a mapping or nothing. *)
Definition dict_or_empty (v : json) : outcome ledger_error dict :=
  if truthy v then as_dict v else Ok [].

(** [int(entry.get("version", 0))] *)
Definition version_of (entry : dict) : outcome ledger_error Z :=
  py_int (default (JInt 0) (dict_get "version" entry)).

(** ** Files *)

Definition file_name (id : string) : string := id +:+ ".json".

Definition set_workloads (d : directory) (w : ledger) : ledger :=
  mkLedger d (deployment_operations w) (recovery w) (faults w).
Definition set_operations (d : directory) (w : ledger) : ledger :=
  mkLedger (workloads w) d (recovery w) (faults w).
Definition set_recovery (d : directory) (w : ledger) : ledger :=
  mkLedger (workloads w) (deployment_operations w) d (faults w).
Definition set_faults (l : list (option write_fault)) (w : ledger) : ledger :=
  mkLedger (workloads w) (deployment_operations w) (recovery w) l.

(** [_atomic_write]; [place] puts the document into its directory. *)
Definition atomic_write (place : file -> ledger -> ledger) (payload : dict) : call unit := fun w =>
  let done := place (Some (norm (JObj payload))) (set_faults (tail (faults w)) w) in
  match faults w with
  | Some Lost :: rest => (set_faults rest w, Raise OSError)
  | Some Unsynced :: _ => (done, Raise OSError)
  | _ => (done, Ok tt)
  end.

Definition put_workload (name : string) (f : file) (w : ledger) : ledger :=
  set_workloads (<[name := f]> (workloads w)) w.
Definition put_operation (name : string) (f : file) (w : ledger) : ledger :=
  set_operations (<[name := f]> (deployment_operations w)) w.
Definition put_recovery (name : string) (f : file) (w : ledger) : ledger :=
  set_recovery (<[name := f]> (recovery w)) w.

(** [_read]; a document [null] reads as no entry.  The text of the parser's error is
    left out of the messages. *)
Definition read_workload (id : string) : call (option json) :=
  let* d := gets workloads in
  match d !! file_name id with
  | None => ret None
  | Some None => raise (LedgerError ("ledger entry for " +:+ id +:+ " is unreadable"))
  | Some (Some JNull) => ret None
  | Some (Some v) => ret (Some v)
  end.

(** [get] *)
Definition get_workload (id : string) : call (option json) := read_workload id.

(** The documents of a directory in the order of their names. *)
Fixpoint read_files (d : directory) (names : list string) : outcome ledger_error (list json) :=
  match names with
  | [] => Ok []
  | name :: rest =>
      match default None (d !! name) with
      | None => Raise (LedgerError ("ledger entry " +:+ name +:+ " is unreadable"))
      | Some v => let? vs := read_files d rest in Ok (v :: vs)
      end
  end.

Definition names_of (d : directory) : list string := sorted_set (dom d).

(** [_read_all_unlocked] and [all] *)
Definition read_all : call (list json) :=
  let* d := gets workloads in
  lift (read_files d (names_of d)).

(** [entry["state"] not in TERMINAL_STATES] *)
Definition is_active (v : json) : outcome ledger_error bool :=
  let? entry := as_dict v in
  let? state := subscript "state" entry in
  let? ended := in_set state TERMINAL_STATES in
  Ok (negb ended).

Fixpoint active_entries (vs : list json) : outcome ledger_error (list json) :=
  match vs with
  | [] => Ok []
  | v :: rest =>
      let? active := is_active v in
      let? others := active_entries rest in
      Ok (if active then v :: others else others)
  end.

(** [entry.get("grantId") == grant_id] for entries already known to be mappings *)
Definition of_grant (grant_id : string) (v : json) : bool :=
  match v with JObj fs => py_eqb (key_json "grantId" fs) (JStr grant_id) | _ => false end.

Definition count (p : json -> bool) (vs : list json) : Z := Z.of_nat (length (List.filter p vs)).

(** The two capacity checks, made under the lock. *)
Definition check_capacity (grant_id : string) (max_active max_per_grant : Z) : call unit :=
  let* all := read_all in
  let* active := lift (active_entries all) in
  raise_if (max_active <=? Z.of_nat (length active))%Z
    (LedgerError "daemon workload capacity is exhausted") >>*
  raise_if (max_per_grant <=? count (of_grant grant_id) active)%Z
    (LedgerError "the grant's active workload budget is exhausted").

(** ** Workloads *)

Definition new_entry (spec : dict) (at_ : string) (workload_id : string) (container : json) (grant : dict)
    (epoch : Z) (state : string) : dict :=
  [("workloadId", JStr workload_id); ("specDigest", JStr (canonical_digest (JObj spec)));
   ("spec", JObj spec); ("containerId", container)] ++ grant ++
  [("grantEpoch", JInt epoch); ("state", JStr state); ("version", JInt 1); ("createdAt", JStr at_);
   ("updatedAt", JStr at_); ("startedAt", JNull); ("finishedAt", JNull); ("exitStatus", JNull);
   ("receipts", JArr [])].

Definition refuse_existing (workload_id : string) : call unit :=
  let* d := gets workloads in
  raise_if (bool_decide (is_Some (d !! file_name workload_id)))
    (LedgerError ("workload " +:+ workload_id +:+ " already has a ledger entry")).

Definition write_workload (workload_id : string) (entry : dict) : call dict :=
  atomic_write (put_workload (file_name workload_id)) entry >>* ret entry.

Definition record_created (spec : dict) (at_ container_id grant_id : string) (grant_epoch : Z) : call dict :=
  let* id := lift (subscript "workloadId" spec) in
  let workload_id := py_str id in
  refuse_existing workload_id >>*
  write_workload workload_id
    (new_entry spec at_ workload_id (JStr container_id) [("grantId", JStr grant_id)] grant_epoch "created").

Definition opt_str (o : option string) : json := match o with Some s => JStr s | None => JNull end.

Definition reserve (spec : dict) (at_ grant_id : string) (grant_epoch max_active max_per_grant : Z)
    (grant_digest : option string) : call dict :=
  let* id := lift (subscript "workloadId" spec) in
  let workload_id := py_str id in
  refuse_existing workload_id >>*
  check_capacity grant_id max_active max_per_grant >>*
  write_workload workload_id
    (new_entry spec at_ workload_id JNull [("grantId", JStr grant_id); ("grantDigest", opt_str grant_digest)]
       grant_epoch "reserved").

Definition is_workspace (spec : dict) : bool := py_eqb (key_json "kind" spec) (JStr "workspace").

(** [d.update(...)] *)
Definition updated (entry : dict) (fields : dict) : dict := dict_update entry fields.

(** [entry.setdefault("receipts", []).append(receipt)] *)
Definition append_receipt (current : option json) (receipt : dict) (entry : dict) : outcome ledger_error dict :=
  match current with
  | Some (JArr l) => Ok (dict_set "receipts" (JArr (l ++ [JObj receipt])) entry)
  | _ => Raise TypeError
  end.

Definition reserve_workspace_recovery (spec : dict) (at_ grant_id : string)
    (grant_epoch max_active max_per_grant : Z) (grant_digest : string) : call dict :=
  let* id := lift (subscript "workloadId" spec) in
  let workload_id := py_str id in
  let* found := read_workload workload_id in
  match found with
  | None => raise (LedgerError ("workspace " +:+ workload_id +:+ " has no recovery ledger entry"))
  | Some v =>
      let* entry := lift (as_dict v) in
      let* sealed := lift (as_dict (default (JObj []) (dict_get "spec" entry))) in
      raise_if (negb (is_workspace sealed) || negb (is_workspace spec))
        (LedgerError ("workload " +:+ workload_id +:+ " is not a recoverable workspace")) >>*
      let state := key_json "state" entry in
      let* recoverable := lift (in_set state ["removed"; "interrupted"]) in
      raise_if (negb recoverable)
        (LedgerError ("workspace " +:+ workload_id +:+ " is " +:+ py_str state
                      +:+ "; recovery requires removed or interrupted")) >>*
      raise_if (negb (py_eqb (key_json "specDigest" entry) (JStr (canonical_digest (JObj spec)))))
        (LedgerError ("workspace " +:+ workload_id +:+ " recovery spec does not match its sealed ledger")) >>*
      raise_if (negb (py_eqb (key_json "grantId" entry) (JStr grant_id))
                || negb (py_eqb (key_json "grantDigest" entry) (JStr grant_digest)))
        (LedgerError ("workspace " +:+ workload_id +:+ " recovery grant does not match its owner")) >>*
      check_capacity grant_id max_active max_per_grant >>*
      let* recovered_from := lift (let? s := subscript "state" entry in Ok (py_str s)) in
      let* version := lift (version_of entry) in
      let entry := updated entry
        [("state", JStr "reserved"); ("version", JInt (version + 1)); ("updatedAt", JStr at_);
         ("startedAt", JNull); ("finishedAt", JNull); ("exitStatus", JNull); ("containerId", JNull);
         ("grantEpoch", JInt grant_epoch)] in
      let* entry := lift (append_receipt (Some (default (JArr []) (dict_get "receipts" entry)))
        [("kind", JStr "workspace-recovery-reserved");
         ("detail", JStr ("exact sealed workspace reserved from " +:+ recovered_from
                          +:+ "; preserved data volume will be reattached"));
         ("recoveredFromState", JStr recovered_from)] entry) in
      write_workload workload_id entry
  end.

(** The optional arguments of [transition]; [JNull] is [None]. *)
Record changes := mkChanges {
  t_receipt : option dict;
  t_exit_status : json;
  t_started_at : json;
  t_finished_at : json;
  t_extra : dict;
  expect_states : option (gset string);
  expect_version : option Z;
}.

Definition no_changes : changes := mkChanges None JNull JNull JNull [] None None.

Definition set_given (key : string) (v : json) (entry : dict) : dict :=
  if bool_decide (v = JNull) then entry else dict_set key v entry.

Definition check_expected_states (workload_id : string) (entry : dict) (expected : option (gset string)) : call unit :=
  match expected with
  | None => ret tt
  | Some states =>
      let* state := lift (subscript "state" entry) in
      let* ok := lift (in_set state (sorted_set states)) in
      raise_if (negb ok)
        (LedgerError ("workload " +:+ workload_id +:+ " is " +:+ py_str state
                      +:+ "; expected one of " +:+ repr_list (sorted_set states)))
  end.

Definition check_expected_version (workload_id : string) (entry : dict) (expected : option Z) : call unit :=
  match expected with
  | None => ret tt
  | Some n =>
      let* version := lift (version_of entry) in
      raise_if (negb (version =? n)%Z)
        (LedgerError ("workload " +:+ workload_id +:+ " is version "
                      +:+ py_str (default (JInt 0) (dict_get "version" entry))
                      +:+ "; expected version " +:+ pretty n))
  end.

(** The new contents of the entry. *)
Definition changed (state at_ : string) (c : changes) (version : Z) (entry : dict) : outcome ledger_error dict :=
  let entry := dict_set "updatedAt" (JStr at_)
    (dict_set "version" (JInt (version + 1)) (dict_set "state" (JStr state) entry)) in
  let entry := set_given "finishedAt" (t_finished_at c)
    (set_given "startedAt" (t_started_at c) (set_given "exitStatus" (t_exit_status c) entry)) in
  let? entry := match t_receipt c with
                | None => Ok entry
                | Some r => let? receipts := subscript "receipts" entry in append_receipt (Some receipts) r entry
                end in
  Ok (updated entry (t_extra c)).

Definition transition (workload_id state at_ : string) (c : changes) : call dict :=
  let* found := read_workload workload_id in
  match found with
  | None => raise (LedgerError ("workload " +:+ workload_id +:+ " has no ledger entry"))
  | Some v =>
      let* entry := lift (as_dict v) in
      check_expected_states workload_id entry (expect_states c) >>*
      check_expected_version workload_id entry (expect_version c) >>*
      let* version := lift (version_of entry) in
      let* entry := lift (changed state at_ c version entry) in
      write_workload workload_id entry
  end.

Definition finalize_reserved (workload_id at_ container_id : string) (version : option Z) (extra : dict) : call dict :=
  transition workload_id "created" at_
    (mkChanges None JNull JNull JNull (dict_set "containerId" (JStr container_id) extra)
       (Some {[ "reserved" ]}) version).

Definition abort_reserved (workload_id at_ : string) (receipt : dict) : call dict :=
  transition workload_id "failed" at_
    (mkChanges (Some receipt) JNull JNull (JStr at_) [] (Some {[ "reserved" ]}) None).

(** [entry["workloadId"]] of the active entries, of one grant when one is given *)
Fixpoint ids_of (grant_id : option string) (vs : list json) : outcome ledger_error (list string) :=
  match vs with
  | [] => Ok []
  | v :: rest =>
      let? active := is_active v in
      let? entry := as_dict v in
      if active && match grant_id with None => true | Some g => of_grant g v end
      then let? id := subscript "workloadId" entry in
           let? ids := ids_of grant_id rest in
           Ok (py_str id :: ids)
      else ids_of grant_id rest
  end.

Definition active_workload_ids (grant_id : option string) : call (gset string) :=
  let* all := read_all in
  let* ids := lift (ids_of grant_id all) in
  ret (list_to_set ids).

(** [s.replace(c, "")] *)
Fixpoint without (c : ascii) (s : string) : string :=
  match s with
  | EmptyString => EmptyString
  | String d r => if bool_decide (d = c) then without c r else String d (without c r)
  end.

Definition record_recovery (report : dict) (at_ : string) : call string :=
  let name := "recovery-" +:+ without "-" (without ":" at_) +:+ ".json" in
  atomic_write (put_recovery name) [("recordedAt", JStr at_); ("report", JObj report)] >>*
  ret name.

(** [key in value] *)
Definition contains (key : string) (v : json) : outcome ledger_error bool :=
  match v with
  | JObj fs => Ok (dict_has key fs)
  | JArr l => Ok (existsb (fun x => py_eqb x (JStr key)) l)
  | JStr s => Ok (match String.index 0 key s with Some _ => true | None => false end)
  | _ => Raise TypeError
  end.

(** [entry.get("spec", {}).get("parameters", {})] *)
Definition parameters_of (entry : dict) : outcome ledger_error json :=
  let? spec := as_dict (default (JObj []) (dict_get "spec" entry)) in
  Ok (default (JObj []) (dict_get "parameters" spec)).

(** [self.transition(str(entry["workloadId"]), str(entry["state"]), at=at,
    expect_version=int(entry["version"]), expect_states={str(entry["state"])}, ...)]: a
    change of the entry that keeps its state, and that fails if it is not the present one. *)
Definition amend (entry : dict) (at_ : string) (receipt : option dict) (extra : dict) : call dict :=
  let* id := lift (subscript "workloadId" entry) in
  let* state := lift (subscript "state" entry) in
  let* version := lift (let? v := subscript "version" entry in py_int v) in
  transition (py_str id) (py_str state) at_
    (mkChanges receipt JNull JNull JNull extra (Some {[ py_str state ]}) (Some version)).

Definition mark_source_termination (entry : dict) (at_ reason : string) : call dict :=
  let* parameters := lift (parameters_of entry) in
  let* archived := lift (contains "sourceArchive" parameters) in
  if negb archived || negb (bool_decide (key_json "sourceCommandOutput" entry = JNull))
     || negb (bool_decide (key_json "sourceTerminationReason" entry = JNull))
  then ret entry
  else amend entry at_ None [("sourceTerminationReason", JStr reason)].

(** ** Deployment operations *)

Inductive admission :=
| NewlyAdmitted
| InProgress
| Replay (receipt : dict).

(** The dictionary that [admit_deployment_operation] returns. *)
Definition admission_to_dict (a : admission) : dict :=
  match a with
  | NewlyAdmitted => [("status", JStr "admitted"); ("receipt", JNull)]
  | InProgress => [("status", JStr "in-progress"); ("receipt", JNull)]
  | Replay r => [("status", JStr "replay"); ("receipt", JObj r)]
  end.

Definition read_operation (id : string) : call (option dict) :=
  let* d := gets deployment_operations in
  match d !! file_name id with
  | None => ret None
  | Some None => raise (LedgerError ("deployment operation " +:+ id +:+ " is unreadable"))
  | Some (Some (JObj fs)) => ret (Some fs)
  | Some (Some _) => raise (LedgerError ("deployment operation " +:+ id +:+ " is not an object"))
  end.

Definition write_operation (id : string) (entry : dict) : call dict :=
  atomic_write (put_operation (file_name id)) entry >>* ret entry.

(** The admission of an operation that is already on file. *)
Definition readmission (id request_digest : string) (existing : dict) : outcome ledger_error admission :=
  refuse_if (negb (py_eqb (key_json "requestDigest" existing) (JStr request_digest)))
    (LedgerError ("deployment operation " +:+ id +:+ " was reused for a different request")) >>?
  let? ended := in_set (key_json "state" existing) ["completed"; "interrupted"] in
  match ended, key_json "receipt" existing with
  | true, JObj receipt => Ok (Replay receipt)
  | _, _ => Ok InProgress
  end.

Definition admit_deployment_operation (request : dict) (request_digest : string) (requester : dict)
    (payload : json) (at_ : string) : call admission :=
  let* id := lift (subscript "operationId" request) in
  let operation_id := py_str id in
  let* existing := read_operation operation_id in
  match existing with
  | Some entry => lift (readmission operation_id request_digest entry)
  | None =>
      let deployment_id := match payload with JObj fs => key_json "deploymentId" fs | _ => JNull end in
      let* operation := lift (subscript "operation" request) in
      write_operation operation_id
        [("operationId", JStr operation_id); ("requestDigest", JStr request_digest);
         ("operation", JStr (py_str operation)); ("deploymentId", deployment_id);
         ("requester", JObj requester); ("state", JStr "admitted"); ("receivedAt", JStr at_);
         ("updatedAt", JStr at_); ("receipt", JNull)] >>*
      ret NewlyAdmitted
  end.

Definition complete_deployment_operation (operation_id request_digest : string) (receipt : dict) (at_ : string)
    : call dict :=
  let* found := read_operation operation_id in
  match found with
  | None => raise (LedgerError ("deployment operation " +:+ operation_id +:+ " was not admitted"))
  | Some entry =>
      raise_if (negb (py_eqb (key_json "requestDigest" entry) (JStr request_digest)))
        (LedgerError ("deployment operation " +:+ operation_id +:+ " request digest changed")) >>*
      if negb (py_eqb (key_json "state" entry) (JStr "admitted")) then
        if py_eqb (key_json "receipt" entry) (JObj receipt) then ret entry
        else raise (LedgerError ("deployment operation " +:+ operation_id +:+ " is already "
                                 +:+ py_str (key_json "state" entry)))
      else
        write_operation operation_id
          (updated entry [("state", JStr "completed"); ("updatedAt", JStr at_); ("receipt", JObj receipt)])
  end.

Definition interruption_receipt (operation_id operation : string) (requester : dict) (at_ : string) (entry : dict) : dict :=
  [("formatVersion", JStr "stateport.execution-host-receipt/v1");
   ("operationId", JStr operation_id);
   ("requestDigest", key_json "requestDigest" entry);
   ("accepted", JBool true);
   ("refusal", JNull);
   ("requester", JObj requester);
   ("result", JObj
      [("outcome", JStr "failed"); ("operation", JStr operation); ("value", JNull);
       ("failure", JObj
          [("code", JStr "operation-interrupted");
           ("message", JStr ("the execution-host process ended before the deployment "
                             +:+ "effect produced a durable receipt"));
           ("details", JObj [("runtimeEffectUncertain", JBool true); ("automaticReplay", JBool false)])])]);
   ("observed", JObj
      [("engine", JNull); ("engineVersion", JNull); ("imageDigest", JNull); ("exitStatus", JNull);
       ("startedAt", JNull); ("finishedAt", JNull)]);
   ("cleanup", JObj
      [("outcome", JStr "not-required");
       ("detail", JStr ("daemon-owned transfer snapshots are reconciled separately; "
                        +:+ "runtime effects require a new governed reconciliation operation"))]);
   ("timestamps", JObj
      [("receivedAt", JStr (let v := key_json "receivedAt" entry in if truthy v then py_str v else at_));
       ("completedAt", JStr at_)])].

(** One file of the loop: the identifier of an operation that was interrupted. *)
Definition interrupt_one (at_ name : string) : call (option string) :=
  let* d := gets deployment_operations in
  match default None (d !! name) with
  | None => raise (LedgerError ("deployment operation entry " +:+ name +:+ " is unreadable"))
  | Some (JObj entry) =>
      if negb (py_eqb (key_json "state" entry) (JStr "admitted")) then ret None
      else
        let operation_id := py_str (key_json "operationId" entry) in
        let operation := py_str (key_json "operation" entry) in
        let* requester := lift (dict_or_empty (key_json "requester" entry)) in
        atomic_write (put_operation name)
          (updated entry
             [("state", JStr "interrupted"); ("updatedAt", JStr at_);
              ("receipt", JObj (interruption_receipt operation_id operation requester at_ entry))]) >>*
        ret (Some operation_id)
  | Some _ => ret None
  end.

Fixpoint interrupt_files (at_ : string) (names : list string) : call (list string) :=
  match names with
  | [] => ret []
  | name :: rest =>
      let* one := interrupt_one at_ name in
      let* others := interrupt_files at_ rest in
      ret (match one with Some id => id :: others | None => others end)
  end.

Definition interrupt_deployment_operations (at_ : string) : call (list string) :=
  let* d := gets deployment_operations in
  interrupt_files at_ (names_of d).

(** ** Lemmas on files *)

Lemma file_name_inj a b : file_name a = file_name b -> a = b.
Proof.
  unfold file_name. revert b. induction a as [|c a IH]; intros [|d b] H; rewrite ?str_cons_app, ?str_nil_app in H.
  - done.
  - apply (f_equal String.length) in H. simpl in H. rewrite str_length_app in H. simpl in H. lia.
  - apply (f_equal String.length) in H. simpl in H. rewrite str_length_app in H. simpl in H. lia.
  - injection H as -> H. f_equal. by apply IH.
Qed.

(** What a write does to a ledger, whether it raises or not. *)
Lemma atomic_write_cases place payload w w' r :
  atomic_write place payload w = (w', r) ->
  (r = Raise OSError /\ exists l, w' = set_faults l w) \/
  ((r = Ok tt \/ r = Raise OSError) /\ exists l, w' = place (Some (norm (JObj payload))) (set_faults l w)).
Proof.
  unfold atomic_write. destruct (faults w) as [|[[]|] l]; intros [= <- <-]; eauto 10.
Qed.

Lemma atomic_write_Ok place payload w w' u :
  atomic_write place payload w = (w', Ok u) ->
  exists l, w' = place (Some (norm (JObj payload))) (set_faults l w).
Proof. intros H. apply atomic_write_cases in H as [[? _]|[_ ?]]; done. Qed.

(** Calls that leave the ledger as it is. *)
Definition readonly {A} (m : call A) : Prop := forall w w' r, m w = (w', r) -> w' = w.

Create HintDb reads.

Lemma readonly_ret {A} (a : A) : readonly (ret a).
Proof. by intros w w' r [= <- _]. Qed.
Lemma readonly_raise {A} e : readonly (raise e : call A).
Proof. by intros w w' r [= <- _]. Qed.
Lemma readonly_lift {A} (o : outcome ledger_error A) : readonly (lift o).
Proof. by intros w w' r [= <- _]. Qed.
Lemma readonly_gets {A} (f : ledger -> A) : readonly (gets f).
Proof. by intros w w' r [= <- _]. Qed.
Lemma readonly_raise_if b e : readonly (raise_if b e).
Proof. apply readonly_lift. Qed.
Lemma readonly_bind {A B} (m : call A) (k : A -> call B) :
  readonly m -> (forall a, readonly (k a)) -> readonly (bind m k).
Proof.
  intros Hm Hk w w' r. unfold bind. destruct (m w) as [w1 [a|e]] eqn:E; apply Hm in E as ->.
  - apply Hk.
  - by intros [= <- _].
Qed.

#[export] Hint Resolve readonly_ret readonly_raise readonly_lift readonly_gets readonly_raise_if : reads.

Ltac only_reads :=
  repeat first
    [ match goal with |- forall _, _ => intro end
    | solve [eauto 2 with reads]
    | apply readonly_bind
    | match goal with |- readonly (match ?x with _ => _ end) => destruct x end ].

Lemma read_workload_only id : readonly (read_workload id).
Proof. unfold read_workload. only_reads. Qed.
Lemma read_operation_only id : readonly (read_operation id).
Proof. unfold read_operation. only_reads. Qed.
Lemma check_capacity_only g a b : readonly (check_capacity g a b).
Proof. unfold check_capacity, read_all. only_reads. Qed.
Lemma refuse_existing_only id : readonly (refuse_existing id).
Proof. unfold refuse_existing. only_reads. Qed.
Lemma check_expected_states_only id e s : readonly (check_expected_states id e s).
Proof. unfold check_expected_states. only_reads. Qed.
Lemma check_expected_version_only id e s : readonly (check_expected_version id e s).
Proof. unfold check_expected_version. only_reads. Qed.

#[export] Hint Resolve read_workload_only read_operation_only check_capacity_only refuse_existing_only
  check_expected_states_only check_expected_version_only : reads.

(** A readonly prefix of a computation can be skipped. *)
Lemma readonly_then {A B} (m : call A) (k : A -> call B) w w' r :
  readonly m -> bind m k w = (w', r) ->
  (exists e, m w = (w, Raise e) /\ w' = w /\ r = Raise e) \/ exists a, m w = (w, Ok a) /\ k a w = (w', r).
Proof.
  intros Hm. unfold bind. destruct (m w) as [w1 [a|e]] eqn:E; apply Hm in E as ->.
  - intros H. right. by exists a.
  - intros [= <- <-]. left. by exists e.
Qed.

(** ** Deployment operations: the record of an operation

    A call on the deployment side of the ledger, as the daemon makes them. *)

Inductive deployment_call :=
| Admit (request : dict) (request_digest : string) (requester : dict) (payload : json) (at_ : string)
| Complete (operation_id request_digest : string) (receipt : dict) (at_ : string)
| Interrupt (at_ : string).

(** The call, and the operation whose effect the daemon enters after it. *)
Definition make (c : deployment_call) : call (option string) :=
  match c with
  | Admit request digest requester payload at_ =>
      let* a := admit_deployment_operation request digest requester payload at_ in
      ret (match a with NewlyAdmitted => Some (py_str (key_json "operationId" request)) | _ => None end)
  | Complete id digest receipt at_ => complete_deployment_operation id digest receipt at_ >>* ret None
  | Interrupt at_ => interrupt_deployment_operations at_ >>* ret None
  end.

Definition after_call (w : ledger) (c : deployment_call) : ledger := fst (make c w).

(** The operations whose effects a sequence of calls enters, in order. *)
Fixpoint entered (calls : list deployment_call) (w : ledger) : list string :=
  match calls with
  | [] => []
  | c :: rest =>
      match snd (make c w) with
      | Ok (Some id) => id :: entered rest (after_call w c)
      | _ => entered rest (after_call w c)
      end
  end.

(** Every file of a directory keeps its state or moves on, by [R]. *)
Definition files_step (R : file -> file -> Prop) (w w' : ledger) : Prop :=
  forall name f, deployment_operations w !! name = Some f ->
    exists f', deployment_operations w' !! name = Some f' /\ R f f'.

Lemma files_step_refl R w w' : (forall f, R f f) -> deployment_operations w' = deployment_operations w ->
  files_step R w w'.
Proof. intros HR E name f H. exists f. by rewrite E. Qed.

Lemma files_step_put R w name f l :
  (forall g, R g g) -> (forall f0, deployment_operations w !! name = Some f0 -> R f0 f) ->
  files_step R w (put_operation name f (set_faults l w)).
Proof.
  intros HR Hf name' f0 H0. cbn. destruct (decide (name' = name)) as [->|Hne].
  - exists f. rewrite lookup_insert_eq. auto.
  - exists f0. rewrite lookup_insert_ne by done. auto.
Qed.

Lemma files_step_trans R w1 w2 w3 : (forall f g h, R f g -> R g h -> R f h) ->
  files_step R w1 w2 -> files_step R w2 w3 -> files_step R w1 w3.
Proof.
  intros HR H1 H2 name f Hf. destruct (H1 _ _ Hf) as (g & Hg & Rfg). destruct (H2 _ _ Hg) as (h & Hh & Rgh).
  exists h. split; [done|]. by eapply HR.
Qed.

(** An admitted operation ends once, with a receipt; nothing else changes a record. *)
Inductive moves : file -> file -> Prop :=
| moves_ended entry state at_ receipt :
    py_eqb (key_json "state" entry) (JStr "admitted") = true ->
    state ∈ ["completed"; "interrupted"] ->
    moves (Some (JObj entry))
      (Some (norm (JObj (updated entry
         [("state", JStr state); ("updatedAt", JStr at_); ("receipt", JObj receipt)])))).

Definition evolve : relation ledger := files_step (rtc moves).

Lemma evolve_refl w w' : deployment_operations w' = deployment_operations w -> evolve w w'.
Proof. apply files_step_refl. reflexivity. Qed.

Lemma evolve_trans w1 w2 w3 : evolve w1 w2 -> evolve w2 w3 -> evolve w1 w3.
Proof. apply files_step_trans. intros f g h H1 H2. by transitivity g. Qed.

#[export] Instance evolve_preorder : PreOrder evolve.
Proof. split; [intros w; by apply evolve_refl|intros w1 w2 w3; apply evolve_trans]. Qed.

Lemma read_operation_Ok id w w' o : read_operation id w = (w', Ok o) ->
  w' = w /\ match o with
            | None => deployment_operations w !! file_name id = None
            | Some entry => deployment_operations w !! file_name id = Some (Some (JObj entry))
            end.
Proof.
  intros H. pose proof (read_operation_only _ _ _ _ H) as ->. split; [done|].
  unfold read_operation in H. rewrite bind_gets in H.
  destruct (deployment_operations w !! file_name id) as [[[]|]|]; try done; by injection H as <-.
Qed.

(** What one step of a call can do to the records: nothing, open one, end one. *)
Inductive wrote (w w' : ledger) : Prop :=
| wrote_nothing : deployment_operations w' = deployment_operations w -> wrote w w'
| wrote_new name digest payload :
    deployment_operations w !! name = None ->
    NoDup (dict_keys payload) ->
    key_json "requestDigest" payload = JStr digest ->
    key_json "state" payload = JStr "admitted" ->
    deployment_operations w' = <[name := Some (norm (JObj payload))]> (deployment_operations w) ->
    wrote w w'
| wrote_end name entry state at_ receipt :
    deployment_operations w !! name = Some (Some (JObj entry)) ->
    py_eqb (key_json "state" entry) (JStr "admitted") = true ->
    state ∈ ["completed"; "interrupted"] ->
    deployment_operations w' = <[name := Some (norm (JObj (updated entry
      [("state", JStr state); ("updatedAt", JStr at_); ("receipt", JObj receipt)])))]> (deployment_operations w) ->
    wrote w w'.

#[export] Instance wrote_refl : Reflexive wrote.
Proof. intros w. by apply wrote_nothing. Qed.

(** A write that would do it does it, or nothing, when it fails. *)
Lemma atomic_write_wrote name payload w w' r :
  (forall w1, deployment_operations w1 = <[name := Some (norm (JObj payload))]> (deployment_operations w) -> wrote w w1) ->
  atomic_write (put_operation name) payload w = (w', r) -> wrote w w'.
Proof.
  intros Hw H. apply atomic_write_cases in H as [[_ (l & ->)]|[_ (l & ->)]]; [by apply wrote_nothing|].
  by apply Hw.
Qed.

Lemma write_operation_run id entry w : forall w' r, write_operation id entry w = (w', r) ->
  exists r', atomic_write (put_operation (file_name id)) entry w = (w', r').
Proof.
  intros w' r. unfold write_operation, bind, ret.
  destruct (atomic_write _ _ w) as [w1 [[]|e]]; intros [= <- _]; eauto.
Qed.

Lemma interrupt_one_wrote at_ name w w' r : interrupt_one at_ name w = (w', r) -> wrote w w'.
Proof.
  unfold interrupt_one. rewrite bind_gets.
  destruct (default None (deployment_operations w !! name)) as [[| | | | |entry]|] eqn:E;
    try (intros [= <- _]; reflexivity).
  destruct (negb _) eqn:Es; [intros [= <- _]; reflexivity|]. apply negb_false_iff in Es.
  intros H. apply readonly_then in H as [(e & _ & -> & _)|(requester & _ & H)];
    [reflexivity| |apply readonly_lift].
  unfold bind, ret in H. destruct (atomic_write _ _ w) as [w1 o] eqn:Ew.
  assert (w1 = w') as -> by (destruct o; by injection H).
  eapply atomic_write_wrote; [|exact Ew]. intros w1. apply (wrote_end _ _ _ entry); [|done|right; by left].
  destruct (deployment_operations w !! name); cbn in E; congruence.
Qed.

Lemma interrupt_files_wrote at_ names w w' r : interrupt_files at_ names w = (w', r) -> rtc wrote w w'.
Proof.
  revert w w' r. induction names as [|name names IH]; intros w w' r; cbn [interrupt_files].
  - intros [= <- _]. reflexivity.
  - unfold bind. destruct (interrupt_one at_ name w) as [w1 [o|e]] eqn:E1; apply interrupt_one_wrote in E1.
    2: intros [= <- _]; by apply rtc_once.
    destruct (interrupt_files at_ names w1) as [w2 [l|e]] eqn:E2; apply IH in E2;
      intros [= <- _]; by eapply rtc_l.
Qed.

Lemma complete_wrote id digest receipt at_ w w' r :
  complete_deployment_operation id digest receipt at_ w = (w', r) -> wrote w w'.
Proof.
  unfold complete_deployment_operation. intros H.
  apply readonly_then in H as [(e & _ & -> & _)|(found & Hf & H)]; [reflexivity| |apply read_operation_only].
  destruct found as [entry|]; [|unfold raise in H; injection H as <- _; reflexivity].
  apply read_operation_Ok in Hf as [_ Hf].
  apply readonly_then in H as [(e & _ & -> & _)|(u & _ & H)]; [reflexivity| |apply readonly_raise_if].
  destruct (negb _) eqn:Es.
  { destruct (py_eqb (key_json "receipt" _) _); unfold ret, raise in H; injection H as <- _; reflexivity. }
  apply negb_false_iff in Es. apply write_operation_run in H as [o Ew].
  eapply atomic_write_wrote; [|exact Ew]. intros w1. apply (wrote_end _ _ _ entry); [done|done|by left].
Qed.

Lemma admit_wrote request digest requester payload at_ w w' r :
  admit_deployment_operation request digest requester payload at_ w = (w', r) -> wrote w w'.
Proof.
  unfold admit_deployment_operation. intros H.
  apply readonly_then in H as [(e & _ & -> & _)|(id & _ & H)]; [reflexivity| |apply readonly_lift].
  apply readonly_then in H as [(e & _ & -> & _)|(found & Hf & H)]; [reflexivity| |apply read_operation_only].
  destruct found as [entry|]; [unfold lift in H; injection H as <- _; reflexivity|].
  apply read_operation_Ok in Hf as [_ Hf].
  apply readonly_then in H as [(e & _ & -> & _)|(op & _ & H)]; [reflexivity| |apply readonly_lift].
  unfold bind, ret in H. destruct (write_operation _ _ w) as [w1 o] eqn:Ew.
  assert (w1 = w') as -> by (destruct o; by injection H).
  apply write_operation_run in Ew as [o' Ew]. eapply atomic_write_wrote; [|exact Ew]. intros w1.
  apply (wrote_new _ _ _ digest); [done| |done|done]. apply (bool_decide_unpack _). reflexivity.
Qed.

Lemma make_wrote c w : rtc wrote w (after_call w c).
Proof.
  unfold after_call. destruct (make c w) as [w' r] eqn:E. cbn. destruct c; cbn [make] in E; unfold bind, ret in E;
    [destruct (admit_deployment_operation _ _ _ _ _ w) as [w1 o] eqn:E1; apply admit_wrote, rtc_once in E1
    |destruct (complete_deployment_operation _ _ _ _ w) as [w1 o] eqn:E1; apply complete_wrote, rtc_once in E1
    |destruct (interrupt_deployment_operations _ w) as [w1 o] eqn:E1;
     unfold interrupt_deployment_operations in E1; rewrite bind_gets in E1; apply interrupt_files_wrote in E1];
    destruct o; by injection E as <- _.
Qed.

Lemma wrote_evolves w w' : wrote w w' -> evolve w w'.
Proof.
  intros [H|name digest payload Hn _ _ _ H|name entry state at_ receipt Hn Ha Hs H] n f Hf; rewrite H.
  - by exists f.
  - exists f. rewrite lookup_insert_ne by congruence. done.
  - destruct (decide (n = name)) as [->|Hne].
    + eexists. rewrite lookup_insert_eq. split; [reflexivity|]. assert (f = Some (JObj entry)) as -> by congruence.
      by apply rtc_once, moves_ended.
    + exists f. by rewrite lookup_insert_ne.
Qed.

Lemma make_evolves c w : evolve w (after_call w c).
Proof.
  induction (make_wrote c w) as [w1|w1 w2 w3 H _ IH]; [reflexivity|].
  etrans; [by apply wrote_evolves|exact IH].
Qed.

Lemma calls_evolve calls w : evolve w (run_trace after_call w calls).
Proof.
  apply (run_trace_invariant after_call (evolve w)); [|reflexivity].
  intros w1 c H. eapply evolve_trans; [exact H|apply make_evolves].
Qed.

(** An effect is entered where there was no record, and leaves one. *)
Lemma make_enters c w id : snd (make c w) = Ok (Some id) ->
  deployment_operations w !! file_name id = None /\
  is_Some (deployment_operations (after_call w c) !! file_name id).
Proof.
  unfold after_call. destruct (make c w) as [w' r] eqn:E. cbn. intros ->.
  destruct c; cbn [make] in E; apply bind_Ok in E as (w1 & a & E & H); apply ret_Ok in H as [-> H]; try done.
  destruct a; try done. injection H as ->. unfold admit_deployment_operation in E.
  apply bind_Ok in E as (w2 & v & [-> Hv]%lift_Ok & E). unfold subscript in Hv.
  destruct (dict_get "operationId" request) as [v'|] eqn:Eid; [|done]. injection Hv as <-.
  rewrite (key_json_some _ _ _ Eid). apply bind_Ok in E as (w2 & o & Hr & E).
  apply read_operation_Ok in Hr as [-> Hr]. destruct o as [entry|].
  { exfalso. apply lift_Ok in E as [_ E]. unfold readmission in E.
    apply obind_Ok in E as ([] & _ & E). apply obind_Ok in E as (b & _ & E).
    by destruct b, (key_json "receipt" entry). }
  split; [done|]. apply bind_Ok in E as (w2 & op & [-> _]%lift_Ok & E).
  apply bind_Ok in E as (w3 & d & E & H). apply ret_Ok in H as [-> _]. unfold write_operation in E.
  apply bind_Ok in E as (w4 & [] & E & H). apply ret_Ok in H as [-> _].
  apply atomic_write_Ok in E as (l & ->). cbn. rewrite lookup_insert_eq. by eexists.
Qed.

Lemma entered_absent calls w id : id ∈ entered calls w -> deployment_operations w !! file_name id = None.
Proof.
  revert w. induction calls as [|c calls IH]; intros w; cbn [entered]; [by intros ?%elem_of_nil|].
  assert (Hrest : id ∈ entered calls (after_call w c) -> deployment_operations w !! file_name id = None).
  { intros H. apply IH in H. destruct (deployment_operations w !! file_name id) as [f|] eqn:E; [|done].
    destruct (make_evolves c w _ _ E) as (f' & Hf' & _). congruence. }
  destruct (snd (make c w)) as [[id'|]|e] eqn:E; [|done..].
  intros [->|H]%elem_of_cons; [|auto]. by apply make_enters in E as [E _].
Qed.

(** C16 The effect of a deployment operation is entered at most once.  However calls on
    the ledger interleave, whichever of their writes fail, and however often an
    operation is sent again, [admit_deployment_operation] answers [admitted] at most
    once for one operation, and never for one that already has a record. *)
Theorem deployment_effect_entered_once (calls : list deployment_call) (w : ledger) :
  NoDup (entered calls w) /\
  forall id, id ∈ entered calls w -> deployment_operations w !! file_name id = None.
Proof.
  split; [|intros id; apply entered_absent].
  revert w. induction calls as [|c calls IH]; intros w; cbn [entered]; [constructor|].
  destruct (snd (make c w)) as [[id|]|e] eqn:E; [|apply IH..].
  constructor; [|apply IH]. intros H. apply entered_absent in H.
  apply make_enters in E as [_ [f Hf]]. congruence.
Qed.

(** *** Records of a ledger that only these calls wrote *)

(** The record of an operation: its request digest and, once it ended, a receipt. *)
Definition recorded (digest : string) (f : file) : Prop :=
  exists entry, f = Some (JObj entry) /\ NoDup (dict_keys entry) /\
    key_json "requestDigest" entry = JStr digest /\
    (key_json "state" entry = JStr "admitted" \/
     (exists s, key_json "state" entry = JStr s /\ s ∈ ["completed"; "interrupted"]) /\
      exists r, key_json "receipt" entry = JObj r).

Definition all_recorded (w : ledger) : Prop :=
  forall name f, deployment_operations w !! name = Some f -> exists digest, recorded digest f.

Lemma key_json_sorted k fs : NoDup (dict_keys fs) ->
  key_json k (sort_fields (norm_fields fs)) = norm (key_json k fs).
Proof. intros Hnd. unfold key_json. rewrite dict_get_sort_norm by done. by destruct (dict_get k fs). Qed.

Lemma sorted_NoDup fs : NoDup (dict_keys fs) -> NoDup (dict_keys (sort_fields (norm_fields fs))).
Proof. intros Hnd. by rewrite sorted_fields_keys, norm_fields_keys. Qed.

Lemma updated_NoDup e fs : NoDup (dict_keys e) -> NoDup (dict_keys (updated e fs)).
Proof.
  unfold updated, dict_update. revert e. induction fs as [|[k v] fs IH]; intros e He; [done|].
  apply IH. by apply dict_set_NoDup.
Qed.

Section ended_fields.
Context (entry : dict) (state at_ : string) (receipt : dict) (Hnd : NoDup (dict_keys entry)).
Let entry' := updated entry [("state", JStr state); ("updatedAt", JStr at_); ("receipt", JObj receipt)].

Lemma ended_state : key_json "state" entry' = JStr state.
Proof.
  unfold entry', updated, dict_update, key_json. cbn.
  rewrite 2!dict_get_set_ne by done. by rewrite dict_get_set_eq.
Qed.
Lemma ended_receipt : key_json "receipt" entry' = JObj receipt.
Proof. unfold entry', updated, dict_update, key_json. cbn. by rewrite dict_get_set_eq. Qed.
Lemma ended_digest : key_json "requestDigest" entry' = key_json "requestDigest" entry.
Proof. unfold entry', updated, dict_update, key_json. cbn. by rewrite 3!dict_get_set_ne by done. Qed.
End ended_fields.

Lemma moves_recorded digest f f' : moves f f' -> recorded digest f -> recorded digest f'.
Proof.
  intros [entry state at_ receipt _ Hs] (e & [= <-] & Hnd & Hd & _).
  rewrite norm_obj. eexists. split; [reflexivity|].
  pose proof (updated_NoDup entry [("state", JStr state); ("updatedAt", JStr at_); ("receipt", JObj receipt)] Hnd) as Hu.
  split; [by apply sorted_NoDup|]. rewrite !key_json_sorted by done.
  rewrite ended_digest, ended_state, ended_receipt, Hd. split; [done|]. right.
  split; [by exists state|]. rewrite norm_obj. by eexists.
Qed.

Lemma rtc_moves_recorded digest f f' : rtc moves f f' -> recorded digest f -> recorded digest f'.
Proof. induction 1 as [f|f g h Hfg _ IH]; [done|]. intros H. by eapply IH, moves_recorded. Qed.

(** An ended record never moves. *)
Lemma ended_stays digest f f' :
  recorded digest f -> (forall entry, f = Some (JObj entry) -> key_json "state" entry <> JStr "admitted") ->
  rtc moves f f' -> f' = f.
Proof.
  intros (entry & -> & _ & _ & Hs) Hne H. inversion H as [|? g ? Hm _]; subst; [done|].
  inversion Hm as [e st at_ rc Hst _]; subst. exfalso. destruct Hs as [Hs|[(s & Hs & Hin) _]]; [by apply (Hne entry)|].
  rewrite Hs, py_eqb_str in Hst. apply bool_decide_eq_true in Hst as ->.
  apply elem_of_cons in Hin as [?|Hin%list_elem_of_singleton]; done.
Qed.

Lemma wrote_recorded w w' : wrote w w' -> all_recorded w -> all_recorded w'.
Proof.
  intros H Hw n f Hf. destruct H as [H|name digest payload Hn Hnd Hd Hs H|name entry state at_ receipt Hn Ha Hs H];
    rewrite H in Hf; [by apply (Hw n)| |];
    (destruct (decide (n = name)) as [->|Hne]; [|rewrite lookup_insert_ne in Hf by done; by apply (Hw n)]);
    rewrite lookup_insert_eq in Hf; apply (inj Some) in Hf; subst f.
  - exists digest. rewrite norm_obj. eexists. split; [reflexivity|]. split; [by apply sorted_NoDup|].
    rewrite !key_json_sorted, Hd, Hs by done. split; [done|by left].
  - destruct (Hw name _ Hn) as [digest Hd]. exists digest. eapply moves_recorded; [|exact Hd]. by apply moves_ended.
Qed.

Lemma make_recorded c w : all_recorded w -> all_recorded (after_call w c).
Proof.
  induction (make_wrote c w) as [w1|w1 w2 w3 H _ IH]; [done|]. intros Hw. apply IH. by eapply wrote_recorded.
Qed.

Lemma calls_recorded calls w : all_recorded w -> all_recorded (run_trace after_call w calls).
Proof. apply (run_trace_invariant after_call). intros w1 c. apply make_recorded. Qed.

(** *** Receipts are final *)

Lemma admit_found request id digest requester payload at_ w entry :
  dict_get "operationId" request = Some (JStr id) ->
  deployment_operations w !! file_name id = Some (Some (JObj entry)) ->
  admit_deployment_operation request digest requester payload at_ w = (w, readmission id digest entry).
Proof.
  intros Hid Hf. unfold admit_deployment_operation, subscript. rewrite Hid, bind_lift_ok. cbn [py_str].
  unfold bind at 1. unfold read_operation. rewrite bind_gets, Hf. reflexivity.
Qed.

(** The two ways in which an operation is reported complete. *)
Lemma complete_leaves id digest receipt at_ w w' result :
  all_recorded w -> wf_json (JObj receipt) ->
  complete_deployment_operation id digest receipt at_ w = (w', Ok result) ->
  exists entry r s, deployment_operations w' !! file_name id = Some (Some (JObj entry)) /\
    recorded digest (Some (JObj entry)) /\ key_json "receipt" entry = JObj r /\
    key_json "state" entry = JStr s /\ s ∈ ["completed"; "interrupted"] /\ py_eqb (JObj r) (JObj receipt) = true.
Proof.
  intros Hw Hwf H. unfold complete_deployment_operation in H.
  apply bind_Ok in H as (w1 & found & Hf & H). apply read_operation_Ok in Hf as [-> Hf].
  destruct found as [entry|]; [|by apply raise_Ok in H].
  apply bind_Ok in H as (w1 & [] & [-> Hd]%raise_if_Ok & H). apply negb_false_iff in Hd.
  destruct (Hw _ _ Hf) as [d Hrec]. pose proof Hrec as (e & [= <-] & Hnd & Hde & Hs).
  assert (d = digest) as -> by (rewrite Hde, py_eqb_str in Hd; by apply bool_decide_eq_true in Hd).
  destruct (negb _) eqn:Est in H.
  - destruct (py_eqb (key_json "receipt" entry) _) eqn:Er; [|by apply raise_Ok in H].
    apply ret_Ok in H as [-> _]. destruct Hs as [Hs|[(s & Hs & Hin) [r Hr]]]; [by rewrite Hs in Est|].
    exists entry, r, s. rewrite <-Hr. done.
  - apply negb_false_iff in Est. unfold write_operation in H.
    apply bind_Ok in H as (w1 & [] & H & Hret). apply ret_Ok in Hret as [-> _].
    apply atomic_write_Ok in H as (l & ->). cbn [put_operation set_operations deployment_operations set_faults].
    rewrite lookup_insert_eq, norm_obj.
    pose proof (updated_NoDup entry [("state", JStr "completed"); ("updatedAt", JStr at_); ("receipt", JObj receipt)] Hnd) as Hu.
    eexists _, (sort_fields (norm_fields receipt)), "completed". split; [reflexivity|]. split.
    { rewrite <-norm_obj. eapply moves_recorded; [|exact Hrec]. apply moves_ended; [done|by left]. }
    rewrite !key_json_sorted, ended_state, ended_receipt, norm_obj by done.
    split; [done|]. split; [done|]. split; [by left|]. rewrite <-norm_obj. by apply py_eqb_norm_l.
Qed.

(** The receipt of a deployment operation is final.  In a ledger that only these
    calls have written, once an operation was reported complete with a receipt, then
    whatever calls come after, sending the same request again is answered by replaying
    that receipt, and sending a different request under the same identifier is refused;
    neither changes the ledger. *)
Theorem deployment_receipt_is_final (before after : list deployment_call) (faults_ : list (option write_fault))
    (id digest at_ at' : string) (receipt result request requester : dict) (payload : json) (w w' : ledger) :
  run_trace after_call (mkLedger ∅ ∅ ∅ faults_) before = w ->
  wf_json (JObj receipt) ->
  complete_deployment_operation id digest receipt at_ w = (w', Ok result) ->
  dict_get "operationId" request = Some (JStr id) ->
  let u := run_trace after_call w' after in
  (exists r, admit_deployment_operation request digest requester payload at' u = (u, Ok (Replay r)) /\
    py_eqb (JObj r) (JObj receipt) = true) /\
    forall other, other <> digest ->
    admit_deployment_operation request other requester payload at' u
    = (u, Raise (LedgerError ("deployment operation " +:+ id +:+ " was reused for a different request"))).
Proof.
  intros <- Hwf Hc Hid u.
  assert (Hw : all_recorded (run_trace after_call (mkLedger ∅ ∅ ∅ faults_) before)).
  { apply calls_recorded. intros name f Hf. cbn in Hf. by rewrite lookup_empty in Hf. }
  destruct (complete_leaves _ _ _ _ _ _ _ Hw Hwf Hc) as (entry & r & s & Hf & Hrec & Hr & Hs & Hin & Heq).
  destruct (calls_evolve after w' _ _ Hf) as (f & Hf' & Hm). fold u in Hf'.
  apply (ended_stays digest) in Hm as ->; [|done|].
  2: { intros e [= <-]. rewrite Hs. intros [= ->].
       apply elem_of_cons in Hin as [?|Hin%list_elem_of_singleton]; done. }
  destruct Hrec as (e & [= <-] & _ & Hd & _).
  split.
  - exists r. split; [|done]. rewrite (admit_found request id _ _ _ _ u entry) by done.
    unfold readmission. rewrite Hd, py_eqb_refl, Hs, Hr. cbn [negb refuse_if obind in_set].
    by rewrite (proj2 (mem_true _ _) Hin).
  - intros other Hne. rewrite (admit_found request id _ _ _ _ u entry) by done.
    unfold readmission. rewrite Hd, py_eqb_str, bool_decide_eq_false_2 by congruence. done.
Qed.

(** ** Workloads: versions and capacity

    The calls that write the entry of a workload; [finalize_reserved],
    [abort_reserved] and [amend] are transitions. *)

Inductive workload_call :=
| Reserve (spec : dict) (at_ grant : string) (epoch max_active max_per_grant : Z) (digest : option string)
| Recover (spec : dict) (at_ grant : string) (epoch max_active max_per_grant : Z) (digest : string)
| Transition (id state at_ : string) (c : changes)
| RecordCreated (spec : dict) (at_ container grant : string) (epoch : Z).

Definition do_call (c : workload_call) : call dict :=
  match c with
  | Reserve spec at_ grant epoch ma mg digest => reserve spec at_ grant epoch ma mg digest
  | Recover spec at_ grant epoch ma mg digest => reserve_workspace_recovery spec at_ grant epoch ma mg digest
  | Transition id state at_ c => transition id state at_ c
  | RecordCreated spec at_ container grant epoch => record_created spec at_ container grant epoch
  end.

Definition after_work (w : ledger) (c : workload_call) : ledger := fst (do_call c w).

(** Documents come from [json.loads]: no object has a key twice. *)
Definition parsed (w : ledger) : Prop :=
  forall name fs, workloads w !! name = Some (Some (JObj fs)) -> NoDup (dict_keys fs).

(** What a call can do to the entries. *)
Inductive worked (c : workload_call) (w w' : ledger) : Prop :=
| worked_nothing : workloads w' = workloads w -> worked c w w'
| worked_new name payload state grant :
    workloads w !! name = None -> NoDup (dict_keys payload) ->
    dict_get "version" payload = Some (JInt 1) ->
    dict_get "state" payload = Some (JStr state) -> dict_get "grantId" payload = Some (JStr grant) ->
    match c with
    | Reserve _ _ g _ ma mg _ => grant = g /\ check_capacity g ma mg w = (w, Ok tt)
    | RecordCreated _ _ _ _ _ => True
    | _ => False
    end ->
    workloads w' = <[name := Some (norm (JObj payload))]> (workloads w) ->
    worked c w w'
| worked_recovered name entry payload v :
    workloads w !! name = Some (Some (JObj entry)) -> version_of entry = Ok v ->
    dict_get "version" payload = Some (JInt (v + 1)) -> dict_get "state" payload = Some (JStr "reserved") ->
    (NoDup (dict_keys entry) -> NoDup (dict_keys payload)) ->
    dict_get "grantId" payload = dict_get "grantId" entry ->
    match c with
    | Recover _ _ g _ ma mg _ =>
        py_eqb (key_json "grantId" entry) (JStr g) = true /\ check_capacity g ma mg w = (w, Ok tt)
    | _ => False
    end ->
    workloads w' = <[name := Some (norm (JObj payload))]> (workloads w) ->
    worked c w w'
| worked_moved name entry payload v id state at_ ch :
    c = Transition id state at_ ch -> name = file_name id ->
    workloads w !! name = Some (Some (JObj entry)) -> version_of entry = Ok v ->
    (forall u, check_expected_states id entry (expect_states ch) u = (u, Ok tt)) ->
    (forall n, expect_version ch = Some n -> v = n) ->
    changed state at_ ch v entry = Ok payload ->
    workloads w' = <[name := Some (norm (JObj payload))]> (workloads w) ->
    worked c w w'.

Lemma write_workload_run id entry w w' r : write_workload id entry w = (w', r) ->
  workloads w' = workloads w \/ workloads w' = <[file_name id := Some (norm (JObj entry))]> (workloads w).
Proof.
  unfold write_workload, bind, ret. destruct (atomic_write _ _ w) as [w1 o] eqn:E. intros H.
  assert (w1 = w') as -> by (destruct o; by injection H).
  apply atomic_write_cases in E as [[_ (l & ->)]|[_ (l & ->)]]; [by left|by right].
Qed.

Lemma read_workload_Ok id w w' v : read_workload id w = (w', Ok (Some v)) ->
  w' = w /\ workloads w !! file_name id = Some (Some v).
Proof.
  intros H. pose proof (read_workload_only _ _ _ _ H) as ->. split; [done|].
  unfold read_workload in H. rewrite bind_gets in H.
  destruct (workloads w !! file_name id) as [[[]|]|]; try done; by injection H as <-.
Qed.

(** [skip H as x]: the next command of the call in [H] reads; either the call ends
    there, with the ledger unchanged, or it goes on with the value [x]. *)
Ltac skip_read H :=
  apply readonly_then in H as [(? & _ & -> & _)|(? & ? & H)];
  [by apply worked_nothing| |solve [only_reads]].

Lemma reserve_worked spec at_ grant epoch ma mg digest w w' r :
  reserve spec at_ grant epoch ma mg digest w = (w', r) -> worked (Reserve spec at_ grant epoch ma mg digest) w w'.
Proof.
  unfold reserve. intros H. skip_read H.
  apply readonly_then in H as [(? & _ & -> & _)|([] & Hnone & H)]; [by apply worked_nothing| |only_reads].
  apply readonly_then in H as [(? & _ & -> & _)|([] & Hcap & H)]; [by apply worked_nothing| |only_reads].
  unfold refuse_existing in Hnone. rewrite bind_gets in Hnone. apply raise_if_Ok in Hnone as [_ Hnone].
  apply bool_decide_eq_false in Hnone. rewrite <-eq_None_not_Some in Hnone.
  apply write_workload_run in H as [H|H]; [by apply worked_nothing|].
  eapply worked_new; [exact Hnone| | | | | |exact H]; [|reflexivity..|by split].
  apply (bool_decide_unpack _). reflexivity.
Qed.

Lemma record_created_worked spec at_ container grant epoch w w' r :
  record_created spec at_ container grant epoch w = (w', r) -> worked (RecordCreated spec at_ container grant epoch) w w'.
Proof.
  unfold record_created. intros H. skip_read H.
  apply readonly_then in H as [(? & _ & -> & _)|([] & Hnone & H)]; [by apply worked_nothing| |only_reads].
  unfold refuse_existing in Hnone. rewrite bind_gets in Hnone. apply raise_if_Ok in Hnone as [_ Hnone].
  apply bool_decide_eq_false in Hnone. rewrite <-eq_None_not_Some in Hnone.
  apply write_workload_run in H as [H|H]; [by apply worked_nothing|].
  eapply worked_new; [exact Hnone| | | | | |exact H]; [|reflexivity..|done].
  apply (bool_decide_unpack _). reflexivity.
Qed.

Lemma append_receipt_get current r entry payload : append_receipt current r entry = Ok payload ->
  (forall k, k <> "receipts" -> dict_get k payload = dict_get k entry) /\
  (NoDup (dict_keys entry) -> NoDup (dict_keys payload)).
Proof.
  unfold append_receipt. destruct current as [[| | | |l|]|]; try done. intros [= <-].
  split; [intros k Hk; by apply dict_get_set_ne|apply dict_set_NoDup].
Qed.

Lemma recover_worked spec at_ grant epoch ma mg digest w w' r :
  reserve_workspace_recovery spec at_ grant epoch ma mg digest w = (w', r) ->
  worked (Recover spec at_ grant epoch ma mg digest) w w'.
Proof.
  unfold reserve_workspace_recovery. intros H. skip_read H.
  apply readonly_then in H as [(? & _ & -> & _)|(found & Hf & H)]; [by apply worked_nothing| |only_reads].
  destruct found as [v|]; [|unfold raise in H; injection H as <- _; by apply worked_nothing].
  apply read_workload_Ok in Hf as [_ Hf].
  apply readonly_then in H as [(? & _ & -> & _)|(entry & Hd & H)]; [by apply worked_nothing| |only_reads].
  apply lift_Ok in Hd as [_ Hd]. destruct v as [| | | | |entry']; try done. injection Hd as ->.
  do 5 skip_read H.
  apply readonly_then in H as [(? & _ & -> & _)|([] & Hg & H)]; [by apply worked_nothing| |only_reads].
  apply raise_if_Ok in Hg as [_ Hg]. apply orb_false_iff in Hg as [Hg _]. apply negb_false_iff in Hg.
  apply readonly_then in H as [(? & _ & -> & _)|([] & Hcap & H)]; [by apply worked_nothing| |only_reads].
  skip_read H.
  apply readonly_then in H as [(? & _ & -> & _)|(version & Hv & H)]; [by apply worked_nothing| |only_reads].
  apply lift_Ok in Hv as [_ Hv].
  apply readonly_then in H as [(? & _ & -> & _)|(payload & Hp & H)]; [by apply worked_nothing| |only_reads].
  apply lift_Ok in Hp as [_ Hp]. apply append_receipt_get in Hp as [Hget Hnd].
  apply write_workload_run in H as [H|H]; [by apply worked_nothing|].
  eapply (worked_recovered _ _ _ _ entry payload version); [exact Hf|exact Hv| | | | | |exact H].
  - rewrite Hget by done. unfold updated, dict_update. cbn. rewrite 6!dict_get_set_ne by done. apply dict_get_set_eq.
  - rewrite Hget by done. unfold updated, dict_update. cbn. rewrite 7!dict_get_set_ne by done. apply dict_get_set_eq.
  - intros He. apply Hnd, updated_NoDup, He.
  - rewrite Hget by done. unfold updated, dict_update. cbn. by rewrite 8!dict_get_set_ne by done.
  - by split.
Qed.

Lemma transition_worked id state at_ ch w w' r :
  transition id state at_ ch w = (w', r) -> worked (Transition id state at_ ch) w w'.
Proof.
  unfold transition. intros H.
  apply readonly_then in H as [(? & _ & -> & _)|(found & Hf & H)]; [by apply worked_nothing| |only_reads].
  destruct found as [v|]; [|unfold raise in H; injection H as <- _; by apply worked_nothing].
  apply read_workload_Ok in Hf as [_ Hf].
  apply readonly_then in H as [(? & _ & -> & _)|(entry & Hd & H)]; [by apply worked_nothing| |only_reads].
  apply lift_Ok in Hd as [_ Hd]. destruct v as [| | | | |entry']; try done. injection Hd as ->.
  apply readonly_then in H as [(? & _ & -> & _)|([] & Hs & H)]; [by apply worked_nothing| |only_reads].
  apply readonly_then in H as [(? & _ & -> & _)|([] & He & H)]; [by apply worked_nothing| |only_reads].
  apply readonly_then in H as [(? & _ & -> & _)|(version & Hv & H)]; [by apply worked_nothing| |only_reads].
  apply readonly_then in H as [(? & _ & -> & _)|(payload & Hp & H)]; [by apply worked_nothing| |only_reads].
  apply lift_Ok in Hv as [_ Hv]. apply lift_Ok in Hp as [_ Hp].
  apply write_workload_run in H as [H|H]; [by apply worked_nothing|].
  eapply (worked_moved _ _ _ _ entry payload version); try done.
  - intros u. unfold check_expected_states in *. destruct (expect_states ch) as [S|]; [|done].
    apply bind_Ok in Hs as (w1 & s & Hsub & Hs). apply lift_Ok in Hsub as [-> Hsub]. rewrite Hsub, bind_lift_ok.
    apply bind_Ok in Hs as (w1 & b & Hb & Hs). apply lift_Ok in Hb as [-> Hb]. rewrite Hb, bind_lift_ok.
    apply raise_if_Ok in Hs as [_ Hs]. by rewrite raise_if_pass.
  - intros n Hn. rewrite Hn in He. unfold check_expected_version in He.
    apply bind_Ok in He as (w1 & v & Hv' & He). apply lift_Ok in Hv' as [-> Hv'].
    apply raise_if_Ok in He as [_ He]. apply negb_false_iff, Z.eqb_eq in He. congruence.
Qed.

Lemma call_worked c w : worked c w (after_work w c).
Proof.
  unfold after_work. destruct (do_call c w) as [w' r] eqn:E. cbn. destruct c; cbn [do_call] in E.
  - by eapply reserve_worked.
  - by eapply recover_worked.
  - by eapply transition_worked.
  - by eapply record_created_worked.
Qed.

(** *** What a transition keeps *)

Lemma set_given_get k key v e : k <> key -> dict_get k (set_given key v e) = dict_get k e.
Proof. intros Hk. unfold set_given. case_bool_decide; [done|]. by apply dict_get_set_ne. Qed.

Lemma changed_get state at_ ch v entry payload k :
  changed state at_ ch v entry = Ok payload -> k ∉ dict_keys (t_extra ch) ->
  k ∉ ["receipts"; "finishedAt"; "startedAt"; "exitStatus"; "updatedAt"] ->
  dict_get k payload
  = dict_get k (dict_set "version" (JInt (v + 1)) (dict_set "state" (JStr state) entry)).
Proof.
  unfold changed. intros H Hx Hk. rewrite !not_elem_of_cons in Hk. destruct Hk as (K1 & K2 & K3 & K4 & K5 & _).
  apply obind_Ok in H as (e & He & H). injection H as <-. unfold updated. rewrite dict_get_update by done.
  assert (Hgive : dict_get k e = dict_get k (set_given "finishedAt" (t_finished_at ch)
    (set_given "startedAt" (t_started_at ch) (set_given "exitStatus" (t_exit_status ch)
      (dict_set "updatedAt" (JStr at_) (dict_set "version" (JInt (v + 1)) (dict_set "state" (JStr state) entry))))))).
  { destruct (t_receipt ch) as [r|]; [|by injection He as <-].
    apply obind_Ok in He as (rs & _ & He). apply append_receipt_get in He as [He _]. by apply He. }
  rewrite Hgive, !set_given_get by done. by apply dict_get_set_ne.
Qed.

Lemma changed_NoDup state at_ ch v entry payload :
  changed state at_ ch v entry = Ok payload -> NoDup (dict_keys entry) -> NoDup (dict_keys payload).
Proof.
  unfold changed. intros H Hnd. apply obind_Ok in H as (e & He & H). injection H as <-. apply updated_NoDup.
  assert (Hg : forall key x d, NoDup (dict_keys d) -> NoDup (dict_keys (set_given key x d)))
    by (intros key x d Hd; unfold set_given; case_bool_decide; [done|by apply dict_set_NoDup]).
  destruct (t_receipt ch) as [r|].
  - apply obind_Ok in He as (rs & _ & He). apply append_receipt_get in He as [_ He]. apply He.
    repeat (apply Hg || apply dict_set_NoDup). done.
  - injection He as <-. repeat (apply Hg || apply dict_set_NoDup). done.
Qed.

Section changed_fields.
Context (state at_ : string) (ch : changes) (v : Z) (entry payload : dict).
Context (Hch : changed state at_ ch v entry = Ok payload).

Lemma changed_version : "version" ∉ dict_keys (t_extra ch) -> dict_get "version" payload = Some (JInt (v + 1)).
Proof.
  intros Hx. rewrite (changed_get _ _ _ _ _ _ _ Hch Hx) by (by apply mem_false). apply dict_get_set_eq.
Qed.
Lemma changed_state : "state" ∉ dict_keys (t_extra ch) -> dict_get "state" payload = Some (JStr state).
Proof.
  intros Hx. rewrite (changed_get _ _ _ _ _ _ _ Hch Hx) by (by apply mem_false).
  rewrite dict_get_set_ne by done. apply dict_get_set_eq.
Qed.
Lemma changed_grant : "grantId" ∉ dict_keys (t_extra ch) -> dict_get "grantId" payload = dict_get "grantId" entry.
Proof.
  intros Hx. rewrite (changed_get _ _ _ _ _ _ _ Hch Hx) by (by apply mem_false).
  by rewrite !dict_get_set_ne by done.
Qed.
End changed_fields.

(** *** Compare and swap *)

Lemma insert_parsed name payload w w' :
  NoDup (dict_keys payload) -> workloads w' = <[name := Some (norm (JObj payload))]> (workloads w) ->
  parsed w -> parsed w'.
Proof.
  intros Hnd H Hw n fs Hf. rewrite H in Hf. destruct (decide (n = name)) as [->|Hne].
  - rewrite lookup_insert_eq, norm_obj in Hf. injection Hf as <-. by apply sorted_NoDup.
  - rewrite lookup_insert_ne in Hf by done. by eapply Hw.
Qed.

Lemma worked_parsed c w w' : worked c w w' -> parsed w -> parsed w'.
Proof.
  intros [H|name payload s g _ Hnd _ _ _ _ H|name entry payload v Hf _ _ _ Hnd _ _ H
         |name entry payload v id s a ch _ _ Hf _ _ _ Hch H] Hw.
  - intros name fs Hf. rewrite H in Hf. by eapply Hw.
  - by eapply insert_parsed.
  - eapply insert_parsed; [|done..]. by eapply Hnd, Hw.
  - eapply insert_parsed; [|done..]. by eapply changed_NoDup, Hw.
Qed.

Lemma calls_parsed calls w : parsed w -> parsed (run_trace after_work w calls).
Proof. apply (run_trace_invariant after_work). intros w1 c. apply worked_parsed with c, call_worked. Qed.

Definition version_above (n : Z) (f : file) : Prop :=
  exists entry v, f = Some (JObj entry) /\ version_of entry = Ok v /\ (n < v)%Z.

Lemma stored_version payload z : NoDup (dict_keys payload) -> dict_get "version" payload = Some (JInt z) ->
  version_of (sort_fields (norm_fields payload)) = Ok z.
Proof. intros Hnd H. unfold version_of. by rewrite dict_get_sort_norm, H by done. Qed.

Lemma stored_above payload n z : NoDup (dict_keys payload) -> dict_get "version" payload = Some (JInt z) -> (n < z)%Z ->
  version_above n (Some (norm (JObj payload))).
Proof. intros Hnd H Hz. rewrite norm_obj. eexists _, z. split; [reflexivity|]. split; [by apply stored_version|done]. Qed.

(** A call whose extra fields leave the version alone. *)
Definition keeps_version (c : workload_call) : Prop :=
  match c with Transition _ _ _ ch => "version" ∉ dict_keys (t_extra ch) | _ => True end.

Lemma worked_version c w w' name n f :
  parsed w -> worked c w w' -> keeps_version c ->
  workloads w !! name = Some f -> version_above n f ->
  exists f', workloads w' !! name = Some f' /\ version_above n f'.
Proof.
  intros Hw H Hc Hfile (e & z & -> & Hz & Hlt).
  assert (Hsame : exists f', Some (Some (JObj e)) = Some f' /\ version_above n f')
    by (eexists; split; [reflexivity|]; by exists e, z).
  destruct H as [H|name' payload s g Hnone _ _ _ _ _ H|name' entry payload v Hf Hv Hver _ Hnd _ _ H
         |name' entry payload v id s a ch -> -> Hf Hv _ _ Hch H]; rewrite H; [by rewrite Hfile|..];
    (destruct (decide (name = name')) as [->|Hne] || destruct (decide (name = file_name id)) as [->|Hne]);
    try (rewrite lookup_insert_ne by done; by rewrite Hfile);
    rewrite lookup_insert_eq; (eexists; split; [reflexivity|]).
  - congruence.
  - assert (entry = e) as -> by congruence. eapply stored_above; [by eapply Hnd, Hw|exact Hver|].
    assert (v = z) as -> by congruence. lia.
  - assert (entry = e) as -> by congruence.
    eapply stored_above; [by eapply changed_NoDup, Hw|by eapply changed_version|].
    assert (v = z) as -> by congruence. lia.
Qed.

Lemma calls_version calls w name n f :
  parsed w -> Forall keeps_version calls -> workloads w !! name = Some f -> version_above n f ->
  exists f', workloads (run_trace after_work w calls) !! name = Some f' /\ version_above n f'.
Proof.
  revert w f. induction calls as [|c calls IH]; intros w f Hw Hc Hf Hv; [by exists f|].
  apply Forall_cons in Hc as [Hc1 Hc].
  destruct (worked_version c w (after_work w c) name n f Hw (call_worked c w) Hc1 Hf Hv) as (f' & Hf' & Hv').
  apply (IH _ f'); [|done..]. exact (worked_parsed _ _ _ (call_worked c w) Hw).
Qed.

Lemma transition_Ok id state at_ ch w w' e : transition id state at_ ch w = (w', Ok e) ->
  exists entry v, workloads w !! file_name id = Some (Some (JObj entry)) /\ version_of entry = Ok v /\
    (forall n, expect_version ch = Some n -> v = n) /\ changed state at_ ch v entry = Ok e /\
    workloads w' = <[file_name id := Some (norm (JObj e))]> (workloads w).
Proof.
  unfold transition. intros H. apply bind_Ok in H as (w1 & found & Hf & H).
  destruct found as [x|]; [|by apply raise_Ok in H]. apply read_workload_Ok in Hf as [-> Hf].
  apply bind_Ok in H as (w1 & entry & [-> Hd]%lift_Ok & H). destruct x as [| | | | |fs]; try done. injection Hd as ->.
  apply bind_Ok in H as (w1 & [] & Hs & H). apply check_expected_states_only in Hs as ->.
  apply bind_Ok in H as (w1 & [] & He & H). pose proof (check_expected_version_only _ _ _ _ _ _ He) as ->.
  apply bind_Ok in H as (w1 & v & [-> Hv]%lift_Ok & H). apply bind_Ok in H as (w1 & payload & [-> Hp]%lift_Ok & H).
  unfold write_workload in H. apply bind_Ok in H as (w1 & [] & H & Hr). apply ret_Ok in Hr as [-> ->].
  apply atomic_write_Ok in H as (l & ->). exists entry, v. split; [done|]. split; [done|]. split; [|done].
  intros n Hn. rewrite Hn in He. unfold check_expected_version in He.
  apply bind_Ok in He as (w1 & v' & [-> Hv']%lift_Ok & He). apply raise_if_Ok in He as [_ He].
  apply negb_false_iff, Z.eqb_eq in He. congruence.
Qed.

(** A transition that expects a version the entry has passed is refused. *)
Lemma stale_refused id state at_ ch n w f :
  workloads w !! file_name id = Some f -> version_above n f -> expect_version ch = Some n ->
  exists e, transition id state at_ ch w = (w, Raise e).
Proof.
  intros Hf (entry & v & -> & Hv & Hlt) Hn. unfold transition.
  rewrite (bind_run _ _ w w (Some (JObj entry))) by (unfold read_workload; by rewrite bind_gets, Hf).
  cbn [as_dict]. rewrite bind_lift_ok.
  destruct (check_expected_states id entry (expect_states ch) w) as [w1 [[]|e]] eqn:Es;
    pose proof (check_expected_states_only _ _ _ _ _ _ Es) as ->.
  2: { rewrite (bind_raises _ _ _ _ _ Es). by eexists. }
  rewrite (bind_run _ _ _ _ _ Es), Hn.
  assert (Hc : exists e, check_expected_version id entry (Some n) w = (w, Raise e)).
  { unfold check_expected_version. rewrite Hv, bind_lift_ok, raise_if_stop; [by eexists|].
    apply negb_true_iff, Z.eqb_neq. lia. }
  destruct Hc as [e He]. rewrite (bind_raises _ _ _ _ _ He). by eexists.
Qed.

(** A version is claimed once.  When a transition that expected version [n] of a
    workload has been recorded, then whatever calls come after it, a transition that
    expects version [n] of that workload is refused and changes nothing, as long as no
    call overwrites the version field itself: of the writers that read one version, at
    most one gets through. *)
Theorem version_claimed_once (calls : list workload_call) (id state state' at_ at' : string)
    (ch ch' : changes) (n : Z) (w w' : ledger) (entry : dict) :
  parsed w -> "version" ∉ dict_keys (t_extra ch) -> Forall keeps_version calls ->
  expect_version ch = Some n -> expect_version ch' = Some n ->
  transition id state at_ ch w = (w', Ok entry) ->
  let u := run_trace after_work w' calls in
  exists e, transition id state' at' ch' u = (u, Raise e).
Proof.
  intros Hw Hx Hcalls Hn Hn' H u.
  destruct (transition_Ok _ _ _ _ _ _ _ H) as (old & v & Hf & Hv & Hexp & Hch & Hw').
  assert (v = n) as -> by auto. pose proof (changed_NoDup _ _ _ _ _ _ Hch (Hw _ _ Hf)) as Hnd.
  destruct (calls_version calls w' (file_name id) n (Some (norm (JObj entry)))) as (f & Hu & Hab).
  - by eapply insert_parsed.
  - done.
  - rewrite Hw'. apply lookup_insert_eq.
  - eapply stored_above; [done|by eapply changed_version|lia].
  - by eapply stale_refused.
Qed.

(** *** Capacity *)

Definition active_file (f : file) : bool :=
  match f with
  | Some v => match is_active v with Ok b => b | Raise _ => false end
  | None => false
  end.

Definition active_of (grant : string) (f : file) : bool :=
  active_file f && match f with Some v => of_grant grant v | None => false end.

Definition active_count (w : ledger) : Z := Z.of_nat (size_where active_file (workloads w)).
Definition grant_count (grant : string) (w : ledger) : Z := Z.of_nat (size_where (active_of grant) (workloads w)).

Lemma read_active p d names vs act :
  read_files d names = Ok vs -> active_entries vs = Ok act ->
  length (List.filter p act)
  = length (List.filter (fun k => match d !! k with
      | Some f => active_file f && match f with Some v => p v | None => false end
      | None => false end) names).
Proof.
  revert vs act. induction names as [|name names IH]; intros vs act Hr Ha; cbn [read_files] in Hr.
  { injection Hr as <-. by injection Ha as <-. }
  destruct (default None (d !! name)) as [v|] eqn:E; [|done].
  apply obind_Ok in Hr as (rest & Hr & Hv). injection Hv as <-. cbn [active_entries] in Ha.
  apply obind_Ok in Ha as (b & Hb & Ha). apply obind_Ok in Ha as (others & Ho & Ha). injection Ha as <-.
  specialize (IH rest others Hr Ho). destruct (d !! name) as [f|] eqn:Ed; [|done]. cbn in E. subst f.
  cbn [List.filter]. rewrite Ed. cbn [active_file]. rewrite Hb.
  destruct b; cbn; [|exact IH]. destruct (p v); cbn; by rewrite IH.
Qed.

Lemma check_capacity_counts grant ma mg w :
  check_capacity grant ma mg w = (w, Ok tt) -> (active_count w < ma)%Z /\ (grant_count grant w < mg)%Z.
Proof.
  unfold check_capacity, read_all. intros H. apply bind_Ok in H as (w1 & vs & Hr & H).
  rewrite bind_gets in Hr. apply lift_Ok in Hr as [-> Hr].
  apply bind_Ok in H as (w1 & act & [-> Ha]%lift_Ok & H).
  apply bind_Ok in H as (w1 & [] & [-> H1]%raise_if_Ok & H). apply raise_if_Ok in H as [_ H2].
  apply Z.leb_gt in H1, H2. unfold active_count, grant_count, count in *. rewrite !size_where_keys.
  pose proof (read_active (fun _ => true) _ _ _ _ Hr Ha) as Hall.
  pose proof (read_active (of_grant grant) _ _ _ _ Hr Ha) as Hg. unfold names_of in *.
  assert (Htrue : forall l : list json, List.filter (fun _ => true) l = l)
    by (intros l; induction l as [|x l IH]; cbn; by rewrite ?IH).
  rewrite Htrue in Hall. split.
  - erewrite filter_ext; [rewrite <-Hall; exact H1|].
    intros k. cbn. destruct (workloads w !! k) as [[v|]|]; cbn; by rewrite ?andb_true_r.
  - erewrite filter_ext; [rewrite <-Hg; exact H2|]. intros k. cbn beta. by destruct (workloads w !! k) as [[v|]|].
Qed.

Lemma stored_active payload s : NoDup (dict_keys payload) -> dict_get "state" payload = Some (JStr s) ->
  active_file (Some (norm (JObj payload))) = negb (mem s TERMINAL_STATES).
Proof.
  intros Hnd H. rewrite norm_obj. cbn [active_file]. unfold is_active. cbn [as_dict obind].
  unfold subscript. by rewrite dict_get_sort_norm, H by done.
Qed.

Lemma norm_is_str v s : norm v = JStr s <-> v = JStr s.
Proof. destruct v; cbn; split; congruence. Qed.

Lemma py_eqb_to_str v s : py_eqb v (JStr s) = bool_decide (v = JStr s).
Proof.
  apply bool_decide_ext. split; [|by intros ->]. intros H. symmetry in H. by apply py_eq_str_l in H.
Qed.

Lemma stored_grant payload grant : NoDup (dict_keys payload) ->
  match norm (JObj payload) with JObj _ => of_grant grant (norm (JObj payload)) | _ => false end
  = py_eqb (key_json "grantId" payload) (JStr grant).
Proof.
  intros Hnd. rewrite norm_obj. cbn [of_grant]. rewrite key_json_sorted, !py_eqb_to_str by done.
  apply bool_decide_ext, norm_is_str.
Qed.

Section capacity.
Context (M : Z) (G : string -> Z).

(** Calls made within the limits: reservations under them, and transitions that do not
    bring an ended workload back.  [record_created] looks at no limit. *)
Definition within_limits (c : workload_call) : bool :=
  match c with
  | Reserve _ _ g _ ma mg _ | Recover _ _ g _ ma mg _ => (ma <=? M)%Z && (mg <=? G g)%Z
  | Transition _ state _ ch =>
      negb (mem "state" (dict_keys (t_extra ch))) && negb (mem "grantId" (dict_keys (t_extra ch))) &&
      (mem state TERMINAL_STATES ||
       match expect_states ch with
       | Some expected => bool_decide (set_Forall (fun s => mem s TERMINAL_STATES = false) expected)
       | None => false
       end)
  | RecordCreated _ _ _ _ _ => false
  end.

Definition outside_limits (calls : list workload_call) : nat := length (List.filter (fun c => negb (within_limits c)) calls).

Definition within_capacity (k : nat) (w : ledger) : Prop :=
  (active_count w <= M + Z.of_nat k)%Z /\ forall g, (grant_count g w <= G g + Z.of_nat k)%Z.

Lemma insert_counts k name payload g ma mg w w' :
  NoDup (dict_keys payload) ->
  workloads w' = <[name := Some (norm (JObj payload))]> (workloads w) ->
  key_json "grantId" payload = JStr g -> check_capacity g ma mg w = (w, Ok tt) ->
  (ma <=? M)%Z && (mg <=? G g)%Z = true -> within_capacity k w -> within_capacity k w'.
Proof.
  intros Hnd H Hg [Ha Hc]%check_capacity_counts [Hma%Z.leb_le Hmg%Z.leb_le]%andb_true_iff [HM HG].
  unfold within_capacity, active_count, grant_count in *. rewrite H. split.
  - pose proof (size_where_insert active_file (workloads w) name (Some (norm (JObj payload)))) as Hi.
    destruct (active_file _); lia.
  - intros g'. pose proof (size_where_insert (active_of g') (workloads w) name (Some (norm (JObj payload)))) as Hi.
    specialize (HG g'). destruct (decide (g' = g)) as [->|Hne]; [destruct (active_of g _); lia|].
    replace (active_of g' (Some (norm (JObj payload)))) with false in Hi; [lia|].
    symmetry. unfold active_of. apply andb_false_iff. right. pose proof (stored_grant payload g' Hnd) as Hs.
    rewrite norm_obj in *. rewrite Hs, Hg, py_eqb_str. apply bool_decide_eq_false. congruence.
Qed.

(** A call that is not made within the limits adds one active workload at most. *)
Lemma worked_adds_one c k w w' : worked c w w' -> within_capacity k w -> within_capacity (S k) w'.
Proof.
  intros H [HM HG].
  assert (Hone : (exists name f, workloads w' = <[name := f]> (workloads w)) \/ workloads w' = workloads w)
    by (destruct H as [H|? ? ? ? ? ? ? ? ? ? H|? ? ? ? ? ? ? ? ? ? ? H|? ? ? ? ? ? ? ? ? ? ? ? ? ? ? H]; [by right|left; by do 2 eexists..]).
  unfold within_capacity, active_count, grant_count in *.
  destruct Hone as [(name & f & ->)| ->]; [|split; [lia|intros g; specialize (HG g); lia]]. split.
  - pose proof (size_where_insert active_file (workloads w) name f). destruct (active_file f); lia.
  - intros g. specialize (HG g). pose proof (size_where_insert (active_of g) (workloads w) name f). destruct (active_of g f); lia.
Qed.

(** A transition within the limits makes no workload active that was not. *)
Lemma stays_inactive id state at_ ch v (w : ledger) entry payload :
  NoDup (dict_keys payload) -> changed state at_ ch v entry = Ok payload -> within_limits (Transition id state at_ ch) = true ->
  (forall u, check_expected_states id entry (expect_states ch) u = (u, Ok tt)) ->
  let before := Some (JObj entry) in let after := Some (norm (JObj payload)) in
  (active_file after = true -> active_file before = true) /\
  forall g, active_of g after = true -> active_of g before = true.
Proof.
  intros Hnd Hch [[Hxs%negb_true_iff%mem_false Hxg%negb_true_iff%mem_false]%andb_true_iff Hstate]%andb_true_iff Hexp before after.
  pose proof (changed_state _ _ _ _ _ _ Hch Hxs) as Hst. pose proof (changed_grant _ _ _ _ _ _ Hch Hxg) as Hgr.
  pose proof (stored_active _ _ Hnd Hst) as Hact.
  assert (Hbefore : active_file after = true -> active_file before = true).
  { unfold after. rewrite Hact. intros Hs. apply negb_true_iff in Hs. rewrite Hs in Hstate. cbn [orb] in Hstate.
    destruct (expect_states ch) as [expected|] eqn:HS; [|done]. apply bool_decide_eq_true in Hstate.
    specialize (Hexp w). unfold check_expected_states in Hexp.
    apply bind_Ok in Hexp as (w1 & x & [-> Hx]%lift_Ok & Hexp).
    apply bind_Ok in Hexp as (w1 & b & [-> Hb]%lift_Ok & Hexp). apply raise_if_Ok in Hexp as [_ Hexp].
    apply negb_false_iff in Hexp. subst b. unfold before. cbn [active_file]. unfold is_active. cbn [as_dict obind].
    rewrite Hx. destruct x as [| | |x| |]; try done. cbn [obind in_set] in *. injection Hb as Hb.
    apply mem_true, sorted_set_elem, Hstate in Hb. by rewrite Hb. }
  split; [done|]. intros g. unfold active_of. rewrite !andb_true_iff. intros [Hb Hgb]. split; [by apply Hbefore|].
  pose proof (stored_grant payload g Hnd) as Hsg. unfold after, before in *. rewrite norm_obj in *. rewrite Hsg in Hgb.
  cbn [of_grant]. unfold key_json in *. by rewrite <-Hgr.
Qed.

Lemma worked_capacity c k w w' :
  parsed w -> within_limits c = true -> worked c w w' -> within_capacity k w -> within_capacity k w'.
Proof.
  intros Hw Hadm H Hcap.
  destruct H as [H|name payload s g _ Hnd _ Hs Hg Hc H|name entry payload v Hf _ _ Hs Hnd Hg Hc H
         |name entry payload v id s a ch -> -> Hf _ Hexp _ Hch H].
  - unfold within_capacity, active_count, grant_count in *. by rewrite H.
  - destruct c as [? ? g' ? ma mg ?| | |]; try done. destruct Hc as [-> Hc].
    eapply insert_counts; [exact Hnd|exact H| |exact Hc|done..]. unfold key_json. by rewrite Hg.
  - destruct c as [|? ? g' ? ma mg ?| |]; try done. destruct Hc as [Hg' Hc].
    eapply insert_counts; [by eapply Hnd, Hw|exact H| |exact Hc|done..].
    rewrite py_eqb_to_str in Hg'. apply bool_decide_eq_true in Hg'. rewrite <-Hg'. unfold key_json. by rewrite Hg.
  - pose proof (changed_NoDup _ _ _ _ _ _ Hch (Hw _ _ Hf)) as Hnd.
    destruct (stays_inactive id s a ch v w entry payload Hnd Hch Hadm Hexp) as [Ha Hg].
    destruct Hcap as [HM HG]. unfold within_capacity, active_count, grant_count in *. rewrite H. unfold size_where in *. split.
    + pose proof (size_filter_update active_file (workloads w) _ _ _ Hf Ha). lia.
    + intros g. specialize (HG g). pose proof (size_filter_update (active_of g) (workloads w) _ _ _ Hf (Hg g)). lia.
Qed.

(** C17 The capacity of the daemon is kept.  Take any calls that write entries of workloads, in
    any order, with any of their writes failing: at most [M] workloads are active at a time,
    and at most [G g] for a grant [g], and one more for each call that is not made within these
    limits.  Such a call is a [record_created], which checks no capacity (no caller outside the
    tests makes it), a reservation with wider limits, or a transition that may bring an ended
    workload back or overwrites the state or the grant of its entry. *)
Theorem capacity_never_exceeded (calls : list workload_call) (w : ledger) :
  parsed w -> (active_count w <= M)%Z -> (forall g, (grant_count g w <= G g)%Z) ->
  let u := run_trace after_work w calls in
  let extra := Z.of_nat (outside_limits calls) in
  (active_count u <= M + extra)%Z /\ forall g, (grant_count g u <= G g + extra)%Z.
Proof.
  intros Hw HM HG u extra. change (within_capacity (outside_limits calls) u). unfold u. clear u extra.
  assert (Hcap : within_capacity 0 w) by (split; [lia|intros g; specialize (HG g); lia]). clear HM HG.
  change (outside_limits calls) with (0 + outside_limits calls)%nat.
  revert w Hw Hcap. generalize 0%nat. induction calls as [|c calls IH]; intros k w Hw Hcap.
  { unfold outside_limits. cbn. by rewrite Nat.add_0_r. }
  cbn [run_trace foldl]. pose proof (call_worked c w) as Hc. pose proof (worked_parsed c w _ Hc Hw) as Hw1.
  unfold outside_limits. cbn [List.filter]. destruct (within_limits c) eqn:E; cbn [negb].
  - apply IH; [exact Hw1|]. by apply (worked_capacity c k w).
  - cbn [length]. rewrite <-plus_n_Sm. exact (IH (S k) _ Hw1 (worked_adds_one c k w _ Hc Hcap)).
Qed.
End capacity.

(** ** Concrete runs *)

Definition empty_ledger : ledger := mkLedger ∅ ∅ ∅ [].
Definition spec_of (id : string) : dict := [("workloadId", JStr id); ("kind", JStr "agent-run")].
Definition one_slot (id : string) : workload_call := Reserve (spec_of id) "T0" "g" 0 1 1 None.
Definition one_reserved : ledger := after_work empty_ledger (one_slot "w1").

Lemma empty_parsed : parsed empty_ledger.
Proof. intros name fs H. cbn in H. by rewrite lookup_empty in H. Qed.

(** Two daemons read version 1; one starts the workload, the other is refused. *)
Definition to_version (n : Z) : changes := mkChanges None JNull JNull JNull [] None (Some n).
Definition started : ledger * outcome ledger_error dict := transition "w1" "running" "T1" (to_version 1) one_reserved.
Definition started_entry : dict := match snd started with Ok e => e | Raise _ => [] end.

Lemma started_Ok : transition "w1" "running" "T1" (to_version 1) one_reserved = (fst started, Ok started_entry).
Proof. vm_compute. reflexivity. Qed.

Lemma version_claimed_once_witness :
  exists e, transition "w1" "cancelled" "T2" (to_version 1) (run_trace after_work (fst started) [one_slot "w2"])
    = (run_trace after_work (fst started) [one_slot "w2"], Raise e).
Proof.
  apply (version_claimed_once [one_slot "w2"] "w1" "running" "cancelled" "T1" "T2" (to_version 1) (to_version 1) 1
    one_reserved (fst started) started_entry).
  - exact (worked_parsed _ _ _ (call_worked (one_slot "w1") empty_ledger) empty_parsed).
  - apply not_elem_of_nil.
  - by repeat constructor.
  - reflexivity.
  - reflexivity.
  - exact started_Ok.
Defined.

(** With one slot the second reservation is refused; a recorded workload does not ask. *)
Definition one_recorded : list workload_call := [one_slot "w1"; one_slot "w2"; RecordCreated (spec_of "w3") "T1" "c3" "g" 0].

Example recorded_beyond_capacity : active_count (run_trace after_work empty_ledger one_recorded) = 2%Z.
Proof. vm_compute. reflexivity. Qed.

Lemma capacity_never_exceeded_witness :
  (active_count (run_trace after_work empty_ledger [one_slot "w1"; one_slot "w2"]) <= 1 + 0)%Z /\
  forall g : string, (grant_count g (run_trace after_work empty_ledger [one_slot "w1"; one_slot "w2"]) <= 1 + 0)%Z.
Proof.
  apply (capacity_never_exceeded 1 (fun _ => 1%Z) [one_slot "w1"; one_slot "w2"] empty_ledger).
  - exact empty_parsed.
  - vm_compute. congruence.
  - intros g. vm_compute. congruence.
Defined.

Definition deploy_request : dict := [("operationId", JStr "op-1"); ("operation", JStr "applyDeployment")].
Definition admit_op (digest : string) : deployment_call := Admit deploy_request digest [] JNull "T0".
Definition done_receipt : dict := [("outcome", JStr "ok")].
Definition admitted_ledger : ledger := run_trace after_call empty_ledger [admit_op "d1"].
Definition completed : ledger * outcome ledger_error dict :=
  complete_deployment_operation "op-1" "d1" done_receipt "T1" admitted_ledger.
Definition completed_entry : dict := match snd completed with Ok e => e | Raise _ => [] end.

Lemma completed_Ok : complete_deployment_operation "op-1" "d1" done_receipt "T1" admitted_ledger
  = (fst completed, Ok completed_entry).
Proof. vm_compute. reflexivity. Qed.

Lemma deployment_receipt_is_final_witness :
  let u := run_trace after_call (fst completed) [Interrupt "T2"; admit_op "d2"] in
  (exists r, admit_deployment_operation deploy_request "d1" [] JNull "T3" u = (u, Ok (Replay r)) /\
             py_eqb (JObj r) (JObj done_receipt) = true) /\
  forall other, other <> "d1" ->
    admit_deployment_operation deploy_request other [] JNull "T3" u
    = (u, Raise (LedgerError ("deployment operation " +:+ "op-1" +:+ " was reused for a different request"))).
Proof.
  apply (deployment_receipt_is_final [admit_op "d1"] [Interrupt "T2"; admit_op "d2"] [] "op-1" "d1" "T1" "T3"
    done_receipt completed_entry deploy_request [] JNull admitted_ledger (fst completed)).
  - reflexivity.
  - by apply wf_jsonb_wf.
  - exact completed_Ok.
  - reflexivity.
Defined.
