(* ===== verification/ExecutionRecovery.v ===== *)
(** * Execution host: recovery at start-up (packages/execution-host, ledger.py)

    [reconcile_on_boot] compares the ledger with the containers that the engine
    reports, before the daemon accepts work.  The engine is an interface, [Engine]:
    what it answers, and how it changes, is left open; the code calls it through its
    methods only.  The world records what was observed of each container and which containers
    the engine was asked to stop or to remove. *)

From S2P Require Import Prelude Json Sha256 Contracts ExecutionContract ExecutionLedger.

(** ** The engine *)

Inductive host_error :=
| InLedger (e : ledger_error)
| EngineError (text : string).

Class Engine (E : Type) := {
  inspect : json -> E -> E * outcome string dict;
  logs : json -> json -> json -> E -> E * outcome string dict;         (* workload, bound, container *)
  stop : string -> json -> E -> E * outcome string unit;               (* workload, container *)
  remove : string -> json -> E -> E * outcome string unit;
  list_managed : E -> E * outcome string (list dict);
  reconcile_workspace_seed : json -> json -> E -> E * outcome string unit;
  verify_workspace_volumes : option (json -> E -> E * outcome string unit);   (* not every engine can *)
}.

(** What recovery saw of a workload's container, and what it asked to be done to it. *)
Inductive event :=
| Observed (workload : json) (info : dict)
| Stopped (workload : string) (container : json)
| Removed (workload : string) (container : json).

Record failure := mkFailure {
  failed_workload : json;
  failed_error : string;
}.

(** [report] *)
Record report := mkReport {
  interrupted : list string;
  adopted : list string;
  orphans_removed : list string;
  failures : list failure;
}.

Definition failure_to_dict (f : failure) : dict :=
  [("workloadId", failed_workload f); ("error", JStr (failed_error f))].

Definition report_to_dict (r : report) : dict :=
  [("interrupted", JArr (JStr <$> interrupted r)); ("adopted", JArr (JStr <$> adopted r));
   ("orphansRemoved", JArr (JStr <$> orphans_removed r));
   ("failures", JArr ((fun f => JObj (failure_to_dict f)) <$> failures r))].

Section recovery.
Context {E : Type} {EI : Engine E}.

(** The world of a recovery: the ledger's files, the engine, the events so far, and the
    report, a dictionary that the procedure fills as it goes. *)
Record host := mkHost {
  books : ledger;
  engine : E;
  events : list event;
  reported : report;
}.

Abbreviation task := (M host host_error).

Definition set_books (w : ledger) (h : host) : host := mkHost w (engine h) (events h) (reported h).
Definition set_engine (x : E) (h : host) : host := mkHost (books h) x (events h) (reported h).

Definition on_ledger {A} (m : call A) : task A := fun h =>
  match m (books h) with
  | (w, Ok a) => (set_books w h, Ok a)
  | (w, Raise e) => (set_books w h, Raise (InLedger e))
  end.

Definition on_engine {A} (m : E -> E * outcome string A) : task A := fun h =>
  match m (engine h) with
  | (x, Ok a) => (set_engine x h, Ok a)
  | (x, Raise t) => (set_engine x h, Raise (EngineError t))
  end.

Definition note (f : report -> report) : task unit :=
  modify (fun h => mkHost (books h) (engine h) (events h) (f (reported h))).

Definition note_failure (id : json) (error : string) : task unit :=
  note (fun r => mkReport (interrupted r) (adopted r) (orphans_removed r) (failures r ++ [mkFailure id error])).
Definition note_interrupted (id : string) : task unit :=
  note (fun r => mkReport (interrupted r ++ [id]) (adopted r) (orphans_removed r) (failures r)).
Definition note_adopted (id : string) : task unit :=
  note (fun r => mkReport (interrupted r) (adopted r ++ [id]) (orphans_removed r) (failures r)).
Definition note_orphan_removed (id : string) : task unit :=
  note (fun r => mkReport (interrupted r) (adopted r) (orphans_removed r ++ [id]) (failures r)).

Definition pure_ {A} (o : outcome ledger_error A) : task A := on_ledger (lift o).
Definition fail {A} (message : string) : task A := raise (InLedger (LedgerError message)).
Definition fail_if (b : bool) (message : string) : task unit := if b then fail message else ret tt.

Definition did (e : event) : task unit :=
  modify (fun h => mkHost (books h) (engine h) (events h ++ [e]) (reported h)).

(** [engine.inspect(id)] *)
Definition observe (id : json) : task dict :=
  let* info := on_engine (inspect id) in
  did (Observed id info) >>* ret info.

(** [engine.stop(id, timeout=2, expected_container_id=container)] and
    [engine.remove(id, force=True, expected_container_id=container)]: recorded when the
    engine is asked, whatever it answers. *)
Definition stop_container (id : string) (container : json) : task unit :=
  did (Stopped id container) >>* on_engine (stop id container).
Definition remove_container (id : string) (container : json) : task unit :=
  did (Removed id container) >>* on_engine (remove id container).

(** [str(exc)]; the texts of the interpreter's and the operating system's errors are
    left out. *)
Definition text_of (e : host_error) : string :=
  match e with
  | InLedger (LedgerError m) => m
  | InLedger (KeyError k) => repr_str k
  | InLedger _ => ""
  | EngineError t => t
  end.

(** [try: body except Exception as exc: handler] *)
Definition try_ {A} (body : task A) (handler : host_error -> task A) : task A := fun h =>
  match body h with
  | (h', Raise e) => handler e h'
  | r => r
  end.

Definition is_false (v : json) : bool := bool_decide (v = JBool false).
Definition is_true (v : json) : bool := bool_decide (v = JBool true).

(** ** Whose container it is *)

Definition MANAGED_LABEL_KEY : string := "io.stateport.execution.managed".
Definition WORKLOAD_LABEL : string := "io.stateport.execution.workload".
Definition KIND_LABEL : string := "io.stateport.execution.kind".

(** [d.get(key, {})] used as a mapping *)
Definition sub_dict (key : string) (d : dict) : outcome ledger_error dict :=
  as_dict (default (JObj []) (dict_get key d)).

Definition is_str (v : json) (s : string) : bool := py_eqb v (JStr s).

Definition development_seed_identity_error (spec info : dict) : outcome ledger_error (option string) :=
  let? parameters := sub_dict "parameters" spec in
  let? seed := sub_dict "sourceSeed" parameters in
  let policy := key_json "helperPolicy" seed in
  if is_str policy SIGNED_DEVELOPMENT_SEED_POLICY && negb (is_true (key_json "workspaceImageVerified" info))
  then Ok (Some "signed workspace base authority was not verified")
  else
    let? seeded := in_set policy [DEVELOPMENT_SEED_POLICY; SIGNED_DEVELOPMENT_SEED_POLICY] in
    if seeded
       && (negb (is_true (key_json "rootless" info)) || negb (is_str (key_json "user" info) "10001:10001")
           || negb (is_str (key_json "usernsMode" info) "host"))
    then Ok (Some "development seed workload user or rootless namespace differs")
    else Ok None.

(** [s.rsplit("@", 1)[1]] *)
Fixpoint after_last_at (s : string) : option string :=
  match s with
  | EmptyString => None
  | String c r =>
      match after_last_at r with
      | Some t => Some t
      | None => if bool_decide (c = "@"%char) then Some r else None
      end
  end.

Inductive image_identity := NoIdentity | ImageDigest (digest : string).

(** [entry["spec"]["image"]["reference"].rsplit("@", 1)[1]] and the errors that are caught. *)
Definition expected_image (entry : dict) : outcome ledger_error image_identity :=
  match dict_get "spec" entry with
  | None => Ok NoIdentity
  | Some spec =>
      let? spec := as_dict spec in
      match dict_get "image" spec with
      | None => Ok NoIdentity
      | Some image =>
          let? image := as_dict image in
          match dict_get "reference" image with
          | Some (JStr s) =>
              Ok (match after_last_at s with Some d => ImageDigest d | None => NoIdentity end)
          | _ => Ok NoIdentity
          end
      end
  end.

(** [_container_identity_error] *)
Definition container_identity_error (entry info : dict) : outcome ledger_error (option string) :=
  let? spec := sub_dict "spec" entry in
  let? policy_error := development_seed_identity_error spec info in
  match policy_error with
  | Some e => Ok (Some e)
  | None =>
      match key_json "containerId" info with
      | JStr container =>
          if bool_decide (container = "") then Ok (Some "observed container ID is unavailable")
          else
            let expected := key_json "containerId" entry in
            if negb (bool_decide (expected = JNull)) && negb (py_eqb (JStr container) expected)
            then Ok (Some "container ID does not match the durable ledger identity")
            else
              let? id := subscript "workloadId" entry in
              let kind := py_str (default (JStr "") (dict_get "kind" spec)) in
              match key_json "labels" info with
              | JObj labels =>
                  if negb (is_str (key_json MANAGED_LABEL_KEY labels) "true")
                  then Ok (Some "container lacks the managed label")
                  else if negb (is_str (key_json WORKLOAD_LABEL labels) (py_str id))
                  then Ok (Some "container workload label does not match")
                  else if negb (is_str (key_json KIND_LABEL labels) kind)
                  then Ok (Some "container kind label does not match")
                  else
                    let? image := expected_image entry in
                    match image with
                    | NoIdentity => Ok (Some "ledger entry has no sealed image identity")
                    | ImageDigest d =>
                        if negb (is_str (key_json "imageDigest" info) d)
                        then Ok (Some "container image digest does not match the sealed spec")
                        else Ok None
                    end
              | _ => Ok (Some "container has no label mapping")
              end
      | _ => Ok (Some "observed container ID is unavailable")
      end
  end.

(** ** The output of a source command *)

Definition is_int (v : json) : option Z := match v with JInt z => Some z | _ => None end.

(** [count <= bound], for a bound that need not be an integer *)
Definition within_bound (count : Z) (bound : json) : outcome ledger_error bool :=
  match bound with
  | JInt z => Ok (count <=? z)%Z
  | JBool b => Ok (count <=? if b then 1 else 0)%Z
  | _ => Raise TypeError
  end.

(** What the engine is asked before the evidence is built: [None] when the command never
    started. *)
Definition observe_command (entry spec : dict) : task (option (dict * dict)) :=
  try_
    (let* id := pure_ (subscript "workloadId" entry) in
     let* info := observe id in
     if is_false (key_json "present" info) && bool_decide (key_json "containerId" entry = JNull) then ret None
     else
       fail_if (negb (is_true (key_json "present" info)) || negb (is_false (key_json "running" info)))
         "source command terminal output is not observable" >>*
       let* identity_error := pure_ (container_identity_error entry info) in
       fail_if (match identity_error with Some _ => true | None => false end) "source command output belongs to a foreign container" >>*
       let* bound := pure_ (subscript "outputByteBound" spec) in
       let* container := pure_ (subscript "containerId" info) in
       let* output := on_engine (logs id bound container) in
       ret (Some (info, output)))
    (fun _ => fail "source command output could not be captured; container retained").

(** The digest of the evidence, which covers everything but the digest itself. *)
Definition evidence_digest (evidence : dict) : string :=
  canonical_digest (JObj (dict_filter (fun k => negb (bool_decide (k = "evidenceDigest"))) evidence)).

(** Evidence that is already there has to be the evidence of this entry. *)
Definition check_existing_evidence (entry : dict) (existing : json) : task unit :=
  match existing with
  | JObj fs =>
      if negb (py_eqb (key_json "evidenceDigest" fs) (JStr (evidence_digest fs)))
      then fail "source command output identity is invalid"
      else
        let* spec_digest := pure_ (subscript "specDigest" entry) in
        fail_if (negb (py_eqb (key_json "specDigest" fs) spec_digest)) "source command output identity is invalid"
  | _ => fail "source command output identity is invalid"
  end.

(** The output of the command, within its bound: the text, its length in bytes, and
    whether it was cut. *)
Definition bounded_output (bound : json) (output : dict) : task (string * Z * bool) :=
  match key_json "bytes" output, is_int (key_json "byteCount" output) with
  | JStr text, Some count =>
      if negb (count =? py_len (encode text))%Z || (count <? 0)%Z
      then fail "source command output exceeded or invalidated its bound"
      else
        let* fits := pure_ (within_bound count bound) in
        match fits, key_json "truncated" output with
        | true, JBool truncated => ret (text, count, truncated)
        | _, _ => fail "source command output exceeded or invalidated its bound"
        end
  | _, _ => fail "source command output exceeded or invalidated its bound"
  end.

Definition command_exit_status (entry info : dict) : task json :=
  let status := key_json "exitStatus" info in
  fail_if (negb (bool_decide (status = JNull)) && match is_int status with Some _ => false | None => true end)
    "source command exit status is invalid" >>*
  fail_if (bool_decide (status = JNull) && negb (bool_decide (key_json "startedAt" entry = JNull)))
    "source command exit status is not observable" >>*
  ret status.

(** Why the command ended: what was noted before it was stopped comes first. *)
Definition reason_of (entry : dict) (termination_reason : string) : string :=
  let noted := key_json "sourceTerminationReason" entry in
  if bool_decide (key_json "startedAt" entry = JNull) then "not-started"
  else if truthy noted then py_str noted else termination_reason.

Definition command_evidence (entry spec : dict) (parameters : json) (status : json) (reason at_ : string)
    (output : string * Z * bool) : outcome ledger_error dict :=
  let? id := subscript "workloadId" entry in
  let? spec_digest := subscript "specDigest" entry in
  let? grant := subscript "grantId" entry in
  let? parameters := as_dict parameters in
  let? command := subscript "commandDigest" parameters in
  let? archive := subscript "sourceArchive" parameters in
  let? archive := as_dict archive in
  let? archive := subscript "archiveDigest" archive in
  let? bound := subscript "outputByteBound" spec in
  let '(text, count, truncated) := output in
  let evidence :=
    [("formatVersion", JStr "stateport.source-command-output/v1");
     ("workloadId", id); ("specDigest", spec_digest); ("grantId", grant); ("commandDigest", command);
     ("sourceArchiveDigest", archive); ("exitStatus", status); ("terminationReason", JStr reason);
     ("output", JStr text); ("byteCount", JInt count); ("truncated", JBool truncated);
     ("outputByteBound", bound); ("recordedAt", JStr at_); ("durableChangedFiles", JBool false)] in
  Ok (evidence ++ [("evidenceDigest", JStr (canonical_digest (JObj evidence)))]).

Definition capture_source_command_output (entry : dict) (at_ termination_reason : string) : task dict :=
  let* spec := pure_ (sub_dict "spec" entry) in
  let parameters := default (JObj []) (dict_get "parameters" spec) in
  let* archived := if is_str (key_json "kind" spec) "agent-run" then pure_ (contains "sourceArchive" parameters)
                   else ret false in
  if negb archived then ret entry
  else if negb (bool_decide (key_json "sourceCommandOutput" entry = JNull)) then
    check_existing_evidence entry (key_json "sourceCommandOutput" entry) >>* ret entry
  else
    let* seen := observe_command entry spec in
    match seen with
    | None => ret entry
    | Some (info, output) =>
        let* bound := pure_ (subscript "outputByteBound" spec) in
        let* output := bounded_output bound output in
        let* status := command_exit_status entry info in
        let reason := reason_of entry termination_reason in
        let* evidence := pure_ (command_evidence entry spec parameters status reason at_ output) in
        on_ledger (amend entry at_
          (Some [("kind", JStr "source-command-output"); ("evidenceDigest", key_json "evidenceDigest" evidence);
                 ("terminationReason", JStr reason)])
          [("sourceCommandOutput", JObj evidence)])
    end.

(** ** The containers that the engine lists *)

(** One listed container: its workload joins those that were seen. *)
Definition enumerate_one (seen : gset string) (item : dict) : task (gset string) :=
  match key_json "labels" item with
  | JObj labels =>
      let listed := key_json WORKLOAD_LABEL labels in
      match listed, key_json KIND_LABEL labels with
      | JStr id, JStr kind =>
          if negb (is_str (key_json MANAGED_LABEL_KEY labels) "true") || bool_decide (id = "")
             || bool_decide (kind = "") || negb (is_str (key_json "workloadId" item) id)
          then note_failure listed "container enumeration lacks exact managed workload/kind labels" >>* ret seen
          else if bool_decide (id ∈ seen)
          then note_failure listed "duplicate managed workload identity" >>* ret seen
          else ret ({[ id ]} ∪ seen)
      | _, _ => note_failure listed "container enumeration lacks exact managed workload/kind labels" >>* ret seen
      end
  | _ => note_failure JNull "managed container has no label mapping" >>* ret seen
  end.

Fixpoint enumerate (seen : gset string) (items : list dict) : task (gset string) :=
  match items with
  | [] => ret seen
  | item :: rest => let* seen := enumerate_one seen item in enumerate seen rest
  end.

(** ** One ledger entry *)

Definition receipt_change (started : json) (extra receipt : dict) : changes :=
  mkChanges (Some receipt) JNull started JNull extra None None.

(** [str(exc)[:n]] *)
Definition cut (n : nat) (s : string) : string := String.substring 0 n s.

Definition failed_with (id : string) (e : host_error) : task unit :=
  note_failure (JStr id) (cut 300 (text_of e)).

(** The seeding of a workspace: whether recovery goes on with the entry. *)
Definition reconcile_seed (at_ id : string) (entry : dict) : task bool :=
  let status := key_json "sourceSeedStatus" entry in
  let* stuck := pure_ (in_set status ["started"; "failed"]) in
  if stuck then
    note_failure (JStr id) "incomplete workspace source seed retained; operator review required" >>* ret false
  else
    try_
      (if is_str status "complete" then
         let* spec := pure_ (subscript "spec" entry) in
         let* seed := pure_ (subscript "sourceSeedId" entry) in
         on_engine (reconcile_workspace_seed spec seed) >>* ret true
       else
         let* info := observe (JStr id) in
         fail_if (negb (is_false (key_json "present" info))) "unstarted seed unexpectedly has a container; retained" >>*
         on_ledger (transition id "interrupted" at_
           (receipt_change JNull [("sourceSeedStatus", JStr "not-started")]
              [("kind", JStr "workspace-seed-admission-interrupted");
               ("detail", JStr "source admission ended before any volume effect")])) >>*
         note_interrupted id >>* ret false)
      (fun e => failed_with id e >>* ret false).

(** Stop the container, keep what its command wrote, and remove it. *)
Definition end_container (at_ id : string) (running : bool) (reason : dict -> outcome ledger_error string)
    (entry info : dict) : task unit :=
  let* entry :=
    (if running then
       let* entry := on_ledger (mark_source_termination entry at_ "daemon-restart") in
       let* container := pure_ (subscript "containerId" info) in
       stop_container id container >>* ret entry
     else ret entry) in
  let* reason := pure_ (reason entry) in
  capture_source_command_output entry at_ reason >>*
  let* container := pure_ (subscript "containerId" info) in
  remove_container id container.

(** An entry that ended and whose container may still be there. *)
Definition finish_cleanup (at_ id : string) (entry : dict) : task unit :=
  try_
    (let* info := observe (JStr id) in
     if negb (truthy (key_json "present" info)) then ret tt
     else
       let* identity_error := pure_ (container_identity_error entry info) in
       match identity_error with
       | Some error => note_failure (JStr id) error
       | None =>
           end_container at_ id (truthy (key_json "running" info))
             (fun entry => let? state := subscript "state" entry in Ok (py_str state)) entry info >>*
           note_orphan_removed id
       end)
    (failed_with id).

Definition adopt_receipt (info : dict) : dict :=
  [("kind", JStr "restart-adopt");
   ("detail", JStr ("daemon restart reattached the persistent workspace; observed engine state is "
                    +:+ py_str (default (JStr "unknown") (dict_get "status" info))));
   ("cleanup", JStr "not-required")].

(** A workspace whose container is present and is the ledger's own. *)
Definition reattach (at_ id : string) (entry info : dict) : task unit :=
  match verify_workspace_volumes with
  | None => note_failure (JStr id) "engine cannot verify daemon-owned workspace volume claims"
  | Some verifier =>
      let* verified :=
        try_ (let* spec := pure_ (subscript "spec" entry) in on_engine (verifier spec) >>* ret true)
             (fun e => note_failure (JStr id) ("workspace volume identity mismatch: " +:+ cut 240 (text_of e)) >>* ret false) in
      if negb verified then ret tt
      else
        let running := truthy (key_json "running" info) in
        on_ledger (transition id (if running then "running" else "stopped") at_
          (receipt_change (if running then key_json "startedAt" entry else JNull) [] (adopt_receipt info))) >>*
        note_adopted id
  end.

Definition adopt_workspace (at_ id : string) (entry : dict) : task unit :=
  let* seen := try_ (let* info := observe (JStr id) in ret (Some info)) (fun e => failed_with id e >>* ret None) in
  match seen with
  | None => ret tt
  | Some info =>
      if truthy (key_json "present" info) then
        let* identity_error := pure_ (container_identity_error entry info) in
        match identity_error with
        | Some error => note_failure (JStr id) error
        | None => reattach at_ id entry info
        end
      else
        on_ledger (transition id "interrupted" at_
          (receipt_change JNull []
             [("kind", JStr "restart-recovery");
              ("detail", JStr ("workspace container is absent across the daemon restart; "
                               +:+ "the daemon-owned data volume is preserved"));
              ("cleanup", JStr "not-required")])) >>*
        note_interrupted id
  end.

Definition interrupt_workload (at_ id : string) (entry : dict) : task unit :=
  try_
    (let* info := observe (JStr id) in
     let present := truthy (key_json "present" info) in
     let* identity_error := if present then pure_ (container_identity_error entry info) else ret None in
     match identity_error with
     | Some error => note_failure (JStr id) error
     | None =>
         (if present
          then end_container at_ id (is_true (key_json "running" info)) (fun _ => Ok "exited") entry info
          else ret tt) >>*
         on_ledger (transition id "interrupted" at_
           (receipt_change JNull []
              [("kind", JStr "restart-recovery");
               ("detail", JStr "daemon restart interrupted a non-terminal workload; container stopped and removed");
               ("cleanup", JStr (if present then "performed" else "not-required"))])) >>*
         note_interrupted id
     end)
    (failed_with id).

Definition reconcile_entry (at_ : string) (v : json) : task unit :=
  let* entry := pure_ (as_dict v) in
  let* id := pure_ (subscript "workloadId" entry) in
  let id := py_str id in
  let* spec := pure_ (sub_dict "spec" entry) in
  let workspace := is_workspace spec in
  let* seeded := if workspace then pure_ (let? p := parameters_of entry in contains "sourceSeed" p) else ret false in
  let* go_on := if seeded then reconcile_seed at_ id entry else ret true in
  if negb go_on then ret tt
  else
    let* state := pure_ (subscript "state" entry) in
    let* ended := pure_ (in_set state TERMINAL_STATES) in
    if ended then
      if is_str state "removed" then ret tt else finish_cleanup at_ id entry
    else if workspace then adopt_workspace at_ id entry
    else interrupt_workload at_ id entry.

Fixpoint reconcile_entries (at_ : string) (vs : list json) : task unit :=
  match vs with
  | [] => ret tt
  | v :: rest => reconcile_entry at_ v >>* reconcile_entries at_ rest
  end.

(** ** The whole procedure *)

(** [{str(entry["workloadId"]) for entry in ledger.all()}] *)
Fixpoint workload_ids (vs : list json) : outcome ledger_error (list string) :=
  match vs with
  | [] => Ok []
  | v :: rest =>
      let? entry := as_dict v in
      let? id := subscript "workloadId" entry in
      let? ids := workload_ids rest in
      Ok (py_str id :: ids)
  end.

Fixpoint retain (ids : list string) : task unit :=
  match ids with
  | [] => ret tt
  | id :: rest =>
      note_failure (JStr id) ("managed container has no reservation in this ledger; "
                              +:+ "retained for operator reconciliation") >>*
      retain rest
  end.

Definition empty_report : report := mkReport [] [] [] [].

(** After the loop: listed containers that the ledger does not know are kept, and the
    report is filed. *)
Definition close_report (at_ : string) (managed : gset string) : task report :=
  let* all := on_ledger read_all in
  let* known := pure_ (workload_ids all) in
  retain (sorted_set (managed ∖ list_to_set known)) >>*
  let* r := gets reported in
  on_ledger (record_recovery (report_to_dict r) at_) >>*
  ret r.

Definition reconcile_on_boot (at_ : string) : task report :=
  note (fun _ => empty_report) >>*
  let* items := on_engine list_managed in
  let* managed := enumerate ∅ items in
  let* all := on_ledger read_all in
  reconcile_entries at_ all >>*
  close_report at_ managed.

(** ** What a task keeps *)

Definition keeps {A} (P : host -> Prop) (m : task A) : Prop :=
  forall h, P h -> wp m (fun _ => P) (fun _ => P) h.

Section keeps.
Context (P : host -> Prop).

Lemma keeps_bind {A B} (m : task A) (k : A -> task B) :
  keeps P m -> (forall a, keeps P (k a)) -> keeps P (bind m k).
Proof. intros Hm Hk h Hh. apply wp_bind. eapply wp_mono; [by apply Hm|intros a h' H'; by apply Hk|done]. Qed.

Lemma keeps_ret {A} (a : A) : keeps P (ret a).
Proof. by intros h Hh. Qed.

Lemma keeps_raise {A} (e : host_error) : keeps P (raise e : task A).
Proof. by intros h Hh. Qed.

Lemma keeps_gets {A} (f : host -> A) : keeps P (gets f).
Proof. by intros h Hh. Qed.

Lemma keeps_fail_if b message : keeps P (fail_if b message).
Proof. by destruct b; intros h Hh. Qed.

Lemma keeps_try {A} (m : task A) (handler : host_error -> task A) :
  keeps P m -> (forall e, keeps P (handler e)) -> keeps P (try_ m handler).
Proof.
  intros Hm Hk h Hh. specialize (Hm h Hh). unfold wp, try_ in *.
  destruct (m h) as [h' [a|e]]; [done|]. by apply Hk.
Qed.

Lemma wp_pure {A} (o : outcome ledger_error A) (Q : A -> host -> Prop) (R : host_error -> host -> Prop) h :
  (forall a, o = Ok a -> Q a h) -> (forall e, o = Raise e -> R (InLedger e) h) -> wp (pure_ o) Q R h.
Proof. destruct h. unfold wp, pure_, on_ledger, lift. destruct o; auto. Qed.

Lemma keeps_bind_pure {A B} (o : outcome ledger_error A) (k : A -> task B) :
  (forall a, o = Ok a -> keeps P (k a)) -> keeps P (bind (pure_ o) k).
Proof. intros Hk h Hh. apply wp_bind, wp_pure; [|done]. intros a Ha. by apply Hk. Qed.

(** [P] depends on what the steps below do not change. *)
Lemma keeps_on_ledger {A} (m : call A) : (forall h w, P h -> P (set_books w h)) -> keeps P (on_ledger m).
Proof. intros HP h Hh. unfold wp, on_ledger. destruct (m (books h)) as [w [a|e]]; by apply HP. Qed.

Lemma keeps_pure {A} (o : outcome ledger_error A) : keeps P (pure_ o).
Proof. intros [w x ev r] Hh. unfold wp, pure_, on_ledger, lift. by destruct o. Qed.

Lemma keeps_on_engine {A} (m : E -> E * outcome string A) :
  (forall h x, P h -> P (set_engine x h)) -> keeps P (on_engine m).
Proof. intros HP h Hh. unfold wp, on_engine. destruct (m (engine h)) as [x [a|e]]; by apply HP. Qed.
End keeps.

Ltac keeps_step :=
  match goal with
  | |- keeps _ (bind _ _) => apply keeps_bind; [|intros ?]
  | |- keeps _ (ret _) => apply keeps_ret
  | |- keeps _ (raise _) => apply keeps_raise
  | |- keeps _ (fail _) => apply keeps_raise
  | |- keeps _ (gets _) => apply keeps_gets
  | |- keeps _ (fail_if _ _) => apply keeps_fail_if
  | |- keeps _ (try_ _ _) => apply keeps_try; [|intros ?]
  | |- keeps _ (pure_ _) => apply keeps_pure
  | |- keeps _ (if ?b then _ else _) => destruct b
  | |- keeps _ (match ?x with _ => _ end) => destruct x
  end.

(** The steps that touch neither the ledger's files nor what was observed. *)
Ltac quiet_step :=
  first
    [ keeps_step
    | match goal with
      | |- keeps _ (on_engine _) => apply keeps_on_engine; by intros [] ?
      | |- keeps _ (note _) => by intros [] ?
      | |- keeps _ (note_failure _ _) => by intros [] ?
      | |- keeps _ (note_interrupted _) => by intros [] ?
      | |- keeps _ (note_adopted _) => by intros [] ?
      | |- keeps _ (note_orphan_removed _) => by intros [] ?
      | |- keeps _ (failed_with _ _) => by intros [] ?
      | |- keeps _ (let _ := _ in _) => cbv zeta
      end ].

(** *** Containers that are stopped or removed *)

(** The container belongs to the entry. *)
Record ours (entry info : dict) (id : string) : Prop := {
  ours_entry : exists v, dict_get "workloadId" entry = Some v /\ py_str v = id;
  ours_container : key_json "containerId" entry = JNull \/ key_json "containerId" entry = key_json "containerId" info;
  ours_labels : exists labels spec, key_json "labels" info = JObj labels /\ sub_dict "spec" entry = Ok spec /\
    key_json MANAGED_LABEL_KEY labels = JStr "true" /\ key_json WORKLOAD_LABEL labels = JStr id /\
    key_json KIND_LABEL labels = JStr (py_str (default (JStr "") (dict_get "kind" spec)));
  ours_image : exists digest, expected_image entry = Ok (ImageDigest digest) /\
    key_json "imageDigest" info = JStr digest;
}.

Lemma is_str_true v s : is_str v s = true <-> v = JStr s.
Proof. unfold is_str. rewrite py_eqb_to_str. apply bool_decide_eq_true. Qed.

Lemma subscript_Ok key d v : subscript key d = Ok v <-> dict_get key d = Some v.
Proof. unfold subscript. destruct (dict_get key d); split; congruence. Qed.

Lemma identity_ours entry info v : subscript "workloadId" entry = Ok v ->
  container_identity_error entry info = Ok None -> ours entry info (py_str v).
Proof.
  unfold container_identity_error. intros Hv H.
  apply obind_Ok in H as (spec & Hspec & H). apply obind_Ok in H as ([?|] & _ & H); [done|].
  destruct (key_json "containerId" info) as [| | |c| |] eqn:Ec; try done. case_bool_decide; [done|].
  destruct (negb (bool_decide (key_json "containerId" entry = JNull)) && _) eqn:Eid; [done|].
  rewrite Hv in H. cbn [obind] in H. destruct (key_json "labels" info) as [| | | | |labels] eqn:El; try done.
  destruct (negb (is_str (key_json MANAGED_LABEL_KEY labels) _)) eqn:E1; [done|].
  destruct (negb (is_str (key_json WORKLOAD_LABEL labels) _)) eqn:E2; [done|].
  destruct (negb (is_str (key_json KIND_LABEL labels) _)) eqn:E3; [done|].
  apply obind_Ok in H as ([|d] & Hi & H); [done|].
  destruct (negb (is_str (key_json "imageDigest" info) d)) eqn:E4; [done|].
  apply negb_false_iff, is_str_true in E1, E2, E3, E4. constructor.
  - exists v. by apply subscript_Ok in Hv.
  - apply andb_false_iff in Eid as [Eid|Eid]; apply negb_false_iff in Eid.
    + left. by apply bool_decide_eq_true in Eid.
    + right. rewrite Ec. apply bool_decide_eq_true in Eid. by apply py_eq_str_l in Eid.
  - by exists labels, spec.
  - by exists d.
Qed.

(** Recovery may end its container: the workload ended already, or is not a workspace. *)
Definition disposable (entry : dict) : Prop :=
  exists spec, sub_dict "spec" entry = Ok spec /\
    (is_workspace spec = false \/ exists s, dict_get "state" entry = Some (JStr s) /\ s ∈ TERMINAL_STATES).

Definition justified (d : directory) (past : list event) (id : string) (container : json) : Prop :=
  exists name entry info,
    d !! name = Some (Some (JObj entry)) /\ disposable entry /\ ours entry info id /\
    Observed (JStr id) info ∈ past /\ key_json "containerId" info = container.

Definition subject (e : event) : option (string * json) :=
  match e with
  | Stopped id c | Removed id c => Some (id, c)
  | Observed _ _ => None
  end.

Section lawful.
Context (d : directory).

Definition lawful (evs : list event) : Prop :=
  forall past e rest id container, evs = past ++ e :: rest -> subject e = Some (id, container) ->
    justified d past id container.

(** The events are lawful so far, and [seen] are among them. *)
Definition lawfully (seen : list event) (h : host) : Prop := lawful (events h) /\ seen ⊆ events h.

Lemma lawful_snoc evs e : lawful evs ->
  (forall id c, subject e = Some (id, c) -> justified d evs id c) -> lawful (evs ++ [e]).
Proof.
  intros Hl He past e' rest id c Heq Hs. destruct rest as [|x rest _] using rev_ind.
  - apply app_inj_tail in Heq as [<- <-]. by apply He.
  - rewrite app_comm_cons, app_assoc in Heq. apply app_inj_tail in Heq as [-> _]. by eapply Hl.
Qed.

Lemma lawfully_did seen e : (forall h id c, lawfully seen h -> subject e = Some (id, c) -> justified d (events h) id c) ->
  forall h, lawfully seen h -> wp (did e) (fun _ => lawfully (e :: seen)) (fun _ => lawfully seen) h.
Proof.
  intros He h [Hl Hs]. unfold did. apply wp_modify. split; cbn.
  - apply lawful_snoc; [done|]. intros id c Hc. apply (He h); [|done]. by split.
  - set_solver.
Qed.

Lemma lawfully_weaken seen x h : lawfully (x :: seen) h -> lawfully seen h.
Proof. intros [Hl Hs]. split; [done|]. intros y Hy. apply Hs. set_solver. Qed.

Lemma wp_observe seen id h : lawfully seen h ->
  wp (observe id) (fun info => lawfully (Observed id info :: seen)) (fun _ => lawfully seen) h.
Proof.
  intros Hh. unfold observe. apply wp_bind. unfold wp at 1, on_engine.
  destruct (inspect id (engine h)) as [x [info|t]]; [|exact Hh].
  apply wp_bind. eapply wp_mono; [apply (lawfully_did seen); [done|exact Hh]| |done].
  intros [] h' Hh'. exact Hh'.
Qed.

Lemma observe_lawful seen id : keeps (lawfully seen) (observe id).
Proof.
  intros h Hh. eapply wp_mono; [by apply wp_observe| |done].
  intros info h' H'. exact (lawfully_weaken _ _ _ H').
Qed.

Ltac lawful_step :=
  first
    [ apply observe_lawful
    | apply keeps_on_ledger; by intros [] ?
    | quiet_step ].

Lemma capture_lawful seen entry at_ reason :
  keeps (lawfully seen) (capture_source_command_output entry at_ reason).
Proof.
  unfold capture_source_command_output, check_existing_evidence, observe_command, bounded_output, command_exit_status.
  cbv zeta. repeat lawful_step.
Qed.

Lemma enumerate_lawful seen items ids : keeps (lawfully seen) (enumerate ids items).
Proof.
  revert ids. induction items as [|item items IH]; intros ids; cbn [enumerate]; [repeat lawful_step|].
  apply keeps_bind; [|done]. unfold enumerate_one. cbv zeta. repeat lawful_step.
Qed.

Lemma retain_lawful seen ids : keeps (lawfully seen) (retain ids).
Proof. induction ids as [|id ids IH]; cbn [retain]; repeat lawful_step; done. Qed.

Lemma seed_lawful seen at_ id entry : keeps (lawfully seen) (reconcile_seed at_ id entry).
Proof. unfold reconcile_seed. cbv zeta. repeat lawful_step. Qed.

Lemma adopt_lawful seen at_ id entry : keeps (lawfully seen) (adopt_workspace at_ id entry).
Proof. unfold adopt_workspace, reattach. cbv zeta. repeat lawful_step. Qed.

(** A container that was observed and that is the entry's may be ended. *)
Section authorized.
Context (seen : list event) (name : string) (entry info : dict) (id : string).
Context (Hfile : d !! name = Some (Some (JObj entry))) (Hdisposable : disposable entry)
        (Hours : ours entry info id) (Hseen : Observed (JStr id) info ∈ seen).

Lemma act_lawful e (k : task unit) : subject e = Some (id, key_json "containerId" info) ->
  keeps (lawfully seen) k -> keeps (lawfully seen) (did e >>* k).
Proof.
  intros He Hk h Hh. apply wp_bind. eapply wp_mono; [apply (lawfully_did seen); [|exact Hh]| |done].
  - intros h' i c [_ Hin] Hs. rewrite He in Hs. injection Hs as <- <-. exists name, entry, info. split_and!; auto.
  - intros [] h' Hh'. apply Hk. exact (lawfully_weaken _ _ _ Hh').
Qed.

Lemma end_lawful at_ running reason : keeps (lawfully seen) (end_container at_ id running reason entry info).
Proof.
  assert (Hact : forall B (k : json -> task B),
    (forall c, c = key_json "containerId" info -> keeps (lawfully seen) (k c)) ->
    keeps (lawfully seen) (bind (pure_ (subscript "containerId" info)) k)).
  { intros B k Hk. apply keeps_bind_pure. intros c Hc. apply Hk.
    symmetry. by apply key_json_some, subscript_Ok. }
  unfold end_container. apply keeps_bind; [|intros entry'].
  - destruct running; [|apply keeps_ret]. apply keeps_bind; [apply keeps_on_ledger; by intros [] ?|intros entry'].
    apply Hact. intros c ->. apply keeps_bind; [|intros; apply keeps_ret].
    apply act_lawful; [done|]. apply keeps_on_engine. by intros [] ?.
  - apply keeps_bind; [apply keeps_pure|intros why]. apply keeps_bind; [apply capture_lawful|intros _].
    apply Hact. intros c ->. apply act_lawful; [done|]. apply keeps_on_engine. by intros [] ?.
Qed.
End authorized.

Lemma keeps_observe {B} seen id (k : dict -> task B) :
  (forall info, keeps (lawfully (Observed id info :: seen)) (k info)) ->
  forall h, lawfully seen h -> wp (bind (observe id) k) (fun _ => lawfully seen) (fun _ => lawfully seen) h.
Proof.
  intros Hk h Hh. apply wp_bind. eapply wp_mono; [by apply wp_observe| |done].
  intros info h' H'. eapply wp_mono; [by apply Hk|intros ? ? Hf; exact (lawfully_weaken _ _ _ Hf)..].
Qed.

Section entry.
Context (name : string) (entry : dict) (v : json) (at_ : string).
Context (Hfile : d !! name = Some (Some (JObj entry))) (Hid : subscript "workloadId" entry = Ok v).

Lemma cleanup_lawful : disposable entry -> keeps (lawfully []) (finish_cleanup at_ (py_str v) entry).
Proof.
  intros Hd. unfold finish_cleanup. apply keeps_try; [|intros; lawful_step]. intros h Hh.
  apply (keeps_observe []); [|exact Hh]. intros info. destruct (negb (truthy _)); [repeat lawful_step|].
  apply keeps_bind_pure. intros [error|] He; [repeat lawful_step|].
  apply keeps_bind; [|intros _; repeat lawful_step].
  eapply end_lawful; [exact Hfile|done|by apply identity_ours|by apply list_elem_of_here].
Qed.

Lemma interrupt_lawful : disposable entry -> keeps (lawfully []) (interrupt_workload at_ (py_str v) entry).
Proof.
  intros Hd. unfold interrupt_workload. apply keeps_try; [|intros; lawful_step]. intros h Hh.
  apply (keeps_observe []); [|exact Hh]. intros info. cbv zeta. destruct (truthy (key_json "present" info)).
  - apply keeps_bind_pure. intros [error|] He; [repeat lawful_step|].
    apply keeps_bind; [|intros _; repeat lawful_step].
    eapply end_lawful; [exact Hfile|done|by apply identity_ours|by apply list_elem_of_here].
  - repeat lawful_step.
Qed.

End entry.

Lemma entry_lawful name at_ e : d !! name = Some (Some e) -> keeps (lawfully []) (reconcile_entry at_ e).
Proof.
  intros Hfile. unfold reconcile_entry. cbv zeta.
  apply keeps_bind_pure. intros entry He. destruct e as [| | | | |entry']; try done. injection He as ->.
  apply keeps_bind_pure. intros v Hv. apply keeps_bind_pure. intros spec Hspec.
  apply keeps_bind; [repeat lawful_step|intros seeded].
  apply keeps_bind; [destruct seeded; [apply seed_lawful|apply keeps_ret]|intros go_on].
  destruct (negb go_on); [apply keeps_ret|].
  apply keeps_bind_pure. intros state Hs. apply keeps_bind_pure. intros ended Hended.
  destruct ended.
  - destruct (is_str state "removed"); [apply keeps_ret|]. eapply cleanup_lawful; [done..|].
    exists spec. split; [done|]. right. destruct state as [| | |s| |]; try done. exists s.
    apply subscript_Ok in Hs. split; [done|]. injection Hended as Hm. by apply mem_true.
  - destruct (is_workspace spec) eqn:Ew; [apply adopt_lawful|]. eapply interrupt_lawful; [done..|].
    exists spec. by split; [|left].
Qed.

Lemma entries_lawful at_ vs : (forall v, v ∈ vs -> exists name, d !! name = Some (Some v)) ->
  keeps (lawfully []) (reconcile_entries at_ vs).
Proof.
  induction vs as [|v vs IH]; intros Hvs; cbn [reconcile_entries]; [apply keeps_ret|].
  apply keeps_bind; [|intros _; apply IH; intros x Hx; apply Hvs; by apply list_elem_of_further].
  destruct (Hvs v) as [name Hname]; [by apply list_elem_of_here|]. by eapply entry_lawful.
Qed.

Lemma close_lawful at_ managed : keeps (lawfully []) (close_report at_ managed).
Proof. unfold close_report. repeat (lawful_step || apply retain_lawful). Qed.
End lawful.

Lemma read_files_elem d names vs v : read_files d names = Ok vs -> v ∈ vs ->
  exists name, name ∈ names /\ d !! name = Some (Some v).
Proof.
  revert vs. induction names as [|name names IH]; intros vs H Hv; cbn [read_files] in H.
  { injection H as <-. by apply not_elem_of_nil in Hv. }
  destruct (default None (d !! name)) as [u|] eqn:Ev; [|done].
  apply obind_Ok in H as (rest & Hr & [= <-]). apply elem_of_cons in Hv as [->|Hv].
  - exists name. split; [by left|]. destruct (d !! name) as [f|] eqn:Ef; cbn in Ev; [|done]. by subst f.
  - destruct (IH rest Hr Hv) as (n & Hn & Hd). exists n. split; [by right|done].
Qed.

Lemma enumerate_books w items ids : keeps (fun h => books h = w) (enumerate ids items).
Proof.
  revert ids. induction items as [|item items IH]; intros ids; cbn [enumerate]; [apply keeps_ret|].
  apply keeps_bind; [|done]. unfold enumerate_one. cbv zeta.
  repeat first [keeps_step | by intros [] ?].
Qed.

Lemma wp_both {A} (m : task A) (P Q : host -> Prop) h :
  wp m (fun _ => P) (fun _ => P) h -> wp m (fun _ => Q) (fun _ => Q) h ->
  wp m (fun _ h' => P h' /\ Q h') (fun _ h' => P h' /\ Q h') h.
Proof. unfold wp. by destruct (m h) as [h' [a|e]]. Qed.

Lemma wp_read_all (P : host -> Prop) h : P h ->
  wp (on_ledger read_all) (fun vs h' => h' = h /\ read_files (workloads (books h)) (names_of (workloads (books h))) = Ok vs)
     (fun _ => P) h.
Proof.
  intros Hh. destruct h as [w x ev r]. unfold wp, on_ledger, read_all. rewrite bind_gets. cbn [books].
  unfold lift. by destruct (read_files _ _).
Qed.

(** C18 Recovery ends only containers that it may end.  Every container that
    [reconcile_on_boot] stops or removes was observed before that under the name of a
    workload; the ledger, as it was at start-up, has an entry of this workload that has
    ended or is not a workspace; and the container carries the entry's identity: the
    managed label, the workload and kind labels, the image digest that the entry seals,
    and the container id, when the entry has one. *)
Theorem recovery_ends_own_containers (at_ : string) (w : ledger) (x : E) (r : report)
    (past rest : list event) (e : event) (id : string) (container : json) :
  events (fst (reconcile_on_boot at_ (mkHost w x [] r))) = past ++ e :: rest ->
  subject e = Some (id, container) ->
  exists name entry info,
    workloads w !! name = Some (Some (JObj entry)) /\ disposable entry /\ ours entry info id /\
    Observed (JStr id) info ∈ past /\ key_json "containerId" info = container.
Proof.
  intros Hev Hs. enough (Hl : lawfully (workloads w) [] (fst (reconcile_on_boot at_ (mkHost w x [] r))))
    by exact (proj1 Hl _ _ _ _ _ Hev Hs).
  assert (Hstart : lawfully (workloads w) [] (mkHost w x [] empty_report)).
  { split; [|done]. intros p ? ? ? ? Hp. by destruct p. }
  apply wp_final. unfold reconcile_on_boot. apply wp_bind, wp_modify. cbn.
  apply wp_bind. unfold wp at 1, on_engine. destruct (list_managed _) as [x' [items|t]]; [|exact Hstart].
  set (h := set_engine x' _).
  assert (Hh : lawfully (workloads w) [] h) by exact Hstart.
  apply wp_bind. eapply wp_mono; [apply (wp_both _ (lawfully (workloads w) []) (fun h => books h = w))| |by intros ? ? []].
  { by apply enumerate_lawful. }
  { by apply enumerate_books. }
  intros managed h1 [Hl Hb]. apply wp_bind. eapply wp_mono; [exact (wp_read_all _ _ Hl)| |done].
  intros vs h2 [-> Hvs]. rewrite Hb in Hvs. apply wp_bind. eapply wp_mono.
  { apply (entries_lawful (workloads w)); [|exact Hl]. intros v Hv. destruct (read_files_elem _ _ _ _ Hvs Hv) as (n & _ & Hn). by exists n. }
  2: done.
  intros [] h3 Hl3. by apply close_lawful.
Qed.

(** *** Every workload is settled or reported *)

Definition file_state (w : ledger) (name s : string) : Prop :=
  exists entry, workloads w !! name = Some (Some (JObj entry)) /\ dict_get "state" entry = Some (JStr s).

Lemma stored_state w name payload s : NoDup (dict_keys payload) -> dict_get "state" payload = Some (JStr s) ->
  workloads w !! name = Some (Some (norm (JObj payload))) -> file_state w name s.
Proof.
  intros Hnd Hs Hf. rewrite norm_obj in Hf. eexists. split; [exact Hf|]. by rewrite dict_get_sort_norm, Hs.
Qed.

Lemma transition_elsewhere id st at_ ch w w' r name : transition id st at_ ch w = (w', r) ->
  name <> file_name id -> workloads w' !! name = workloads w !! name.
Proof.
  intros H Hn. apply transition_worked in H.
  destruct H as [H|????? _ _ _ _ [] _|????? _ _ _ _ _ [] _|n entry payload v i s a c Hc -> _ _ _ _ _ H]; [by rewrite H|].
  injection Hc as <- _ _ _. rewrite H. by apply lookup_insert_ne.
Qed.

(** Documents with their keys once each, and each in the file of its workload. *)
Definition filed (w : ledger) : Prop :=
  forall name entry v, workloads w !! name = Some (Some (JObj entry)) -> dict_get "workloadId" entry = Some v ->
    exists id, v = JStr id /\ name = file_name id.

Definition sound (w : ledger) : Prop := parsed w /\ filed w.

(** The additional fields of a transition leave these two fields alone. *)
Definition modest_fields (extra : dict) : Prop :=
  ("state" ∉ dict_keys extra) /\ ("workloadId" ∉ dict_keys extra).
Definition modest (ch : changes) : Prop := modest_fields (t_extra ch).

Lemma transition_sound id st at_ ch w w' r : modest ch -> transition id st at_ ch w = (w', r) -> sound w -> sound w'.
Proof.
  intros [_ Hx] H [Hp Hf]. apply transition_worked in H as Hw. split; [by eapply worked_parsed|].
  destruct Hw as [E'|????? _ _ _ _ [] _|????? _ _ _ _ _ [] _|n entry payload v i s a c Hc -> Hn _ _ _ Hch E'].
  { intros n e v. rewrite E'. apply Hf. }
  injection Hc as <- <- <- <-. intros n e u Hl Hu. rewrite E' in Hl.
  destruct (decide (n = file_name id)) as [->|Hne]; [|rewrite lookup_insert_ne in Hl by done; by eapply Hf].
  rewrite lookup_insert_eq, norm_obj in Hl. injection Hl as <-.
  rewrite dict_get_sort_norm in Hu by (by eapply changed_NoDup, Hp).
  rewrite (changed_get _ _ _ _ _ _ _ Hch Hx) in Hu by (by apply mem_false).
  rewrite !dict_get_set_ne in Hu by done. destruct (dict_get "workloadId" entry) as [u'|] eqn:Eu; [|done].
  destruct (Hf _ _ _ Hn Eu) as (k & -> & Hk). injection Hu as <-. by exists k.
Qed.

Lemma transition_reaches id st at_ ch w w' e : parsed w -> modest ch ->
  transition id st at_ ch w = (w', Ok e) -> file_state w' (file_name id) st.
Proof.
  intros Hw [Hx _] H. apply transition_Ok in H as (old & v & Hf & _ & _ & Hch & Hw').
  apply (stored_state _ _ e); [by eapply changed_NoDup, Hw|by eapply changed_state|].
  rewrite Hw'. apply lookup_insert_eq.
Qed.

Lemma transition_keeps_state id st at_ ch w w' r : parsed w -> modest ch ->
  file_state w (file_name id) st -> transition id st at_ ch w = (w', r) -> file_state w' (file_name id) st.
Proof.
  intros Hw [Hx _] (old & Hf & Hs) H. apply transition_worked in H.
  destruct H as [H|????? _ _ _ _ [] _|????? _ _ _ _ _ [] _|n entry payload v i s a c Hc -> Hn _ _ _ Hch H].
  { exists old. by rewrite H. }
  injection Hc as <- <- <- <-. apply (stored_state _ _ payload); [by eapply changed_NoDup, Hw|by eapply changed_state|].
  rewrite H. apply lookup_insert_eq.
Qed.

(** What the transitions of one workload keep, the treatment of its entry keeps. *)
Section kept.
Context (B : ledger -> Prop) (id : string) (allowed : string -> Prop).
Context (HB : forall st at_ ch w w' r, allowed st -> modest ch -> B w -> transition id st at_ ch w = (w', r) -> B w')
        (Hsound : forall w, B w -> sound w).

Definition kept (h : host) : Prop := B (books h).

Lemma keeps_call {A} (m : call A) : (forall w w' r, B w -> m w = (w', r) -> B w') -> keeps kept (on_ledger m).
Proof.
  intros Hm [w x ev rp] Hh. unfold wp, on_ledger. cbn. destruct (m w) as [w' r] eqn:Em.
  specialize (Hm w w' r Hh Em). by destruct r.
Qed.

Lemma transition_kept st at_ ch : allowed st -> modest ch -> keeps kept (on_ledger (transition id st at_ ch)).
Proof. intros Ha Hx. apply keeps_call. intros w w' r Hw H. by eapply HB. Qed.

(** An entry of this workload, in a state that is allowed. *)
Definition about (entry : dict) : Prop :=
  (forall v, dict_get "workloadId" entry = Some v -> v = JStr id) /\
  (forall v, dict_get "state" entry = Some v -> allowed (py_str v)).

Lemma amend_run entry at_ receipt extra w w' r : amend entry at_ receipt extra w = (w', r) ->
  (w' = w /\ exists e, r = Raise e) \/
  exists v s z, dict_get "workloadId" entry = Some v /\ dict_get "state" entry = Some s /\
    transition (py_str v) (py_str s) at_
      (mkChanges receipt JNull JNull JNull extra (Some {[ py_str s ]}) (Some z)) w = (w', r).
Proof.
  unfold amend. destruct (subscript "workloadId" entry) as [v|e] eqn:Ev;
    [rewrite bind_lift_ok|intros [= <- <-]; left; by split; [|eexists]].
  destruct (subscript "state" entry) as [s|e] eqn:Es;
    [rewrite bind_lift_ok|intros [= <- <-]; left; by split; [|eexists]].
  destruct (let? v0 := subscript "version" entry in py_int v0) as [z|e] eqn:Ez;
    [rewrite bind_lift_ok|intros [= <- <-]; left; by split; [|eexists]].
  intros H. right. exists v, s, z. by rewrite <-!subscript_Ok.
Qed.

Lemma amend_about entry at_ receipt extra h : about entry -> modest_fields extra -> kept h ->
  wp (on_ledger (amend entry at_ receipt extra)) (fun e h' => about e /\ kept h') (fun _ => kept) h.
Proof.
  intros [Hid Hst] Hx Hh. destruct h as [w x ev rp]. unfold wp, on_ledger. cbn [books].
  destruct (amend entry at_ receipt extra w) as [w' r] eqn:Em.
  apply amend_run in Em as [[-> [e ->]]|(v & s & z & Hv & Hs & H)]; [done|].
  rewrite (Hid v Hv) in H. cbn [py_str] in H.
  assert (Hw' : B w') by (refine (HB _ _ _ _ _ _ (Hst s Hs) _ Hh H); exact Hx).
  destruct r as [e|e]; [|done]. split; [|done].
  apply transition_Ok in H as (old & n & Hf & _ & _ & Hch & _). split; intros u Hu.
  - destruct Hx as [_ Hx]. rewrite (changed_get _ _ _ _ _ _ _ Hch Hx) in Hu by (by apply mem_false).
    rewrite !dict_get_set_ne in Hu by done. destruct (Hsound _ Hh) as [_ Hfiled].
    destruct (Hfiled _ _ _ Hf Hu) as (k & -> & Hk). by apply file_name_inj in Hk as ->.
  - rewrite (changed_state _ _ _ _ _ _ Hch (proj1 Hx)) in Hu. injection Hu as <-. exact (Hst s Hs).
Qed.

Lemma amend_kept entry at_ receipt extra : about entry -> modest_fields extra ->
  keeps kept (on_ledger (amend entry at_ receipt extra)).
Proof. intros Ha Hx h Hh. eapply wp_mono; [by apply amend_about|by intros ?? []|done]. Qed.

Lemma mark_about entry at_ reason h : about entry -> kept h ->
  wp (on_ledger (mark_source_termination entry at_ reason)) (fun e h' => about e /\ kept h') (fun _ => kept) h.
Proof.
  intros Ha Hh.
  pose proof (amend_about entry at_ None [("sourceTerminationReason", JStr reason)] h Ha) as Hwp.
  destruct h as [w x ev rp]. unfold wp, on_ledger in *. cbn [books] in *. unfold mark_source_termination.
  destruct (parameters_of entry) as [p|e]; [rewrite bind_lift_ok|done].
  destruct (contains "sourceArchive" p) as [b|e]; [rewrite bind_lift_ok|done].
  destruct (negb b || _ || _); [done|]. apply Hwp; [|done]. split; by apply mem_false.
Qed.

Ltac kept_step :=
  first
    [ quiet_step
    | match goal with
      | |- keeps _ (did _) => by intros [] ?
      | |- keeps _ (observe _) => unfold observe
      | |- keeps _ (stop_container _ _) => unfold stop_container
      | |- keeps _ (remove_container _ _) => unfold remove_container
      | |- keeps _ (on_ledger (transition _ _ _ _)) => apply transition_kept; [|split; by apply mem_false]
      end ].

Lemma capture_kept entry at_ reason : about entry -> keeps kept (capture_source_command_output entry at_ reason).
Proof.
  intros Ha. unfold capture_source_command_output, check_existing_evidence, observe_command, bounded_output, command_exit_status.
  cbv zeta. repeat kept_step; apply amend_kept; try done; split; by apply mem_false.
Qed.

Lemma end_kept at_ running reason entry info : about entry -> keeps kept (end_container at_ id running reason entry info).
Proof.
  intros Ha h Hh. unfold end_container. apply wp_bind.
  apply (wp_mono _ (fun e h' => about e /\ kept h') _ (fun _ => kept)); [|intros e h' [He Hh']|done].
  - destruct running; [|done]. apply wp_bind. eapply wp_mono; [by apply mark_about| |done].
    intros e h' [He Hh']. apply (wp_mono _ (fun e' h'' => e' = e /\ kept h'') _ (fun _ => kept)); [|by intros ?? [-> ?]|done].
    assert (Hk : keeps kept (let* c := pure_ (subscript "containerId" info) in stop_container id c)) by (repeat kept_step).
    specialize (Hk h' Hh'). unfold wp, bind in *. destruct (pure_ _ h') as [h1 [c|x]]; [|done].
    by destruct (stop_container id c h1) as [h2 [[]|x]].
  - revert h' Hh'. match goal with |- forall h, _ -> wp ?m _ _ h => change (keeps kept m) end.
    apply keeps_bind; [repeat kept_step|intros why]. apply keeps_bind; [by apply capture_kept|intros _]. repeat kept_step.
Qed.

Lemma cleanup_kept at_ entry : about entry -> keeps kept (finish_cleanup at_ id entry).
Proof.
  intros Ha. unfold finish_cleanup. apply keeps_try; [|intros; kept_step].
  apply keeps_bind; [repeat kept_step|intros info]. repeat (kept_step || by apply end_kept).
Qed.

Context (Hall : forall s, allowed s).

Lemma reconcile_kept at_ v : (forall entry, v = JObj entry -> about entry) -> keeps kept (reconcile_entry at_ v).
Proof.
  intros Ha. unfold reconcile_entry. cbv zeta. apply keeps_bind_pure. intros entry He.
  destruct v as [| | | | |fs]; try done. injection He as ->. specialize (Ha entry eq_refl).
  apply keeps_bind_pure. intros i Hi. apply subscript_Ok in Hi. rewrite (proj1 Ha i Hi). cbn [py_str].
  repeat (kept_step || (by apply Hall) || (by apply cleanup_kept)
          || unfold reconcile_seed || unfold adopt_workspace || unfold reattach || unfold interrupt_workload
          || (by apply end_kept)).
Qed.
End kept.

(** A state in which recovery may leave a workload. *)
Definition settled (workspace : bool) (st : string) : Prop :=
  st ∈ TERMINAL_STATES \/ (workspace = true /\ st ∈ ["running"; "stopped"]).

Definition reported_failure (id : string) (r : report) : Prop :=
  exists f, f ∈ failures r /\ failed_workload f = JStr id.

Definition decided (name id : string) (workspace : bool) (h : host) : Prop :=
  (exists st, settled workspace st /\ file_state (books h) name st) \/ reported_failure id (reported h).

Definition workspace_entry (entry : dict) : bool :=
  match sub_dict "spec" entry with Ok spec => is_workspace spec | Raise _ => false end.

Lemma wp_try {A} (m : task A) (k : host_error -> task A) Q R h :
  wp m Q (fun e h' => wp (k e) Q R h') h -> wp (try_ m k) Q R h.
Proof. unfold wp, try_. by destruct (m h) as [h' [a|e]]. Qed.

Lemma wp_then {A B} (P : host -> Prop) (m : task A) (k : A -> task B) (Q : B -> host -> Prop) R h :
  keeps P m -> P h -> (forall e h', P h' -> R e h') -> (forall a h', P h' -> wp (k a) Q R h') -> wp (bind m k) Q R h.
Proof. intros Hm Hh HR Hk. apply wp_bind. eapply wp_mono; [by apply Hm|exact Hk|exact HR]. Qed.

Lemma keeps_failure id {A} (m : task A) : keeps (fun h => reported_failure id (reported h)) m ->
  forall h, reported_failure id (reported h) -> reported_failure id (reported (fst (m h))).
Proof. intros Hm h Hh. by apply (wp_final m (fun h => reported_failure id (reported h))), Hm. Qed.

(** Failures stay in the report. *)
Lemma note_failure_monotone id v error : keeps (fun h => reported_failure id (reported h)) (note_failure v error).
Proof. intros h (f & Hf & Hid). exists f. cbn. split; [|done]. apply elem_of_app. by left. Qed.

Ltac monotone_step :=
  first
    [ apply note_failure_monotone
    | match goal with
      | |- keeps _ (on_ledger _) => apply keeps_on_ledger; by intros [] ?
      | |- keeps _ (did _) => by intros [] ?
      | |- keeps _ (observe _) => unfold observe
      | |- keeps _ (failed_with _ _) => apply note_failure_monotone
      end
    | quiet_step ].

Lemma reconcile_monotone id at_ v : keeps (fun h => reported_failure id (reported h)) (reconcile_entry at_ v).
Proof.
  unfold reconcile_entry, reconcile_seed, finish_cleanup, adopt_workspace, reattach, interrupt_workload,
    end_container, stop_container, remove_container, capture_source_command_output, check_existing_evidence,
    observe_command, bounded_output, command_exit_status.
  cbv zeta. repeat monotone_step.
Qed.

Lemma retain_monotone id ids : keeps (fun h => reported_failure id (reported h)) (retain ids).
Proof. induction ids as [|i ids IH]; cbn [retain]; repeat monotone_step; done. Qed.

Section own.
Context (id at_ : string) (entry : dict).
Context (Hid : dict_get "workloadId" entry = Some (JStr id)).

Abbreviation sounds := (fun h : host => sound (books h)).
Abbreviation decides ws m h := (wp m (fun _ => decided (file_name id) id ws) (fun _ _ => True) h).

Lemma about_own : about id (fun _ => True) entry.
Proof. split; [|done]. intros v Hv. rewrite Hid in Hv. by injection Hv as <-. Qed.

Lemma failure_decides ws error h : decides ws (note_failure (JStr id) error) h.
Proof. right. eexists. split; [apply elem_of_app; right; by apply list_elem_of_singleton|done]. Qed.

Lemma settle ws st ch f h : sound (books h) -> modest ch -> settled ws st ->
  (forall r, failures (f r) = failures r) ->
  decides ws (on_ledger (transition id st at_ ch) >>* note f) h.
Proof.
  intros Hs Hm Hst Hf. apply wp_bind. destruct h as [w x ev rp]. unfold wp at 1, on_ledger. cbn [books].
  destruct (transition id st at_ ch w) as [w' [e|e]] eqn:Et; [|done]. left. exists st. split; [done|].
  eapply transition_reaches; [exact (proj1 Hs)|exact Hm|exact Et].
Qed.

Lemma sounds_kept : forall st a ch w w' (r : outcome ledger_error dict), True -> modest ch -> sound w ->
  transition id st a ch w = (w', r) -> sound w'.
Proof. intros st a ch w w' r _ Hm Hw H. by eapply transition_sound. Qed.

Lemma observe_sound : keeps sounds (observe (JStr id)).
Proof. unfold observe. repeat quiet_step; by intros [] ?. Qed.

Lemma adopt_decides h : sound (books h) -> decides true (adopt_workspace at_ id entry) h.
Proof.
  intros Hs. unfold adopt_workspace. apply wp_bind.
  apply (wp_mono _ (fun o h' => match o with Some _ => sounds h' | None => decided (file_name id) id true h' end) _ (fun _ _ => True));
    [| |done].
  { apply wp_try. apply (wp_then sounds); [apply observe_sound|done| |done]. intros e h' _. apply wp_bind.
    eapply wp_mono; [apply (failure_decides true)|by intros|done]. }
  intros [info|] h' Hh'; [|done]. destruct (truthy (key_json "present" info)).
  - apply wp_bind, wp_pure; [|done]. intros [error|] _; [apply failure_decides|].
    unfold reattach. destruct verify_workspace_volumes as [verifier|]; [|apply failure_decides].
    apply wp_bind.
    apply (wp_mono _ (fun (ok : bool) h' => if ok then sounds h' else decided (file_name id) id true h') _ (fun _ _ => True)); [| |done].
    { apply wp_try. apply (wp_then sounds); [apply keeps_pure|done| |intros spec h1 H1].
      - intros e h1 _. apply wp_bind. eapply wp_mono; [apply (failure_decides true)|by intros|done].
      - apply (wp_then sounds); [apply keeps_on_engine; by intros [] ?|done| |done].
        intros e h2 _. apply wp_bind. eapply wp_mono; [apply (failure_decides true)|by intros|done]. }
    intros [] h1 H1; [|done]. cbn [negb]. cbv zeta. apply settle; [done|split; by apply mem_false| |done].
    right. split; [done|]. destruct (truthy _); by apply mem_true.
  - apply settle; [done|split; by apply mem_false|left; by apply mem_true|done].
Qed.

Lemma interrupt_decides ws h : sound (books h) -> decides ws (interrupt_workload at_ id entry) h.
Proof.
  intros Hs. unfold interrupt_workload. apply wp_try.
  apply (wp_mono _ (fun _ => decided (file_name id) id ws) _ (fun _ _ => True)); [|done|].
  2: { intros e h' _. apply failure_decides. }
  apply (wp_then sounds); [apply observe_sound|done|done|]. intros info h1 H1. cbv zeta.
  apply (wp_then sounds); [repeat quiet_step|done|done|]. intros [error|] h2 H2; [apply failure_decides|].
  apply (wp_then sounds); [|done|done|].
  - destruct (truthy _); [|apply keeps_ret].
    exact (end_kept sound id (fun _ => True) sounds_kept (fun w H => H) _ _ _ _ _ about_own).
  - intros _ h3 H3. apply settle; [done|split; by apply mem_false|left; by apply mem_true|done].
Qed.

Lemma seed_decides ws h : sound (books h) ->
  wp (reconcile_seed at_ id entry)
    (fun go_on h' => if go_on then books h' = books h else decided (file_name id) id ws h') (fun _ _ => True) h.
Proof.
  intros Hs. unfold reconcile_seed. cbv zeta.
  apply (wp_then (fun h' => books h' = books h)); [apply keeps_pure|done|done|]. intros stuck h1 H1.
  destruct stuck.
  { apply wp_bind. eapply wp_mono; [apply (failure_decides ws)|by intros|done]. }
  apply wp_try.
  assert (Hfail : forall e h', wp (failed_with id e >>* ret false)
    (fun go_on h' => if go_on : bool then books h' = books h else decided (file_name id) id ws h') (fun _ _ => True) h').
  { intros e h'. apply wp_bind. eapply wp_mono; [apply (failure_decides ws)|by intros|done]. }
  apply (wp_mono _ (fun (go_on : bool) h' => if go_on then books h' = books h else decided (file_name id) id ws h') _ (fun _ _ => True));
    [|done|by intros].
  destruct (is_str (key_json "sourceSeedStatus" entry) "complete").
  - apply (wp_then (fun h' => books h' = books h)); [apply keeps_pure|done|done|]. intros spec h2 H2.
    apply (wp_then (fun h' => books h' = books h)); [apply keeps_pure|done|done|]. intros seed h3 H3.
    apply (wp_then (fun h' => books h' = books h)); [apply keeps_on_engine; by intros [] ?|done|done|].
    by intros _ h4 H4.
  - apply (wp_then sounds); [apply observe_sound|by rewrite H1|done|]. intros info h2 H2.
    apply (wp_then sounds); [apply keeps_fail_if|done|done|]. intros _ h3 H3.
    pose proof (settle ws "interrupted" (receipt_change JNull [("sourceSeedStatus", JStr "not-started")]
      [("kind", JStr "workspace-seed-admission-interrupted");
       ("detail", JStr "source admission ended before any volume effect")])
      (fun r => mkReport (interrupted r ++ [id]) (adopted r) (orphans_removed r) (failures r)) h3 H3) as Hsettle.
    unfold wp, bind in *. destruct (on_ledger _ h3) as [h4 [e|e]]; [|done].
    apply Hsettle; [split; by apply mem_false|left; by apply mem_true|done].
Qed.

Lemma cleanup_decides ws s h : sound (books h) -> workloads (books h) !! file_name id = Some (Some (JObj entry)) ->
  dict_get "state" entry = Some (JStr s) -> s ∈ TERMINAL_STATES -> decides ws (finish_cleanup at_ id entry) h.
Proof.
  intros Hs Hf Hst Hin.
  set (B := fun w => sound w /\ file_state w (file_name id) s).
  assert (Hkeeps : keeps (kept B) (finish_cleanup at_ id entry)).
  { apply (cleanup_kept B id (fun st => st = s)); [|by intros w []|].
    - intros st a ch w w' r -> Hm [Hw Hfs] Ht. split; [by eapply transition_sound|].
      eapply transition_keeps_state; [exact (proj1 Hw)|exact Hm|exact Hfs|exact Ht].
    - split; intros v Hv; [rewrite Hid in Hv|rewrite Hst in Hv]; by injection Hv as <-. }
  assert (Hh : kept B h) by (split; [done|by exists entry]).
  eapply wp_mono; [exact (Hkeeps h Hh)| |done]. intros _ h' [_ Hfs]. left. exists s. by split; [left|].
Qed.

Lemma entry_decides h : sound (books h) -> workloads (books h) !! file_name id = Some (Some (JObj entry)) ->
  decides (workspace_entry entry) (reconcile_entry at_ (JObj entry)) h.
Proof.
  intros Hs Hf. unfold reconcile_entry. cbv zeta.
  apply wp_bind, wp_pure; [|done]. intros entry' [= <-].
  apply wp_bind, wp_pure; [|done]. intros v Hv. apply subscript_Ok in Hv. rewrite Hid in Hv. injection Hv as <-. cbn [py_str].
  apply wp_bind, wp_pure; [|done]. intros spec Hspec. unfold workspace_entry. rewrite Hspec.
  apply (wp_then (fun h' => books h' = books h)); [|done|done|].
  { destruct (is_workspace spec); [apply keeps_pure|apply keeps_ret]. }
  intros seeded h1 H1. apply wp_bind.
  apply (wp_mono _ (fun (go_on : bool) h' => if go_on then books h' = books h
    else decided (file_name id) id (is_workspace spec) h') _ (fun _ _ => True)); [| |done].
  { destruct seeded; [|done]. rewrite <-H1. apply seed_decides. by rewrite H1. }
  intros [] h2 H2; [|done]. cbn [negb].
  apply wp_bind, wp_pure; [|done]. intros state Hst. apply subscript_Ok in Hst.
  apply wp_bind, wp_pure; [|done]. intros ended Hended. destruct ended.
  - destruct state as [| | |s| |]; try done. injection Hended as Hm. apply mem_true in Hm.
    destruct (is_str (JStr s) "removed").
    + left. exists s. split; [by left|]. exists entry. by rewrite H2.
    + eapply cleanup_decides; [by rewrite H2|by rewrite H2|done..].
  - destruct (is_workspace spec); [apply adopt_decides|apply interrupt_decides]; by rewrite H2.
Qed.
End own.

(** The treatment of one workload leaves the files of the others alone. *)
Lemma entry_elsewhere name f at_ entry id : dict_get "workloadId" entry = Some (JStr id) -> name <> file_name id ->
  keeps (kept (fun w => sound w /\ workloads w !! name = f)) (reconcile_entry at_ (JObj entry)).
Proof.
  intros Hid Hn. apply (reconcile_kept _ id (fun _ => True)); [|by intros w []|done|].
  - intros st a ch w w' r _ Hm [Hs Hf] Ht. split; [by eapply transition_sound|].
    by rewrite (transition_elsewhere _ _ _ _ _ _ _ _ Ht Hn).
  - intros e [= <-]. by apply about_own.
Qed.

Lemma entry_keeps_decided name i ws at_ entry id :
  dict_get "workloadId" entry = Some (JStr id) -> name <> file_name id ->
  forall h, sound (books h) -> decided name i ws h ->
  wp (reconcile_entry at_ (JObj entry)) (fun _ h' => sound (books h') /\ decided name i ws h') (fun _ _ => True) h.
Proof.
  intros Hid Hn h Hs Hd.
  assert (Hk : kept (fun w => sound w /\ workloads w !! name = workloads (books h) !! name) h) by done.
  pose proof (entry_elsewhere name _ at_ entry id Hid Hn h Hk) as Hwp.
  pose proof (keeps_failure i _ (reconcile_monotone i at_ (JObj entry)) h) as Hmono.
  unfold wp in *. destruct (reconcile_entry at_ (JObj entry) h) as [h' [[]|e]]; [|done].
  destruct Hwp as [Hs' Hf]. split; [done|]. destruct Hd as [(st & Hst & e & He & Hes)|Hr]; [left|right; by apply Hmono].
  exists st. split; [done|]. exists e. by rewrite Hf.
Qed.

Lemma entry_sound at_ entry id : dict_get "workloadId" entry = Some (JStr id) ->
  keeps (kept sound) (reconcile_entry at_ (JObj entry)).
Proof.
  intros Hid. apply (reconcile_kept _ id (fun _ => True)); [apply sounds_kept|done|done|].
  intros e [= <-]. by apply about_own.
Qed.

(** A document without a workload id stops the recovery. *)
Lemma reconcile_names at_ v h (Q : unit -> host -> Prop) :
  (forall entry i, v = JObj entry -> dict_get "workloadId" entry = Some i ->
     wp (reconcile_entry at_ v) Q (fun _ _ => True) h) ->
  wp (reconcile_entry at_ v) Q (fun _ _ => True) h.
Proof.
  intros HQ. destruct v as [| | | | |entry]; try (destruct h; exact I).
  destruct (dict_get "workloadId" entry) as [i|] eqn:Ei; [by eapply HQ|].
  unfold reconcile_entry. apply wp_bind, wp_pure; [|done]. intros e [= <-].
  apply wp_bind, wp_pure; [|done]. intros i Hi. apply subscript_Ok in Hi. congruence.
Qed.

Section loop.
Context (w0 : ledger) (at_ : string) (Hfiled : filed w0).

Lemma listed_id name rest vs v entry i : read_files (workloads w0) (name :: rest) = Ok (v :: vs) ->
  v = JObj entry -> dict_get "workloadId" entry = Some i ->
  workloads w0 !! name = Some (Some (JObj entry)) /\ exists id, i = JStr id /\ name = file_name id.
Proof.
  intros Hr -> Hi. cbn [read_files] in Hr. destruct (default None (workloads w0 !! name)) as [u|] eqn:Eu; [|done].
  apply obind_Ok in Hr as (r & _ & Hr). injection Hr as -> _.
  destruct (workloads w0 !! name) as [f|] eqn:Ef; [|done]. cbn in Eu. subst f. split; [done|]. by eapply Hfiled.
Qed.

Lemma read_files_cons name rest vs : read_files (workloads w0) (name :: rest) = Ok vs ->
  exists v vs', vs = v :: vs' /\ read_files (workloads w0) rest = Ok vs'.
Proof.
  cbn [read_files]. destruct (default None _) as [v|]; [|done]. intros Hr.
  apply obind_Ok in Hr as (r & Hr & [= <-]). by exists v, r.
Qed.

Lemma loop_keeps_decided name i ws names vs h : name ∉ names -> read_files (workloads w0) names = Ok vs ->
  sound (books h) -> decided name i ws h ->
  wp (reconcile_entries at_ vs) (fun _ => decided name i ws) (fun _ _ => True) h.
Proof.
  revert vs h. induction names as [|n names IH]; intros vs h Hn Hr Hs Hd; [by injection Hr as <-|].
  apply not_elem_of_cons in Hn as [Hn Hrest]. pose proof Hr as Hr0.
  apply read_files_cons in Hr as (v & vs' & -> & Hr). cbn [reconcile_entries]. apply wp_bind, reconcile_names.
  intros entry j -> Hj. destruct (listed_id _ _ _ _ _ _ Hr0 eq_refl Hj) as (_ & k & -> & ->).
  eapply wp_mono; [by eapply entry_keeps_decided| |done]. intros [] h' [Hs' Hd']. by apply IH.
Qed.

Lemma loop_decides name i entry names vs h : name = file_name i -> NoDup names -> name ∈ names ->
  workloads w0 !! name = Some (Some (JObj entry)) -> workloads (books h) !! name = Some (Some (JObj entry)) ->
  read_files (workloads w0) names = Ok vs -> sound (books h) ->
  wp (reconcile_entries at_ vs) (fun _ => decided name i (workspace_entry entry)) (fun _ _ => True) h.
Proof.
  intros Hname. revert vs h. induction names as [|n names IH]; intros vs h Hnd Hin H0 Hf Hr Hs; [by apply not_elem_of_nil in Hin|].
  apply NoDup_cons in Hnd as [Hnew Hnd]. pose proof Hr as Hr0.
  apply read_files_cons in Hr as (v & vs' & -> & Hr). cbn [reconcile_entries]. apply wp_bind, reconcile_names.
  intros e j -> Hj. destruct (listed_id _ _ _ _ _ _ Hr0 eq_refl Hj) as (He & k & -> & Hk).
  destruct (decide (n = name)) as [->|Hne].
  - assert (e = entry) as -> by congruence. assert (k = i) as -> by (apply file_name_inj; congruence).
    pose proof (entry_sound at_ entry i Hj h Hs) as Hsound. subst name.
    pose proof (entry_decides i at_ entry Hj h Hs Hf) as Hdec. unfold wp at 1. unfold wp in Hsound, Hdec.
    destruct (reconcile_entry at_ (JObj entry) h) as [h' [[]|x]]; [|done]. by apply (loop_keeps_decided _ _ _ names).
  - apply elem_of_cons in Hin as [<-|Hin]; [done|].
    assert (Hk' : kept (fun w => sound w /\ workloads w !! name = Some (Some (JObj entry))) h) by done.
    eapply wp_mono; [exact (entry_elsewhere name _ at_ e k Hj ltac:(congruence) h Hk')| |done].
    intros [] h' [Hs' Hf']. by apply IH.
Qed.
End loop.

Lemma atomic_write_workloads (place : file -> ledger -> ledger) payload w :
  (forall f u, workloads (place f u) = workloads u) ->
  workloads (fst (atomic_write place payload w)) = workloads w.
Proof.
  intros Hp. unfold atomic_write. destruct (faults w) as [|[[]|] rest]; cbn [fst]; by rewrite ?Hp.
Qed.

Lemma close_report_Ok at_ managed name i ws h h' r : decided name i ws h ->
  close_report at_ managed h = (h', Ok r) -> r = reported h' /\ decided name i ws h'.
Proof.
  intros Hd H. unfold close_report in H.
  apply bind_Ok in H as (h1 & vs & Hr & H).
  assert (Hread : wp (on_ledger read_all) (fun _ h1 => h1 = h) (fun _ _ => True) h)
    by (eapply wp_mono; [by apply (wp_read_all (fun _ => True))|by intros ?? []|done]).
  unfold wp in Hread. rewrite Hr in Hread. subst h1.
  apply bind_Ok in H as (h1 & ids & Hk & H). pose proof (keeps_pure (fun u => u = h) (workload_ids vs) h eq_refl) as Hpure.
  unfold wp in Hpure. rewrite Hk in Hpure. subst h1.
  apply bind_Ok in H as (h1 & [] & Hret & H).
  assert (Hd1 : decided name i ws h1).
  { assert (Hb : books h1 = books h).
    { assert (Hkeep : forall l, keeps (fun u => books u = books h) (retain l))
        by (intros l; induction l as [|x l IH]; cbn [retain]; repeat quiet_step; exact IH).
      pose proof (Hkeep (sorted_set (managed ∖ list_to_set ids)) h eq_refl) as Hb. unfold wp in Hb. by rewrite Hret in Hb. }
    destruct Hd as [Hd|Hd]; [left; by rewrite Hb|right].
    pose proof (keeps_failure i _ (retain_monotone i (sorted_set (managed ∖ list_to_set ids))) h Hd) as Hm. by rewrite Hret in Hm. }
  apply bind_Ok in H as (h2 & x & [-> ->]%gets_Ok & H). apply bind_Ok in H as (h2 & name' & Hw & H).
  apply ret_Ok in H as [-> ->]. unfold on_ledger in Hw.
  destruct (record_recovery _ at_ (books h1)) as [w [n|e]] eqn:Er; [|done]. injection Hw as <- _. split; [done|].
  assert (Hw : workloads w = workloads (books h1)).
  { unfold record_recovery in Er. apply bind_Ok in Er as (w1 & [] & Ea & [-> _]%ret_Ok).
    pose proof (atomic_write_workloads (put_recovery ("recovery-" +:+ without "-" (without ":" at_) +:+ ".json"))
      [("recordedAt", JStr at_); ("report", JObj (report_to_dict (reported h1)))] (books h1)) as Hsame.
    rewrite Ea in Hsame. by apply Hsame. }
  destruct Hd1 as [(st & Hst & e & He & Hes)|Hd1]; [left|by right]. exists st. split; [done|]. exists e. cbn. by rewrite Hw.
Qed.

(** C19 Recovery leaves no workload undecided.  When [reconcile_on_boot] returns its
    report, every workload that had an entry in the ledger is in a final state, or, for a
    workspace, running or stopped as it was observed; or the report names it as a
    failure.  Writes may fail on the way. *)
Theorem recovery_decides_every_workload (at_ : string) (h h' : host) (r : report) (id : string) (entry : dict) :
  sound (books h) -> reconcile_on_boot at_ h = (h', Ok r) ->
  workloads (books h) !! file_name id = Some (Some (JObj entry)) ->
  (exists st, settled (workspace_entry entry) st /\ file_state (books h') (file_name id) st) \/ reported_failure id r.
Proof.
  intros Hs H Hf. unfold reconcile_on_boot in H.
  apply bind_Ok in H as (h1 & [] & [= <-] & H). apply bind_Ok in H as (h2 & items & Hi & H).
  assert (Hb2 : books h2 = books h).
  { unfold on_engine in Hi. destruct (list_managed _) as [x [l|t]]; [|done]. by injection Hi as <- _. }
  apply bind_Ok in H as (h3 & managed & Hm & H).
  pose proof (enumerate_books (books h) items ∅ h2 Hb2) as Hb3. unfold wp in Hb3. rewrite Hm in Hb3.
  apply bind_Ok in H as (h4 & vs & Hr & H).
  pose proof (wp_read_all (fun _ => True) h3 I) as Hread. unfold wp in Hread. rewrite Hr in Hread. destruct Hread as [-> Hread].
  apply bind_Ok in H as (h5 & [] & Hloop & H). rewrite Hb3 in Hread.
  assert (Hd : decided (file_name id) id (workspace_entry entry) h5).
  { pose proof (loop_decides (books h) at_ (proj2 Hs) (file_name id) id entry (names_of (workloads (books h))) vs h3 eq_refl) as Hl.
    unfold wp in Hl. rewrite Hloop in Hl. apply Hl; rewrite ?Hb3; try done; [apply sorted_set_NoDup|].
    apply sorted_set_elem, elem_of_dom. by eexists. }
  destruct (close_report_Ok _ _ _ _ _ _ _ _ Hd H) as [-> Hd']. exact Hd'.
Qed.
End recovery.

(** ** A concrete run *)

(** An engine that keeps what [inspect] answers for each container. *)
#[local] Instance stub_engine : Engine (gmap string dict) := {
  inspect id x := (x, Ok (match id with
                          | JStr s => default [("present", JBool false)] (x !! s)
                          | _ => [("present", JBool false)]
                          end));
  logs _ _ _ x := (x, Raise "no logs");
  stop _ _ x := (x, Ok tt);
  remove id _ x := (delete id x, Ok tt);
  list_managed x := (x, Ok (snd <$> map_to_list x));
  reconcile_workspace_seed _ _ x := (x, Ok tt);
  verify_workspace_volumes := Some (fun _ x => (x, Ok tt));
}.

Definition run_info (id container : string) : dict :=
  [("present", JBool true); ("running", JBool true); ("workloadId", JStr id); ("containerId", JStr container);
   ("imageDigest", JStr "sha256:d");
   ("labels", JObj [(MANAGED_LABEL_KEY, JStr "true"); (WORKLOAD_LABEL, JStr id); (KIND_LABEL, JStr "agent-run")])].

Definition run_entry : dict :=
  [("workloadId", JStr "w1");
   ("spec", JObj [("kind", JStr "agent-run"); ("image", JObj [("reference", JStr "repo@sha256:d")])]);
   ("containerId", JStr "c1"); ("state", JStr "running"); ("version", JInt 3); ("startedAt", JStr "T0");
   ("receipts", JArr [])].

Definition before_restart : ledger := mkLedger {[ "w1.json" := Some (JObj run_entry) ]} ∅ ∅ [].
Definition containers : gmap string dict := {[ "w1" := run_info "w1" "c1"; "w2" := run_info "w2" "c2" ]}.
Definition empty_host : host := mkHost before_restart containers [] empty_report.
Definition restarted : host * outcome host_error report := reconcile_on_boot "T1" empty_host.
Definition restart_report : report := match snd restarted with Ok r => r | Raise _ => empty_report end.

(** The container of [w1] is ended; that of [w2], which the ledger does not know, is kept. *)
Lemma restart_events : events (fst (reconcile_on_boot "T1" (mkHost before_restart containers [] empty_report)))
  = [Observed (JStr "w1") (run_info "w1" "c1"); Stopped "w1" (JStr "c1")] ++ [Removed "w1" (JStr "c1")].
Proof. vm_compute. reflexivity. Qed.

Lemma restart_Ok : reconcile_on_boot "T1" empty_host = (fst restarted, Ok restart_report).
Proof. vm_compute. reflexivity. Qed.

Lemma restart_unknown_kept :
  failed_workload <$> failures restart_report = [JStr "w2"] /\ interrupted restart_report = ["w1"].
Proof. vm_compute. split; reflexivity. Qed.

Lemma recovery_ends_own_containers_witness :
  exists name entry info,
    workloads before_restart !! name = Some (Some (JObj entry)) /\ disposable entry /\ ours entry info "w1" /\
    Observed (JStr "w1") info ∈ [Observed (JStr "w1") (run_info "w1" "c1"); Stopped "w1" (JStr "c1")] /\
    key_json "containerId" info = JStr "c1".
Proof.
  exact (recovery_ends_own_containers "T1" before_restart containers empty_report _ [] _ "w1" (JStr "c1")
           restart_events eq_refl).
Defined.

Lemma before_restart_sound : sound before_restart.
Proof.
  split.
  - intros name fs Hf. cbn in Hf. apply lookup_singleton_Some in Hf as [_ [= <-]]. by apply (bool_decide_unpack _).
  - intros name fs v Hf Hv. cbn in Hf. apply lookup_singleton_Some in Hf as [<- [= <-]]. injection Hv as <-. by exists "w1".
Qed.

Lemma recovery_decides_every_workload_witness :
  (exists st, settled (workspace_entry run_entry) st /\ file_state (books (fst restarted)) (file_name "w1") st)
  \/ reported_failure "w1" restart_report.
Proof.
  exact (recovery_decides_every_workload "T1" empty_host (fst restarted) restart_report "w1" run_entry
           before_restart_sound restart_Ok eq_refl).
Defined.
