(* ===== verification/ExecutionGrants.v ===== *)
(** * Execution host: authority grants (packages/execution-host, grants.py)

    The store of grants that an operator provisioned, re-read on every verification:
    here it is a directory, an argument of each operation, like the reading of the
    clock.  A file that is a link, is unreadable or does not parse is [None]. *)

From S2P Require Import Prelude Instants Json Sha256 Contracts ExecutionContract ExecutionLedger.

(** [a >= b]: an aware and a naive time have no order. *)
Definition not_before (a b : datetime) : option bool :=
  match dt_offset a, dt_offset b with
  | Some x, Some y => Some (dt_local b - y <=? dt_local a - x)%Z
  | None, None => Some (dt_local b <=? dt_local a)%Z
  | _, _ => None
  end.

(** ** Refusals *)

(** [TypeFault] is a [TypeError]; [LedgerFault] comes from counting active workloads. *)
Inductive grant_error :=
| GrantRefusal (reason detail : string)
| MissingKey (key : string)
| TypeFault
| LedgerFault (e : ledger_error).

Abbreviation verdict := (outcome grant_error).

Definition refuse {A} (reason detail : string) : verdict A := Raise (GrantRefusal reason detail).
Definition refuse_when (b : bool) (reason detail : string) : verdict unit := refuse_if b (GrantRefusal reason detail).

(** ** The store *)

(** [_read_json_nofollow]; the value [null] reads as nothing. *)
Definition read_json (store : directory) (name : string) : option json :=
  match store !! name with
  | Some (Some JNull) | Some None | None => None
  | Some (Some v) => Some v
  end.

Definition REVOCATION : string := "revocation.json".

Definition revocation (store : directory) : verdict Revocation :=
  if negb (bool_decide (is_Some (store !! REVOCATION))) then
    refuse "revocation-state-missing" "the grant store revocation document is absent; refusing to fail open"
  else match read_json store REVOCATION with
  | None =>
      refuse "grant-store-corrupt" "the grant store revocation document is unreadable; refusing to fail open"
  | Some raw =>
      match validate_revocation_document raw with
      | Ok r => Ok r
      | Raise (Invalid m) => refuse "grant-store-corrupt" ("revocation document is invalid: " +:+ m)
      | Raise Unhashable => Raise TypeFault
      end
  end.

Definition load_grant (store : directory) (grant_id : string) : verdict Grant :=
  match read_json store (file_name grant_id) with
  | None => refuse "grant-unknown" "no provisioned grant exists for the presented grant id"
  | Some raw =>
      match validate_grant_document raw with
      | Raise (Invalid m) => refuse "grant-store-corrupt" ("stored grant document is invalid: " +:+ m)
      | Raise Unhashable => Raise TypeFault
      | Ok g =>
          if bool_decide (g_id g = grant_id) then Ok g
          else refuse "grant-store-corrupt" "stored grant id does not match its file name"
      end
  end.

(** [_check_liveness]; the text of the parser's error is left out. *)
Definition check_liveness (store : directory) (clock : string) (g : Grant) : verdict unit :=
  let? r := revocation store in
  refuse_when (mem (g_id g) (rv_revoked r)) "grant-revoked" "the grant was explicitly revoked" >>?
  refuse_when (g_epoch g <? rv_epoch r)%Z "grant-revoked" "the grant predates the current revocation epoch" >>?
  refuse_when (mem (g_id g) (rv_paused r)) "grant-paused" "the grant is currently paused" >>?
  match parse_instant clock, parse_instant (g_expires_at g) with
  | Some now, Some expires =>
      match not_before now expires with
      | Some expired => refuse_when expired "grant-expired" "the grant expired"
      | None => Raise TypeFault
      end
  | _, _ => refuse "grant-store-corrupt" "grant timestamps are unparseable"
  end.

Definition assert_live (store : directory) (clock grant_id : string) (expected_digest : option string) : verdict Grant :=
  let? g := load_grant store grant_id in
  refuse_when
    match expected_digest with
    | Some d => negb (bool_decide (canonical_digest (JObj (grant_dict g)) = d))
    | None => false
    end
    "grant-digest-mismatch" "the live authority grant no longer matches the workload's bound grant digest" >>?
  check_liveness store clock g >>?
  Ok g.

(** ** Verification of a request *)

(** [v > limit] *)
Definition exceeds (v : json) (limit : Z) : verdict bool :=
  match v with
  | JInt z => Ok (limit <? z)%Z
  | JBool b => Ok (limit <? if b then 1 else 0)%Z
  | _ => Raise TypeFault
  end.

(** [isinstance(v, Mapping)] *)
Definition as_mapping (v : json) : option dict := match v with JObj d => Some d | _ => None end.

(** [plan.get("spec") if isinstance(plan, Mapping) else payload.get("spec")] *)
Definition deployment_spec (payload : dict) : json :=
  match as_mapping (key_json "plan" payload) with
  | Some plan => key_json "spec" plan
  | None => key_json "spec" payload
  end.

Definition target_mismatch (s : DeploymentScope) (spec : dict) : bool :=
  negb match as_mapping (key_json "target" spec), as_mapping (key_json "authority" spec) with
       | Some target, Some authority =>
           py_eqb (key_json "adapter" target) (JStr "rootless-podman-local")
           && py_eqb (key_json "targetId" target) (JStr (ds_target_id s))
           && match key_json "grantId" authority with JStr s => negb (bool_decide (s = "")) | _ => false end
       | _, _ => false
       end.

Definition archive_exceeds (s : DeploymentScope) (payload : dict) : verdict bool :=
  match as_mapping (key_json "sourceArchive" payload) with
  | None => Ok false
  | Some archive =>
      let? bytes := exceeds (field_or "archiveBytes" (JInt 0) archive) (ds_max_archive_bytes s) in
      if bytes then Ok true else exceeds (field_or "fileCount" (JInt 0) archive) (ds_max_files s)
  end.

Definition check_deployment (operation : string) (g : Grant) (payload : dict) : verdict unit :=
  match g_scope g with
  | None => refuse "grant-deployment-scope-missing" "the grant has no explicit deployment authority scope"
  | Some scope =>
      refuse_when (bool_decide (operation = "purgeDeploymentData") && negb (ds_allow_purge scope))
        "grant-deployment-purge-denied" "the deployment grant does not admit irreversible data purge" >>?
      if bool_decide (operation = "probeDeploymentTarget") then Ok tt
      else match as_mapping (deployment_spec payload) with
      | None =>
          refuse "grant-deployment-scope-mismatch" "the deployment request has no scope-verifiable specification"
      | Some spec =>
          refuse_when (target_mismatch scope spec)
            "grant-deployment-scope-mismatch" "the deployment request differs from the grant's authority or target scope" >>?
          let? over := archive_exceeds scope payload in
          refuse_when over "grant-deployment-budget-exceeded" "the deployment source transfer exceeds the grant scope"
      end
  end.

(** The cpu quota and the disk bound of a workload. *)
Definition cpu_and_disk (w : Workload) : verdict (json * json) :=
  if is_run (w_kind w) then
    match r_cpu_disk (w_resources w) with
    | Some (cpu, disk) => Ok (JInt cpu, JInt disk)
    | None => Raise (MissingKey "cpuQuotaPercent")
    end
  else Ok (field_or "cpuQuotaPercent" (JInt 100) (w_parameters w), field_or "diskMaxBytes" (JInt (16 * MiB)) (w_parameters w)).

Definition base_revision_differs (g : Grant) (w : Workload) : bool :=
  match g_base_revision g with
  | None => false
  | Some base =>
      negb (bool_decide (w_kind w = AgentRun) || bool_decide (w_kind w = Workspace))
      || negb (py_eqb (key_json "baseRevision" (w_parameters w)) (JStr base))
  end.

Definition check_workload (active_count : string -> verdict Z) (g : Grant) (w : Workload) : verdict unit :=
  let b := g_budgets g in
  refuse_when (negb (mem (w_id w) (g_workload_ids g)))
    "grant-workspace-mismatch" "the grant does not cover this workload id" >>?
  refuse_when (negb (bool_decide (w_kind w ∈ g_kinds g)))
    "grant-kind-denied" "the grant does not cover this workload kind" >>?
  refuse_when (negb (bool_decide (w_image w = g_image g)))
    "grant-image-mismatch" "the workload image differs from the grant image" >>?
  refuse_when (base_revision_differs g w)
    "grant-base-revision-mismatch" "the workload does not name the grant's exact base revision" >>?
  refuse_when (b_timeout b <? w_timeout w)%Z
    "grant-budget-exceeded" "workload timeout exceeds the grant budget" >>?
  refuse_when (b_output b <? w_output_bound w)%Z
    "grant-budget-exceeded" "workload output bound exceeds the grant budget" >>?
  refuse_when (b_memory b <? r_memory (w_resources w))%Z
    "grant-budget-exceeded" "workload memory exceeds the grant budget" >>?
  refuse_when (b_pids b <? r_pids (w_resources w))%Z
    "grant-budget-exceeded" "workload pids exceed the grant budget" >>?
  let? limits := cpu_and_disk w in
  let? cpu := exceeds (fst limits) (b_cpu b) in
  refuse_when cpu "grant-budget-exceeded" "workload cpu quota exceeds the grant budget" >>?
  let? disk := exceeds (snd limits) (b_disk b) in
  refuse_when disk "grant-budget-exceeded" "workload disk bound exceeds the grant budget" >>?
  let? active := active_count (g_id g) in
  refuse_when (b_active b <=? active)%Z
    "grant-budget-exceeded" "the grant's active workload budget is exhausted" >>?
  refuse_when
    match assoc_get (w_id w) (g_spec_digests g) with
    | Some bound => negb (bool_decide (canonical_digest (JObj (workload_dict w)) = bound))
    | None => true
    end
    "grant-spec-digest-mismatch" "the complete sealed workload spec does not match the grant's bound spec digest".

(** The last step: the workload that the request creates or names. *)
Definition check_target (active_count : string -> verdict Z) (operation : string) (g : Grant) (payload : Payload)
    : verdict unit :=
  if mem operation ["createWorkload"; "runValidator"] then
    match payload with
    | NewWorkload w => check_workload active_count g w
    | Fields _ => Raise (MissingKey "workload")
    end
  else
    let id := key_json "workloadId" (payload_dict payload) in
    refuse_when (negb (is_value id JNull) && negb (in_tuple id (g_workload_ids g)))
      "grant-workspace-mismatch" "the grant does not cover this workload id".

Definition verify (store : directory) (clock : string) (active_count : string -> verdict Z) (q : Request)
    (peer_uid : Z) (payload : Payload) : verdict Grant :=
  let? g := load_grant store (q_grant_id q) in
  refuse_when (negb (bool_decide (canonical_digest (JObj (grant_dict g)) = q_grant_digest q)))
    "grant-digest-mismatch" "the presented authority grant digest does not equal the stored grant document" >>?
  refuse_when (negb (g_peer_uid g =? peer_uid)%Z)
    "grant-peer-mismatch" "the grant is bound to a different peer uid" >>?
  refuse_when (negb (mem (q_operation q) (g_operations g)))
    "grant-operation-denied" "the grant does not cover this operation" >>?
  check_liveness store clock g >>?
  refuse_when ((b_timeout (g_budgets g) <? q_timeout q)%Z || (b_output (g_budgets g) <? q_output_bound q)%Z)
    "grant-budget-exceeded" "request timeout or output bound exceeds the grant budget" >>?
  (if mem (q_operation q) DEPLOYMENT_OPERATIONS
   then check_deployment (q_operation q) g (payload_dict payload) else Ok tt) >>?
  check_target active_count (q_operation q) g payload >>?
  Ok g.

(** ** What a verified grant guarantees *)

Lemma refuse_when_Ok b reason detail u : refuse_when b reason detail = Ok u <-> b = false.
Proof. unfold refuse_when. apply refuse_if_Ok. Qed.

(** The grant is neither revoked, nor overtaken by the epoch, nor paused, nor expired. *)
Definition live (store : directory) (clock : string) (g : Grant) : Prop :=
  exists raw r now expires,
    read_json store REVOCATION = Some raw /\ validate_revocation_document raw = Ok r /\
    (g_id g ∉ rv_revoked r) /\ (rv_epoch r <= g_epoch g)%Z /\ (g_id g ∉ rv_paused r) /\
    parse_instant clock = Some now /\ parse_instant (g_expires_at g) = Some expires /\
    not_before now expires = Some false.

Lemma revocation_Ok store r : revocation store = Ok r <->
  exists raw, read_json store REVOCATION = Some raw /\ validate_revocation_document raw = Ok r.
Proof.
  unfold revocation. split.
  - destruct (negb _); [done|]. destruct (read_json store REVOCATION) as [raw|]; [|done].
    destruct (validate_revocation_document raw) as [r'|[]] eqn:E; try done. intros [= <-]. by exists raw.
  - intros (raw & Hr & Hv). rewrite Hr, Hv, bool_decide_eq_true_2; [done|].
    unfold read_json in Hr. by destruct (store !! REVOCATION).
Qed.

Lemma check_liveness_iff store clock g : check_liveness store clock g = Ok tt <-> live store clock g.
Proof.
  unfold check_liveness, live. split.
  - intros H. apply obind_Ok in H as (r & (raw & Hraw & Hr)%revocation_Ok & H).
    apply obind_Ok in H as ([] & H1%refuse_when_Ok & H). apply obind_Ok in H as ([] & H2%refuse_when_Ok & H).
    apply obind_Ok in H as ([] & H3%refuse_when_Ok & H). apply mem_false in H1, H3. apply Z.ltb_ge in H2.
    destruct (parse_instant clock) as [now|]; [|done]. destruct (parse_instant (g_expires_at g)) as [expires|]; [|done].
    destruct (not_before now expires) as [b|] eqn:Eb; [|done]. apply refuse_when_Ok in H as ->.
    by exists raw, r, now, expires.
  - intros (raw & r & now & expires & Hraw & Hr & H1%mem_false & H2 & H3%mem_false & Hnow & Hexp & Hb).
    rewrite (proj2 (revocation_Ok store r)) by (by exists raw). cbn [obind].
    rewrite H1, H3, (proj2 (Z.ltb_ge _ _) H2), Hnow, Hexp, Hb. done.
Qed.

(** The stored grant that an id and a digest name. *)
Definition provisioned (store : directory) (grant_id digest : string) (g : Grant) : Prop :=
  exists raw, read_json store (file_name grant_id) = Some raw /\ validate_grant_document raw = Ok g /\
    g_id g = grant_id /\ canonical_digest (JObj (grant_dict g)) = digest.

Lemma load_grant_Ok store id g : load_grant store id = Ok g <->
  exists raw, read_json store (file_name id) = Some raw /\ validate_grant_document raw = Ok g /\ g_id g = id.
Proof.
  unfold load_grant. split.
  - destruct (read_json store _) as [raw|]; [|done]. destruct (validate_grant_document raw) as [g'|[]] eqn:E; try done.
    case_bool_decide; [|done]. intros [= <-]. by exists raw.
  - intros (raw & -> & -> & ->). by rewrite bool_decide_eq_true_2.
Qed.

(** The ceilings of the grant hold for the workload. *)
Record within_budget (b : Budgets) (w : Workload) : Prop := {
  fits_timeout : (w_timeout w <= b_timeout b)%Z;
  fits_output : (w_output_bound w <= b_output b)%Z;
  fits_memory : (r_memory (w_resources w) <= b_memory b)%Z;
  fits_pids : (r_pids (w_resources w) <= b_pids b)%Z;
  fits_cpu_disk : exists cpu disk, cpu_and_disk w = Ok (cpu, disk) /\
    exceeds cpu (b_cpu b) = Ok false /\ exceeds disk (b_disk b) = Ok false;
}.

(** The grant covers the workload: its id, kind, image and revision, and the whole of
    its sealed spec by digest. *)
Record covers (g : Grant) (w : Workload) : Prop := {
  covers_id : w_id w ∈ g_workload_ids g;
  covers_kind : w_kind w ∈ g_kinds g;
  covers_image : w_image w = g_image g;
  covers_revision : forall base, g_base_revision g = Some base ->
    (w_kind w = AgentRun \/ w_kind w = Workspace) /\ key_json "baseRevision" (w_parameters w) = JStr base;
  covers_budget : within_budget (g_budgets g) w;
  covers_digest : assoc_get (w_id w) (g_spec_digests g) = Some (canonical_digest (JObj (workload_dict w)));
}.

Lemma base_revision_iff g w : base_revision_differs g w = false <->
  forall base, g_base_revision g = Some base ->
    (w_kind w = AgentRun \/ w_kind w = Workspace) /\ key_json "baseRevision" (w_parameters w) = JStr base.
Proof.
  unfold base_revision_differs. destruct (g_base_revision g) as [b|]; [|by split].
  rewrite orb_false_iff, !negb_false_iff, orb_true_iff, !bool_decide_eq_true, py_eqb_to_str, bool_decide_eq_true.
  split; [by intros ? ? [= <-]|by intros H; apply H].
Qed.

Lemma check_workload_iff count g w : check_workload count g w = Ok tt <->
  covers g w /\ exists n, count (g_id g) = Ok n /\ (n < b_active (g_budgets g))%Z.
Proof.
  unfold check_workload. split.
  - intros H. cbv zeta in H.
    apply obind_Ok in H as ([] & H1%refuse_when_Ok & H). apply obind_Ok in H as ([] & H2%refuse_when_Ok & H).
    apply obind_Ok in H as ([] & H3%refuse_when_Ok & H). apply obind_Ok in H as ([] & H4%refuse_when_Ok & H).
    apply obind_Ok in H as ([] & H5%refuse_when_Ok & H). apply obind_Ok in H as ([] & H6%refuse_when_Ok & H).
    apply obind_Ok in H as ([] & H7%refuse_when_Ok & H). apply obind_Ok in H as ([] & H8%refuse_when_Ok & H).
    apply obind_Ok in H as ([cpu disk] & Hl & H). apply obind_Ok in H as (c & Hc & H).
    apply obind_Ok in H as ([] & ->%refuse_when_Ok & H). apply obind_Ok in H as (d & Hd & H).
    apply obind_Ok in H as ([] & ->%refuse_when_Ok & H). apply obind_Ok in H as (n & Hn & H).
    apply obind_Ok in H as ([] & H9%refuse_when_Ok & H). apply refuse_when_Ok in H.
    apply negb_false_iff in H1, H2, H3. apply mem_true in H1. apply bool_decide_eq_true in H2, H3.
    apply Z.ltb_ge in H5, H6, H7, H8. apply Z.leb_gt in H9. split; [|by exists n].
    constructor; [done..|by apply base_revision_iff| |].
    + constructor; [done..|]. by exists cpu, disk.
    + destruct (assoc_get _ _) as [bound|]; [|done]. apply negb_false_iff, bool_decide_eq_true in H. by subst bound.
  - intros [[H1 H2 H3 H4 [H5 H6 H7 H8 (cpu & disk & Hl & Hc & Hd)] H] (n & Hn & H9)]. cbv zeta.
    rewrite (proj2 (mem_true _ _) H1), bool_decide_eq_true_2, bool_decide_eq_true_2, (proj2 (base_revision_iff g w) H4) by done.
    cbn [negb refuse_when refuse_if obind].
    rewrite !(proj2 (Z.ltb_ge _ _)) by done. cbn [refuse_when refuse_if obind].
    rewrite Hl. cbn [obind fst snd]. rewrite Hc. cbn [refuse_when refuse_if obind]. rewrite Hd. cbn [refuse_when refuse_if obind].
    rewrite Hn. cbn [obind]. rewrite (proj2 (Z.leb_gt _ _) H9), H, bool_decide_eq_true_2 by done. done.
Qed.

(** The request stays within the grant, whatever its operation. *)
Record permitted (g : Grant) (q : Request) (peer_uid : Z) : Prop := {
  permitted_peer : g_peer_uid g = peer_uid;
  permitted_operation : q_operation q ∈ g_operations g;
  permitted_timeout : (q_timeout q <= b_timeout (g_budgets g))%Z;
  permitted_output : (q_output_bound q <= b_output (g_budgets g))%Z;
}.

(** What the operation acts on is in the scope of the grant. *)
Definition in_scope (count : string -> verdict Z) (g : Grant) (operation : string) (payload : Payload) : Prop :=
  (operation ∈ DEPLOYMENT_OPERATIONS -> check_deployment operation g (payload_dict payload) = Ok tt) /\
  if mem operation ["createWorkload"; "runValidator"] then
    exists w, payload = NewWorkload w /\ covers g w /\
      exists n, count (g_id g) = Ok n /\ (n < b_active (g_budgets g))%Z
  else key_json "workloadId" (payload_dict payload) = JNull \/
       exists id, key_json "workloadId" (payload_dict payload) = JStr id /\ id ∈ g_workload_ids g.

Lemma check_target_iff count operation g payload : check_target count operation g payload = Ok tt <->
  if mem operation ["createWorkload"; "runValidator"] then
    exists w, payload = NewWorkload w /\ covers g w /\
      exists n, count (g_id g) = Ok n /\ (n < b_active (g_budgets g))%Z
  else key_json "workloadId" (payload_dict payload) = JNull \/
       exists id, key_json "workloadId" (payload_dict payload) = JStr id /\ id ∈ g_workload_ids g.
Proof.
  unfold check_target. destruct (mem operation _).
  - destruct payload as [w|d]; [rewrite check_workload_iff|].
    + split; [intros H; by exists w|by intros (w' & [= <-] & H)].
    + split; [done|by intros (w & ? & _)].
  - cbv zeta. rewrite refuse_when_Ok, andb_false_iff, !negb_false_iff. unfold is_value. rewrite bool_decide_eq_true.
    destruct (key_json "workloadId" (payload_dict payload)) as [| | |id| |]; cbn [in_tuple].
    4: { rewrite mem_true. split; [intros [?|?]; [done|right; by exists id]|intros [?|(? & [= <-] & ?)]; [done|by right]]. }
    all: split; [by intros [?|?]; [left|]|by intros [?|(? & ? & ?)]; [left|]].
Qed.

(** What a returned grant was checked against *)
Lemma verify_Ok store clock count q peer_uid payload g :
  verify store clock count q peer_uid payload = Ok g ->
  provisioned store (q_grant_id q) (q_grant_digest q) g /\ permitted g q peer_uid /\ live store clock g /\
  in_scope count g (q_operation q) payload.
Proof.
  unfold verify, provisioned, in_scope.
  intros H. apply obind_Ok in H as (g' & (raw & Hraw & Hv & Hid)%load_grant_Ok & H).
  apply obind_Ok in H as ([] & Hd%refuse_when_Ok & H). apply obind_Ok in H as ([] & Hp%refuse_when_Ok & H).
  apply obind_Ok in H as ([] & Ho%refuse_when_Ok & H). apply obind_Ok in H as ([] & Hl%check_liveness_iff & H).
  apply obind_Ok in H as ([] & Hb%refuse_when_Ok & H). apply obind_Ok in H as ([] & Hdep & H).
  apply obind_Ok in H as ([] & Ht%check_target_iff & [= <-]).
  apply negb_false_iff in Hd, Hp, Ho. apply bool_decide_eq_true in Hd. apply Z.eqb_eq in Hp. apply mem_true in Ho.
  apply orb_false_iff in Hb as [Hb1%Z.ltb_ge Hb2%Z.ltb_ge].
  split_and!; [by exists raw|by constructor|done| |done].
  intros Hin%mem_true. by rewrite Hin in Hdep.
Qed.

(** C20 A request is authorized exactly when every binding of its grant holds.  [verify]
    returns a grant if and only if it is the provisioned document whose digest the
    client presented, the peer, the operation and the bounds of the request are the
    grant's, the grant is live by the revocation document and the clock, and what the
    operation acts on is in its scope: for a new workload its id, kind, image, revision,
    every resource ceiling, the number of active workloads, and its whole sealed spec by
    digest. *)
Theorem verify_authorizes_exactly (store : directory) (clock : string) (count : string -> verdict Z) (q : Request)
    (peer_uid : Z) (payload : Payload) (g : Grant) :
  verify store clock count q peer_uid payload = Ok g <->
  provisioned store (q_grant_id q) (q_grant_digest q) g /\ permitted g q peer_uid /\ live store clock g /\
  in_scope count g (q_operation q) payload.
Proof.
  split; [apply verify_Ok|]. unfold verify, provisioned, in_scope.
  intros ((raw & Hraw & Hv & Hid & Hd) & [Hp Ho Hb1 Hb2] & Hl & Hdep & Ht).
  rewrite (proj2 (load_grant_Ok store (q_grant_id q) g)) by (by exists raw). cbn [obind].
  rewrite bool_decide_eq_true_2, (proj2 (Z.eqb_eq _ _) Hp), (proj2 (mem_true _ _) Ho) by done. cbn [negb refuse_when refuse_if obind].
  rewrite (proj2 (check_liveness_iff store clock g) Hl). cbn [obind].
  rewrite (proj2 (Z.ltb_ge _ _) Hb1), (proj2 (Z.ltb_ge _ _) Hb2). cbn [orb refuse_when refuse_if obind].
  destruct (mem (q_operation q) DEPLOYMENT_OPERATIONS) eqn:Em; [rewrite Hdep by (by apply mem_true)|];
    cbn [obind]; by rewrite (proj2 (check_target_iff _ _ _ _) Ht).
Qed.

(** ** One sealed spec per workload *)

(** The documents of a store have each key once, as parsed JSON does. *)
Definition wf_store (store : directory) : Prop :=
  forall name v, store !! name = Some (Some v) -> wf_json v.

Lemma read_json_wf store name v : wf_store store -> read_json store name = Some v -> wf_json v.
Proof.
  intros Hwf. unfold read_json. destruct (store !! name) as [[u|]|] eqn:E; try done.
  destruct u; try done; intros [= <-]; by eapply Hwf.
Qed.

Lemma spec_digests_entry ds k : dict_get k ((fun kv => (fst kv, JStr (snd kv))) <$> ds) = JStr <$> assoc_get k ds.
Proof. induction ds as [|[k' d] ds IH]; [done|]. cbn. destruct (String.eqb k k'); [done|exact IH]. Qed.

Lemma grant_spec_digest g k : wf_json (JObj (grant_dict g)) ->
  dict_get k (match key_json "workloadSpecDigests" (sort_fields (norm_fields (grant_dict g))) with JObj d => d | _ => [] end)
  = JStr <$> assoc_get k (g_spec_digests g).
Proof.
  intros Hwf. pose proof Hwf as [Hnd Hf]%wf_json_obj. unfold key_json. rewrite dict_get_sort_norm by done.
  set (ds := (fun kv : string * string => (fst kv, JStr (snd kv))) <$> g_spec_digests g).
  assert (Hget : dict_get "workloadSpecDigests" (grant_dict g) = Some (JObj ds)) by done.
  assert (Hds : NoDup (dict_keys ds)).
  { apply dict_get_elem in Hget. pose proof (proj1 (Forall_forall _ _) Hf _ Hget) as Hw.
    apply wf_json_obj in Hw as [Hw _]. exact Hw. }
  rewrite Hget. change (norm <$> Some (JObj ds)) with (Some (norm (JObj ds))). rewrite norm_obj.
  change (dict_get k (sort_fields (norm_fields ds)) = JStr <$> assoc_get k (g_spec_digests g)). rewrite dict_get_sort_norm by done.
  unfold ds. rewrite spec_digests_entry. by destruct (assoc_get k _).
Qed.


(** The digest that a grant seals for a workload, as its document determines it. *)
Lemma same_grant_same_digest g1 g2 k : wf_json (JObj (grant_dict g1)) -> wf_json (JObj (grant_dict g2)) ->
  norm (JObj (grant_dict g1)) = norm (JObj (grant_dict g2)) ->
  assoc_get k (g_spec_digests g1) = assoc_get k (g_spec_digests g2).
Proof.
  intros H1 H2 Hn. rewrite !norm_obj in Hn.
  assert (Hobj : forall a b, JObj a = JObj b -> a = b) by congruence. apply Hobj in Hn.
  pose proof (grant_spec_digest g1 k H1) as E1. rewrite Hn, (grant_spec_digest g2 k H2) in E1.
  destruct (assoc_get k (g_spec_digests g1)), (assoc_get k (g_spec_digests g2)); by simplify_eq/=.
Qed.

(** A grant admits one spec per workload.  Two requests that create the same
    workload, authorized under the same grant digest, at whatever times, by whatever
    peers and however the store changed in between, carry the same sealed spec up to the
    order of keys, unless SHA-256 collides on the two grants or on the two specs. *)
Theorem one_sealed_spec (store1 store2 : directory) (clock1 clock2 : string) (count1 count2 : string -> verdict Z)
    (q1 q2 : Request) (uid1 uid2 : Z) (w1 w2 : Workload) (g1 g2 : Grant) :
  wf_store store1 -> wf_store store2 ->
  verify store1 clock1 count1 q1 uid1 (NewWorkload w1) = Ok g1 ->
  verify store2 clock2 count2 q2 uid2 (NewWorkload w2) = Ok g2 ->
  q_operation q1 ∈ ["createWorkload"; "runValidator"] -> q_operation q2 ∈ ["createWorkload"; "runValidator"] ->
  q_grant_digest q1 = q_grant_digest q2 -> w_id w1 = w_id w2 ->
  collision_free [document (JObj (grant_dict g1)); document (JObj (grant_dict g2))] ->
  collision_free [document (JObj (workload_dict w1)); document (JObj (workload_dict w2))] ->
  norm (JObj (workload_dict w1)) = norm (JObj (workload_dict w2)).
Proof.
  intros Hs1 Hs2 H1 H2 Ho1 Ho2 Hd Hw Hc Hcw.
  apply verify_Ok in H1 as ((raw1 & Hr1 & Hv1 & _ & E1) & _ & _ & _ & H1).
  apply verify_Ok in H2 as ((raw2 & Hr2 & Hv2 & _ & E2) & _ & _ & _ & H2).
  rewrite (proj2 (mem_true _ _) Ho1) in H1. rewrite (proj2 (mem_true _ _) Ho2) in H2.
  destruct H1 as (? & [= <-] & C1 & _), H2 as (? & [= <-] & C2 & _).
  pose proof (grant_exact _ _ (read_json_wf _ _ _ Hs1 Hr1) Hv1) as [_ W1].
  pose proof (grant_exact _ _ (read_json_wf _ _ _ Hs2 Hr2) Hv2) as [_ W2].
  assert (Hg : norm (JObj (grant_dict g1)) = norm (JObj (grant_dict g2))).
  { apply (digest_norm _ _ _ Hc); [by left|by right; left|congruence]. }
  pose proof (same_grant_same_digest g1 g2 (w_id w1) W1 W2 Hg) as Hsame.
  rewrite (covers_digest _ _ C1), Hw, (covers_digest _ _ C2) in Hsame. apply (inj Some) in Hsame.
  exact (digest_norm _ _ _ Hcw ltac:(by left) ltac:(by right; left) Hsame).
Qed.

(** ** Failing closed *)

(** A validator that raises nothing but [ValueError]. *)
Definition refuses_only {A} (o : checked A) : Prop := o <> Raise Unhashable.

Lemma refuses_bind {A B} (o : checked A) (k : A -> checked B) :
  refuses_only o -> (forall a, o = Ok a -> refuses_only (k a)) -> refuses_only (obind o k).
Proof. unfold refuses_only. destruct o as [a|e]; cbn; [by intros _ H; apply H|congruence]. Qed.

Lemma refuses_string v name : refuses_only (string_ v name).
Proof. unfold refuses_only, string_. destruct v; try done. by destruct (nonblank _). Qed.

Lemma refuses_id v name : refuses_only (id_ v name).
Proof. apply refuses_bind; [apply refuses_string|]. intros s _. unfold refuses_only. by destruct (ID_fullmatch s). Qed.

Lemma refuses_int v name lo hi : refuses_only (int_ v name lo hi).
Proof. unfold refuses_only, int_. destruct v; try done. by destruct (_ && _). Qed.

Lemma refuses_mapping v name keys : refuses_only (mapping v name keys).
Proof. unfold refuses_only, mapping. destruct v; try done. by destruct (same_set _ _). Qed.

Lemma refuses_each {A B} (f : A -> checked B) l : (forall x, refuses_only (f x)) -> refuses_only (each f l).
Proof.
  intros Hf. induction l as [|x l IH]; [done|]. cbn [each].
  apply refuses_bind; [apply Hf|]. intros y _. by apply refuses_bind.
Qed.

Lemma refuses_revocation v : refuses_only (validate_revocation_document v).
Proof.
  assert (Hids : forall field d, refuses_only (revoked_ids field d)).
  { intros field d. unfold revoked_ids. destruct (key_json field d); try done. destruct (_ <? _)%Z; [done|].
    apply refuses_each. intros x. apply refuses_id. }
  unfold validate_revocation_document. apply refuses_bind; [apply refuses_mapping|]. intros d _.
  apply refuses_bind; [apply refuses_int|]. intros epoch _. apply refuses_bind; [apply Hids|]. intros revoked _.
  by apply refuses_bind.
Qed.

(** The two ways to raise a [TypeError]: the grant's document holds a list or a
    dictionary where it has to be hashed, or one of the clock and the expiry has an
    offset and the other has none. *)
Definition unhashable_grant (store : directory) (grant_id : string) : Prop :=
  exists raw, read_json store (file_name grant_id) = Some raw /\ validate_grant_document raw = Raise Unhashable.

Definition unordered_times (store : directory) (clock grant_id : string) : Prop :=
  exists g now expires, load_grant store grant_id = Ok g /\ parse_instant clock = Some now /\
    parse_instant (g_expires_at g) = Some expires /\ not_before now expires = None.

Definition refusal (e : grant_error) : Prop := exists reason detail, e = GrantRefusal reason detail.

Lemma load_grant_raises store id e : load_grant store id = Raise e ->
  refusal e \/ (e = TypeFault /\ unhashable_grant store id).
Proof.
  unfold load_grant, refuse, refusal. destruct (read_json store (file_name id)) as [raw|] eqn:Er.
  - destruct (validate_grant_document raw) as [g|[m|]] eqn:Ev.
    + case_bool_decide; [done|]. intros [= <-]. left. by do 2 eexists.
    + intros [= <-]. left. by do 2 eexists.
    + intros [= <-]. right. split; [done|]. by exists raw.
  - intros [= <-]. left. by do 2 eexists.
Qed.

Lemma refuse_when_raises b reason detail (e : grant_error) : refuse_when b reason detail = Raise e -> refusal e.
Proof. unfold refuse_when, refuse_if. destruct b; [|done]. intros [= <-]. by do 2 eexists. Qed.

Lemma obind_Raise {X A B} (o : outcome X A) (k : A -> outcome X B) e : obind o k = Raise e ->
  o = Raise e \/ exists a, o = Ok a /\ k a = Raise e.
Proof. destruct o as [a|x]; cbn; [intros H; right; by exists a|intros [= ->]; by left]. Qed.

Lemma liveness_raises store clock id g e : load_grant store id = Ok g -> check_liveness store clock g = Raise e ->
  refusal e \/ (e = TypeFault /\ unordered_times store clock id).
Proof.
  intros Hg H. unfold check_liveness in H. apply obind_Raise in H as [H|(r & _ & H)].
  { left. unfold revocation, refuse in H. destruct (negb _); [injection H as <-; by do 2 eexists|].
    destruct (read_json store REVOCATION) as [raw|]; [|injection H as <-; by do 2 eexists].
    pose proof (refuses_revocation raw) as Hr. unfold refuses_only in Hr.
    destruct (validate_revocation_document raw) as [r|[m|]]; [done| |done]. injection H as <-. by do 2 eexists. }
  do 3 (apply obind_Raise in H as [H|([] & _ & H)]; [left; by eapply refuse_when_raises|]).
  destruct (parse_instant clock) as [now|] eqn:En; [|injection H as <-; left; by do 2 eexists].
  destruct (parse_instant (g_expires_at g)) as [expires|] eqn:Ee; [|injection H as <-; left; by do 2 eexists].
  destruct (not_before now expires) as [b|] eqn:Eb; [left; by eapply refuse_when_raises|].
  injection H as <-. right. split; [done|]. by exists g, now, expires.
Qed.

(** A sealed specification is checked for these operations only. *)
Definition NEW_WORKLOAD : list string := ["createWorkload"; "runValidator"].

(** The payload of a validated request: the specification of a new workload was validated. *)
Definition validated (q : Request) (payload : Payload) : Prop :=
  q_operation q ∈ NEW_WORKLOAD -> exists raw w, payload = NewWorkload w /\ validate_workload_spec raw = Ok w.

(** A deployment whose source archive has no number as its size or file count *)
Definition number (v : json) : Prop := exists z, v = JInt z \/ exists b, v = JBool b.

Definition unsized_archive (payload : Payload) : Prop :=
  exists archive, key_json "sourceArchive" (payload_dict payload) = JObj archive /\
    ~ (number (field_or "archiveBytes" (JInt 0) archive) /\ number (field_or "fileCount" (JInt 0) archive)).

Lemma exceeds_raises v limit e : exceeds v limit = Raise e -> e = TypeFault /\ ~ number v.
Proof. intros H. destruct v; try done; injection H as <-; split; try done; intros (z & [?|(b & ?)]); done. Qed.

Lemma deployment_raises operation g payload e : check_deployment operation g (payload_dict payload) = Raise e ->
  refusal e \/ (e = TypeFault /\ unsized_archive payload).
Proof.
  unfold check_deployment, refuse, refusal. destruct (g_scope g) as [scope|]; [|intros [= <-]; left; by do 2 eexists].
  intros H. apply obind_Raise in H as [H|([] & _ & H)]; [left; by eapply refuse_when_raises|].
  case_bool_decide; [done|]. destruct (as_mapping _) as [spec|]; [|injection H as <-; left; by do 2 eexists].
  apply obind_Raise in H as [H|([] & _ & H)]; [left; by eapply refuse_when_raises|].
  apply obind_Raise in H as [H|(over & _ & H)]; [right|left; by eapply refuse_when_raises].
  unfold archive_exceeds in H. destruct (key_json "sourceArchive" _) as [| | | | |archive] eqn:Ea; try done. cbn [as_mapping] in H.
  apply obind_Raise in H as [[-> H]%exceeds_raises|(bytes & _ & H)]; [|destruct bytes; [done|]; apply exceeds_raises in H as [-> H]];
    (split; [done|]); exists archive; tauto.
Qed.

Lemma validated_limits raw w : validate_workload_spec raw = Ok w ->
  exists cpu disk, cpu_and_disk w = Ok (JInt cpu, JInt disk).
Proof.
  unfold validate_workload_spec. intros H. apply obind_Ok in H as ([] & _ & H).
  apply obind_Ok in H as (d & _ & H). destruct (kind_of _) as [k|]; [|done].
  apply obind_Ok in H as (id & _ & H). apply obind_Ok in H as (im & _ & H). apply obind_Ok in H as (rf & _ & H).
  apply obind_Ok in H as (ps & _ & H). apply obind_Ok in H as (np & Hnp & H).
  apply obind_Ok in H as (rs & Hrs & H). apply obind_Ok in H as (t & _ & H). apply obind_Ok in H as (b & _ & [= <-]).
  unfold cpu_and_disk. cbn [w_kind w_resources w_parameters]. destruct (is_run k) eqn:Ek.
  - unfold resources_of in Hrs. rewrite Ek in Hrs. apply obind_Ok in Hrs as (rd & _ & Hrs).
    do 4 (apply obind_Ok in Hrs as (? & _ & Hrs)). injection Hrs as <-. cbn. by do 2 eexists.
  - destruct (parameters_limits _ _ _ _ _ "cpuQuotaPercent" 100 Hnp Ek ltac:(by left)) as [cpu ->].
    destruct (parameters_limits _ _ _ _ _ "diskMaxBytes" (16 * MiB) Hnp Ek ltac:(by right)) as [disk ->].
    by exists cpu, disk.
Qed.

Lemma check_workload_raises count g raw w e :
  validate_workload_spec raw = Ok w -> check_workload count g w = Raise e -> refusal e \/ count (g_id g) = Raise e.
Proof.
  intros (cpu & disk & Hl)%validated_limits H. unfold check_workload in H. cbv zeta in H.
  do 8 (apply obind_Raise in H as [H|([] & _ & H)]; [left; by eapply refuse_when_raises|]).
  rewrite Hl in H. cbn [obind fst snd exceeds] in H.
  do 2 (apply obind_Raise in H as [H|([] & _ & H)]; [left; by eapply refuse_when_raises|]).
  apply obind_Raise in H as [H|(n & _ & H)]; [by right|left].
  apply obind_Raise in H as [H|([] & _ & H)]; by eapply refuse_when_raises.
Qed.

(** C21 Verification fails closed, and this is all it raises.  When a validated request, of
    any operation, is not authorized, [verify] raises a typed [GrantRefusal], which the daemon
    turns into a refusal receipt, except in four cases.  It raises a [TypeError] if the stored
    grant holds an unhashable value, if the expiry of the grant cannot be compared with the
    clock, or if the size or the file count of a deployment's source archive is not a number;
    and it raises what the count of active workloads raises, if the request is for a new
    workload. *)
Theorem verify_fails_closed (store : directory) (clock : string) (count : string -> verdict Z) (q : Request)
    (peer_uid : Z) (payload : Payload) (e : grant_error) :
  validated q payload ->
  verify store clock count q peer_uid payload = Raise e ->
  refusal e \/
  (e = TypeFault /\ (unhashable_grant store (q_grant_id q) \/ unordered_times store clock (q_grant_id q) \/
                     (q_operation q ∈ DEPLOYMENT_OPERATIONS /\ unsized_archive payload))) \/
  (q_operation q ∈ NEW_WORKLOAD /\ count (q_grant_id q) = Raise e).
Proof.
  intros Hnew H. unfold verify in H.
  apply obind_Raise in H as [H|(g & Hg & H)]; [destruct (load_grant_raises _ _ _ H) as [?|[? ?]]; tauto|].
  do 3 (apply obind_Raise in H as [H|([] & _ & H)]; [left; by eapply refuse_when_raises|]).
  apply obind_Raise in H as [H|([] & _ & H)]; [destruct (liveness_raises _ _ _ _ _ Hg H) as [?|[? ?]]; tauto|].
  apply obind_Raise in H as [H|([] & _ & H)]; [left; by eapply refuse_when_raises|].
  apply obind_Raise in H as [H|([] & _ & H)].
  { destruct (mem (q_operation q) DEPLOYMENT_OPERATIONS) eqn:Ed; [|done]. apply mem_true in Ed.
    apply deployment_raises in H. tauto. }
  apply obind_Raise in H as [H|([] & _ & H)]; [|done]. unfold check_target in H. fold NEW_WORKLOAD in H.
  destruct (mem (q_operation q) NEW_WORKLOAD) eqn:Em; [|left; by eapply refuse_when_raises].
  apply mem_true in Em. destruct (Hnew Em) as (raw & w & -> & Hw).
  apply load_grant_Ok in Hg as (_ & _ & _ & <-). destruct (check_workload_raises _ _ _ _ _ Hw H); tauto.
Qed.

(** ** Concrete stores *)

Definition run_spec : json :=
  JObj [("kind", JStr "agent-run"); ("workloadId", JStr "w1"); ("image", JObj [("reference", JStr some_image)]);
        ("parameters", JObj [("runSpecDigest", JStr some_digest); ("statePackReference", JStr "pack")]);
        ("timeoutSeconds", JInt 300); ("outputByteBound", JInt 4096);
        ("resources", JObj [("memoryMaxBytes", JInt 67108864); ("cpuQuotaPercent", JInt 50); ("pidsMax", JInt 32);
                            ("diskMaxBytes", JInt 67108864)])].

Definition run_workload : Workload :=
  {| w_kind := AgentRun; w_id := "w1"; w_image := some_image;
     w_parameters := [("runSpecDigest", JStr some_digest); ("statePackReference", JStr "pack"); ("workSeconds", JInt 0);
                      ("emitBytes", JInt 0)];
     w_timeout := 300; w_output_bound := 4096;
     w_resources := {| r_memory := 67108864; r_pids := 32; r_cpu_disk := Some (50, 67108864)%Z |} |}.

Example run_spec_Ok : validate_workload_spec run_spec = Ok run_workload.
Proof. vm_compute. reflexivity. Qed.

Definition no_revocation : json :=
  JObj [("revokedGrantIds", JArr []); ("pausedGrantIds", JArr []); ("revocationEpoch", JInt 1)].

Definition store_of (grant : dict) : directory :=
  {[ "g1.json" := Some (JObj grant); REVOCATION := Some no_revocation ]}.

Definition run_grant : dict :=
  grant_document (canonical_digest (JObj (workload_dict run_workload))) "2027-01-01T00:00:00Z" [JStr "w1"].

Definition digest_of (grant : dict) : string := canonical_digest (JObj grant).

Definition create_request (grant : dict) : Request :=
  {| q_id := "op-1"; q_operation := "createWorkload"; q_grant_id := "g1"; q_grant_digest := digest_of grant;
     q_timeout := 60; q_output_bound := 4096 |}.

Definition none_active : string -> verdict Z := fun _ => Ok 0%Z.

Definition verified (clock : string) : verdict Grant :=
  verify (store_of run_grant) clock none_active (create_request run_grant) 1000 (NewWorkload run_workload).

Lemma verified_in_time : exists g, verified "2026-06-01T12:00:00.250Z" = Ok g /\ verified "2026-12-31T23:59:59Z" = Ok g.
Proof. eexists. split; vm_compute; reflexivity. Qed.

Lemma verified_too_late : verified "2027-01-01T00:00:00.000Z" = Raise (GrantRefusal "grant-expired" "the grant expired").
Proof. vm_compute. reflexivity. Qed.

Lemma store_of_wf grant : wf_json (JObj grant) -> wf_store (store_of grant).
Proof.
  intros Hwf name v H. unfold store_of in H. apply lookup_insert_Some in H as [[_ [= <-]]|[_ H]]; [done|].
  apply lookup_singleton_Some in H as [_ [= <-]]. by apply wf_jsonb_wf.
Qed.

Lemma run_grant_wf : wf_json (JObj run_grant).
Proof. by apply wf_jsonb_wf. Qed.

Lemma one_sealed_spec_witness :
  norm (JObj (workload_dict run_workload)) = norm (JObj (workload_dict run_workload)).
Proof.
  destruct verified_in_time as (g & H1 & H2).
  refine (one_sealed_spec (store_of run_grant) (store_of run_grant) "2026-06-01T12:00:00.250Z" "2026-12-31T23:59:59Z"
    none_active none_active (create_request run_grant) (create_request run_grant) 1000 1000 run_workload run_workload g g
    (store_of_wf _ run_grant_wf) (store_of_wf _ run_grant_wf) H1 H2 _ _ eq_refl eq_refl
    (collision_free_same _) (collision_free_same _)); by left.
Defined.

Lemma run_validated : validated (create_request run_grant) (NewWorkload run_workload).
Proof. intros _. exists run_spec, run_workload. split; [done|exact run_spec_Ok]. Qed.

Lemma verify_fails_closed_witness :
  refusal (GrantRefusal "grant-expired" "the grant expired") \/
  (GrantRefusal "grant-expired" "the grant expired" = TypeFault /\
   (unhashable_grant (store_of run_grant) "g1" \/ unordered_times (store_of run_grant) "2027-01-01T00:00:00.000Z" "g1" \/
    ("createWorkload" ∈ DEPLOYMENT_OPERATIONS /\ unsized_archive (NewWorkload run_workload)))) \/
  ("createWorkload" ∈ NEW_WORKLOAD /\ none_active "g1" = Raise (GrantRefusal "grant-expired" "the grant expired")).
Proof.
  exact (verify_fails_closed (store_of run_grant) "2027-01-01T00:00:00.000Z" none_active (create_request run_grant) 1000
    (NewWorkload run_workload) _ run_validated verified_too_late).
Defined.

(** ** Grants whose expiry is a date *)

Definition dated_grant : dict := grant_document some_digest "2027-01-01Z" [JStr "w1"].

Lemma dated_grant_loads : exists g r t,
  load_grant (store_of dated_grant) "g1" = Ok g /\ revocation (store_of dated_grant) = Ok r /\
  mem (g_id g) (rv_revoked r) = false /\ (g_epoch g <? rv_epoch r)%Z = false /\ mem (g_id g) (rv_paused r) = false /\
  parse_instant (g_expires_at g) = Some {| dt_local := t; dt_offset := None |}.
Proof. do 3 eexists. split_and!; [vm_compute; reflexivity..]. Qed.

(** A date is accepted as the expiry of a grant and cannot be compared with the time.
    The validator takes ["2027-01-01Z"]; [_parse_instant] reads it, with its suffix
    replaced, as a midnight without an offset; and as soon as the clock has an offset, as
    the daemon's has, [assert_live] raises [TypeError] instead of a refusal. *)
Theorem dated_expiry_is_not_refused (clock : string) (now : datetime) (offset : Z) :
  parse_instant clock = Some now -> dt_offset now = Some offset ->
  assert_live (store_of dated_grant) clock "g1" None = Raise TypeFault.
Proof.
  intros Hnow Ho. destruct dated_grant_loads as (g & r & t & Hg & Hr & H1 & H2 & H3 & Ht).
  unfold assert_live, check_liveness. rewrite Hg. cbn [obind refuse_when refuse_if]. rewrite Hr.
  cbn [obind]. rewrite H1, H2, H3. cbn [refuse_when refuse_if obind]. rewrite Hnow, Ht.
  unfold not_before. by rewrite Ho.
Qed.

Lemma dated_expiry_is_not_refused_witness :
  assert_live (store_of dated_grant) "2026-06-01T12:00:00.250Z" "g1" None = Raise TypeFault.
Proof.
  apply (dated_expiry_is_not_refused "2026-06-01T12:00:00.250Z"
    (default {| dt_local := 0; dt_offset := None |} (parse_instant "2026-06-01T12:00:00.250Z")) 0); vm_compute; reflexivity.
Defined.

(** A list among the workload ids ends in the same way. *)
Example nested_id_is_not_refused :
  load_grant (store_of (grant_document some_digest "2027-01-01T00:00:00Z" [JArr []])) "g1" = Raise TypeFault.
Proof. vm_compute. reflexivity. Qed.
