(* ===== verification/RuntimeContracts.v ===== *)
(** * Runtime contracts (packages/runtime-contracts, contracts.py and alpha4.py)

    The typed documents of a managed run: workspaces, agent runs, validators, promotions
    and their receipts, the health projection, run leases and run evidence.  A contract is
    made from parsed JSON by [from_dict], which refuses credential-like field names and
    checks the shape; it keeps the checked document, whose canonical digest names it.  The
    field validators of contracts.py are shared by all of them. *)

From S2P Require Import Prelude Json JsonParse Sha256 Paths Contracts.

(** ** Field validators (contracts.py) *)

(** [_SECRET.search(key)] with [re.I] *)
Definition SECRET_search (key : string) : bool :=
  existsb (fun p => has_sub p (lower key))
    (optional_separator "api" "key"
     ++ ["authorization"; "cookie"; "credential"; "password"; "secret"]
     ++ optional_separator "access" "token" ++ optional_separator "refresh" "token"
     ++ optional_separator "private" "key").

(** [^[0-9a-f]{40,64}$] *)
Definition GIT_SHA_fullmatch (s : string) : bool :=
  all_chars is_hex s && (40 <=? py_len s)%Z && (py_len s <=? 64)%Z.

(** [set(value).issubset(keys | optional) and keys.issubset(value)] *)
Definition has_shape (keys optional : list string) (d : dict) : bool :=
  forallb (fun k => mem k (keys ++ optional)) (dict_keys d) && forallb (fun k => dict_has k d) keys.

(** [_mapping]; after it [data[key]] is [key_json key data] for each of the keys. *)
Definition mapping (value : json) (name : string) (keys optional : list string) : checked dict :=
  match value with
  | JObj d => if has_shape keys optional d then Ok d else invalid (name +:+ " has an invalid shape")
  | _ => invalid (name +:+ " has an invalid shape")
  end.

Definition string_ (value : json) (name : string) (limit : Z) : checked string :=
  match value with
  | JStr s =>
      if nonblank s && (py_len s <=? limit)%Z then Ok s
      else invalid (name +:+ " must be a non-empty bounded string")
  | _ => invalid (name +:+ " must be a non-empty bounded string")
  end.

Definition id_ (value : json) (name : string) : checked string :=
  let? s := string_ value name 128 in
  if ID_fullmatch s then Ok s else invalid (name +:+ " has invalid characters").

Definition digest_ (value : json) (name : string) : checked string :=
  let? s := string_ value name 71 in
  if DIGEST_fullmatch s then Ok s else invalid (name +:+ " must be a sha256 digest").

Definition git_sha (value : json) (name : string) : checked string :=
  let? s := string_ value name 64 in
  if GIT_SHA_fullmatch s then Ok s else invalid (name +:+ " must be an immutable Git SHA").

(** [_strings] without [paths] *)
Definition strings_ (value : json) (name : string) (nonempty : bool) (limit : Z) : checked (list string) :=
  let error := name +:+ " must be a bounded list" +:+ (if nonempty then " with at least one item" else "") in
  match value with
  | JArr l =>
      invalid_if ((nonempty && bool_decide (l = [])) || (limit <? Z.of_nat (length l))%Z) error >>?
      let? result := each (fun v => string_ v name 4096) l in
      invalid_if (has_dups result) (name +:+ " must not contain duplicates") >>?
      Ok result
  | _ => invalid error
  end.

Fixpoint no_secrets (value : json) (location : string) {struct value} : checked unit :=
  match value with
  | JObj fs =>
      (fix go (fs : dict) : checked unit :=
         match fs with
         | [] => Ok tt
         | (key, item) :: rest =>
             if SECRET_search key then invalid ("credential-like field is forbidden at " +:+ location +:+ "." +:+ key)
             else no_secrets item (location +:+ "." +:+ key) >>? go rest
         end) fs
  | JArr l =>
      (fix go (l : list json) (index : nat) : checked unit :=
         match l with
         | [] => Ok tt
         | item :: rest => no_secrets item (location +:+ "[" +:+ pretty index +:+ "]") >>? go rest (S index)
         end) l 0
  | _ => Ok tt
  end.

(** [value != expected] for a string *)
Definition differs (value : json) (expected : string) : bool := negb (py_eqb value (JStr expected)).

Definition is_bool (v : json) : bool := match v with JBool _ => true | _ => false end.

(** [v not in {...}] *)
Definition invalid_unless_in (v : json) (l : list string) (message : string) : checked unit :=
  let? known := in_set v l in invalid_if (negb known) message.

(** ** Field validators (alpha4.py) *)

Definition bounded_int (value : json) (name : string) (minimum maximum : Z) : checked Z :=
  let error := name +:+ " must be an integer in [" +:+ pretty minimum +:+ ", " +:+ pretty maximum +:+ "]" in
  match value with
  | JInt z => if (minimum <=? z)%Z && (z <=? maximum)%Z then Ok z else invalid error
  | _ => invalid error
  end.

Definition absolute_runtime_path (value : json) (name : string) : checked string :=
  let? s := string_ value name 256 in
  if startswith "/" s && negb (has_backslash s) && negb (mem ".." (path_parts s)) then Ok s
  else invalid (name +:+ " must be an absolute non-traversing POSIX path").

Definition argv (value : json) (name : string) : checked (list string) :=
  match value with
  | JArr l =>
      invalid_if (bool_decide (l = []) || (32 <? Z.of_nat (length l))%Z) (name +:+ " must be a bounded non-empty argv") >>?
      let? result := each_numbered (fun i v => string_ v (name +:+ "[" +:+ pretty i +:+ "]") 256) 0 l in
      invalid_if (existsb has_nul result) (name +:+ " contains a NUL byte") >>?
      Ok result
  | _ => invalid (name +:+ " must be a bounded non-empty argv")
  end.

Definition MiB : Z := 1024 * 1024.
Definition GiB : Z := 1024 * MiB.
Definition INT_MAX : Z := 2 ^ 31 - 1.

Definition resources (value : json) (name : string) : checked dict :=
  let? data := mapping value name ["memoryMaxBytes"; "cpuQuotaPercent"; "pidsMax"; "diskMaxBytes"] [] in
  let? memory := bounded_int (key_json "memoryMaxBytes" data) (name +:+ ".memoryMaxBytes") (16 * MiB) (8 * GiB) in
  let? cpu := bounded_int (key_json "cpuQuotaPercent" data) (name +:+ ".cpuQuotaPercent") 1 800 in
  let? pids := bounded_int (key_json "pidsMax" data) (name +:+ ".pidsMax") 16 4096 in
  let? disk := bounded_int (key_json "diskMaxBytes" data) (name +:+ ".diskMaxBytes") (16 * MiB) (1024 * GiB) in
  Ok [("memoryMaxBytes", JInt memory); ("cpuQuotaPercent", JInt cpu); ("pidsMax", JInt pids); ("diskMaxBytes", JInt disk)].

Definition network_modes (allow_gateway : bool) : list string :=
  if allow_gateway then ["disabled"; "developer"; "model-gateway-only"] else ["disabled"; "developer"].

Definition network (value : json) (name : string) (allow_gateway : bool) : checked dict :=
  let? data := mapping value name ["mode"; "allowlist"] [] in
  let mode := key_json "mode" data in
  invalid_unless_in mode (network_modes allow_gateway) (name +:+ ".mode is invalid") >>?
  let? allowlist := strings_ (key_json "allowlist" data) (name +:+ ".allowlist") false 128 in
  let some := negb (bool_decide (allowlist = [])) in
  invalid_if (negb (differs mode "disabled") && some) (name +:+ ".allowlist must be empty when networking is disabled") >>?
  invalid_if (negb (differs mode "model-gateway-only") && some)
    (name +:+ ".allowlist must be empty for the StatePort gateway route") >>?
  Ok [("mode", mode); ("allowlist", jstrs allowlist)].

(** One cache volume, after those whose identifiers are given. *)
Definition cache_volume (seen : list string) (item : json) : checked (string * json) :=
  let? data := mapping item "cache volume" ["volumeId"; "mountPath"; "readOnly"] [] in
  let? volume_id := id_ (key_json "volumeId" data) "cache volume.volumeId" in
  invalid_if (mem volume_id seen) "cache volume ids must be unique" >>?
  let? mount := absolute_runtime_path (key_json "mountPath" data) "cache volume.mountPath" in
  invalid_if (negb (startswith "/workspace/" mount)) "cache volume.mountPath must be below /workspace" >>?
  invalid_if (negb (is_bool (key_json "readOnly" data))) "cache volume.readOnly must be boolean" >>?
  Ok (volume_id, JObj [("volumeId", JStr volume_id); ("mountPath", JStr mount); ("readOnly", key_json "readOnly" data)]).

Fixpoint cache_volume_list (seen : list string) (l : list json) : checked (list json) :=
  match l with
  | [] => Ok []
  | item :: rest =>
      let? volume := cache_volume seen item in
      let? volumes := cache_volume_list (fst volume :: seen) rest in
      Ok (snd volume :: volumes)
  end.

Definition cache_volumes (value : json) : checked json :=
  match value with
  | JArr l =>
      invalid_if (16 <? Z.of_nat (length l))%Z "cacheVolumes must be a bounded array" >>?
      let? volumes := cache_volume_list [] l in
      Ok (JArr volumes)
  | _ => invalid "cacheVolumes must be a bounded array"
  end.

(** [_iso_timestamp] *)
Definition ends_with_Z (s : string) : bool :=
  bool_decide (String.substring (String.length s - 1) 1 s = "Z").

Definition iso_timestamp (value : json) (name : string) : checked string :=
  let? s := string_ value name 64 in
  invalid_if (negb (ends_with_Z s) || any_char (fun c => bool_decide (c = "010"%char)) s)
    (name +:+ " must be a bounded UTC timestamp") >>?
  Ok s.

(** [for field in fields: check(data[field], field)] *)
Definition each_field {A} (check : json -> string -> checked A) (fields : list string) (data : dict) : checked unit :=
  each (fun f => check (key_json f data) f) fields >>? Ok tt.

(** ** The contracts: [cls._validate] *)

Definition contract_fields (value : json) (name : string) (keys optional : list string) (format : string) : checked dict :=
  no_secrets value "$" >>?
  let? data := mapping value name keys optional in
  invalid_if (differs (key_json "formatVersion" data) format) (name +:+ " has an invalid formatVersion") >>?
  Ok data.

Definition WorkspaceSpec_validate (value : json) : checked dict :=
  let? data := contract_fields value "workspace specification"
    ["formatVersion"; "workspaceId"; "imageDigest"; "workspacePath"; "shell"; "resources"; "networkProfile";
     "cacheVolumes"; "lifecyclePolicy"] [] "stateport.workspace-spec/v1" in
  let? workspace_id := id_ (key_json "workspaceId" data) "workspaceId" in
  let? image_digest := digest_ (key_json "imageDigest" data) "imageDigest" in
  invalid_if (differs (key_json "workspacePath" data) "/workspace") "workspacePath must be exactly /workspace" >>?
  let? shell := argv (key_json "shell" data) "shell" in
  let? resources := resources (key_json "resources" data) "resources" in
  let? network := network (key_json "networkProfile" data) "networkProfile" false in
  let? caches := cache_volumes (key_json "cacheVolumes" data) in
  let? lifecycle := mapping (key_json "lifecyclePolicy" data) "lifecyclePolicy"
    ["idleTimeoutSeconds"; "stopAfterIdle"; "preserveDataOnRemove"] [] in
  let? idle := bounded_int (key_json "idleTimeoutSeconds" lifecycle) "lifecyclePolicy.idleTimeoutSeconds" 0 (30 * 24 * 3600) in
  let stop := key_json "stopAfterIdle" lifecycle in
  invalid_if (negb (is_bool stop) || negb (bool_decide (key_json "preserveDataOnRemove" lifecycle = JBool true)))
    "workspace data must be preserved when a container is removed" >>?
  Ok [("formatVersion", JStr "stateport.workspace-spec/v1"); ("workspaceId", JStr workspace_id);
      ("imageDigest", JStr image_digest); ("workspacePath", JStr "/workspace"); ("shell", jstrs shell);
      ("resources", JObj resources); ("networkProfile", JObj network); ("cacheVolumes", caches);
      ("lifecyclePolicy", JObj [("idleTimeoutSeconds", JInt idle); ("stopAfterIdle", stop); ("preserveDataOnRemove", JBool true)])].

Definition WorkspaceRuntimeIdentity_validate (value : json) : checked dict :=
  let? data := contract_fields value "workspace runtime identity"
    ["formatVersion"; "workspaceId"; "containerId"; "imageDigest"; "runtimeUser"; "status"; "revision"; "health"; "observedAt"] []
    "stateport.workspace-runtime-identity/v1" in
  id_ (key_json "workspaceId" data) "workspaceId" >>?
  id_ (key_json "containerId" data) "containerId" >>?
  digest_ (key_json "imageDigest" data) "imageDigest" >>?
  let? user := mapping (key_json "runtimeUser" data) "runtimeUser" ["uid"; "gid"] [] in
  bounded_int (key_json "uid" user) "runtimeUser.uid" 1 INT_MAX >>?
  bounded_int (key_json "gid" user) "runtimeUser.gid" 1 INT_MAX >>?
  invalid_unless_in (key_json "status" data)
    ["created"; "running"; "stopped"; "recreating"; "removed"; "interrupted"; "unavailable"]
    "workspace runtime status is invalid" >>?
  git_sha (key_json "revision" data) "revision" >>?
  let? health := mapping (key_json "health" data) "workspace health" ["status"; "detail"] [] in
  invalid_unless_in (key_json "status" health) ["healthy"; "degraded"; "unhealthy"; "unknown"]
    "workspace health status is invalid" >>?
  string_ (key_json "detail" health) "workspace health.detail" 1024 >>?
  string_ (key_json "observedAt" data) "observedAt" 64 >>?
  Ok data.

(** The commands of a run or of a validator, each a normalized argv. *)
Definition commands_of (name : string) (l : list json) : checked json :=
  let? commands := each_numbered (fun i v => argv v (name +:+ "[" +:+ pretty i +:+ "]")) 0 l in
  Ok (JArr (jstrs <$> commands)).

Definition AgentRunSpecification_validate (value : json) : checked dict :=
  let? data := contract_fields value "agent run specification"
    ["formatVersion"; "runId"; "workspaceId"; "baseRevision"; "stagingPath"; "imageDigest"; "provider"; "model";
     "networkProfile"; "authorityGrantDigest"; "budgets"; "resources"; "validationCommands"] []
    "stateport.managed-agent-run/v1" in
  each_field id_ ["runId"; "workspaceId"] data >>?
  git_sha (key_json "baseRevision" data) "baseRevision" >>?
  absolute_runtime_path (key_json "stagingPath" data) "stagingPath" >>?
  invalid_if (negb (differs (key_json "stagingPath" data) "/workspace"))
    "agent staging must not be the persistent workspace mount" >>?
  digest_ (key_json "imageDigest" data) "imageDigest" >>?
  id_ (key_json "provider" data) "provider" >>?
  id_ (key_json "model" data) "model" >>?
  let? network := network (key_json "networkProfile" data) "networkProfile" true in
  invalid_unless_in (key_json "mode" network) ["disabled"; "model-gateway-only"]
    "managed agent network must be disabled or StatePort-gateway-only" >>?
  digest_ (key_json "authorityGrantDigest" data) "authorityGrantDigest" >>?
  let? budgets := mapping (key_json "budgets" data) "agent budgets" ["timeSeconds"; "token"; "costMinor"; "steps"] [] in
  each (fun kv => bounded_int (snd kv) ("budgets." +:+ fst kv) 0 INT_MAX) budgets >>?
  let? resources := resources (key_json "resources" data) "agent resources" in
  match key_json "validationCommands" data with
  | JArr l =>
      invalid_if (16 <? Z.of_nat (length l))%Z "validationCommands must be a bounded array" >>?
      let? commands := commands_of "validationCommands" l in
      Ok (dict_update data [("networkProfile", JObj network); ("budgets", JObj budgets); ("resources", JObj resources);
                            ("validationCommands", commands)])
  | _ => invalid "validationCommands must be a bounded array"
  end.

(** [value is not expected] for the two booleans *)
Definition is_not_bool (v : json) (b : bool) : bool := negb (bool_decide (v = JBool b)).

Definition ValidatorSpec_validate (value : json) : checked dict :=
  let? data := contract_fields value "validator specification"
    ["formatVersion"; "validatorId"; "imageDigest"; "stagingPath"; "commands"; "resources"; "timeoutSeconds";
     "outputByteBound"; "network"; "stagingReadOnly"; "providerAccess"; "runtimeSocketAccess"; "hostMounts"] []
    "stateport.validator-spec/v1" in
  id_ (key_json "validatorId" data) "validatorId" >>?
  digest_ (key_json "imageDigest" data) "imageDigest" >>?
  let? staging := absolute_runtime_path (key_json "stagingPath" data) "stagingPath" in
  invalid_if (negb (startswith "/" staging)) "validator stagingPath must be absolute" >>?
  match key_json "commands" data with
  | JArr l =>
      invalid_if (bool_decide (l = [])) "validator commands must be non-empty" >>?
      let? commands := commands_of "commands" l in
      let? resources := resources (key_json "resources" data) "validator resources" in
      let bound k := match key_json k resources with JInt z => z | _ => 0%Z end in
      invalid_if ((GiB <? bound "memoryMaxBytes") || (4 * GiB <? bound "diskMaxBytes"))%Z
        "validator resource limits exceed the execution-host bounds" >>?
      let? timeout := bounded_int (key_json "timeoutSeconds" data) "timeoutSeconds" 1 3600 in
      let? output := bounded_int (key_json "outputByteBound" data) "outputByteBound" 1 (4 * MiB) in
      invalid_if (differs (key_json "network" data) "disabled") "validator network must be disabled in alpha.4" >>?
      invalid_if (is_not_bool (key_json "stagingReadOnly" data) true) "validator stagingReadOnly violates isolation" >>?
      invalid_if (is_not_bool (key_json "providerAccess" data) false) "validator providerAccess violates isolation" >>?
      invalid_if (is_not_bool (key_json "runtimeSocketAccess" data) false) "validator runtimeSocketAccess violates isolation" >>?
      invalid_if (negb (bool_decide (key_json "hostMounts" data = JArr []))) "validator host mounts must be empty" >>?
      Ok (dict_update data [("commands", commands); ("resources", JObj resources); ("timeoutSeconds", JInt timeout);
                            ("outputByteBound", JInt output)])
  | _ => invalid "validator commands must be non-empty"
  end.

Definition PromotionSpec_validate (value : json) : checked dict :=
  let? data := contract_fields value "promotion specification"
    ["formatVersion"; "promotionId"; "workspaceId"; "candidateId"; "expectedBaseRevision"; "candidateRevision"; "diffDigest";
     "validatorEvidenceDigest"; "approvalId"; "rollbackPointDigest"] [] "stateport.promotion-spec/v1" in
  each_field id_ ["promotionId"; "workspaceId"; "candidateId"; "approvalId"] data >>?
  git_sha (key_json "expectedBaseRevision" data) "expectedBaseRevision" >>?
  git_sha (key_json "candidateRevision" data) "candidateRevision" >>?
  each_field digest_ ["diffDigest"; "validatorEvidenceDigest"; "rollbackPointDigest"] data >>?
  Ok data.

(** The sections of a promotion receipt. *)

Definition must_be_bool (v : json) (name : string) : checked unit :=
  invalid_if (negb (is_bool v)) (name +:+ " must be boolean").

Definition agent_claim (value : json) : checked unit :=
  let? claim := mapping value "agentClaim" ["baseRevision"; "diffDigest"; "validatorEvidenceDigest"] [] in
  git_sha (key_json "baseRevision" claim) "agentClaim.baseRevision" >>?
  digest_ (key_json "diffDigest" claim) "agentClaim.diffDigest" >>?
  digest_ (key_json "validatorEvidenceDigest" claim) "agentClaim.validatorEvidenceDigest" >>?
  Ok tt.

Definition observed_process_result (value : json) : checked unit :=
  let? observed := mapping value "observedProcessResult" ["currentRevision"; "diffDigest"; "baseRevisionMatched"] [] in
  git_sha (key_json "currentRevision" observed) "observedProcessResult.currentRevision" >>?
  digest_ (key_json "diffDigest" observed) "observedProcessResult.diffDigest" >>?
  must_be_bool (key_json "baseRevisionMatched" observed) "observedProcessResult.baseRevisionMatched".

Definition validator_evidence (value : json) : checked unit :=
  let? evidence := mapping value "validatorEvidence" ["evidenceDigest"; "validatorId"; "evidenceMatched"] [] in
  digest_ (key_json "evidenceDigest" evidence) "validatorEvidence.evidenceDigest" >>?
  id_ (key_json "validatorId" evidence) "validatorEvidence.validatorId" >>?
  must_be_bool (key_json "evidenceMatched" evidence) "validatorEvidence.evidenceMatched".

Definition approval_section (value : json) : checked dict :=
  let? approval := mapping value "approval" ["approvalId"; "status"; "actor"; "boundCandidateId"; "approvalMatched"] [] in
  id_ (key_json "approvalId" approval) "approval.approvalId" >>?
  invalid_unless_in (key_json "status" approval) ["approved"; "rejected"; "cancelled"; "pending"] "approval.status is invalid" >>?
  id_ (key_json "actor" approval) "approval.actor" >>?
  id_ (key_json "boundCandidateId" approval) "approval.boundCandidateId" >>?
  must_be_bool (key_json "approvalMatched" approval) "approval.approvalMatched" >>?
  Ok approval.

Definition rollback_point (value : json) : checked unit :=
  let? rollback := mapping value "rollbackPoint" ["digest"; "prePromotionRevision"; "rollbackPointMatched"] [] in
  digest_ (key_json "digest" rollback) "rollbackPoint.digest" >>?
  match key_json "prePromotionRevision" rollback with
  | JNull => Ok tt
  | v => git_sha v "rollbackPoint.prePromotionRevision" >>? Ok tt
  end >>?
  must_be_bool (key_json "rollbackPointMatched" rollback) "rollbackPoint.rollbackPointMatched".

Definition CHECKS : list string := ["baseRevision"; "approval"; "diffDigest"; "validatorEvidence"; "rollbackPoint"].

Definition promotion_decision (value : json) (approval : dict) : checked unit :=
  let? decision := mapping value "promotionDecision" ["decision"; "reason"; "checks"] [] in
  let decided := key_json "decision" decision in
  invalid_unless_in decided ["promoted"; "refused"] "promotionDecision.decision is invalid" >>?
  string_ (key_json "reason" decision) "promotionDecision.reason" 1024 >>?
  let? checks := mapping (key_json "checks" decision) "promotionDecision.checks" CHECKS [] in
  each (fun kv => must_be_bool (snd kv) ("promotionDecision.checks." +:+ fst kv)) checks >>?
  if differs decided "promoted" then Ok tt
  else
    invalid_if (negb (forallb (fun kv => bool_decide (snd kv = JBool true)) checks))
      "a promoted receipt requires every binding check to pass" >>?
    invalid_if (differs (key_json "status" approval) "approved" || is_not_bool (key_json "approvalMatched" approval) true)
      "a promoted receipt requires an approved candidate-bound approval".

Definition PromotionReceipt_validate (value : json) : checked dict :=
  let? data := contract_fields value "promotion receipt"
    ["formatVersion"; "promotionId"; "workspaceId"; "candidateId"; "expectedBaseRevision"; "candidateRevision"; "diffDigest";
     "validatorEvidenceDigest"; "approvalId"; "rollbackPointDigest"; "specDigest"; "observedAt"; "receiptDigest"; "agentClaim";
     "observedProcessResult"; "validatorEvidence"; "approval"; "rollbackPoint"; "promotionDecision"] []
    "stateport.promotion-receipt/v1" in
  each_field id_ ["promotionId"; "workspaceId"; "candidateId"; "approvalId"] data >>?
  git_sha (key_json "expectedBaseRevision" data) "expectedBaseRevision" >>?
  git_sha (key_json "candidateRevision" data) "candidateRevision" >>?
  each_field digest_ ["diffDigest"; "validatorEvidenceDigest"; "rollbackPointDigest"; "specDigest"; "receiptDigest"] data >>?
  string_ (key_json "observedAt" data) "observedAt" 64 >>?
  agent_claim (key_json "agentClaim" data) >>?
  observed_process_result (key_json "observedProcessResult" data) >>?
  validator_evidence (key_json "validatorEvidence" data) >>?
  let? approval := approval_section (key_json "approval" data) in
  rollback_point (key_json "rollbackPoint" data) >>?
  promotion_decision (key_json "promotionDecision" data) approval >>?
  Ok data.

Definition object_or_null (v : json) (name : string) : checked unit :=
  match v with JNull | JObj _ => Ok tt | _ => invalid (name +:+ " must be an object or null") end.

Definition health_section (v : json) (field : string) : checked unit :=
  let? section := mapping v field ["status"; "detail"] [] in
  invalid_unless_in (key_json "status" section) ["ready"; "unavailable"; "unverified"; "failed"] (field +:+ ".status is invalid") >>?
  string_ (key_json "detail" section) (field +:+ ".detail") 1024 >>?
  Ok tt.

Definition RuntimeHealthProjection_validate (value : json) : checked dict :=
  let? data := contract_fields value "runtime health projection"
    ["formatVersion"; "executionHost"; "workspace"; "modelProvider"; "modelGateway"; "validator"; "currentRun";
     "pendingApproval"; "promotion"] [] "stateport.runtime-health-projection/v1" in
  let? host := mapping (key_json "executionHost" data) "executionHost" ["status"; "socketPresent"; "identity"; "detail"] [] in
  let? known := in_set (key_json "status" host) ["healthy"; "degraded"; "absent"; "unavailable"; "interrupted"] in
  invalid_if (negb known || negb (is_bool (key_json "socketPresent" host))) "executionHost health is invalid" >>?
  string_ (key_json "identity" host) "executionHost.identity" 256 >>?
  string_ (key_json "detail" host) "executionHost.detail" 1024 >>?
  each_field object_or_null ["workspace"; "currentRun"; "pendingApproval"; "promotion"] data >>?
  each_field health_section ["modelProvider"; "modelGateway"; "validator"] data >>?
  Ok data.

Definition LEASE_STATES : list string := ["granted"; "renewed"; "expired"; "released"; "revoked"].
Definition LEASE_FORMAT : string := "stateport.run-lease/v1".

Definition RunLease_validate (value : json) : checked dict :=
  let? data := contract_fields value "run lease"
    ["formatVersion"; "leaseId"; "runId"; "workspaceId"; "executorKind"; "imageDigest"; "claimPath"; "startedAt"; "expiresAt";
     "state"] [] LEASE_FORMAT in
  each_field id_ ["leaseId"; "runId"; "workspaceId"; "executorKind"] data >>?
  digest_ (key_json "imageDigest" data) "imageDigest" >>?
  absolute_runtime_path (key_json "claimPath" data) "claimPath" >>?
  iso_timestamp (key_json "startedAt" data) "startedAt" >>?
  iso_timestamp (key_json "expiresAt" data) "expiresAt" >>?
  invalid_unless_in (key_json "state" data) LEASE_STATES "run lease state is invalid" >>?
  Ok data.

Definition EVIDENCE_OUTCOMES : list string := ["completed"; "failed"; "cancelled"; "refused"].

Definition executed_process (value : json) : checked unit :=
  let? process := mapping value "executedProcess" ["executor"; "pid"; "exitCode"; "durationSeconds"; "digestOfOutput"]
    ["containerWorkloadId"; "observedImageDigest"] in
  id_ (key_json "executor" process) "executedProcess.executor" >>?
  match key_json "pid" process with
  | JNull =>
      invalid_if (negb (dict_has "containerWorkloadId" process))
        "executedProcess must bind a real pid or a daemon-observed container workload id"
  | pid =>
      let? z := bounded_int pid "executedProcess.pid" 0 INT_MAX in
      invalid_if (z =? 0)%Z "executedProcess.pid must belong to a real executed process"
  end >>?
  match dict_get "containerWorkloadId" process with
  | Some v => id_ v "executedProcess.containerWorkloadId" >>? Ok tt
  | None => Ok tt
  end >>?
  match dict_get "observedImageDigest" process with
  | Some v => digest_ v "executedProcess.observedImageDigest" >>? Ok tt
  | None => Ok tt
  end >>?
  bounded_int (key_json "exitCode" process) "executedProcess.exitCode" (-2 ^ 16) (2 ^ 16 - 1) >>?
  bounded_int (key_json "durationSeconds" process) "executedProcess.durationSeconds" 0 INT_MAX >>?
  digest_ (key_json "digestOfOutput" process) "executedProcess.digestOfOutput" >>?
  Ok tt.

Definition RunEvidence_validate (value : json) : checked dict :=
  let? data := contract_fields value "run evidence"
    ["formatVersion"; "runId"; "workspaceId"; "executorKind"; "imageDigest"; "startedAt"; "endedAt"; "outcome"; "exitReason";
     "digestOfOutput"; "leaseId"] ["executedProcess"] "stateport.run-evidence/v1" in
  each_field id_ ["runId"; "workspaceId"; "executorKind"] data >>?
  digest_ (key_json "imageDigest" data) "imageDigest" >>?
  iso_timestamp (key_json "startedAt" data) "startedAt" >>?
  iso_timestamp (key_json "endedAt" data) "endedAt" >>?
  invalid_unless_in (key_json "outcome" data) EVIDENCE_OUTCOMES "run evidence outcome is invalid" >>?
  string_ (key_json "exitReason" data) "exitReason" 1024 >>?
  digest_ (key_json "digestOfOutput" data) "digestOfOutput" >>?
  id_ (key_json "leaseId" data) "leaseId" >>?
  match dict_get "executedProcess" data with Some v => executed_process v | None => Ok tt end >>?
  Ok data.

(** ** [_Contract] *)

Inductive contract :=
| WorkspaceSpec | WorkspaceRuntimeIdentity | AgentRunSpecification | ValidatorSpec | PromotionSpec | PromotionReceipt
| RuntimeHealthProjection | RunLease | RunEvidence.

Definition validate (c : contract) : json -> checked dict :=
  match c with
  | WorkspaceSpec => WorkspaceSpec_validate
  | WorkspaceRuntimeIdentity => WorkspaceRuntimeIdentity_validate
  | AgentRunSpecification => AgentRunSpecification_validate
  | ValidatorSpec => ValidatorSpec_validate
  | PromotionSpec => PromotionSpec_validate
  | PromotionReceipt => PromotionReceipt_validate
  | RuntimeHealthProjection => RuntimeHealthProjection_validate
  | RunLease => RunLease_validate
  | RunEvidence => RunEvidence_validate
  end.

(** The fields of the contract; [to_dict] gives them back. *)
Definition from_dict (c : contract) (value : json) : checked dict :=
  no_secrets value "$" >>? validate c value.

(** ** One document, whatever the order of its keys

    A contract is written as JSON with sorted keys and read back, so nothing may depend on
    the order in which a dictionary lists its fields.  [same] relates two spellings of one
    document; every validator below treats them alike: it accepts both or neither, and
    what it returns is the same document. *)

Definition same (v w : json) : Prop := wf_json v /\ wf_json w /\ norm v = norm w.
Definition same_dict (d e : dict) : Prop := same (JObj d) (JObj e).

#[export] Instance same_symmetric : Symmetric same.
Proof. intros v w (? & ? & ?). by repeat split. Qed.
#[export] Instance same_transitive : Transitive same.
Proof. intros u v w (? & ? & ?) (? & ? & ?). repeat split; [done..|congruence]. Qed.

#[export] Instance same_dict_symmetric : Symmetric same_dict.
Proof. intros d e H. unfold same_dict. by symmetry. Qed.

Lemma same_refl v : wf_json v -> same v v.
Proof. by repeat split. Qed.

Lemma same_norm v : wf_json v -> same v (norm v).
Proof. intros H. repeat split; [done|by apply norm_wf|]. by rewrite norm_idem. Qed.

(** Both spellings are accepted, with related results, or neither is. *)
Definition agree {A B} (R : A -> B -> Prop) (o1 : checked A) (o2 : checked B) : Prop :=
  match o1, o2 with
  | Ok a, Ok b => R a b
  | Raise _, Raise _ => True
  | _, _ => False
  end.

Lemma agree_bind {A B C D} (R : A -> B -> Prop) (Q : C -> D -> Prop) o1 o2 k1 k2 :
  agree R o1 o2 -> (forall a b, R a b -> agree Q (k1 a) (k2 b)) -> agree Q (obind o1 k1) (obind o2 k2).
Proof. destruct o1, o2; cbn; auto; done. Qed.

Lemma agree_Ok {A B} (R : A -> B -> Prop) o1 o2 a : agree R o1 o2 -> o1 = Ok a -> exists b, o2 = Ok b /\ R a b.
Proof. intros H ->. destruct o2; [eauto|done]. Qed.

Lemma agree_refl {A} (o : checked A) : agree eq o o.
Proof. by destruct o. Qed.

Lemma agree_if {A B} (R : A -> B -> Prop) (b1 b2 : bool) o1 o2 p1 p2 : b1 = b2 ->
  (b1 = true -> agree R o1 o2) -> (b1 = false -> agree R p1 p2) ->
  agree R (if b1 then o1 else p1) (if b2 then o2 else p2).
Proof. intros <-. destruct b1; auto. Qed.

Lemma agree_invalid_if b1 b2 m1 m2 : b1 = b2 -> agree eq (invalid_if b1 m1) (invalid_if b2 m2).
Proof. intros <-. by destruct b1. Qed.

Lemma agree_invalid {A B} (R : A -> B -> Prop) m1 m2 : agree R (invalid m1) (invalid m2).
Proof. done. Qed.

Lemma same_dict_norm_get d e k : same_dict d e -> norm <$> dict_get k d = norm <$> dict_get k e.
Proof.
  intros (Hd%wf_json_obj & He%wf_json_obj & H). rewrite !norm_obj in H.
  assert (E : sort_fields (norm_fields d) = sort_fields (norm_fields e)) by congruence.
  by rewrite <-!dict_get_sort_norm, E by tauto.
Qed.

Lemma same_dict_get d e k : same_dict d e ->
  match dict_get k d, dict_get k e with Some v, Some w => same v w | None, None => True | _, _ => False end.
Proof.
  intros H. pose proof (same_dict_norm_get d e k H) as Hn. destruct H as (Hd%wf_json_obj & He%wf_json_obj & _).
  destruct (dict_get k d) as [v|] eqn:E1, (dict_get k e) as [w|] eqn:E2; try done. apply dict_get_elem in E1, E2.
  split; [exact (proj1 (Forall_forall _ _) (proj2 Hd) _ E1)|].
  split; [exact (proj1 (Forall_forall _ _) (proj2 He) _ E2)|]. by injection Hn.
Qed.

Lemma same_key d e k : same_dict d e -> same (key_json k d) (key_json k e).
Proof.
  intros H. pose proof (same_dict_get d e k H) as Hn. unfold key_json.
  destruct (dict_get k d), (dict_get k e); try done. apply same_refl. constructor.
Qed.

Lemma same_has d e k : same_dict d e -> dict_has k d = dict_has k e.
Proof.
  intros H. pose proof (same_dict_norm_get d e k H) as Hn. apply eq_true_iff_eq. rewrite !dict_has_get.
  destruct (dict_get k d), (dict_get k e); try done; split; intros []; eauto.
Qed.

Lemma same_keys d e k : same_dict d e -> k ∈ dict_keys d <-> k ∈ dict_keys e.
Proof. intros H. pose proof (same_has d e k H) as E. unfold dict_has in E. by rewrite <-!mem_true, E. Qed.

(** Two dictionaries with the same fields are one document. *)
Lemma same_dict_fields d e : wf_json (JObj d) -> wf_json (JObj e) ->
  (forall k, k ∈ dict_keys d <-> k ∈ dict_keys e) ->
  (forall k, k ∈ dict_keys e -> norm (key_json k d) = norm (key_json k e)) -> same_dict d e.
Proof.
  intros Hd He Hk Hn. split; [done|]. split; [done|].
  apply norm_agree; [by apply wf_json_obj in Hd as []|by apply wf_json_obj in He as []|by apply same_set_spec|].
  by apply Forall_forall.
Qed.

Lemma same_cases v w : same v w ->
  match v with
  | JArr l => exists l', w = JArr l' /\ Forall2 same l l'
  | JObj d => exists e, w = JObj e /\ same_dict d e
  | _ => w = v
  end.
Proof.
  intros (Hv & Hw & H). destruct v as [|b|z|s|l|d], w as [|b'|z'|s'|l'|e];
    rewrite ?norm_arr, ?norm_obj in H; cbn in H; try congruence.
  - exists l'. split; [done|]. assert (E : map norm l = map norm l') by congruence. clear H.
    inversion_clear Hv as [| | | |? Hl|]. inversion_clear Hw as [| | | |? Hl'|].
    revert l' E Hl'. induction Hl as [|x l Hx _ IH]; intros [|y l'] E Hl'; try done.
    injection E as E1 E2. apply Forall_cons in Hl' as [Hy Hl']. constructor; [done|]. by apply IH.
  - exists e. split; [done|]. split; [done|]. split; [done|]. by rewrite !norm_obj.
Qed.

(** [leaf v w H]: the two spellings of a value that is not a dictionary are one value. *)
Ltac leaf v H :=
  apply same_cases in H; destruct v;
  [subst|subst|subst|subst|destruct H as (? & -> & ?)|destruct H as (? & -> & ?)]; try done.

Lemma same_py_eqb v w x : same v w -> py_eqb v x = py_eqb w x.
Proof.
  intros (Hv & Hw & H). unfold py_eqb. apply bool_decide_ext. unfold py_eq. by rewrite (norm_unbool v), (norm_unbool w), H.
Qed.

Lemma agree_in_set v w l : same v w -> agree eq (in_set v l) (in_set w l).
Proof. intros H. leaf v H; apply agree_refl. Qed.

Lemma agree_each {A} (f g : json -> checked A) l l' : (forall v w, same v w -> agree eq (f v) (g w)) ->
  Forall2 same l l' -> agree eq (each f l) (each g l').
Proof.
  intros Hf H. induction H as [|v w l l' Hv _ IH]; [done|]. cbn [each].
  eapply agree_bind; [by apply Hf|]. intros x ? <-. eapply agree_bind; [exact IH|]. by intros xs ? <-.
Qed.

Lemma agree_each_numbered {A} (f g : nat -> json -> checked A) n l l' : (forall i v w, same v w -> agree eq (f i v) (g i w)) ->
  Forall2 same l l' -> agree eq (each_numbered f n l) (each_numbered g n l').
Proof.
  intros Hf H. revert n. induction H as [|v w l l' Hv _ IH]; intros n; [done|]. cbn [each_numbered].
  eapply agree_bind; [by apply Hf|]. intros x ? <-. eapply agree_bind; [apply IH|]. by intros xs ? <-.
Qed.

(** A loop over the fields of a dictionary. *)
Lemma each_total {A B} (f : A -> checked B) l : (exists r, each f l = Ok r) <-> Forall (fun x => exists y, f x = Ok y) l.
Proof.
  induction l as [|x l IH]; cbn [each]; [split; [constructor|by exists []]|]. rewrite Forall_cons, <-IH. split.
  - intros [r H]. apply obind_Ok in H as (y & Hy & H). apply obind_Ok in H as (ys & Hys & _). eauto.
  - intros [[y Hy] [ys Hys]]. exists (y :: ys). rewrite Hy. cbn. by rewrite Hys.
Qed.

Lemma dict_elem_get k v (d : dict) : NoDup (dict_keys d) -> (k, v) ∈ d -> dict_get k d = Some v.
Proof.
  induction d as [|[k' x] d IH]; intros Hd Hin; [by apply elem_of_nil in Hin|].
  apply NoDup_cons in Hd as [Hk' Hd]. cbn. apply elem_of_cons in Hin as [[= <- <-]|Hin]; [by rewrite String.eqb_refl|].
  destruct (String.eqb_spec k k') as [->|]; [|by apply IH]. exfalso. apply Hk'.
  apply list_elem_of_fmap. by exists (k', v).
Qed.

Lemma agree_each_field {A} (f : string * json -> checked A) d e : (forall k v w, same v w -> agree (fun _ _ => True) (f (k, v)) (f (k, w))) ->
  same_dict d e -> agree (fun _ _ => True) (each f d) (each f e).
Proof.
  intros Hf. assert (Half : forall d e, same_dict d e -> (exists r, each f d = Ok r) -> exists r, each f e = Ok r).
  { clear d e. intros d e H. rewrite !each_total, !Forall_forall. intros Hd [k w] Hin.
    pose proof (same_dict_get d e k H) as Hg. destruct H as (Hd'%wf_json_obj & He%wf_json_obj & _).
    apply dict_elem_get in Hin; [|tauto]. rewrite Hin in Hg. destruct (dict_get k d) as [v|] eqn:E; [|done].
    apply dict_get_elem in E. destruct (Hd _ E) as [y Hy]. destruct (agree_Ok _ _ _ _ (Hf k v w Hg) Hy) as (z & Hz & _). eauto. }
  intros H. destruct (each f d) as [r|] eqn:E1, (each f e) as [r'|] eqn:E2; [done| | |done].
  - destruct (Half d e H) as [x Hx]; [eauto|congruence].
  - destruct (Half e d) as [x Hx]; [by symmetry|eauto|congruence].
Qed.

(** ** The validators do not see the order of keys *)

Create HintDb agree.

Lemma agree_string v w n l : same v w -> agree eq (string_ v n l) (string_ w n l).
Proof. intros H. leaf v H; apply agree_refl. Qed.

(** A check of the text that was read. *)
Lemma agree_text {A} v w n l (k : string -> checked A) : same v w ->
  agree eq (obind (string_ v n l) k) (obind (string_ w n l) k).
Proof. intros H. eapply agree_bind; [by apply agree_string|]. intros s ? <-. apply agree_refl. Qed.

Lemma agree_id v w n : same v w -> agree eq (id_ v n) (id_ w n).
Proof. apply agree_text. Qed.
Lemma agree_digest v w n : same v w -> agree eq (digest_ v n) (digest_ w n).
Proof. apply agree_text. Qed.
Lemma agree_git_sha v w n : same v w -> agree eq (git_sha v n) (git_sha w n).
Proof. apply agree_text. Qed.
Lemma agree_runtime_path v w n : same v w -> agree eq (absolute_runtime_path v n) (absolute_runtime_path w n).
Proof. apply agree_text. Qed.
Lemma agree_iso v w n : same v w -> agree eq (iso_timestamp v n) (iso_timestamp w n).
Proof. apply agree_text. Qed.

Lemma agree_int v w n lo hi : same v w -> agree eq (bounded_int v n lo hi) (bounded_int w n lo hi).
Proof. intros H. leaf v H; apply agree_refl. Qed.

Lemma agree_unless_in v w l m : same v w -> agree eq (invalid_unless_in v l m) (invalid_unless_in w l m).
Proof.
  intros H. unfold invalid_unless_in. eapply agree_bind; [by apply agree_in_set|]. intros b ? <-. apply agree_refl.
Qed.

Lemma same_is_bool v w : same v w -> is_bool v = is_bool w.
Proof. intros H. by leaf v H. Qed.

Lemma agree_must_be_bool v w n : same v w -> agree eq (must_be_bool v n) (must_be_bool w n).
Proof. intros H. unfold must_be_bool. rewrite (same_is_bool v w H). apply agree_refl. Qed.

Lemma same_differs v w s : same v w -> differs v s = differs w s.
Proof. intros H. unfold differs. by rewrite (same_py_eqb v w). Qed.

Lemma same_is_not_bool v w b : same v w -> is_not_bool v b = is_not_bool w b.
Proof. intros H. by leaf v H. Qed.

Lemma same_is_true v w : same v w -> bool_decide (v = JBool true) = bool_decide (w = JBool true).
Proof. intros H. by leaf v H. Qed.

Lemma same_nil (l l' : list json) : Forall2 same l l' -> bool_decide (l = []) = bool_decide (l' = []).
Proof. by intros []. Qed.

Lemma agree_mapping v w n keys optional : same v w -> agree same_dict (mapping v n keys optional) (mapping w n keys optional).
Proof.
  intros H. leaf v H. match goal with He : same_dict _ _ |- _ => rename He into S end.
  cbn. apply agree_if; [|done..]. unfold has_shape. f_equal; apply eq_true_iff_eq; rewrite !forallb_forall.
  - split; intros Hk k Hin; apply Hk; apply list_elem_of_In in Hin; apply list_elem_of_In; by eapply same_keys.
  - split; intros Hk k Hin; apply Hk in Hin; [by rewrite <-(same_has _ _ k S)|by rewrite (same_has _ _ k S)].
Qed.

#[export] Hint Resolve agree_refl same_key agree_string agree_id agree_digest agree_git_sha agree_runtime_path agree_iso agree_int
  agree_unless_in agree_must_be_bool agree_in_set agree_mapping agree_invalid_if same_differs same_is_bool same_is_not_bool
  same_is_true : agree.

(** [agree_step]: the next check of both computations; a value both hold is one value. *)
Ltac agree_step :=
  match goal with
  | |- agree _ (obind _ _) (obind _ _) =>
      eapply agree_bind; [solve [eauto with agree]|];
      let a := fresh "a" in let b := fresh "b" in let S := fresh "S" in
      intros a b S; try (match type of S with @eq _ _ _ => destruct S end)
  | |- agree _ (invalid_if _ _) (invalid_if _ _) => apply agree_invalid_if
  end.

(** A condition on values of both documents. *)
Ltac same_condition :=
  repeat match goal with
  | S : same_dict ?d ?e |- context [differs (key_json ?k ?d) ?s] => rewrite (same_differs _ _ s (same_key d e k S))
  | S : same_dict ?d ?e |- context [is_bool (key_json ?k ?d)] => rewrite (same_is_bool _ _ (same_key d e k S))
  | S : same_dict ?d ?e |- context [is_not_bool (key_json ?k ?d) ?b] => rewrite (same_is_not_bool _ _ b (same_key d e k S))
  | S : same_dict ?d ?e |- context [bool_decide (key_json ?k ?d = JBool true)] => rewrite (same_is_true _ _ (same_key d e k S))
  end.
Ltac agree_run := repeat (same_condition; agree_step).

Lemma agree_strings v w n ne lim : same v w -> agree eq (strings_ v n ne lim) (strings_ w n ne lim).
Proof.
  intros H. leaf v H. match goal with He : Forall2 _ _ _ |- _ => rename He into S end.
  cbn. eapply agree_bind; [apply agree_invalid_if; by rewrite (Forall2_length _ _ _ S), (same_nil _ _ S)|]. intros _ _ _.
  eapply agree_bind; [apply agree_each with (2 := S); eauto with agree|]. intros r ? <-. apply agree_refl.
Qed.

Lemma agree_argv v w n : same v w -> agree eq (argv v n) (argv w n).
Proof.
  intros H. leaf v H. match goal with He : Forall2 _ _ _ |- _ => rename He into S end.
  cbn. eapply agree_bind; [apply agree_invalid_if; by rewrite (Forall2_length _ _ _ S), (same_nil _ _ S)|]. intros _ _ _.
  eapply agree_bind; [apply agree_each_numbered with (2 := S); eauto with agree|]. intros r ? <-. apply agree_refl.
Qed.

Lemma agree_resources v w n : same v w -> agree eq (resources v n) (resources w n).
Proof. intros H. unfold resources. agree_run. done. Qed.
#[export] Hint Resolve agree_strings agree_argv agree_resources : agree.

(** Two spellings of a value differ only when it holds other values. *)
Lemma same_scalar v w : same v w -> v = w \/ (hashable v = false /\ hashable w = false).
Proof. intros H. leaf v H; auto. Qed.

Lemma agree_network v w n gw : same v w -> agree eq (network v n gw) (network w n gw).
Proof.
  intros H. unfold network. agree_step.
  destruct (same_scalar _ _ (same_key _ _ "mode" S)) as [->|[H1 H2]].
  - eapply agree_bind; [apply agree_refl|]. intros _ _ _. eapply agree_bind; [eauto with agree|].
    intros l ? <-. apply agree_refl.
  - destruct (key_json "mode" a), (key_json "mode" b); done.
Qed.

Lemma agree_cache_volume seen v w : same v w -> agree eq (cache_volume seen v) (cache_volume seen w).
Proof.
  intros H. unfold cache_volume. do 5 agree_step.
  destruct (same_scalar _ _ (same_key _ _ "readOnly" S)) as [->|[H1 H2]].
  - apply agree_refl.
  - destruct (key_json "readOnly" a), (key_json "readOnly" b); done.
Qed.

Lemma agree_cache_volumes v w : same v w -> agree eq (cache_volumes v) (cache_volumes w).
Proof.
  intros H. leaf v H. match goal with He : Forall2 _ _ _ |- _ => rename He into S end.
  cbn. eapply agree_bind; [apply agree_invalid_if; by rewrite (Forall2_length _ _ _ S)|]. intros _ _ _.
  eapply (agree_bind eq); [|by intros r ? <-]. generalize (@nil string) at 1 2.
  clear -S. induction S as [|x y l l' Hx _ IH]; intros seen; [done|]. cbn [cache_volume_list].
  eapply agree_bind; [by apply agree_cache_volume|]. intros r ? <-. eapply agree_bind; [apply IH|]. by intros rs ? <-.
Qed.

Lemma agree_commands n l l' : Forall2 same l l' -> agree eq (commands_of n l) (commands_of n l').
Proof.
  intros S. unfold commands_of. eapply agree_bind; [apply agree_each_numbered with (2 := S); eauto with agree|].
  by intros r ? <-.
Qed.
#[export] Hint Resolve agree_network agree_cache_volumes agree_commands : agree.

(** *** Credential-like names *)

Fixpoint secret_free (v : json) : bool :=
  match v with
  | JObj fs =>
      (fix go (fs : dict) : bool :=
         match fs with [] => true | (k, x) :: rest => negb (SECRET_search k) && secret_free x && go rest end) fs
  | JArr l => (fix go (l : list json) : bool := match l with [] => true | x :: rest => secret_free x && go rest end) l
  | _ => true
  end.

Lemma secret_free_arr l : secret_free (JArr l) = forallb secret_free l.
Proof. cbn. induction l as [|x l IH]; [done|]. cbn. by rewrite IH. Qed.

Lemma secret_free_obj fs : secret_free (JObj fs) = forallb (fun kv => negb (SECRET_search (fst kv)) && secret_free (snd kv)) fs.
Proof. cbn. induction fs as [|[k x] fs IH]; [done|]. cbn. by rewrite IH. Qed.

Lemma no_secrets_free v : forall p, agree eq (no_secrets v p) (invalid_if (negb (secret_free v)) "").
Proof.
  induction v as [|b|z|s|l IH|fs IH] using json_rich_ind; intros p; try done; cbn -[SECRET_search].
  - generalize 0 as i. induction IH as [|x l Hx _ IHl]; intros i; [done|].
    specialize (Hx (p +:+ "[" +:+ pretty i +:+ "]")). specialize (IHl (Datatypes.S i)). cbn -[SECRET_search].
    destruct (no_secrets x _) as [[]|], (secret_free x); done.
  - induction IH as [|[k x] l Hx _ IHl]; [done|]. cbn [snd] in Hx. specialize (Hx (p +:+ "." +:+ k)).
    destruct (SECRET_search k); [done|]. destruct (no_secrets x _) as [[]|], (secret_free x); done.
Qed.

Lemma forallb_perm {A} (p : A -> bool) l l' : l ≡ₚ l' -> forallb p l = forallb p l'.
Proof. induction 1; cbn; try congruence. by rewrite !andb_assoc, (andb_comm (p y)). Qed.

Lemma secret_free_norm v : secret_free (norm v) = secret_free v.
Proof.
  induction v as [|b|z|s|l IH|fs IH] using json_rich_ind; try done.
  - rewrite norm_arr, !secret_free_arr. induction IH as [|x l Hx _ IHl]; [done|]. cbn. by rewrite Hx, IHl.
  - rewrite norm_obj, !secret_free_obj, (forallb_perm _ _ _ (sort_fields_perm _)).
    induction IH as [|[k x] l Hx _ IHl]; [done|]. change (norm_fields ((k, x) :: l)) with ((k, norm x) :: norm_fields l).
    cbn [forallb fst snd] in *. by rewrite Hx, IHl.
Qed.

Lemma agree_no_secrets v w p : same v w -> agree eq (no_secrets v p) (no_secrets w p).
Proof.
  intros (_ & _ & H). pose proof (no_secrets_free v p) as Hv. pose proof (no_secrets_free w p) as Hw.
  rewrite <-(secret_free_norm v) in Hv. rewrite <-(secret_free_norm w), <-H in Hw.
  destruct (no_secrets v p) as [[]|], (no_secrets w p) as [[]|], (secret_free (norm v)); done.
Qed.

Lemma agree_fields v w n keys optional f : same v w ->
  agree same_dict (contract_fields v n keys optional f) (contract_fields w n keys optional f).
Proof.
  intros H. unfold contract_fields. eapply agree_bind; [by apply agree_no_secrets|]. intros _ _ _. agree_run. done.
Qed.

Lemma agree_each_of {A} (check : json -> string -> checked A) fields d e :
  (forall v w n, same v w -> agree eq (check v n) (check w n)) -> same_dict d e ->
  agree eq (each_field check fields d) (each_field check fields e).
Proof.
  intros Hc H. unfold each_field. eapply (agree_bind eq); [|intros r ? <-; apply agree_refl].
  induction fields as [|f fields IH]; [done|]. cbn [each]. eapply agree_bind; [apply Hc; by apply same_key|].
  intros x ? <-. eapply agree_bind; [exact IH|]. by intros xs ? <-.
Qed.

Lemma agree_ids fields d e : same_dict d e -> agree eq (each_field id_ fields d) (each_field id_ fields e).
Proof. apply agree_each_of. eauto with agree. Qed.
Lemma agree_digests fields d e : same_dict d e -> agree eq (each_field digest_ fields d) (each_field digest_ fields e).
Proof. apply agree_each_of. eauto with agree. Qed.
#[export] Hint Resolve agree_fields agree_ids agree_digests agree_no_secrets : agree.

(** ** The contracts do not see the order of keys *)

Lemma agree_approval v w : same v w -> agree same_dict (approval_section v) (approval_section w).
Proof. intros H. unfold approval_section. agree_run. done. Qed.

Lemma agree_agent_claim v w : same v w -> agree eq (agent_claim v) (agent_claim w).
Proof. intros H. unfold agent_claim. agree_run. done. Qed.

Lemma agree_observed v w : same v w -> agree eq (observed_process_result v) (observed_process_result w).
Proof. intros H. unfold observed_process_result. agree_run. eauto with agree. Qed.

Lemma agree_evidence v w : same v w -> agree eq (validator_evidence v) (validator_evidence w).
Proof. intros H. unfold validator_evidence. agree_run. eauto with agree. Qed.

Lemma agree_rollback v w : same v w -> agree eq (rollback_point v) (rollback_point w).
Proof.
  intros H. unfold rollback_point. do 2 agree_step.
  eapply (agree_bind eq); [|intros; eauto with agree].
  destruct (same_scalar _ _ (same_key _ _ "prePromotionRevision" S)) as [->|[H1 H2]]; [apply agree_refl|].
  destruct (key_json "prePromotionRevision" a), (key_json "prePromotionRevision" b); done.
Qed.

(** All the fields of a dictionary are true. *)
Lemma same_all_true d e : same_dict d e ->
  forallb (fun kv => bool_decide (snd kv = JBool true)) d = forallb (fun kv => bool_decide (snd kv = JBool true)) e.
Proof.
  assert (Half : forall d e, same_dict d e -> forallb (fun kv => bool_decide (snd kv = JBool true)) d = true ->
    forallb (fun kv => bool_decide (snd kv = JBool true)) e = true).
  { intros f g H. rewrite !forallb_forall. intros Hf [k w] Hin. apply list_elem_of_In in Hin.
    pose proof (same_dict_get f g k H) as Hg. pose proof H as (_ & Hw%wf_json_obj & _).
    apply dict_elem_get in Hin; [|tauto]. rewrite Hin in Hg. destruct (dict_get k f) as [v|] eqn:E; [|done].
    apply dict_get_elem, list_elem_of_In, Hf in E. cbn in *. by rewrite <-(same_is_true _ _ Hg). }
  intros H. apply eq_true_iff_eq. split; apply Half; [done|by symmetry].
Qed.

Lemma agree_decision v w d e : same v w -> same_dict d e -> agree eq (promotion_decision v d) (promotion_decision w e).
Proof.
  intros H Hd. unfold promotion_decision. cbv zeta. do 4 agree_step.
  eapply agree_bind; [apply agree_each_field; [|eassumption]|].
  { intros k x y Hxy. cbn. unfold must_be_bool. rewrite (same_is_bool x y Hxy). by destruct (invalid_if _ _). }
  intros _ _ _. same_condition. apply agree_if; [done|done|]. intros _.
  erewrite same_all_true by eassumption. agree_run. done.
Qed.

Lemma agree_health v w n : same v w -> agree eq (health_section v n) (health_section w n).
Proof. intros H. unfold health_section. agree_run. done. Qed.

Lemma agree_object v w n : same v w -> agree eq (object_or_null v n) (object_or_null w n).
Proof. intros H. by leaf v H. Qed.

Lemma agree_healths fields d e : same_dict d e -> agree eq (each_field health_section fields d) (each_field health_section fields e).
Proof. apply agree_each_of, agree_health. Qed.
Lemma agree_objects fields d e : same_dict d e -> agree eq (each_field object_or_null fields d) (each_field object_or_null fields e).
Proof. apply agree_each_of, agree_object. Qed.

Lemma agree_given {A} (check : json -> checked A) d e k : same_dict d e ->
  (forall v w, same v w -> agree eq (check v) (check w)) ->
  agree eq match dict_get k d with Some v => check v >>? Ok tt | None => Ok tt end
           match dict_get k e with Some v => check v >>? Ok tt | None => Ok tt end.
Proof.
  intros S Hc. pose proof (same_dict_get d e k S) as Hk.
  destruct (dict_get k d), (dict_get k e); try done. eapply agree_bind; [by apply Hc|]. by intros.
Qed.

Lemma agree_process v w : same v w -> agree eq (executed_process v) (executed_process w).
Proof.
  intros H. unfold executed_process. do 2 agree_step. eapply (agree_bind eq).
  { destruct (same_scalar _ _ (same_key _ _ "pid" S)) as [->|[H1 H2]].
    - rewrite (same_has _ _ "containerWorkloadId" S). apply agree_refl.
    - destruct (key_json "pid" a), (key_json "pid" b); done. }
  intros _ _ _. eapply (agree_bind eq); [apply agree_given; [done|]; intros; by apply agree_id|].
  intros _ _ _. eapply (agree_bind eq); [apply agree_given; [done|]; intros; by apply agree_digest|].
  intros _ _ _. agree_run. done.
Qed.
#[export] Hint Resolve agree_approval agree_agent_claim agree_observed agree_evidence agree_rollback agree_decision
  agree_healths agree_objects : agree.

(** Both accepted, or neither. *)
Abbreviation agree_accepts := (agree (fun _ _ => True)).

Lemma agree_weaken {A B} (R : A -> B -> Prop) o1 o2 : agree R o1 o2 -> agree_accepts o1 o2.
Proof. by destruct o1, o2. Qed.

(** The argument lists of commands, wherever they are an array. *)
Lemma agree_array {A B} (R : A -> B -> Prop) v w (f : list json -> checked A) (g : list json -> checked B) m1 m2 : same v w ->
  (forall l l', Forall2 same l l' -> agree R (f l) (g l')) ->
  agree R match v with JArr l => f l | _ => invalid m1 end match w with JArr l => g l | _ => invalid m2 end.
Proof. intros H Hf. leaf v H. by apply Hf. Qed.

Lemma agree_AgentRun v w : same v w -> agree_accepts (AgentRunSpecification_validate v) (AgentRunSpecification_validate w).
Proof.
  intros H. unfold AgentRunSpecification_validate. do 12 (same_condition; agree_step).
  eapply agree_bind.
  { apply agree_each_field; [|eassumption]. intros k x y Hxy. cbn. eapply agree_weaken, agree_int, Hxy. }
  intros _ _ _. agree_step. eapply agree_array; [eauto with agree|]. intros l l' Hl.
  rewrite (Forall2_length _ _ _ Hl). agree_step. agree_step. done.
Qed.

Lemma same_is_nil v w : same v w -> bool_decide (v = JArr []) = bool_decide (w = JArr []).
Proof. intros H. leaf v H. match goal with He : Forall2 _ _ _ |- _ => by destruct He end. Qed.

Lemma agree_Validator v w : same v w -> agree_accepts (ValidatorSpec_validate v) (ValidatorSpec_validate w).
Proof.
  intros H. unfold ValidatorSpec_validate. do 5 agree_step. eapply agree_array; [eauto with agree|]. intros l l' Hl.
  rewrite (same_nil _ _ Hl). cbv zeta. do 6 agree_step. do 4 (same_condition; agree_step). same_condition.
  rewrite (same_is_nil _ _ (same_key _ _ "hostMounts" S)). by agree_step.
Qed.

Lemma validate_accepts c v w : same v w -> agree_accepts (validate c v) (validate c w).
Proof.
  intros H. destruct c; cbn [validate]; [| |by apply agree_AgentRun|by apply agree_Validator|..].
  - unfold WorkspaceSpec_validate. agree_run. done.
  - unfold WorkspaceRuntimeIdentity_validate. agree_run. done.
  - unfold PromotionSpec_validate. agree_run. done.
  - unfold PromotionReceipt_validate. agree_run. done.
  - unfold RuntimeHealthProjection_validate. agree_run. done.
  - unfold RunLease_validate. agree_run. done.
  - unfold RunEvidence_validate. agree_run. eapply (agree_bind eq); [|done].
    pose proof (same_dict_get a b "executedProcess" S) as Hk.
    destruct (dict_get "executedProcess" a), (dict_get "executedProcess" b); try done. by apply agree_process.
Qed.

Lemma from_dict_accepts c v w : same v w -> agree_accepts (from_dict c v) (from_dict c w).
Proof. intros H. unfold from_dict. agree_step. by apply validate_accepts. Qed.

(** ** A contract keeps its document *)

Lemma Ok_inj {A} (a b : A) : (Ok a : checked A) = Ok b -> a = b.
Proof. by intros [= <-]. Qed.

Lemma bounded_string_Ok v n l s : string_ v n l = Ok s -> v = JStr s.
Proof. unfold string_. destruct v; try done. destruct (_ && _); [by intros [= <-]|done]. Qed.

Lemma text_Ok v n l (p : string -> bool) m s :
  (let? t := string_ v n l in if p t then Ok t else invalid m) = Ok s -> v = JStr s.
Proof.
  intros H. apply obind_Ok in H as (t & Ht%bounded_string_Ok & H). destruct (p t); [|done]. by injection H as <-.
Qed.

Lemma id_text v n s : id_ v n = Ok s -> v = JStr s.
Proof. apply text_Ok. Qed.
Lemma digest_text v n s : digest_ v n = Ok s -> v = JStr s.
Proof. apply text_Ok. Qed.

Lemma bounded_Ok v n lo hi z : bounded_int v n lo hi = Ok z -> v = JInt z.
Proof. unfold bounded_int. destruct v; try done. destruct (_ && _); [by intros [= <-]|done]. Qed.

Lemma strings_Ok v n ne lim l : strings_ v n ne lim = Ok l -> v = jstrs l.
Proof.
  unfold strings_. destruct v; try done. intros H. apply obind_Ok in H as (u & _ & H).
  apply obind_Ok in H as (r & Hr & H). apply obind_Ok in H as (u' & _ & [= <-]). unfold jstrs. f_equal.
  eapply each_Ok; [|exact Hr]. intros x y. apply bounded_string_Ok.
Qed.

Lemma each_numbered_Ok {A B} (f : nat -> A -> checked B) (h : B -> A) n l r :
  (forall i x y, f i x = Ok y -> x = h y) -> each_numbered f n l = Ok r -> l = h <$> r.
Proof.
  intros Hf. revert n r. induction l as [|x l IH]; intros n r H; cbn [each_numbered] in H; [by injection H as <-|].
  apply obind_Ok in H as (y & Hy & H). apply obind_Ok in H as (ys & Hys & [= <-]).
  rewrite fmap_cons. by rewrite <-(Hf _ _ _ Hy), <-(IH _ _ Hys).
Qed.

Lemma argv_Ok v n l : argv v n = Ok l -> v = jstrs l.
Proof.
  unfold argv. destruct v; try done. intros H. apply obind_Ok in H as (u & _ & H).
  apply obind_Ok in H as (r & Hr & H). apply obind_Ok in H as (u' & _ & [= <-]). unfold jstrs. f_equal.
  eapply each_numbered_Ok; [|exact Hr]. intros i x y. apply bounded_string_Ok.
Qed.

Lemma commands_Ok n l j : commands_of n l = Ok j -> j = JArr l.
Proof.
  unfold commands_of. intros H. apply obind_Ok in H as (r & Hr & [= <-]). f_equal. symmetry.
  eapply each_numbered_Ok; [|exact Hr]. intros i x y. apply argv_Ok.
Qed.

Lemma shape_same_set keys d : has_shape keys [] d = true -> same_set (dict_keys d) keys = true.
Proof.
  unfold has_shape. intros [E1 E2]%andb_true_iff. rewrite forallb_forall in E1, E2.
  apply same_set_spec. intros k. split; intros Hk.
  - apply list_elem_of_In, E1 in Hk. rewrite app_nil_r in Hk. by apply mem_true.
  - apply list_elem_of_In, E2 in Hk. by apply mem_true.
Qed.

Lemma shape_Ok v n keys d : mapping v n keys [] = Ok d -> v = JObj d /\ same_set (dict_keys d) keys = true.
Proof.
  unfold mapping. destruct v as [| | | | |e]; try done. destruct (has_shape keys [] e) eqn:E; [|done]. intros [= <-].
  split; [done|by apply shape_same_set].
Qed.

Lemma py_eqb_text v s : py_eqb v (JStr s) = true -> v = JStr s.
Proof. intros H. apply bool_decide_eq_true in H. symmetry in H. by apply py_eq_str_l. Qed.

Lemma fields_Ok v n keys optional f d : contract_fields v n keys optional f = Ok d ->
  v = JObj d /\ has_shape keys optional d = true /\ py_eqb (key_json "formatVersion" d) (JStr f) = true.
Proof.
  unfold contract_fields. intros H. apply obind_Ok in H as (u & _ & H). apply obind_Ok in H as (e & Hm & H).
  apply obind_Ok in H as (u' & Hf%invalid_if_Ok & [= <-]). unfold mapping in Hm. destruct v as [| | | | |e']; try done.
  destruct (has_shape keys optional e') eqn:E; [|done]. injection Hm as <-. unfold differs in Hf. by apply negb_false_iff in Hf.
Qed.

(** [normalized H]: the next check in [H] returned; the value it looked at was the one returned. *)
Ltac normalized H :=
  let x := fresh "got" in let E := fresh "E" in
  apply obind_Ok in H as (x & E & H);
  first [ apply id_text in E | apply digest_text in E | apply bounded_Ok in E | apply argv_Ok in E | apply strings_Ok in E
        | apply invalid_if_Ok in E | idtac ].

Lemma resources_exact v n d : wf_json v -> resources v n = Ok d -> norm v = norm (JObj d) /\ wf_json (JObj d).
Proof.
  intros Hwf H. unfold resources in H. apply obind_Ok in H as (e & [-> Hk]%shape_Ok & H). do 4 normalized H. injection H as <-.
  split; [|by apply wf_jsonb_wf]. apply norm_agree; [by apply wf_json_obj in Hwf as []|by apply (bool_decide_unpack _)|done|].
  agree_fields.
Qed.

Lemma network_exact v n gw d : wf_json v -> network v n gw = Ok d -> norm v = norm (JObj d) /\ wf_json (JObj d).
Proof.
  intros Hwf H. unfold network in H. apply obind_Ok in H as (e & [-> Hk]%shape_Ok & H). cbv zeta in H.
  do 4 normalized H. injection H as <-. split.
  - apply norm_agree; [by apply wf_json_obj in Hwf as []|by apply (bool_decide_unpack _)|done|].
    agree_fields.
  - apply wf_json_obj. split; [by apply (bool_decide_unpack _)|].
    repeat constructor; [by apply wf_key|]. apply Forall_fmap, Forall_true. constructor.
Qed.

Lemma cache_volume_exact seen v r : wf_json v -> cache_volume seen v = Ok r -> norm v = norm (snd r) /\ wf_json (snd r).
Proof.
  intros Hwf H. unfold cache_volume in H. apply obind_Ok in H as (e & [-> Hk]%shape_Ok & H).
  normalized H. normalized H. apply obind_Ok in H as (m & Hm & H). apply text_Ok in Hm.
  normalized H. normalized H. injection H as <-. cbn [snd]. split.
  - apply norm_agree; [by apply wf_json_obj in Hwf as []|by apply (bool_decide_unpack _)|done|].
    agree_fields.
  - apply wf_json_obj. split; [by apply (bool_decide_unpack _)|]. repeat constructor. by apply wf_key.
Qed.

Lemma cache_volumes_exact v j : wf_json v -> cache_volumes v = Ok j -> norm v = norm j /\ wf_json j.
Proof.
  intros Hwf H. unfold cache_volumes in H. destruct v as [| | | |l|]; try done. normalized H.
  apply obind_Ok in H as (r & Hr & [= <-]). inversion_clear Hwf as [| | | |? Hl|]. rewrite !norm_arr.
  revert Hr. clear E. generalize (@nil string). revert r. induction Hl as [|x l Hx _ IH]; intros r seen H; cbn [cache_volume_list] in H.
  - injection H as <-. split; [done|repeat constructor].
  - apply obind_Ok in H as (y & Hy & H). apply obind_Ok in H as (ys & Hys & [= <-]).
    destruct (cache_volume_exact _ _ _ Hx Hy) as [Hn Hw]. destruct (IH _ _ Hys) as [Hn' Hw']. split.
    + cbn [map]. rewrite Hn. f_equal. f_equal. by injection Hn'.
    + inversion_clear Hw'. by repeat constructor.
Qed.

(** Fields written back with the values they had leave the document the same. *)
Lemma same_set_back k v d : wf_json (JObj d) -> wf_json v -> k ∈ dict_keys d -> norm v = norm (key_json k d) ->
  same_dict (dict_set k v d) d.
Proof.
  intros Hd Hv Hk Hn. split; [by apply wf_dict_set|]. split; [done|].
  apply norm_ext; [by apply (wf_dict_set k v) in Hd as []%wf_json_obj|by apply wf_json_obj in Hd as []|].
  intros k'. destruct (decide (k' = k)) as [->|Hne]; [|by rewrite dict_get_set_ne].
  rewrite dict_get_set_eq. unfold key_json in Hn. apply mem_true, (dict_has_get k d) in Hk as [x Hx].
  rewrite Hx in *. cbn in *. by rewrite Hn.
Qed.

Definition written_back (d : dict) (kv : string * json) : Prop :=
  fst kv ∈ dict_keys d /\ wf_json (snd kv) /\ norm (snd kv) = norm (key_json (fst kv) d).

Lemma same_update d e : wf_json (JObj d) -> Forall (written_back d) e -> same_dict (dict_update d e) d.
Proof.
  intros Hd He. unfold dict_update. assert (G : forall a, same_dict a d -> same_dict (foldl (fun d kv => dict_set (fst kv) (snd kv) d) a e) d).
  { induction He as [|[k v] e (Hk & Hv & Hn) _ IH]; intros a Ha; [done|]. cbn [foldl fst snd] in *. apply IH.
    unfold same_dict. transitivity (JObj a); [|exact Ha]. apply same_set_back; [apply Ha|done|by eapply same_keys|].
    rewrite Hn. by apply (same_key d a k); symmetry. }
  apply G. by apply same_refl.
Qed.

Lemma shape_has keys optional d k : has_shape keys optional d = true -> k ∈ keys -> k ∈ dict_keys d.
Proof.
  unfold has_shape. intros [_ H]%andb_true_iff Hk. rewrite forallb_forall in H. apply list_elem_of_In, H in Hk. by apply mem_true.
Qed.

Ltac is_key := match goal with |- ?k ∈ dict_keys _ => eapply shape_has; [eassumption|apply mem_true; reflexivity] end.

(** The fields of a dictionary that is written out. *)
Ltac wf_fields :=
  repeat (apply Forall_cons; split; [cbn [snd]; first [eassumption|apply wf_jstrs|by constructor]|]); apply Forall_nil_2.

Lemma WorkspaceSpec_exact v d : wf_json v -> WorkspaceSpec_validate v = Ok d -> same (JObj d) v.
Proof.
  intros Hwf H. unfold WorkspaceSpec_validate in H. apply obind_Ok in H as (e & (-> & Hk & Hf)%fields_Ok & H).
  do 4 normalized H. apply obind_Ok in H as (r & [Hr Hr']%resources_exact & H); [|by apply wf_key].
  apply obind_Ok in H as (n & [Hn Hn']%network_exact & H); [|by apply wf_key].
  apply obind_Ok in H as (c & [Hc Hc']%cache_volumes_exact & H); [|by apply wf_key].
  apply obind_Ok in H as (l & [Hl Hlk]%shape_Ok & H). normalized H. cbv zeta in H. normalized H. injection H as <-.
  unfold differs in E1. apply negb_false_iff, py_eqb_text in E1. apply py_eqb_text in Hf.
  apply orb_false_iff in E4 as [Hs Hp]. apply negb_false_iff, bool_decide_eq_true in Hp.
  pose proof (wf_key "lifecyclePolicy" e Hwf) as Hw. rewrite Hl in Hw.
  set (policy := JObj [("idleTimeoutSeconds", JInt got3); ("stopAfterIdle", key_json "stopAfterIdle" l); ("preserveDataOnRemove", JBool true)]).
  assert (Hlife : norm (key_json "lifecyclePolicy" e) = norm policy).
  { rewrite Hl. apply norm_agree; [by apply wf_json_obj in Hw as []|by apply (bool_decide_unpack _)|done|]. agree_fields. }
  assert (Hpolicy : wf_json policy).
  { apply wf_json_obj. split; [by apply (bool_decide_unpack _)|]. repeat constructor. by apply wf_key. }
  symmetry. split; [done|]. split.
  - apply wf_json_obj. split; [by apply (bool_decide_unpack _)|]. wf_fields.
  - apply norm_agree; [by apply wf_json_obj in Hwf as []|by apply (bool_decide_unpack _)|by apply shape_same_set|]. agree_fields.
Qed.

(** Where a contract writes normalized parts back into its document. *)
Ltac written_back :=
  apply Forall_cons; split; [split; cbn [fst snd]; [is_key|split; [first [eassumption|constructor]|]]|].

Lemma AgentRun_exact v d : wf_json v -> AgentRunSpecification_validate v = Ok d -> same (JObj d) v.
Proof.
  intros Hwf H. unfold AgentRunSpecification_validate in H. apply obind_Ok in H as (e & (-> & Hk & _)%fields_Ok & H).
  do 7 normalized H. apply obind_Ok in H as (n & [Hn Hn']%network_exact & H); [|by apply wf_key].
  do 2 normalized H. apply obind_Ok in H as (b & [Hb _]%shape_Ok & H). normalized H.
  apply obind_Ok in H as (r & [Hr Hr']%resources_exact & H); [|by apply wf_key].
  destruct (key_json "validationCommands" e) as [| | | |l|] eqn:El; try done. normalized H.
  apply obind_Ok in H as (c & ->%commands_Ok & H). apply Ok_inj in H as <-.
  pose proof (wf_key "budgets" e Hwf) as Hwb. pose proof (wf_key "validationCommands" e Hwf) as Hwl. rewrite Hb in Hwb. rewrite El in Hwl.
  apply same_update; [done|]. written_back; [done|]. written_back; [by rewrite Hb|]. written_back; [done|].
  written_back; [by rewrite El|]. constructor.
Qed.

Lemma Validator_exact v d : wf_json v -> ValidatorSpec_validate v = Ok d -> same (JObj d) v.
Proof.
  intros Hwf H. unfold ValidatorSpec_validate in H. apply obind_Ok in H as (e & (-> & Hk & _)%fields_Ok & H).
  do 4 normalized H. destruct (key_json "commands" e) as [| | | |l|] eqn:El; try done. normalized H.
  apply obind_Ok in H as (c & ->%commands_Ok & H).
  apply obind_Ok in H as (r & [Hr Hr']%resources_exact & H); [|by apply wf_key]. cbv zeta in H.
  normalized H. normalized H. normalized H. do 5 normalized H. apply Ok_inj in H as <-.
  pose proof (wf_key "commands" e Hwf) as Hwl. rewrite El in Hwl.
  apply same_update; [done|]. written_back; [by rewrite El|]. written_back; [done|].
  written_back; [by rewrite E5|]. written_back; [by rewrite E6|]. constructor.
Qed.

(** The other contracts return the document itself. *)
Ltac document_returned H :=
  apply obind_Ok in H as (? & (-> & _ & _)%fields_Ok & H); repeat (apply obind_Ok in H as (? & _ & H)); injection H as <-;
  by apply same_refl.

Lemma from_dict_exact c v d : wf_json v -> from_dict c v = Ok d -> same (JObj d) v.
Proof.
  intros Hwf H. unfold from_dict in H. apply obind_Ok in H as (u & _ & H).
  destruct c; cbn [validate] in H; [by apply WorkspaceSpec_exact| |by apply AgentRun_exact|by apply Validator_exact|..].
  - unfold WorkspaceRuntimeIdentity_validate in H. document_returned H.
  - unfold PromotionSpec_validate in H. document_returned H.
  - unfold PromotionReceipt_validate in H. document_returned H.
  - unfold RuntimeHealthProjection_validate in H. document_returned H.
  - unfold RunLease_validate in H. document_returned H.
  - unfold RunEvidence_validate in H. document_returned H.
Qed.

(** C26 A contract is its document.  Whatever [from_dict] makes of a JSON value, for each of
    the nine contracts, has the canonical digest of that value: nothing is dropped,
    defaulted or rewritten.  Every other spelling of the document, with its keys in another
    order at any depth, is accepted too and has the same digest; in particular the text that
    [json.dumps] writes of a contract is read back, by [json.loads] and [from_dict], as the
    same contract. *)
Theorem contract_is_its_document c v d : wf_json v -> from_dict c v = Ok d ->
  canonical_digest (JObj d) = canonical_digest v /\
  (forall w, wf_json w -> norm w = norm v ->
     exists e, from_dict c w = Ok e /\ canonical_digest (JObj e) = canonical_digest v) /\
  (exists w e, loads (dumps false (JObj d)) = Some w /\ from_dict c w = Ok e /\ canonical_digest (JObj e) = canonical_digest v).
Proof.
  intros Hwf H. assert (Hd : forall w e, same (JObj e) w -> norm w = norm v -> canonical_digest (JObj e) = canonical_digest v).
  { intros w e (_ & _ & Hn) Hw. unfold canonical_digest. by rewrite (dumps_norm false (JObj e) v) by congruence. }
  pose proof (from_dict_exact c v d Hwf H) as Hs.
  assert (Hany : forall w, wf_json w -> norm w = norm v -> exists e, from_dict c w = Ok e /\ canonical_digest (JObj e) = canonical_digest v).
  { intros w Hw Hn. destruct (agree_Ok _ _ _ _ (from_dict_accepts c v w ltac:(by repeat split)) H) as (e & He & _).
    exists e. split; [done|]. eapply Hd; [by eapply from_dict_exact|done]. }
  split; [by eapply Hd|]. split; [exact Hany|]. exists (norm (JObj d)).
  destruct Hs as (Hw & _ & Hn). destruct (Hany (norm (JObj d))) as (e & He); [by apply norm_wf|by rewrite norm_idem|].
  exists e. split; [|exact He]. rewrite <-(str_app_nil_r (dumps false _)). by apply loads_dumps.
Qed.

(** ** A lease read back *)

Definition lease_document (state : string) : dict :=
  [("formatVersion", JStr LEASE_FORMAT); ("leaseId", JStr "lease.1"); ("runId", JStr "run.1"); ("workspaceId", JStr "w1");
   ("executorKind", JStr "codex-cli"); ("imageDigest", JStr ("sha256:" +:+ String.concat "" (repeat "a" 64)));
   ("claimPath", JStr "/state/leases/lease.1.json"); ("startedAt", JStr "2026-07-01T00:00:00.000000Z");
   ("expiresAt", JStr "2026-07-01T00:15:00.000000Z"); ("state", JStr state)].

Example unknown_lease_state : from_dict RunLease (JObj (lease_document "paused")) = invalid "run lease state is invalid".
Proof. vm_compute. reflexivity. Qed.

Example relative_claim_path :
  from_dict RunLease (JObj (dict_set "claimPath" (JStr "/state/../x.json") (lease_document "granted")))
  = invalid "claimPath must be an absolute non-traversing POSIX path".
Proof. vm_compute. reflexivity. Qed.

Example no_api_key :
  from_dict RunLease (JObj (lease_document "granted" ++ [("providerApiKey", JNull)]))
  = invalid "credential-like field is forbidden at $.providerApiKey".
Proof. vm_compute. reflexivity. Qed.

Lemma contract_is_its_document_witness :
  from_dict RunLease (JObj (lease_document "granted")) = Ok (lease_document "granted") /\
  exists w e, loads (dumps false (JObj (lease_document "granted"))) = Some w /\ from_dict RunLease w = Ok e /\
    canonical_digest (JObj e) = canonical_digest (JObj (lease_document "granted")).
Proof.
  assert (H : from_dict RunLease (JObj (lease_document "granted")) = Ok (lease_document "granted")) by (vm_compute; reflexivity).
  split; [exact H|].
  destruct (contract_is_its_document RunLease (JObj (lease_document "granted")) (lease_document "granted")) as (_ & _ & L).
  - by apply wf_jsonb_wf.
  - exact H.
  - exact L.
Defined.
