(* ===== verification/RunAuthority.v ===== *)
(** * Run authority (packages/execution-host, run_authority.py)

    The owner's grants for managed agent runs, kept in memory under one lock: by their
    execution key (executor kind, claimed image, host) and by their identifier.  Every
    method holds the lock, so a call is one step; [perform_if_live] holds it around an
    effect, which may change the state it is given.  Times and scopes are plain text. *)

From S2P Require Import Prelude Json Sha256 Contracts.

(** [RunAuthorityError] *)
Inductive authority_error := RunAuthorityError (message : string).

Abbreviation authorized := (outcome authority_error).

Definition refused {A} (message : string) : authorized A := Raise (RunAuthorityError message).
Definition refused_if (b : bool) (message : string) : authorized unit := refuse_if b (RunAuthorityError message).

(** ** Grants *)

(** [^[^\s@]+@sha256:[0-9a-f]{64}$] *)
Definition IMAGE_REFERENCE_fullmatch (s : string) : bool :=
  let n := String.length s - 72 in
  let name := String.substring 0 n s in
  (72 <? py_len s)%Z
  && all_chars (fun c => negb (py_isspace c) && negb (bool_decide (c = "@"%char))) name
  && match String.substring n 72 s with
     | String c digest => bool_decide (c = "@"%char) && DIGEST_fullmatch digest
     | EmptyString => false
     end.

Definition require_id (value name : string) : authorized string :=
  if ID_fullmatch value then Ok value else refused (name +:+ " is not a valid identifier").

Definition require_string (value name : string) : authorized string :=
  if negb (nonblank value) || (1024 <? py_len value)%Z then refused (name +:+ " must be a bounded non-empty string")
  else Ok value.

Definition require_digest (value name : string) : authorized string :=
  if DIGEST_fullmatch value then Ok value else refused (name +:+ " must be a pinned sha256 digest").

Definition require_image_reference (value : string) : authorized string :=
  if IMAGE_REFERENCE_fullmatch value then Ok value else refused "claimed_image must be a digest-pinned image reference".

Record RunGrant := {
  grant_id : string;
  executor_kind : string;
  claimed_image : string;
  grant_host : string;
  scope : string;
  issued_at : string;
  digest_pin : string;
  revoked : bool;
}.

(** [__post_init__] *)
Definition RunGrant_post_init (g : RunGrant) : authorized unit :=
  require_id (grant_id g) "grant_id" >>?
  require_id (executor_kind g) "executor_kind" >>?
  require_image_reference (claimed_image g) >>?
  require_id (grant_host g) "host" >>?
  require_string (scope g) "scope" >>?
  require_string (issued_at g) "issued_at" >>?
  require_digest (digest_pin g) "digest_pin" >>?
  Ok tt.

Abbreviation key := (string * string * string)%type.

Definition grant_key (g : RunGrant) : key := (executor_kind g, claimed_image g, grant_host g).

Definition AUTHORITY_FORMAT : string := "stateport.run-authority-grant/v1".

Definition identity_document (g : RunGrant) : dict :=
  [("formatVersion", JStr AUTHORITY_FORMAT); ("grantId", JStr (grant_id g));
   ("executorKind", JStr (executor_kind g)); ("claimedImage", JStr (claimed_image g));
   ("host", JStr (grant_host g)); ("scope", JStr (scope g)); ("issuedAt", JStr (issued_at g));
   ("digestPin", JStr (digest_pin g))].

(** Every immutable field, and not the revocation. *)
Definition authority_digest (g : RunGrant) : string :=
  canonical_digest (JObj (identity_document g)).

Definition with_revoked (g : RunGrant) : RunGrant :=
  {| grant_id := grant_id g; executor_kind := executor_kind g; claimed_image := claimed_image g;
     grant_host := grant_host g; scope := scope g; issued_at := issued_at g; digest_pin := digest_pin g;
     revoked := true |}.

(** ** The authority *)

Record authority := {
  host : string;
  by_key : gmap key RunGrant;
  by_id : list (string * RunGrant);
}.

Definition new_authority (h : string) : authorized authority :=
  require_id h "host" >>? Ok {| host := h; by_key := ∅; by_id := [] |}.

Definition store_grant (g : RunGrant) (a : authority) : authority :=
  {| host := host a; by_key := <[grant_key g := g]> (by_key a); by_id := assoc_set (grant_id g) g (by_id a) |}.

Definition register (g : RunGrant) : M authority authority_error unit :=
  let* a := get in
  raise_if (negb (bool_decide (grant_host g = host a))) (RunAuthorityError "grant host does not match the authority host") >>*
  let existing := assoc_get (grant_id g) (by_id a) in
  raise_if match existing with
           | Some e => negb (bool_decide (authority_digest e = authority_digest g))
           | None => false
           end (RunAuthorityError "grant id is already bound to another authorization") >>*
  raise_if match by_key a !! grant_key g with
           | Some k => negb (bool_decide (grant_id k = grant_id g))
           | None => false
           end (RunAuthorityError "execution key is already bound to another grant id") >>*
  raise_if match existing with Some e => revoked e && negb (revoked g) | None => false end
    (RunAuthorityError "a revoked grant cannot be reactivated") >>*
  put (store_grant g a).

Definition revoke (id : string) : M authority authority_error unit :=
  let* id := lift (require_id id "grant_id") in
  let* a := get in
  match assoc_get id (by_id a) with
  | None => ret tt
  | Some g => if revoked g then ret tt else put (store_grant (with_revoked g) a)
  end.

Definition lookup_grant (a : authority) (kind image host_ : string) : authorized (option RunGrant) :=
  let? kind := require_id kind "executor_kind" in
  let? image := require_image_reference image in
  let? host_ := require_id host_ "host" in
  Ok (by_key a !! (kind, image, host_)).

(** [grant] *)
Definition grant_of_id (a : authority) (id : string) : authorized (option RunGrant) :=
  let? id := require_id id "grant_id" in
  Ok (assoc_get id (by_id a)).

Definition is_revoked (a : authority) (id : string) : authorized bool :=
  let? g := grant_of_id a id in
  Ok match g with None => true | Some g => revoked g end.

Definition assert_live (a : authority) (id image_digest grant_digest : string) : authorized RunGrant :=
  let? id := require_id id "grant_id" in
  match assoc_get id (by_id a) with
  | None => refused "run_authority_grant_revoked"
  | Some g =>
      let? expected := require_digest grant_digest "authority_grant_digest" in
      refused_if (negb (bool_decide (authority_digest g = expected))) "run_authority_grant_identity_mismatch" >>?
      refused_if (revoked g) "run_authority_grant_revoked" >>?
      refused_if (negb (bool_decide (image_digest = digest_pin g))) "run_authority_digest_mismatch" >>?
      Ok g
  end.

Definition authorize (a : authority) (kind image host_ image_digest grant_digest : string) : authorized RunGrant :=
  match lookup_grant a kind image host_ with
  | Raise _ => refused "run authorization is not addressable on this host"
  | Ok None => refused "run_authority_no_grant"
  | Ok (Some g) =>
      let? expected := require_digest grant_digest "authority_grant_digest" in
      refused_if (negb (bool_decide (authority_digest g = expected))) "run_authority_grant_identity_mismatch" >>?
      refused_if (revoked g) "run_authority_grant_revoked" >>?
      refused_if (negb (DIGEST_fullmatch image_digest)) "run_authority_digest_unset" >>?
      refused_if (negb (bool_decide (image_digest = digest_pin g))) "run_authority_digest_mismatch" >>?
      Ok g
  end.

Definition grants (a : authority) : list RunGrant := snd <$> by_id a.

(** [perform_if_live] around an effect on a larger state that holds the authority; the
    errors of the two are told apart by [inl] and [inr]. *)
Section perform.
Context {S E A : Type} (authority_of : S -> authority).

Definition checked_live (id image_digest grant_digest : string) : M S (authority_error + E) unit :=
  let* s := get in
  match assert_live (authority_of s) id image_digest grant_digest with
  | Ok _ => ret tt
  | Raise e => raise (inl e)
  end.

Definition run_effect (effect : M S E A) : M S (authority_error + E) A :=
  fun s => match effect s with
           | (s', Ok a) => (s', Ok a)
           | (s', Raise e) => (s', Raise (inr e))
           end.

Definition perform_if_live (id image_digest grant_digest : string) (effect : M S E A) : M S (authority_error + E) A :=
  checked_live id image_digest grant_digest >>*
  let* result := run_effect effect in
  checked_live id image_digest grant_digest >>*
  ret result.
End perform.

(** ** The digest names the grant *)

Definition identity_text (g : RunGrant) : string := document (JObj (identity_document g)).

(** Two grants that differ at most in their revocation. *)
Definition same_grant (g1 g2 : RunGrant) : Prop := with_revoked g1 = with_revoked g2.

#[export] Instance same_grant_equivalence : Equivalence same_grant.
Proof. unfold same_grant. split; [done|intros ? ? ?; done|intros ? ? ? ? ?; congruence]. Qed.

Lemma same_grant_revoked g : same_grant (with_revoked g) g.
Proof. done. Qed.

#[export] Instance grant_key_proper : Proper (same_grant ==> eq) grant_key.
Proof. intros g1 g2 H. exact (f_equal grant_key H). Qed.

#[export] Instance grant_id_proper : Proper (same_grant ==> eq) grant_id.
Proof. intros g1 g2 H. exact (f_equal grant_id H). Qed.

#[export] Instance authority_digest_proper : Proper (same_grant ==> eq) authority_digest.
Proof. intros g1 g2 H. exact (f_equal authority_digest H). Qed.

Lemma identity_document_keys g : NoDup (dict_keys (identity_document g)).
Proof. apply (bool_decide_unpack _). vm_compute. exact I. Qed.

Lemma identity_field g1 g2 k : norm (JObj (identity_document g1)) = norm (JObj (identity_document g2)) ->
  norm <$> dict_get k (identity_document g1) = norm <$> dict_get k (identity_document g2).
Proof.
  rewrite !norm_obj. intros H.
  assert (E : sort_fields (norm_fields (identity_document g1)) = sort_fields (norm_fields (identity_document g2))) by congruence.
  by rewrite <-!dict_get_sort_norm, E by apply identity_document_keys.
Qed.

Lemma digest_same_grant docs g1 g2 : collision_free docs -> identity_text g1 ∈ docs -> identity_text g2 ∈ docs ->
  authority_digest g1 = authority_digest g2 -> same_grant g1 g2.
Proof.
  intros Hc H1 H2 H. apply (digest_norm docs) in H; [|done..].
  pose proof (fun k => identity_field g1 g2 k H) as F.
  pose proof (F "grantId") as F1. pose proof (F "executorKind") as F2. pose proof (F "claimedImage") as F3.
  pose proof (F "host") as F4. pose proof (F "scope") as F5. pose proof (F "issuedAt") as F6.
  pose proof (F "digestPin") as F7. cbn in F1, F2, F3, F4, F5, F6, F7.
  unfold same_grant, with_revoked. congruence.
Qed.

(** ** The two indexes agree *)

Record authority_ok (docs : list string) (a : authority) : Prop := {
  key_index : forall k g, by_key a !! k = Some g -> k = grant_key g /\ assoc_get (grant_id g) (by_id a) = Some g;
  id_index : forall id g, assoc_get id (by_id a) = Some g -> grant_id g = id /\ by_key a !! grant_key g = Some g;
  known_texts : forall id g, assoc_get id (by_id a) = Some g -> identity_text g ∈ docs;
  typed_grants : forall id g, assoc_get id (by_id a) = Some g -> RunGrant_post_init g = Ok tt;
}.

Section indexes.
Context (docs : list string) (Hdocs : collision_free docs).

(** A grant may be stored when no other grant has its identifier or its key. *)
Lemma store_ok g a : authority_ok docs a -> identity_text g ∈ docs -> RunGrant_post_init g = Ok tt ->
  (forall e, assoc_get (grant_id g) (by_id a) = Some e -> same_grant e g) ->
  (forall k, by_key a !! grant_key g = Some k -> grant_id k = grant_id g) ->
  authority_ok docs (store_grant g a).
Proof.
  intros [Hk Hi Ht Hv] Hg Hp Hsame Hkey. split; cbn [store_grant by_key by_id].
  - intros k x Hx. destruct (decide (k = grant_key g)) as [->|Hne].
    + rewrite lookup_insert_eq in Hx. injection Hx as <-. by rewrite assoc_get_set_eq.
    + rewrite lookup_insert_ne in Hx by done. destruct (Hk k x Hx) as [-> Hx']. split; [done|].
      destruct (decide (grant_id x = grant_id g)) as [E|E]; [|by rewrite assoc_get_set_ne].
      exfalso. apply Hne. rewrite E in Hx'. by rewrite (Hsame x Hx').
  - intros id x Hx. destruct (decide (id = grant_id g)) as [->|Hne].
    + rewrite assoc_get_set_eq in Hx. injection Hx as <-. by rewrite lookup_insert_eq.
    + rewrite assoc_get_set_ne in Hx by done. destruct (Hi id x Hx) as [<- Hx']. split; [done|].
      rewrite lookup_insert_ne; [done|]. intros E. rewrite <-E in Hx'. by specialize (Hkey x Hx').
  - intros id x Hx. destruct (decide (id = grant_id g)) as [->|Hne].
    + rewrite assoc_get_set_eq in Hx. by injection Hx as <-.
    + rewrite assoc_get_set_ne in Hx by done. by eapply Ht.
  - intros id x Hx. destruct (decide (id = grant_id g)) as [->|Hne].
    + rewrite assoc_get_set_eq in Hx. by injection Hx as <-.
    + rewrite assoc_get_set_ne in Hx by done. by eapply Hv.
Qed.

(** What registering leaves behind. *)
Definition registered (g : RunGrant) (a a' : authority) : Prop :=
  a' = store_grant g a /\ authority_ok docs a' /\
  forall e, assoc_get (grant_id g) (by_id a) = Some e -> same_grant e g /\ (revoked e = true -> revoked g = true).

Lemma wp_register g a : authority_ok docs a -> identity_text g ∈ docs -> RunGrant_post_init g = Ok tt ->
  wp (register g) (fun _ a' => registered g a a') (fun _ a' => a' = a) a.
Proof.
  intros Ha Hg Hp. unfold register. cbv zeta. do 2 wp_step. do 4 (wp_step; wp_step; [done|]). wp_step.
  assert (Hsame : forall e, assoc_get (grant_id g) (by_id a) = Some e -> same_grant e g).
  { intros e He. rewrite He in *. split_bool. apply (digest_same_grant docs); [done|by eapply known_texts|done..]. }
  split; [done|]. split.
  - apply store_ok; [done..|]. intros k Hk. rewrite Hk in *. by split_bool.
  - intros e He. split; [by apply Hsame|]. intros Hr. rewrite He, Hr in *. cbn in *. by split_bool.
Qed.
End indexes.

(** ** Histories of the authority *)

Inductive call := Register (g : RunGrant) | Revoke (id : string).

(** Every call holds the lock: a history of calls from any number of threads is a sequence. *)
Definition run_call (a : authority) (c : call) : authority :=
  match c with
  | Register g => fst (register g a)
  | Revoke id => fst (revoke id a)
  end.

Definition call_texts (c : call) : list string :=
  match c with Register g => [identity_text g] | Revoke _ => [] end.

(** The identities the owner released during a history. *)
Definition released (cs : list call) : list string := cs ≫= call_texts.

(** A [RunGrant] was checked when it was built. *)
Definition call_typed (c : call) : Prop :=
  match c with Register g => RunGrant_post_init g = Ok tt | Revoke _ => True end.

Lemma revoked_ok docs g a : authority_ok docs a -> assoc_get (grant_id g) (by_id a) = Some g ->
  authority_ok docs (store_grant (with_revoked g) a).
Proof.
  intros Ha Hg. destruct (id_index _ _ Ha _ _ Hg) as [_ Hk]. apply store_ok; [done| | | |].
  - exact (known_texts _ _ Ha _ _ Hg).
  - exact (typed_grants _ _ Ha _ _ Hg).
  - intros e He. change (grant_id (with_revoked g)) with (grant_id g) in He. by assert (e = g) as -> by congruence.
  - intros k Hk'. change (grant_key (with_revoked g)) with (grant_key g) in Hk'. by assert (k = g) as -> by congruence.
Qed.

Lemma wp_revoke docs id a : authority_ok docs a ->
  wp (revoke id)
    (fun _ a' => authority_ok docs a' /\
       (a' = a \/ exists g, assoc_get id (by_id a) = Some g /\ revoked g = false /\ a' = store_grant (with_revoked g) a))
    (fun _ a' => a' = a) a.
Proof.
  intros Ha. unfold revoke. do 2 wp_step; [|done]. unfold require_id in *.
  destruct (ID_fullmatch id); [|done]. simplify_eq. do 2 wp_step.
  destruct (assoc_get _ (by_id a)) as [g|] eqn:E; [|wp_step; auto].
  wp_step; wp_step; [auto|]. destruct (id_index _ _ Ha _ _ E) as [Hid _].
  split; [apply revoked_ok; [done|by rewrite Hid]|]. right. eauto.
Qed.

(** A revoked grant stays: neither its identity nor its revocation can be undone. *)
Definition revoked_in (a : authority) (id : string) : Prop :=
  exists g, assoc_get id (by_id a) = Some g /\ revoked g = true.

Section histories.
Context (docs : list string) (Hdocs : collision_free docs).

Definition call_known (c : call) : Prop := call_typed c /\ forall d, d ∈ call_texts c -> d ∈ docs.

Lemma store_keeps g a id x : assoc_get id (by_id a) = Some x ->
  (forall e, assoc_get (grant_id g) (by_id a) = Some e -> same_grant e g /\ (revoked e = true -> revoked g = true)) ->
  exists y, assoc_get id (by_id (store_grant g a)) = Some y /\ same_grant x y /\ (revoked x = true -> revoked y = true).
Proof.
  intros Hx He. cbn [store_grant by_id]. destruct (decide (id = grant_id g)) as [->|Hne].
  - rewrite assoc_get_set_eq. exists g. split; [done|]. by apply He.
  - rewrite assoc_get_set_ne by done. by exists x.
Qed.

(** Every call keeps the indexes in agreement, and what a grant says. *)
Definition kept (a a' : authority) : Prop :=
  authority_ok docs a' /\
  forall id x, assoc_get id (by_id a) = Some x ->
    exists y, assoc_get id (by_id a') = Some y /\ same_grant x y /\ (revoked x = true -> revoked y = true).

Lemma kept_refl a : authority_ok docs a -> kept a a.
Proof. intros Ha. split; [done|]. intros id x Hx. by exists x. Qed.

Lemma call_keeps c a : authority_ok docs a -> call_known c -> kept a (run_call a c).
Proof.
  intros Ha [Ht Hc]. destruct c as [g|id0]; cbn [run_call]; apply (wp_final _ (kept a)).
  - eapply wp_mono; [apply (wp_register docs Hdocs g a Ha); [apply Hc; by left|exact Ht]| |]; [|by intros _ ? ->; apply kept_refl].
    intros _ a' (-> & Ha' & He). split; [done|]. intros id x Hx. by apply store_keeps.
  - eapply wp_mono; [by apply (wp_revoke docs)| |]; [|by intros _ ? ->; apply kept_refl].
    intros _ a' (Ha' & [->|(g & Hg & _ & ->)]); [by apply kept_refl|]. split; [done|]. intros id x Hx. apply store_keeps; [done|].
    intros e He. destruct (id_index _ _ Ha _ _ Hg) as [Hid _].
    change (grant_id (with_revoked g)) with (grant_id g) in He. rewrite Hid in He. by assert (e = g) as -> by congruence.
Qed.

Lemma history_keeps cs a : authority_ok docs a -> Forall call_known cs ->
  authority_ok docs (run_trace run_call a cs) /\
  (forall id, revoked_in a id -> revoked_in (run_trace run_call a cs) id).
Proof.
  intros Ha Hcs. revert a Ha. induction Hcs as [|c cs Hc _ IH]; intros a Ha; [done|].
  destruct (call_keeps c a Ha Hc) as [Hok Hkeep]. destruct (IH _ Hok) as [Hok' Hrev]. split; [done|].
  intros id (g & Hg & Hr). apply Hrev. destruct (Hkeep _ _ Hg) as (y & Hy & _ & Hy'). exists y. auto.
Qed.

(** Revoking a registered identifier leaves it revoked. *)
Lemma revoke_revokes id a : authority_ok docs a -> ID_fullmatch id = true -> is_Some (assoc_get id (by_id a)) ->
  revoked_in (run_call a (Revoke id)) id.
Proof.
  intros Ha Hid [g Hg]. cbn [run_call]. unfold revoke, require_id. rewrite Hid, bind_lift_ok, bind_get, Hg.
  destruct (revoked g) eqn:E; [by exists g|]. cbn [put fst]. destruct (id_index _ _ Ha _ _ Hg) as [<- _].
  exists (with_revoked g). split; [apply assoc_get_set_eq|done].
Qed.
End histories.

Lemma new_authority_ok docs h a : new_authority h = Ok a -> authority_ok docs a.
Proof. unfold new_authority. intros H. inv_ok. split; cbn; intros; simplify_map_eq. Qed.

Lemma released_known cs1 cs : Forall call_typed cs -> Forall (call_known (released (cs1 ++ cs))) cs.
Proof.
  rewrite !Forall_forall. intros Ht c Hc. split; [by apply Ht|]. intros d Hd.
  apply list_elem_of_bind. exists c. split; [done|]. apply elem_of_app. by right.
Qed.

Lemma assert_live_sound a id image_digest grant_digest g :
  assert_live a id image_digest grant_digest = Ok g ->
  assoc_get id (by_id a) = Some g /\ authority_digest g = grant_digest /\ revoked g = false /\ image_digest = digest_pin g.
Proof.
  unfold assert_live, require_id, require_digest, refused, refused_if. intros H. destruct (ID_fullmatch id); [|done].
  cbn [obind] in H. destruct (assoc_get id (by_id a)) as [x|] eqn:E; [|done].
  destruct (DIGEST_fullmatch grant_digest); [|done]. inv_ok. by split_bool.
Qed.

Lemma authorize_sound a kind image host_ image_digest grant_digest g :
  authorize a kind image host_ image_digest grant_digest = Ok g ->
  by_key a !! (kind, image, host_) = Some g /\ authority_digest g = grant_digest /\ revoked g = false /\ image_digest = digest_pin g.
Proof.
  unfold authorize, lookup_grant, require_id, require_image_reference, require_digest, refused, refused_if. intros H.
  destruct (ID_fullmatch kind), (IMAGE_REFERENCE_fullmatch image), (ID_fullmatch host_); try done. cbn [obind] in H.
  destruct (by_key a !! _) as [x|] eqn:E; [|done].
  destruct (DIGEST_fullmatch grant_digest); [|done]. inv_ok. by split_bool.
Qed.

(** ** Properties *)

Lemma authority_digest_fullmatch g : DIGEST_fullmatch (authority_digest g) = true.
Proof. apply canonical_digest_fullmatch. Qed.

Lemma assert_live_complete a id g : assoc_get id (by_id a) = Some g -> ID_fullmatch id = true -> revoked g = false ->
  assert_live a id (digest_pin g) (authority_digest g) = Ok g.
Proof.
  intros Hg Hid Hr. unfold assert_live, require_id, require_digest, refused_if. rewrite Hid. cbn [obind].
  rewrite Hg, authority_digest_fullmatch. cbn [obind].
  by rewrite !bool_decide_eq_true_2, Hr.
Qed.

Lemma authorize_complete a g : by_key a !! grant_key g = Some g -> RunGrant_post_init g = Ok tt -> revoked g = false ->
  authorize a (executor_kind g) (claimed_image g) (grant_host g) (digest_pin g) (authority_digest g) = Ok g.
Proof.
  intros Hg Hp Hr. unfold RunGrant_post_init, require_id, require_image_reference, require_string, require_digest, refused in Hp.
  unfold authorize, lookup_grant, require_id, require_image_reference, require_digest, refused_if.
  destruct (ID_fullmatch (grant_id g)), (ID_fullmatch (executor_kind g)), (IMAGE_REFERENCE_fullmatch (claimed_image g)),
    (ID_fullmatch (grant_host g)); try done. cbn [obind] in *.
  destruct (negb (nonblank (scope g)) || _), (negb (nonblank (issued_at g)) || _); try done.
  destruct (DIGEST_fullmatch (digest_pin g)) eqn:Ed; [|done]. unfold grant_key in Hg. rewrite Hg.
  rewrite authority_digest_fullmatch. cbn [obind].
  by rewrite !bool_decide_eq_true_2, Hr.
Qed.

(** C25 A run is authorized exactly when the owner released it: whatever the history of
    registrations and revocations, [authorize] answers a grant if and only if the authority
    holds that grant under its identifier, not revoked, and every binding is the grant's own:
    executor kind, claimed image, host, pinned image digest and the digest of the
    authorization.  Under one execution key at most one grant can ever answer. *)
Theorem authorized_exactly_when_granted h a0 cs :
  new_authority h = Ok a0 -> collision_free (released cs) -> Forall call_typed cs ->
  let a := run_trace run_call a0 cs in
  forall kind image host_ image_digest grant_digest g,
  authorize a kind image host_ image_digest grant_digest = Ok g <->
  assoc_get (grant_id g) (by_id a) = Some g /\ revoked g = false /\
  kind = executor_kind g /\ image = claimed_image g /\ host_ = grant_host g /\
  image_digest = digest_pin g /\ grant_digest = authority_digest g.
Proof.
  intros H0 Hc Ht a kind image host_ image_digest grant_digest g.
  destruct (history_keeps _ Hc cs a0 (new_authority_ok _ _ _ H0) (released_known [] cs Ht)) as [Ha _].
  fold a in Ha. split.
  - intros (Hk & Hd & Hr & Hi)%authorize_sound. destruct (key_index _ _ Ha _ _ Hk) as [Hkey Hid].
    unfold grant_key in Hkey. by injection Hkey as -> -> ->.
  - intros (Hid & Hr & -> & -> & -> & -> & ->). destruct (id_index _ _ Ha _ _ Hid) as [_ Hk].
    apply authorize_complete; [done| |done]. by eapply typed_grants.
Qed.

(** C24 Revocation is final: once a registered grant has been revoked, no later history of
    registrations and revocations revives it.  It is reported revoked, no binding check and no
    authorization ever answers it again, and [perform_if_live] refuses before the effect runs,
    leaving the state as it was. *)
Theorem revocation_is_final h a0 cs1 id cs2 :
  new_authority h = Ok a0 -> collision_free (released (cs1 ++ cs2)) -> Forall call_typed (cs1 ++ cs2) ->
  ID_fullmatch id = true -> is_Some (assoc_get id (by_id (run_trace run_call a0 cs1))) ->
  let a := run_trace run_call a0 (cs1 ++ Revoke id :: cs2) in
  is_revoked a id = Ok true /\
  (forall image_digest grant_digest g, assert_live a id image_digest grant_digest <> Ok g) /\
  (forall kind image host_ image_digest grant_digest g,
     authorize a kind image host_ image_digest grant_digest = Ok g -> grant_id g <> id) /\
  (forall S E A (authority_of : S -> authority) (effect : M S E A) s image_digest grant_digest, authority_of s = a ->
     exists e, perform_if_live authority_of id image_digest grant_digest effect s = (s, Raise (inl e))).
Proof.
  intros H0 Hc Ht Hid Hg a. set (docs := released (cs1 ++ cs2)) in *.
  pose proof (released_known [] _ Ht) as Hk. apply Forall_app in Hk as [Hk1 Hk2].
  destruct (history_keeps _ Hc cs1 a0 (new_authority_ok _ _ _ H0) Hk1) as [Ha1 _].
  pose proof (revoke_revokes docs id _ Ha1 Hid Hg) as Hrev.
  assert (Hkr : call_known docs (Revoke id)) by (split; [done|intros d []%not_elem_of_nil]).
  destruct (call_keeps _ Hc (Revoke id) _ Ha1 Hkr) as [Ha2 _].
  destruct (history_keeps _ Hc cs2 _ Ha2 Hk2) as [Ha Hfin].
  assert (E : run_trace run_call (run_call (run_trace run_call a0 cs1) (Revoke id)) cs2 = a) by (unfold a; by rewrite run_trace_app).
  rewrite E in *. destruct (Hfin id Hrev) as (x & Hx & Hr).
  assert (Hlive : forall i d g, assert_live a id i d <> Ok g).
  { intros i d g (Hg' & _ & Hr' & _)%assert_live_sound. congruence. }
  split; [|split; [done|split]].
  - unfold is_revoked, grant_of_id, require_id. rewrite Hid. cbn [obind]. by rewrite Hx, Hr.
  - intros kind image host_ i d g (Hk & _ & Hr' & _)%authorize_sound <-.
    destruct (key_index _ _ Ha _ _ Hk) as [_ Hg']. congruence.
  - intros S F A au effect s i d Hs. unfold perform_if_live, checked_live, bind at 1, bind at 1, get. rewrite Hs.
    specialize (Hlive i d). destruct (assert_live a id i d) as [g|e]; [by destruct (Hlive g)|]. by exists e.
Qed.

(** ** The properties at work *)

Definition digest_of_char (c : string) : string := "sha256:" +:+ String.concat "" (repeat c 64).

Definition codex_grant (rev : bool) : RunGrant :=
  {| grant_id := "grant.1"; executor_kind := "codex-cli"; claimed_image := "ghcr.io/agents/codex@" +:+ digest_of_char "a";
     grant_host := "host-1"; scope := "one instance, bounded runs"; issued_at := "2026-07-01T00:00:00Z";
     digest_pin := digest_of_char "a"; revoked := rev |}.

Abbreviation fresh_authority := {| host := "host-1"; by_key := ∅; by_id := [] |}.

Example authorizes_the_pin :
  authorize (run_trace run_call fresh_authority [Register (codex_grant false)]) "codex-cli" (claimed_image (codex_grant false))
    "host-1" (digest_of_char "a") (authority_digest (codex_grant false)) = Ok (codex_grant false).
Proof. vm_compute. reflexivity. Qed.

Example refuses_another_image_digest :
  authorize (run_trace run_call fresh_authority [Register (codex_grant false)]) "codex-cli" (claimed_image (codex_grant false))
    "host-1" (digest_of_char "b") (authority_digest (codex_grant false)) = refused "run_authority_digest_mismatch".
Proof. vm_compute. reflexivity. Qed.

Lemma authorized_exactly_when_granted_witness :
  authority_digest (codex_grant false) = authority_digest (codex_grant true) /\
  (authorize (run_trace run_call fresh_authority [Register (codex_grant false)]) "codex-cli" (claimed_image (codex_grant false))
    "host-1" (digest_of_char "a") (authority_digest (codex_grant false)) = Ok (codex_grant false)).
Proof.
  split; [reflexivity|].
  apply (authorized_exactly_when_granted "host-1" fresh_authority [Register (codex_grant false)]).
  - reflexivity.
  - apply collision_free_compute, (bool_decide_unpack _). vm_compute. exact I.
  - repeat constructor.
  - repeat split.
Defined.

(** The grant is released, revoked, and released again as if nothing had happened. *)
Lemma revocation_is_final_witness :
  is_revoked (run_trace run_call fresh_authority
    ([Register (codex_grant false)] ++ Revoke "grant.1" :: [Register (codex_grant false)])) "grant.1" = Ok true.
Proof.
  apply (revocation_is_final "host-1" fresh_authority [Register (codex_grant false)] "grant.1" [Register (codex_grant false)]).
  - reflexivity.
  - apply collision_free_same.
  - repeat constructor.
  - reflexivity.
  - vm_compute. eauto.
Defined.
