(* ===== verification/RunLease.v ===== *)
(** * Run leases (packages/execution-host, run_lease.py)

    The lease state machine over the typed [RunLease] contract ([RunLeaseController]), the
    exclusive lock file of a workspace ([WorkspaceFileLease], over a kernel that keeps one
    holder per locked file), and the gate that lets a run complete once
    ([RunCompletionGate]).  A lease is the dictionary of its validated contract. *)

From S2P Require Import Prelude Json Contracts RuntimeContracts.

(** ** Lease states *)

Definition HELD : list string := ["granted"; "renewed"].
Definition OUTCOMES : list string := ["completed"; "failed"; "cancelled"; "refused"].

(** [_LEGAL] *)
Definition LEGAL : list (string * list string) :=
  [("granted", ["granted"; "renewed"; "expired"; "released"; "revoked"]);
   ("renewed", ["renewed"; "expired"; "released"; "revoked"]);
   ("expired", ["expired"]); ("released", ["released"]); ("revoked", ["revoked"])].

(** [RunLeaseError], or what rebuilding the contract raises. *)
Inductive lease_error :=
| RunLeaseError (message : string)
| ContractFault (e : contract_error).

Abbreviation leased := (outcome lease_error).

Definition contract_of {A} (o : checked A) : leased A :=
  match o with Ok a => Ok a | Raise e => Raise (ContractFault e) end.

(** [lease.to_dict()["state"]] *)
Definition state_of (lease : dict) : json := key_json "state" lease.

(** [v in {...}] of a validated state, which is a string *)
Definition is_held (lease : dict) : bool := in_tuple (state_of lease) HELD.

Definition legal (current : json) (to : string) : bool :=
  match current with
  | JStr s => match assoc_get s LEGAL with Some l => mem to l | None => false end
  | _ => false
  end.

Definition with_state (to : string) (lease : dict) : dict := dict_set "state" (JStr to) lease.

(** ** [RunLeaseController] *)

Definition transition (lease : dict) (to : string) : leased dict :=
  refuse_if (negb (legal (state_of lease) to))
    (RunLeaseError ("illegal_lease_transition:" +:+ py_str (state_of lease) +:+ "->" +:+ to)) >>?
  contract_of (from_dict RunLease (JObj (with_state to lease))).

Definition renew (lease : dict) : leased dict := transition lease "renewed".
Definition expire (lease : dict) : leased dict := transition lease "expired".
Definition release (lease : dict) : leased dict := if is_held lease then transition lease "released" else Ok lease.
Definition cancel (lease : dict) : leased dict := release lease.

Definition force_release (lease : dict) : leased dict :=
  contract_of (from_dict RunLease (JObj (if is_held lease then with_state "revoked" lease else lease))).

Definition shutdown_live (lease : dict) : leased dict := force_release lease.

(** ** [WorkspaceFileLease]

    A kernel's advisory locks: the open file that holds each locked path.  Opening makes a
    new open file; a lock goes to one open file at a time, and closing the file or ending
    its process gives it up. *)

Record kernel := {
  flocks : gmap string nat;
  next_file : nat;
}.

(** The lock file of one workspace; the open file while the lease is held. *)
Record file_lease := {
  lock_path : string;
  handle : option nat;
}.

Definition new_file_lease (path : string) : file_lease := {| lock_path := path; handle := None |}.

(** Opening takes the next open file; [openable] tells whether the file could be opened. *)
Definition acquire (openable : bool) (f : file_lease) (k : kernel) : kernel * leased file_lease :=
  match handle f with
  | Some _ => (k, Ok f)
  | None =>
      if negb openable then (k, Raise (RunLeaseError "workspace_lease_open_failed"))
      else
        let k := {| flocks := flocks k; next_file := next_file k + 1 |} in
        match flocks k !! lock_path f with
        | Some _ => (k, Raise (RunLeaseError "workspace_lease_busy"))
        | None =>
            let fd := next_file k in
            ({| flocks := <[lock_path f := fd]> (flocks k); next_file := next_file k |},
             Ok {| lock_path := lock_path f; handle := Some fd |})
        end
  end.

(** [LOCK_UN] and [close()]: the locks of one open file are given up. *)
Definition unlock (fd : nat) (k : kernel) : kernel :=
  {| flocks := filter (fun pf => pf.2 <> fd) (flocks k); next_file := next_file k |}.

Definition release_file (f : file_lease) (k : kernel) : kernel * file_lease :=
  let k := match handle f with Some fd => unlock fd k | None => k end in
  (k, {| lock_path := lock_path f; handle := None |}).

(** [WorkspaceFileLease.is_held]: a second open file tries the lock and gives it back. *)
Definition file_is_held (openable : bool) (path : string) (k : kernel) : kernel * leased bool :=
  if negb openable then (k, Raise (RunLeaseError "workspace_lease_inspection_failed"))
  else
    ({| flocks := flocks k; next_file := next_file k + 1 |}, Ok (bool_decide (is_Some (flocks k !! path)))).

(** ** [RunCompletionGate] *)

Record gate := {
  finished : gmap string string;
  cancelled : gset string;
}.

Definition new_gate : gate := {| finished := ∅; cancelled := ∅ |}.

Definition cancel_record (lease_id : string) (g : gate) : gate :=
  {| finished := finished g; cancelled := {[lease_id]} ∪ cancelled g |}.

Definition certify_cancelled (lease_id : string) : M gate lease_error bool :=
  modify (cancel_record lease_id) >>* ret true.

(** The identifier of a validated lease *)
Definition lease_id_of (lease : dict) : string := py_str (key_json "leaseId" lease).

Definition complete (lease : dict) (outcome_ : string) : M gate lease_error bool :=
  raise_if (negb (mem outcome_ OUTCOMES)) (RunLeaseError ("invalid_run_outcome:" +:+ outcome_)) >>*
  let lease_id := lease_id_of lease in
  raise_if (is_held lease) (RunLeaseError "run_lease_held_cannot_complete") >>*
  let* g := get in
  raise_if (bool_decide (is_Some (finished g !! lease_id))) (RunLeaseError "run_already_completed") >>*
  let recorded := if bool_decide (lease_id ∈ cancelled g) && negb (bool_decide (outcome_ = "cancelled"))
                  then "cancelled" else outcome_ in
  put {| finished := <[lease_id := recorded]> (finished g); cancelled := cancelled g |} >>*
  ret true.

Definition finished_outcome (lease_id : string) (g : gate) : option string := finished g !! lease_id.

(** ** A run completes once *)

Inductive gate_call := Complete (lease : dict) (outcome_ : string) | CancelRecord (lease_id : string).

(** Both hold the gate's lock: calls from any number of threads are a sequence. *)
Definition gate_step (g : gate) (c : gate_call) : gate :=
  match c with
  | Complete lease o => fst (complete lease o g)
  | CancelRecord id => cancel_record id g
  end.

Definition recorded (id o : string) (g : gate) : string :=
  if bool_decide (id ∈ cancelled g) && negb (bool_decide (o = "cancelled")) then "cancelled" else o.

Lemma wp_complete lease o g :
  wp (complete lease o)
    (fun _ g' => o ∈ OUTCOMES /\ is_held lease = false /\ finished g !! lease_id_of lease = None /\
       g' = {| finished := <[lease_id_of lease := recorded (lease_id_of lease) o g]> (finished g); cancelled := cancelled g |})
    (fun _ g' => g' = g) g.
Proof.
  unfold complete. do 2 (wp_step; wp_step; [done|]). do 2 wp_step. wp_step; wp_step; [done|]. do 3 wp_step. split_bool.
  split; [by apply mem_true|]. split; [done|]. split; [|done]. by apply eq_None_not_Some.
Qed.

(** What is finished stays, what is cancelled stays. *)
Definition gate_grows (g g' : gate) : Prop :=
  (forall id o, finished g !! id = Some o -> finished g' !! id = Some o) /\ cancelled g ⊆ cancelled g'.

#[export] Instance gate_grows_preorder : PreOrder gate_grows.
Proof.
  split; [by intros g; split|]. intros g1 g2 g3 [F1 C1] [F2 C2]. split; [auto|set_solver].
Qed.

Lemma gate_step_grows g c : gate_grows g (gate_step g c).
Proof.
  destruct c as [lease o|id]; cbn [gate_step].
  - apply (wp_final _ (gate_grows g)). eapply wp_mono; [apply wp_complete| |by intros e g' ->].
    intros _ g' (_ & _ & Hnone & ->). split; [|done]. intros id o' H. cbn. rewrite lookup_insert_ne; [done|congruence].
  - split; [done|]. cbn. set_solver.
Qed.

Lemma gate_trace_grows tr : forall g, gate_grows g (run_trace gate_step g tr).
Proof. induction tr as [|c tr IH]; intros g; [done|]. cbn. etrans; [apply gate_step_grows|apply IH]. Qed.

(** What a cancelled run may be recorded as. *)
Definition cancelled_only (id : string) (g : gate) : Prop :=
  id ∈ cancelled g /\ forall o, finished g !! id = Some o -> o = "cancelled".

Lemma cancelled_only_step id g c : cancelled_only id g -> cancelled_only id (gate_step g c).
Proof.
  intros [Hc Hf]. destruct c as [lease o|id']; cbn [gate_step].
  - apply (wp_final _ (cancelled_only id)). eapply wp_mono; [apply wp_complete| |by intros e g' ->].
    intros _ g' (_ & _ & Hnone & ->). split; [done|]. cbn. intros o' [[<- E]|[_ H]]%lookup_insert_Some; [|by apply Hf].
    unfold recorded in E. rewrite bool_decide_eq_true_2 in E by done. case_bool_decide; by subst.
  - split; cbn; [set_solver|done].
Qed.

Definition outcomes_ok (g : gate) : Prop := forall id o, finished g !! id = Some o -> o ∈ OUTCOMES.

Lemma outcomes_ok_step g c : outcomes_ok g -> outcomes_ok (gate_step g c).
Proof.
  intros H. destruct c as [lease o|id]; cbn [gate_step]; [|exact H].
  apply (wp_final _ outcomes_ok). eapply wp_mono; [apply wp_complete| |by intros e g' ->].
  intros _ g' (Ho & _ & _ & ->) id' o'. cbn. intros [[_ <-]|[_ H']]%lookup_insert_Some; [|by eapply H].
  unfold recorded. destruct (_ && _); [|done]. apply mem_true. reflexivity.
Qed.

(** A run completes at most once, never while its lease is held, and never as a success
    after it was cancelled.  After any history of the gate: a recorded outcome is one of the
    four, is final, and every later completion under its lease identifier is refused; a run
    cancelled before it finished can only ever be recorded as cancelled; and completing
    with a held lease is refused and changes nothing. *)
Theorem run_completes_once tr1 id tr2 :
  let g1 := run_trace gate_step new_gate tr1 in
  (forall o, finished g1 !! id = Some o ->
     let g2 := run_trace gate_step g1 tr2 in
     o ∈ OUTCOMES /\ finished g2 !! id = Some o /\
     forall lease o', lease_id_of lease = id -> exists e, complete lease o' g2 = (g2, Raise e)) /\
  (finished g1 !! id = None ->
     forall o, finished (run_trace gate_step g1 (CancelRecord id :: tr2)) !! id = Some o -> o = "cancelled") /\
  (forall lease o, is_held lease = true -> exists e, complete lease o g1 = (g1, Raise e)).
Proof.
  intros g1. split; [|split].
  - intros o Ho g2. assert (H2 : finished g2 !! id = Some o) by (by apply (gate_trace_grows tr2 g1)). split; [|split; [done|]].
    + apply (run_trace_invariant gate_step outcomes_ok outcomes_ok_step tr1 new_gate) in Ho; [done|].
      intros id' o' H. cbn in H. by rewrite lookup_empty in H.
    + intros lease o' Hid. pose proof (wp_complete lease o' g2) as W. unfold wp in W.
      destruct (complete lease o' g2) as [g' [b|e]]; [|exists e; by rewrite W].
      destruct W as (_ & _ & Hnone & _). rewrite Hid in Hnone. congruence.
  - intros Hnone o. cbn [run_trace foldl]. assert (H : cancelled_only id (gate_step g1 (CancelRecord id))).
    { split; cbn; [set_solver|]. congruence. }
    apply (run_trace_invariant gate_step (cancelled_only id) (cancelled_only_step id) tr2) in H. apply H.
  - intros lease o Hh. pose proof (wp_complete lease o g1) as W. unfold wp in W.
    destruct (complete lease o g1) as [g' [b|e]]; [|exists e; by rewrite W]. destruct W as (_ & Hh' & _). congruence.
Qed.

Definition released_lease : dict := with_state "released" (lease_document "granted").

Lemma run_completes_once_witness :
  finished (run_trace gate_step new_gate [Complete released_lease "completed"; CancelRecord "lease.1"; Complete released_lease "cancelled"])
    !! "lease.1" = Some "completed" /\
  finished (run_trace gate_step (run_trace gate_step new_gate []) (CancelRecord "lease.1" :: [Complete released_lease "completed"]))
    !! "lease.1" = Some "cancelled" /\ "cancelled" = "cancelled".
Proof.
  split; [|split].
  - apply (run_completes_once [Complete released_lease "completed"] "lease.1"
             [CancelRecord "lease.1"; Complete released_lease "cancelled"]). vm_compute. reflexivity.
  - vm_compute. reflexivity.
  - apply (proj1 (proj2 (run_completes_once [] "lease.1" [Complete released_lease "completed"])));
      vm_compute; reflexivity.
Defined.

(** The lease machine refuses to release an expired lease, although the states are described
    as going from expired to released. *)
Example expired_is_terminal : transition (lease_document "expired") "released"
  = Raise (RunLeaseError "illegal_lease_transition:expired->released").
Proof. vm_compute. reflexivity. Qed.

Example forced_release : force_release (lease_document "renewed") = Ok (lease_document "revoked").
Proof. vm_compute. reflexivity. Qed.
