(* ===== verification/RunLifecycle.v ===== *)
(** * The lifecycle of a managed run (packages/execution-host, agent_run_lifecycle.py)

    [AgentRunLifecycle]: a run begins under a live grant with the lock of its workspace
    held and its lease written to a claim file; it is renewed, checked, and ended through
    its ticket.  Several processes share the directory of claims and the kernel's locks;
    each has its own authority and its own open lock files, and a crash closes them.  A
    call is one step; what the disk does during it is drawn from a list of faults.  A clock
    that is not timezone-aware is [None]; otherwise it is a UTC time in microseconds. *)

From S2P Require Import Prelude Instants Json Paths Contracts RuntimeContracts RunAuthority RunLease.

Inductive lifecycle_error :=
| RunLifecycleError (message : string)
| RunRefused (message : string)
| RunAdapterUnavailable (message : string)
| IllegalLease (message : string)       (* RunLeaseError *)
| AuthorityRefused (message : string)   (* RunAuthorityError *)
| OSFault
| ValueFault
| TypeFault
| OverflowFault.

(** ** State *)

(** What one file operation does: nothing, or a claim is in place but the call fails. *)
Inductive disk_fault := Lost | Placed.

(** The directory of leases and the kernel, shared by all processes.  A claim that does not
    parse is [None]. *)
Record shared := {
  claims : gmap string (option json);
  locks : kernel;
  faults : list (option disk_fault);
}.

Record lifecycle := {
  authority : RunAuthority.authority;
  lease_duration : Z;
  lock_files : gmap string file_lease;
}.

(** What a call of one lifecycle object can change. *)
Record node := {
  disk : shared;
  self : lifecycle;
}.

Abbreviation call := (M node lifecycle_error).

Definition set_claims (c : gmap string (option json)) (s : shared) : shared :=
  {| claims := c; locks := locks s; faults := faults s |}.
Definition set_locks (k : kernel) (s : shared) : shared :=
  {| claims := claims s; locks := k; faults := faults s |}.
Definition set_faults (l : list (option disk_fault)) (s : shared) : shared :=
  {| claims := claims s; locks := locks s; faults := l |}.
Definition on_disk (f : shared -> shared) (n : node) : node := {| disk := f (disk n); self := self n |}.
Definition set_lock_files (l : gmap string file_lease) (n : node) : node :=
  {| disk := disk n;
     self := {| authority := authority (self n); lease_duration := lease_duration (self n); lock_files := l |} |}.

(** The next fault, if the disk fails. *)
Definition next_fault : call (option disk_fault) :=
  let* n := get in
  match faults (disk n) with
  | [] => ret None
  | f :: rest => put (on_disk (set_faults rest) n) >>* ret f
  end.

(** ** Helpers *)

Record RunTicket := {
  run_id : string;
  workspace_id : string;
  ticket_executor : string;
  image_digest : string;
  ticket_grant : string;
  authority_grant_digest : string;
  started_at : string;
  claim_path : string;
  lease_expires_at : string;
  ticket_lease : dict;
}.

Definition now_of (clock : option Z) : outcome lifecycle_error Z :=
  match clock with Some t => Ok t | None => Raise (RunLifecycleError "run clock must be timezone-aware") end.

(** [start + timedelta(seconds=self._lease_duration)] *)
Definition later (start duration : Z) : outcome lifecycle_error Z :=
  let t := (start + duration * SECOND)%Z in
  if (t <? LAST_INSTANT)%Z then Ok t else Raise OverflowFault.

(** [a >= b] of an aware time and the time a text stands for *)
Definition reached (now : Z) (text : string) : outcome lifecycle_error bool :=
  match parse_instant text with
  | None => Raise ValueFault
  | Some d => match dt_offset d with Some o => Ok (dt_local d - o <=? now)%Z | None => Raise TypeFault end
  end.

(** [_atomic_write_json] of a lease, at its claim path *)
Definition claim_of (lease : dict) : string := py_str (key_json "claimPath" lease).

Definition write_claim (lease : dict) : call unit :=
  modify (on_disk (fun s => set_claims (<[claim_of lease := Some (norm (JObj lease))]> (claims s)) s)).

Definition persist_lease (lease : dict) : call unit :=
  let* fault := next_fault in
  match fault with
  | None => write_claim lease
  | Some Lost => raise OSFault
  | Some Placed => write_claim lease >>* raise OSFault
  end.

(** [_require_id] *)
Definition require_id (value : json) (name : string) : outcome lifecycle_error string :=
  match value with
  | JStr s => if bool_decide (s = "") || (128 <? py_len s)%Z then Raise (RunRefused (name +:+ " is not a valid identifier")) else Ok s
  | _ => Raise (RunRefused (name +:+ " is not a valid identifier"))
  end.

Definition authorized_or_refused {A} (o : outcome authority_error A) : outcome lifecycle_error A :=
  match o with Ok a => Ok a | Raise (RunAuthorityError m) => Raise (RunRefused m) end.

Definition lease_result {A} (o : outcome lease_error A) : outcome lifecycle_error A :=
  match o with
  | Ok a => Ok a
  | Raise (RunLeaseError m) => Raise (IllegalLease m)
  | Raise (ContractFault (Invalid _)) => Raise ValueFault
  | Raise (ContractFault Unhashable) => Raise TypeFault
  end.

(** A claim read from its file; a [ValueError] is reported as an invalid claim. *)
Definition claim_contents (c : option json) : outcome lifecycle_error dict :=
  match c with
  | None => Raise (RunLifecycleError "lease claim is invalid")
  | Some v =>
      match from_dict RunLease v with
      | Ok lease => Ok lease
      | Raise (Invalid _) => Raise (RunLifecycleError "lease claim is invalid")
      | Raise Unhashable => Raise TypeFault
      end
  end.

(** [path.read_text()]: a disk fault is an [OSError], reported as an invalid claim. *)
Definition read_claim (path : string) : call dict :=
  let* n := get in
  match claims (disk n) !! path with
  | None => raise (RunLifecycleError "lease claim is missing")
  | Some c =>
      let* fault := next_fault in
      match fault with
      | Some _ => raise (RunLifecycleError "lease claim is invalid")
      | None => lift (claim_contents c)
      end
  end.

Definition read_lease (ticket : RunTicket) : call dict := read_claim (claim_path ticket).

Definition try_finally {A} (body : call A) (cleanup : call unit) : call A :=
  fun n => let '(n1, r) := body n in
           match cleanup n1 with
           | (n2, Ok _) => (n2, r)
           | (n2, Raise e) => (n2, Raise e)
           end.

(** [AgentRunLifecycle.__init__], apart from making the directories *)
Definition new_lifecycle (a : RunAuthority.authority) (duration : json) : outcome lifecycle_error lifecycle :=
  match duration with
  | JInt d =>
      if (d <=? 0)%Z then Raise (RunLifecycleError "lease_duration_seconds must be a positive integer")
      else Ok {| authority := a; lease_duration := d; lock_files := ∅ |}
  | _ => Raise (RunLifecycleError "lease_duration_seconds must be a positive integer")
  end.

Section lifecycle.
(** [str(self._leases_dir)] *)
Context (leases_dir : string).

Definition lock_path_of (workspace : string) : string :=
  leases_dir +:+ "/" +:+ join_slash (path_parts ("workspace-" +:+ workspace +:+ ".lock")).

Definition claim_path_of (lease_id : string) : string := leases_dir +:+ "/" +:+ lease_id +:+ ".json".

(** ** Workspace locks *)

(** [self._lock_files[claim_path] = lease]; a lease object that is replaced is closed. *)
Definition store_lock_file (claim : string) (f : file_lease) : call unit :=
  let* n := get in
  let k := match lock_files (self n) !! claim with
           | Some old => fst (release_file old (locks (disk n)))
           | None => locks (disk n)
           end in
  put (on_disk (set_locks k) (set_lock_files (<[claim := f]> (lock_files (self n))) n)).

Definition acquire_workspace_lock (workspace claim : string) : call unit :=
  let* fault := next_fault in
  let* n := get in
  let '(k, r) := acquire (bool_decide (fault = None)) (new_file_lease (lock_path_of workspace)) (locks (disk n)) in
  put (on_disk (set_locks k) n) >>*
  match r with
  | Ok f => store_lock_file claim f
  | Raise (RunLeaseError m) =>
      raise (RunRefused (if bool_decide (m = "workspace_lease_busy") then "run_single_in_flight" else "run_lease_lock_failed"))
  | Raise (ContractFault _) => raise (RunRefused "run_lease_lock_failed")
  end.

Definition release_workspace_lock_path (claim : string) : call unit :=
  let* n := get in
  match lock_files (self n) !! claim with
  | None => ret tt
  | Some f =>
      let '(k, _) := release_file f (locks (disk n)) in
      put (on_disk (set_locks k) (set_lock_files (delete claim (lock_files (self n))) n))
  end.

Definition release_workspace_lock (ticket : RunTicket) : call unit := release_workspace_lock_path (claim_path ticket).

Definition workspace_lock_is_held (workspace : string) : call bool :=
  let* fault := next_fault in
  let* n := get in
  let '(k, r) := file_is_held (bool_decide (fault = None)) (lock_path_of workspace) (locks (disk n)) in
  put (on_disk (set_locks k) n) >>*
  match r with
  | Ok b => ret b
  | Raise _ => raise (RunLifecycleError "run lease lock could not be inspected")
  end.

(** ** Which run is active *)

(** [self._leases_dir.glob("lease.*.json")], sorted *)
Definition is_claim_file (path : string) : bool :=
  startswith (leases_dir +:+ "/lease.") path
  && bool_decide (String.substring (String.length path - 5) 5 path = ".json").

Definition claim_files (s : shared) : list string := merge_sort String.le (List.filter is_claim_file (fst <$> map_to_list (claims s))).

Fixpoint first_active (workspace : string) (paths : list string) : call (option string) :=
  match paths with
  | [] => ret None
  | path :: rest =>
      let* lease := read_claim path in
      if py_eqb (key_json "workspaceId" lease) (JStr workspace) && is_held lease then
        let* held := workspace_lock_is_held workspace in
        if held then ret (Some (py_str (key_json "runId" lease))) else first_active workspace rest
      else first_active workspace rest
  end.

Definition active_for (workspace : json) : call (option string) :=
  let* workspace := lift (require_id workspace "workspaceId") in
  let* n := get in
  first_active workspace (claim_files (disk n)).

Definition is_active (workspace : json) : call bool :=
  let* run := active_for workspace in ret (bool_decide (is_Some run)).

(** ** The life of a run *)

Definition assert_granted (ticket : RunTicket) : call unit :=
  let* n := get in
  lift (authorized_or_refused
          (RunAuthority.assert_live (authority (self n)) (ticket_grant ticket) (image_digest ticket) (authority_grant_digest ticket))) >>*
  ret tt.

Definition text_or_refused (value : json) (message : string) : outcome lifecycle_error string :=
  match value with JStr s => Ok s | _ => Raise (RunRefused message) end.

(** The lock, the typed lease and the claim of a new run *)
Definition claim_lease (workspace claim : string) (fields : outcome lifecycle_error dict) : call dict :=
  acquire_workspace_lock workspace claim >>*
  let* fields := lift fields in
  let* lease := lift (lease_result (contract_of (from_dict RunLease (JObj fields)))) in
  persist_lease lease >>*
  ret lease.

(** Whatever fails gives the lock back. *)
Definition claim_run (workspace claim : string) (fields : outcome lifecycle_error dict) : call dict :=
  fun n =>
    match claim_lease workspace claim fields n with
    | (n1, Ok lease) => (n1, Ok lease)
    | (n1, Raise e) =>
        match release_workspace_lock_path claim n1 with
        | (n2, Ok _) => (n2, Raise match e with RunRefused m => RunRefused m | _ => RunRefused "run_lease_persist_failed" end)
        | (n2, Raise e') => (n2, Raise e')
        end
    end.

Definition begin_run (spec : json) (executor_kind claimed_image host_ : string) (clock : option Z) (token : string) : call RunTicket :=
  match spec with
  | JObj spec =>
      raise_if (negb (forallb (fun k => dict_has k spec) ["runId"; "workspaceId"; "imageDigest"; "authorityGrantDigest"]))
        (RunRefused "run spec is incomplete") >>*
      let* run := lift (require_id (key_json "runId" spec) "runId") in
      let* workspace := lift (require_id (key_json "workspaceId" spec) "workspaceId") in
      let* image := lift (text_or_refused (key_json "imageDigest" spec) "run_authority_digest_unset") in
      let* grant_digest := lift (text_or_refused (key_json "authorityGrantDigest" spec) "run_authority_grant_identity_unset") in
      let* start := lift (now_of clock) in
      let started := utc_text start in
      let* n := get in
      let* expiry := lift (later start (lease_duration (self n))) in
      let expires := utc_text expiry in
      let* grant := lift (authorized_or_refused
        (authorize (authority (self n)) executor_kind claimed_image host_ image grant_digest)) in
      let lease_id := "lease." +:+ token in
      let claim := claim_path_of lease_id in
      let fields :=
        let? kind := require_id (JStr executor_kind) "executor_kind" in
        Ok [("formatVersion", JStr LEASE_FORMAT); ("leaseId", JStr lease_id); ("runId", JStr run);
            ("workspaceId", JStr workspace); ("executorKind", JStr kind); ("imageDigest", JStr image);
            ("claimPath", JStr claim); ("startedAt", JStr started); ("expiresAt", JStr expires); ("state", JStr "granted")] in
      let* lease := claim_run workspace claim fields in
      ret {| run_id := run; workspace_id := workspace; ticket_executor := executor_kind; image_digest := image;
             ticket_grant := grant_id grant; authority_grant_digest := grant_digest; started_at := started;
             claim_path := claim; lease_expires_at := expires; ticket_lease := lease |}
  | _ => raise (RunRefused "run spec is incomplete")
  end.

Definition is_expired (ticket : RunTicket) (clock : option Z) : outcome lifecycle_error bool :=
  let? now := now_of clock in reached now (lease_expires_at ticket).

Definition assert_live (ticket : RunTicket) (clock : option Z) : call RunTicket :=
  assert_granted ticket >>*
  let* expired := lift (is_expired ticket clock) in
  raise_if expired (RunRefused "run_lease_expired") >>*
  let* lease := read_lease ticket in
  raise_if (negb (is_held lease)) (RunRefused ("run_lease_" +:+ py_str (state_of lease))) >>*
  ret ticket.

(** The errors of [RunAuthority.perform_if_live] around an effect. *)
Definition from_authority {A} (m : M node (authority_error + lifecycle_error) A) : call A :=
  fun n => match m n with
           | (n', Ok a) => (n', Ok a)
           | (n', Raise (inl (RunAuthorityError m))) => (n', Raise (AuthorityRefused m))
           | (n', Raise (inr e)) => (n', Raise e)
           end.

Definition authority_of (n : node) : RunAuthority.authority := authority (self n).

Definition perform_if_live {A} (ticket : RunTicket) (effect : call A) (clock : option Z) : call A :=
  assert_live ticket clock >>*
  from_authority (RunAuthority.perform_if_live authority_of
                    (ticket_grant ticket) (image_digest ticket) (authority_grant_digest ticket) effect).

(** Persist the lease a run ends with; the workspace lock is given up whether or not it is
    written. *)
Definition end_with (ticket : RunTicket) (lease : dict) : call unit :=
  try_finally (persist_lease lease) (release_workspace_lock ticket).

Definition fail_expired (ticket : RunTicket) : call unit :=
  let* current := read_lease ticket in
  let* expired := lift (lease_result (expire current)) in
  end_with ticket expired.

Definition renew_lease (ticket : RunTicket) (clock : option Z) : call RunTicket :=
  assert_granted ticket >>*
  let* now := lift (now_of clock) in
  let* expired := lift (reached now (lease_expires_at ticket)) in
  if expired then fail_expired ticket >>* raise (RunRefused "run_lease_expired")
  else
    let* lease := read_lease ticket in
    raise_if (in_tuple (state_of lease) ["expired"; "released"; "revoked"])
      (RunRefused ("run_lease_" +:+ py_str (state_of lease))) >>*
    let* n := get in
    let* expiry := lift (later now (lease_duration (self n))) in
    let new_expires := utc_text expiry in
    let* current := read_lease ticket in
    let* base := lift (lease_result (contract_of (from_dict RunLease (JObj (dict_set "expiresAt" (JStr new_expires) current))))) in
    let* lease := lift (lease_result (renew base)) in
    persist_lease lease >>*
    ret {| run_id := run_id ticket; workspace_id := workspace_id ticket; ticket_executor := ticket_executor ticket;
           image_digest := image_digest ticket; ticket_grant := ticket_grant ticket;
           authority_grant_digest := authority_grant_digest ticket; started_at := started_at ticket;
           claim_path := claim_path ticket; lease_expires_at := new_expires; ticket_lease := lease |}.

Definition fail_if_expired (ticket : RunTicket) (clock : option Z) : call RunTicket :=
  let* expired := lift (is_expired ticket clock) in
  if expired then fail_expired ticket >>* raise (RunRefused "run_lease_expired") else ret ticket.

Definition revoke_run (ticket : RunTicket) : call RunTicket :=
  let* current := read_lease ticket in
  let* revoked := lift (lease_result (force_release current)) in
  end_with ticket revoked >>* ret ticket.

Definition revoked_during_run (ticket : RunTicket) : call bool :=
  let* n := get in
  match grant_of_id (authority (self n)) (ticket_grant ticket) with
  | Raise (RunAuthorityError m) => raise (AuthorityRefused m)
  | Ok None => ret true
  | Ok (Some g) => ret (revoked g)
  end.

Definition cancel_run (ticket : RunTicket) : call RunTicket :=
  let* current := read_lease ticket in
  if in_tuple (state_of current) ["released"; "expired"; "revoked"]
  then release_workspace_lock ticket >>* ret ticket
  else
    let* released := lift (lease_result (cancel current)) in
    end_with ticket released >>* ret ticket.

Definition release_run (ticket : RunTicket) : call RunTicket :=
  let* current := read_lease ticket in
  let* released := lift (lease_result (release current)) in
  end_with ticket released >>* ret ticket.

(** [type(exc).__name__] *)
Definition exception_name (e : lifecycle_error) : string :=
  match e with
  | RunLifecycleError _ => "RunLifecycleError"
  | RunRefused _ => "RunRefused"
  | RunAdapterUnavailable _ => "RunAdapterUnavailable"
  | IllegalLease _ => "RunLeaseError"
  | AuthorityRefused _ => "RunAuthorityError"
  | OSFault => "OSError"
  | ValueFault => "ValueError"
  | TypeFault => "TypeError"
  | OverflowFault => "OverflowError"
  end.

Definition closed_failure (e : lifecycle_error) : lifecycle_error :=
  match e with
  | RunLifecycleError _ | RunRefused _ | RunAdapterUnavailable _ => e
  | _ => RunAdapterUnavailable ("run adapter failed closed: " +:+ exception_name e)
  end.

Definition reach_adapter {A} (ticket : RunTicket) (adapter : option (dict -> call A)) (clock : option Z) : call A :=
  assert_granted ticket >>*
  fail_if_expired ticket clock >>*
  match adapter with
  | None => raise (RunRefused "run_adapter_is_not_typed")
  | Some run => run (ticket_lease ticket)
  end.

(** [adapter] is the call of a typed adapter, or [None] for an object that is not one. *)
Definition invoke {A} (ticket : RunTicket) (adapter : option (dict -> call A)) (clock : option Z) : call A :=
  fun n =>
    match reach_adapter ticket adapter clock n with
    | (n', Ok a) => (n', Ok a)
    | (n', Raise e) => (n', Raise (closed_failure e))
    end.

(** [managed_adapter_for]: no kind has an adapter. *)
Definition managed_adapter_for (executor_kind : json) : outcome lifecycle_error unit :=
  match executor_kind with
  | JStr s =>
      if bool_decide (s = "") then Raise (RunAdapterUnavailable "executor_kind is invalid")
      else Raise (RunAdapterUnavailable
        ("no managed adapter shipped for executor_kind=" +:+ s +:+
         "; managed runs resolve only through the execution-host managed-run path"))
  | _ => Raise (RunAdapterUnavailable "executor_kind is invalid")
  end.
End lifecycle.
