(* ===== verification/RunSystem.v ===== *)
(** * Managed runs of several processes

    The processes of a host that share one directory of run leases: what each may call on
    its [AgentRunLifecycle], how a crash ends it, and what holds of every history: a
    workspace has one run at a time, an effect needs a live run, a lease that has ended
    stays ended. *)

From S2P Require Import Prelude Instants Json Contracts RuntimeContracts RunAuthority RunLease RunLifecycle.

(** ** Processes *)

Section system.
Context (leases_dir : string).

(** A call of a process.  [Perform] and [Invoke] run another call as their effect. *)
Inductive run_call :=
| Begin (spec : json) (executor_kind claimed_image host_ : string) (clock : option Z) (token : string)
| Renew (ticket : RunTicket) (clock : option Z)
| AssertLive (ticket : RunTicket) (clock : option Z)
| FailIfExpired (ticket : RunTicket) (clock : option Z)
| RevokeRun (ticket : RunTicket)
| Cancel (ticket : RunTicket)
| ReleaseRun (ticket : RunTicket)
| ActiveFor (workspace : json)
| Perform (ticket : RunTicket) (clock : option Z) (effect : run_call)
| Invoke (ticket : RunTicket) (clock : option Z) (effect : run_call)
| Authority (c : RunAuthority.call).

Definition as_ticket (m : call RunTicket) : call (option RunTicket) := let* t := m in ret (Some t).

Fixpoint exec (c : run_call) : call (option RunTicket) :=
  match c with
  | Begin spec kind image host_ clock token => as_ticket (begin_run leases_dir spec kind image host_ clock token)
  | Renew t clock => as_ticket (renew_lease t clock)
  | AssertLive t clock => as_ticket (assert_live t clock)
  | FailIfExpired t clock => as_ticket (fail_if_expired t clock)
  | RevokeRun t => as_ticket (revoke_run t)
  | Cancel t => as_ticket (cancel_run t)
  | ReleaseRun t => as_ticket (release_run t)
  | ActiveFor w => active_for leases_dir w >>* ret None
  | Perform t clock effect => perform_if_live t (exec effect) clock
  | Invoke t clock effect => invoke t (Some (fun _ => exec effect)) clock
  | Authority c =>
      modify (fun n => {| disk := disk n;
                          self := {| authority := RunAuthority.run_call (authority (self n)) c;
                                     lease_duration := lease_duration (self n); lock_files := lock_files (self n) |} |}) >>*
      ret None
  end.

Record world := {
  on_host : shared;
  processes : gmap nat lifecycle;
}.

Inductive event :=
| Start (p : nat) (a : RunAuthority.authority) (duration : Z)
| Crash (p : nat)
| Call (p : nat) (c : run_call).

(** The kernel closes the open files of a process that ends. *)
Definition close_all (l : gmap string file_lease) (k : kernel) : kernel :=
  {| flocks := filter (fun pf => negb (existsb (fun cf => bool_decide (handle cf.2 = Some pf.2)) (map_to_list l))) (flocks k);
     next_file := next_file k |}.

Definition node_of (w : world) (l : lifecycle) : node := {| disk := on_host w; self := l |}.

Definition happen (w : world) (e : event) : world :=
  match e with
  | Start p a d =>
      match processes w !! p with
      | Some _ => w
      | None => {| on_host := on_host w;
                   processes := <[p := {| authority := a; lease_duration := d; lock_files := ∅ |}]> (processes w) |}
      end
  | Crash p =>
      match processes w !! p with
      | None => w
      | Some l => {| on_host := set_locks (close_all (lock_files l) (locks (on_host w))) (on_host w);
                     processes := delete p (processes w) |}
      end
  | Call p c =>
      match processes w !! p with
      | None => w
      | Some l => let n := fst (exec c (node_of w l)) in
                  {| on_host := disk n; processes := <[p := self n]> (processes w) |}
      end
  end.

Definition initial (faults_ : list (option disk_fault)) : world :=
  {| on_host := {| claims := ∅; locks := {| flocks := ∅; next_file := 0 |}; faults := faults_ |}; processes := ∅ |}.

(** ** Which open lock files a call can give up *)

Definition view := (kernel * gmap string file_lease)%type.
Definition view_of (n : node) : view := (locks (disk n), lock_files (self n)).

(** A free lock, taken by the next open file. *)
Definition locked (path : string) (k : kernel) : kernel :=
  {| flocks := <[path := next_file k + 1]> (flocks k); next_file := next_file k + 1 |}.

(** The lock file that a claim had before is closed. *)
Definition replaced (claim : string) (l : gmap string file_lease) (k : kernel) : kernel :=
  match l !! claim with Some old => fst (release_file old k) | None => k end.

(** Opening a file, taking a free lock, giving one up that is in [T]. *)
Inductive lock_step (T : gset string) : view -> view -> Prop :=
| step_open k l : lock_step T (k, l) ({| flocks := flocks k; next_file := next_file k + 1 |}, l)
| step_take claim path k l : flocks k !! path = None -> claim ∈ T ->
    lock_step T (k, l) (replaced claim l (locked path k), <[claim := {| lock_path := path; handle := Some (next_file k + 1) |}]> l)
| step_drop claim f k l : l !! claim = Some f -> claim ∈ T ->
    lock_step T (k, l) (fst (release_file f k), delete claim l).

Definition moves (T : gset string) (n n' : node) : Prop := rtc (lock_step T) (view_of n) (view_of n').

(** Each call with the locks it may give up when it returns, and when it raises. *)
Definition moved {A} (Tok Terr : gset string) (m : call A) : Prop :=
  forall n, wp m (fun _ n' => moves Tok n n') (fun _ n' => moves Terr n n') n.

Lemma lock_step_mono T T' v v' : T ⊆ T' -> lock_step T v v' -> lock_step T' v v'.
Proof. intros HT H. destruct H; econstructor; eauto; set_solver. Qed.

Lemma moves_mono T T' n n' : T ⊆ T' -> moves T n n' -> moves T' n n'.
Proof. intros HT. apply rtc_subrel. intros v v'. by apply lock_step_mono. Qed.

Lemma moves_refl T n n' : view_of n = view_of n' -> moves T n n'.
Proof. unfold moves. by intros ->. Qed.

Lemma moves_trans T n1 n2 n3 : moves T n1 n2 -> moves T n2 n3 -> moves T n1 n3.
Proof. unfold moves. intros. by etrans. Qed.

Lemma moved_weaken {A} T1 T2 T1' T2' (m : call A) : T1 ⊆ T1' -> T2 ⊆ T2' -> moved T1 T2 m -> moved T1' T2' m.
Proof. intros H1 H2 H n. eapply wp_mono; [apply H|..]; intros ? ?; by apply moves_mono. Qed.

Lemma moved_bind {A B} Tok Terr (m : call A) (k : A -> call B) : Tok ⊆ Terr ->
  moved Tok Terr m -> (forall a, moved Tok Terr (k a)) -> moved Tok Terr (bind m k).
Proof.
  intros HT Hm Hk n. apply wp_bind. eapply wp_mono; [apply Hm| |done]. intros a n1 H1.
  eapply wp_mono; [apply Hk|..]; intros ? n2 H2; (eapply moves_trans; [|exact H2]); [done|by eapply moves_mono].
Qed.

(** A call that raises whatever it did before. *)
Lemma moved_raise_after {A B} Tok T (m : call A) e : moved T T m -> moved (A := B) Tok T (m >>* raise e).
Proof. intros Hm n. apply wp_bind. eapply wp_mono; [apply Hm|..]; done. Qed.

Lemma moved_same {A} Tok Terr (m : call A) : (forall n, view_of (fst (m n)) = view_of n) -> moved Tok Terr m.
Proof. intros H n. specialize (H n). unfold wp. destruct (m n) as [n' [a|e]]; by apply moves_refl. Qed.

Lemma moved_ret {A} Tok Terr (a : A) : moved Tok Terr (ret a).
Proof. by apply moved_same. Qed.
Lemma moved_raise {A} Tok Terr e : moved (A := A) Tok Terr (raise e).
Proof. by apply moved_same. Qed.
Lemma moved_lift {A} Tok Terr (o : outcome lifecycle_error A) : moved Tok Terr (lift o).
Proof. by apply moved_same. Qed.
Lemma moved_raise_if Tok Terr b e : moved Tok Terr (raise_if b e).
Proof. by apply moved_same. Qed.
Lemma moved_get Tok Terr : moved Tok Terr get.
Proof. by apply moved_same. Qed.
Lemma moved_if {A} Tok Terr (b : bool) (m1 m2 : call A) : moved Tok Terr m1 -> moved Tok Terr m2 -> moved Tok Terr (if b then m1 else m2).
Proof. by destruct b. Qed.

Create HintDb moved.
#[local] Hint Resolve moved_ret moved_raise moved_lift moved_raise_if moved_get moved_if : moved.

Lemma moved_next_fault Tok Terr : moved Tok Terr next_fault.
Proof. apply moved_same. intros n. unfold next_fault, bind, get. by destruct (faults (disk n)) as [|f l]. Qed.

Lemma moved_write Tok Terr d : moved Tok Terr (write_claim d).
Proof. by apply moved_same. Qed.
#[local] Hint Resolve moved_next_fault moved_write : moved.

(** [moving]: through the administrative commands of a call. *)
Ltac moving :=
  repeat first
    [ solve [eauto with moved]
    | apply moved_bind; [first [done|set_solver]| |intros ?]
    | match goal with |- moved _ _ (match ?x with _ => _ end) => destruct x end ].

Lemma moved_persist Tok Terr d : Tok ⊆ Terr -> moved Tok Terr (persist_lease d).
Proof. intros HT. unfold persist_lease. moving. Qed.
#[local] Hint Resolve moved_persist : moved.

Lemma moved_read_claim Tok Terr path : Tok ⊆ Terr -> moved Tok Terr (read_claim path).
Proof. intros HT. unfold read_claim. moving. Qed.
Lemma moved_read Tok Terr t : Tok ⊆ Terr -> moved Tok Terr (read_lease t).
Proof. apply moved_read_claim. Qed.
#[local] Hint Resolve moved_read_claim moved_read : moved.

Lemma moved_release_path claim T T' : claim ∈ T -> claim ∈ T' -> moved T T' (release_workspace_lock_path claim).
Proof.
  intros H H' n. unfold release_workspace_lock_path. apply wp_bind, wp_get.
  destruct (lock_files (self n) !! claim) as [f|] eqn:E; [|by apply wp_ret, moves_refl].
  destruct (release_file f (locks (disk n))) as [k f'] eqn:Ef. apply wp_put. apply rtc_once.
  replace k with (fst (release_file f (locks (disk n)))) by (by rewrite Ef). by apply step_drop.
Qed.

Lemma moved_release T T' t : claim_path t ∈ T -> claim_path t ∈ T' -> moved T T' (release_workspace_lock t).
Proof. apply moved_release_path. Qed.

(** A primitive that reads the next fault, then changes the locks. *)
Lemma moved_after_fault {A} Tok Terr (k : option disk_fault -> call A) : Tok ⊆ Terr ->
  (forall f, moved Tok Terr (k f)) -> moved Tok Terr (let* f := next_fault in k f).
Proof. intros HT Hk. apply moved_bind; [done|apply moved_next_fault|exact Hk]. Qed.

Lemma moved_lock_check Tok Terr ws : Tok ⊆ Terr -> moved Tok Terr (workspace_lock_is_held leases_dir ws).
Proof.
  intros HT. apply moved_after_fault; [done|]. intros f n. apply wp_bind, wp_get. unfold file_is_held.
  destruct (negb (bool_decide (f = None))); apply wp_bind, wp_put.
  - apply wp_raise. by apply moves_refl.
  - apply wp_ret. apply rtc_once. apply step_open.
Qed.
#[local] Hint Resolve moved_lock_check : moved.

Lemma moved_acquire claim ws T T' : T ⊆ T' -> claim ∈ T -> moved T T' (acquire_workspace_lock leases_dir ws claim).
Proof.
  intros HT Hc. apply moved_after_fault; [done|]. intros f n. apply wp_bind, wp_get. unfold acquire, new_file_lease. cbn [handle lock_path].
  destruct (negb (bool_decide (f = None))).
  { apply wp_bind, wp_put, wp_raise. by apply moves_refl. }
  cbn [flocks next_file]. destruct (flocks (locks (disk n)) !! lock_path_of leases_dir ws) as [fd|] eqn:E.
  { apply wp_bind, wp_put, wp_raise. apply rtc_once, step_open. }
  apply wp_bind, wp_put. unfold store_lock_file. apply wp_bind, wp_get, wp_put. apply rtc_once.
  apply (step_take T claim _ _ _ E Hc).
Qed.

Lemma moved_finally {A} T T' (body : call A) cleanup : T ⊆ T' -> moved T T body -> moved T T cleanup ->
  moved T T' (try_finally body cleanup).
Proof.
  intros HT Hb Hc n. specialize (Hb n). unfold wp, try_finally in *. destruct (body n) as [n1 r].
  specialize (Hc n1). unfold wp in Hc. destruct (cleanup n1) as [n2 [u|e]], r as [a|e']; (eapply moves_mono; [|eapply moves_trans; eassumption]); done.
Qed.

Lemma moved_end_with t T T' d : T ⊆ T' -> claim_path t ∈ T -> moved T T' (end_with t d).
Proof. intros HT Hc. apply moved_finally; [done|by apply moved_persist|by apply moved_release]. Qed.
#[local] Hint Resolve moved_end_with moved_release moved_acquire : moved.

Lemma moved_assert_granted Tok Terr t : Tok ⊆ Terr -> moved Tok Terr (assert_granted t).
Proof. intros HT. unfold assert_granted. moving. Qed.
#[local] Hint Resolve moved_assert_granted : moved.

Lemma moved_assert_live Tok Terr t clock : Tok ⊆ Terr -> moved Tok Terr (assert_live t clock).
Proof. intros HT. unfold assert_live. moving. Qed.

Lemma moved_fail_expired T T' t : T ⊆ T' -> claim_path t ∈ T -> moved T T' (fail_expired t).
Proof. intros HT Hc. unfold fail_expired. moving. Qed.

Lemma moved_fail_if_expired t clock Tok Terr : Tok ⊆ Terr -> claim_path t ∈ Terr -> moved Tok Terr (fail_if_expired t clock).
Proof.
  intros HT Hc. unfold fail_if_expired. apply moved_bind; [done|moving|]. intros [].
  - by apply moved_raise_after, moved_fail_expired.
  - moving.
Qed.

Lemma moved_renew t clock : moved ∅ {[claim_path t]} (renew_lease t clock).
Proof.
  unfold renew_lease. do 3 (apply moved_bind; [set_solver|moving; set_solver|intros ?]). destruct (_ : bool).
  - apply moved_raise_after, moved_fail_expired; set_solver.
  - assert (∅ ⊆ ({[claim_path t]} : gset string)) by set_solver. moving.
Qed.

Lemma moved_revoke t T : claim_path t ∈ T -> moved T T (revoke_run t).
Proof. intros Hc. unfold revoke_run. moving. Qed.
Lemma moved_cancel t T : claim_path t ∈ T -> moved T T (cancel_run t).
Proof. intros Hc. unfold cancel_run. moving. Qed.
Lemma moved_release_run t T : claim_path t ∈ T -> moved T T (release_run t).
Proof. intros Hc. unfold release_run. moving. Qed.

Lemma moved_first_active Tok Terr ws paths : Tok ⊆ Terr -> moved Tok Terr (first_active leases_dir ws paths).
Proof. intros HT. induction paths as [|path rest IH]; cbn [first_active]; moving. Qed.

Lemma moved_claim_run T ws claim fields : claim ∈ T -> moved T T (claim_run leases_dir ws claim fields).
Proof.
  intros Hc n. unfold claim_run, wp.
  assert (Hb : moved T T (claim_lease leases_dir ws claim fields)) by (unfold claim_lease; moving).
  specialize (Hb n). unfold wp in Hb. destruct (claim_lease _ _ _ _ n) as [n1 [lease|e]]; [done|].
  pose proof (moved_release_path claim T T Hc Hc n1) as Hr. unfold wp in Hr.
  destruct (release_workspace_lock_path claim n1) as [n2 [u|e']]; exact (moves_trans _ _ _ _ Hb Hr).
Qed.

Lemma moved_begin T spec kind image host_ clock token : claim_path_of leases_dir ("lease." +:+ token) ∈ T ->
  moved T T (begin_run leases_dir spec kind image host_ clock token).
Proof.
  intros Hc. unfold begin_run. pose proof (fun ws f => moved_claim_run T ws _ f Hc). moving.
Qed.

(** The claims whose lock a call may give up, when it returns and when it raises. *)
Fixpoint drops_ok (c : run_call) : gset string :=
  match c with
  | Begin _ _ _ _ _ token => {[claim_path_of leases_dir ("lease." +:+ token)]}
  | RevokeRun t | Cancel t | ReleaseRun t => {[claim_path t]}
  | Perform _ _ effect | Invoke _ _ effect => drops_ok effect
  | Renew _ _ | AssertLive _ _ | FailIfExpired _ _ | ActiveFor _ | Authority _ => ∅
  end.

Fixpoint drops (c : run_call) : gset string :=
  match c with
  | Begin _ _ _ _ _ token => {[claim_path_of leases_dir ("lease." +:+ token)]}
  | RevokeRun t | Cancel t | ReleaseRun t | Renew t _ | FailIfExpired t _ => {[claim_path t]}
  | Perform _ _ effect => drops effect
  | Invoke t _ effect => {[claim_path t]} ∪ drops effect
  | AssertLive _ _ | ActiveFor _ | Authority _ => ∅
  end.

Lemma drops_ok_drops c : drops_ok c ⊆ drops c.
Proof. induction c; cbn; set_solver. Qed.

Lemma moved_ticket Tok Terr m : Tok ⊆ Terr -> moved Tok Terr m -> moved Tok Terr (as_ticket m).
Proof. intros HT Hm. unfold as_ticket. moving. Qed.

Lemma moved_from_authority {A} Tok Terr (m : M node (authority_error + lifecycle_error) A) :
  (forall n, wp m (fun _ n' => moves Tok n n') (fun _ n' => moves Terr n n') n) -> moved Tok Terr (from_authority m).
Proof. intros H n. specialize (H n). unfold wp, from_authority in *. destruct (m n) as [n' [a|[[msg]|e]]]; done. Qed.

Lemma moved_perform {A} Tok Terr t clock (effect : call A) : Tok ⊆ Terr -> moved Tok Terr effect ->
  moved Tok Terr (perform_if_live t effect clock).
Proof.
  intros HT He. unfold perform_if_live. apply moved_bind; [done|by apply moved_assert_live|]. intros _.
  apply moved_from_authority. intros n. unfold RunAuthority.perform_if_live, checked_live, run_effect, wp, bind, get.
  destruct (RunAuthority.assert_live _ _ _ _); [|by apply moves_refl]. cbn.
  specialize (He n). unfold wp in He. destruct (effect n) as [n1 [x|e]]; [|done].
  destruct (RunAuthority.assert_live _ _ _ _); cbn; [done|by eapply moves_mono].
Qed.

Lemma moved_invoke {A} Tok Terr t clock (effect : call A) : Tok ⊆ Terr -> claim_path t ∈ Terr -> moved Tok Terr effect ->
  moved Tok Terr (invoke t (Some (fun _ => effect)) clock).
Proof.
  intros HT Hc He n. unfold invoke, wp.
  assert (Hb : moved Tok Terr (reach_adapter t (Some (fun _ => effect)) clock)).
  { apply moved_bind; [done|by apply moved_assert_granted|]. intros _.
    apply moved_bind; [done|by apply moved_fail_if_expired|]. by intros _. }
  specialize (Hb n). unfold wp in Hb. by destruct (reach_adapter _ _ _ n) as [n1 [a|e]].
Qed.

Lemma moved_exec c : moved (drops_ok c) (drops c) (exec c).
Proof.
  induction c; cbn [exec drops drops_ok].
  - apply moved_ticket; [done|]. apply moved_begin. set_solver.
  - apply moved_ticket; [set_solver|]. apply moved_renew.
  - apply moved_ticket; [done|]. by apply moved_assert_live.
  - apply moved_ticket; [set_solver|]. apply moved_fail_if_expired; set_solver.
  - apply moved_ticket; [done|]. apply moved_revoke. set_solver.
  - apply moved_ticket; [done|]. apply moved_cancel. set_solver.
  - apply moved_ticket; [done|]. apply moved_release_run. set_solver.
  - apply moved_bind; [done| |intros; apply moved_ret]. unfold active_for. moving. by apply moved_first_active.
  - apply moved_perform; [apply drops_ok_drops|done].
  - apply moved_invoke; [pose proof (drops_ok_drops c); set_solver|set_solver|]. eapply moved_weaken; [| |exact IHc]; set_solver.
  - by apply moved_same.
Qed.

(** ** Who holds which lock *)

Abbreviation open_files := (gmap nat (gmap string file_lease)).

Definition owns (fs : open_files) (p : nat) (c : string) (f : file_lease) : Prop :=
  exists l, fs !! p = Some l /\ l !! c = Some f.

(** The kernel's locks are the open lock files of the processes, one owner each. *)
Record locks_ok (k : kernel) (fs : open_files) : Prop := {
  owner_locked : forall p c f, owns fs p c f -> exists fd, handle f = Some fd /\ flocks k !! lock_path f = Some fd;
  lock_owned : forall path fd, flocks k !! path = Some fd ->
    exists p c f, owns fs p c f /\ lock_path f = path /\ handle f = Some fd;
  one_owner : forall p1 c1 f1 p2 c2 f2, owns fs p1 c1 f1 -> owns fs p2 c2 f2 -> handle f1 = handle f2 -> p1 = p2 /\ c1 = c2;
  files_opened : forall path fd, flocks k !! path = Some fd -> fd <= next_file k;
}.

Lemma owns_other fs p l p' c f : p' <> p -> owns (<[p := l]> fs) p' c f <-> owns fs p' c f.
Proof. intros Hne. unfold owns. by rewrite lookup_insert_ne by done. Qed.

Lemma owns_self fs p l c f : owns (<[p := l]> fs) p c f <-> l !! c = Some f.
Proof. unfold owns. rewrite lookup_insert_eq. naive_solver. Qed.

(** Two locks of one path are one lock. *)
Lemma one_holder k fs p1 c1 f1 p2 c2 f2 : locks_ok k fs -> owns fs p1 c1 f1 -> owns fs p2 c2 f2 ->
  lock_path f1 = lock_path f2 -> p1 = p2 /\ c1 = c2.
Proof.
  intros Hk H1 H2 Hp. destruct (owner_locked _ _ Hk _ _ _ H1) as (fd1 & Hf1 & Hl1).
  destruct (owner_locked _ _ Hk _ _ _ H2) as (fd2 & Hf2 & Hl2).
  apply (one_owner _ _ Hk _ _ _ _ _ _ H1 H2). congruence.
Qed.

Lemma locks_ok_open k fs : locks_ok k fs -> locks_ok {| flocks := flocks k; next_file := next_file k + 1 |} fs.
Proof. intros [H1 H2 H3 H4]. split; cbn; auto. intros path fd H. specialize (H4 _ _ H). lia. Qed.

Lemma unlock_lookup fd k path x : flocks (unlock fd k) !! path = Some x <-> flocks k !! path = Some x /\ x <> fd.
Proof. unfold unlock. cbn. rewrite map_lookup_filter_Some. done. Qed.

Lemma locks_ok_drop k fs p l c f : locks_ok k fs -> fs !! p = Some l -> l !! c = Some f ->
  locks_ok (fst (release_file f k)) (<[p := delete c l]> fs).
Proof.
  intros Hk Hl Hc. assert (Hown : owns fs p c f) by (by exists l).
  destruct (owner_locked _ _ Hk _ _ _ Hown) as (fd & Hf & Hlk). unfold release_file. rewrite Hf. cbn [fst].
  assert (Hsub : forall p' c' f', owns (<[p := delete c l]> fs) p' c' f' <-> owns fs p' c' f' /\ ~ (p' = p /\ c' = c)).
  { intros p' c' f'. destruct (decide (p' = p)) as [->|Hne]; [|rewrite owns_other by done; naive_solver].
    rewrite owns_self, lookup_delete_Some. unfold owns. rewrite Hl. naive_solver. }
  assert (Hfd : forall p' c' f', owns fs p' c' f' -> ~ (p' = p /\ c' = c) -> handle f' <> Some fd).
  { intros p' c' f' Ho Hne E. apply Hne. apply (one_owner _ _ Hk _ _ _ _ _ _ Ho Hown). congruence. }
  split.
  - intros p' c' f' [Ho Hne]%Hsub. destruct (owner_locked _ _ Hk _ _ _ Ho) as (fd' & Hf' & Hl'). exists fd'. split; [done|].
    apply unlock_lookup. split; [done|]. specialize (Hfd _ _ _ Ho Hne). congruence.
  - intros path fd' [Hp Hne]%unlock_lookup. destruct (lock_owned _ _ Hk _ _ Hp) as (p' & c' & f' & Ho & Hpath & Hf').
    exists p', c', f'. split; [|done]. apply Hsub. split; [done|]. intros [-> ->].
    assert (f' = f) as -> by (destruct Ho as (l' & E1 & E2); congruence). congruence.
  - intros p1 c1 f1 p2 c2 f2 [H1 _]%Hsub [H2 _]%Hsub. by apply (one_owner _ _ Hk).
  - intros path fd' [Hp _]%unlock_lookup. by apply (files_opened _ _ Hk path).
Qed.

Lemma locks_ok_take k fs p l c path : locks_ok k fs -> fs !! p = Some l -> l !! c = None -> flocks k !! path = None ->
  locks_ok (locked path k) (<[p := <[c := {| lock_path := path; handle := Some (next_file k + 1) |}]> l]> fs).
Proof.
  intros Hk Hl Hc Hfree. set (f := {| lock_path := path; handle := Some (next_file k + 1) |}).
  assert (Hsub : forall p' c' f', owns (<[p := <[c := f]> l]> fs) p' c' f' <->
    (p' = p /\ c' = c /\ f' = f) \/ (owns fs p' c' f' /\ ~ (p' = p /\ c' = c))).
  { intros p' c' f'. destruct (decide (p' = p)) as [->|Hne]; [|rewrite owns_other by done; naive_solver].
    rewrite owns_self, lookup_insert_Some. unfold owns. rewrite Hl. naive_solver. }
  assert (Hnew : forall p' c' f', owns fs p' c' f' -> exists fd, handle f' = Some fd /\ flocks k !! lock_path f' = Some fd /\ fd <> next_file k + 1).
  { intros p' c' f' Ho. destruct (owner_locked _ _ Hk _ _ _ Ho) as (fd & Hf & Hlk). exists fd.
    pose proof (files_opened _ _ Hk _ _ Hlk). split; [done|]. split; [done|lia]. }
  split; unfold locked; cbn [flocks next_file].
  - intros p' c' f' [(-> & -> & ->)|[Ho Hne]]%Hsub; [exists (next_file k + 1); by rewrite lookup_insert_eq|].
    destruct (Hnew _ _ _ Ho) as (fd & Hf & Hlk & _). exists fd. split; [done|]. rewrite lookup_insert_ne; [done|]. congruence.
  - intros path' fd [[-> <-]|[Hne Hp]]%lookup_insert_Some.
    + exists p, c, f. split; [|done]. apply Hsub. by left.
    + destruct (lock_owned _ _ Hk _ _ Hp) as (p' & c' & f' & Ho & Hpath & Hf). exists p', c', f'. split; [|done].
      apply Hsub. right. split; [done|]. intros [-> ->]. destruct Ho as (l' & E1 & E2). congruence.
  - intros p1 c1 f1 p2 c2 f2 [(-> & -> & ->)|[H1 N1]]%Hsub [(-> & -> & ->)|[H2 N2]]%Hsub Hh; [done|..].
    + destruct (Hnew _ _ _ H2) as (fd & Hf & _ & Hfd). cbn in Hh. congruence.
    + destruct (Hnew _ _ _ H1) as (fd & Hf & _ & Hfd). cbn in Hh. congruence.
    + by apply (one_owner _ _ Hk _ _ _ _ _ _ H1 H2).
  - intros path' fd [[-> <-]|[Hne Hp]]%lookup_insert_Some; [done|]. pose proof (files_opened _ _ Hk _ _ Hp). lia.
Qed.

Lemma lock_step_ok T p k l k' l' fs : locks_ok k fs -> fs !! p = Some l -> lock_step T (k, l) (k', l') ->
  locks_ok k' (<[p := l']> fs).
Proof.
  intros Hk Hl H. inversion H as [k0 l0 E1 E2|c path k0 l0 Hfree Hc E1 E2|c f k0 l0 Hc HT E1 E2]; subst.
  - rewrite insert_id by done. by apply locks_ok_open.
  - unfold replaced. destruct (l !! c) as [old|] eqn:E; [|by apply locks_ok_take].
    pose proof (locks_ok_drop _ _ _ _ _ _ Hk Hl E) as Hd.
    destruct (owner_locked _ _ Hk p c old) as (fd & Hfd & Hlk); [by exists l|].
    pose proof (files_opened _ _ Hk _ _ Hlk) as Hle.
    assert (Hf' : flocks (fst (release_file old k)) !! path = None).
    { unfold release_file. rewrite Hfd. cbn. apply map_lookup_filter_None. by left. }
    pose proof (locks_ok_take _ _ p (delete c l) c path Hd ltac:(by rewrite lookup_insert_eq) ltac:(by rewrite lookup_delete_eq) Hf') as Ht.
    rewrite insert_insert_eq, insert_delete_eq in Ht. unfold release_file in *. rewrite Hfd in *. cbn in *.
    unfold locked, unlock in *. cbn in *. rewrite map_filter_insert_True; [exact Ht|]. cbn. lia.
  - by apply locks_ok_drop.
Qed.

Lemma moves_ok T p n n' fs : locks_ok (locks (disk n)) fs -> fs !! p = Some (lock_files (self n)) -> moves T n n' ->
  locks_ok (locks (disk n')) (<[p := lock_files (self n')]> fs).
Proof.
  unfold moves, view_of. generalize (locks (disk n)), (lock_files (self n)), (locks (disk n')), (lock_files (self n')).
  intros k l k' l' Hk Hl H. remember (k, l) as v eqn:E. remember (k', l') as v' eqn:E'. revert k l fs E Hk Hl.
  induction H as [|v [k1 l1] v' Hs _ IH]; intros k l fs -> Hk Hl.
  - injection E' as -> ->. by rewrite insert_id.
  - pose proof (lock_step_ok _ _ _ _ _ _ _ Hk Hl Hs) as H1. specialize (IH E' k1 l1 (<[p := l1]> fs) eq_refl H1).
    rewrite insert_insert_eq in IH. apply IH. by rewrite lookup_insert_eq.
Qed.

(** A lock that a call does not give up is still held. *)
Lemma moves_keeps T n n' c f : moves T n n' -> c ∉ T -> lock_files (self n) !! c = Some f -> lock_files (self n') !! c = Some f.
Proof.
  unfold moves, view_of. generalize (locks (disk n)), (lock_files (self n)), (locks (disk n')), (lock_files (self n')).
  intros k l k' l' H Hc. remember (k, l) as v eqn:E. remember (k', l') as v' eqn:E'. revert k l E.
  induction H as [|v [k1 l1] v' Hs _ IH]; intros k l -> Hl; [congruence|]. apply (IH E' _ _ eq_refl).
  inversion Hs; subst; [done| |]; destruct (decide (c = claim)) as [->|]; try done; by rewrite ?lookup_insert_ne, ?lookup_delete_ne.
Qed.

(** ** Histories *)

Definition held_files (w : world) : open_files := lock_files <$> processes w.
Definition world_ok (w : world) : Prop := locks_ok (locks (on_host w)) (held_files w).

Lemma locks_ok_start k fs p : locks_ok k fs -> fs !! p = None -> locks_ok k (<[p := ∅]> fs).
Proof.
  intros [H1 H2 H3 H4] Hp. assert (Hsub : forall p' c f, owns (<[p := ∅]> fs) p' c f <-> owns fs p' c f).
  { intros p' c f. destruct (decide (p' = p)) as [->|Hne]; [|by rewrite owns_other].
    rewrite owns_self, lookup_empty. unfold owns. rewrite Hp. naive_solver. }
  split; [intros ? ? ? ?%Hsub; eauto| |intros ? ? ? ? ? ? ?%Hsub ?%Hsub; eauto|exact H4].
  intros path fd Hl. destruct (H2 _ _ Hl) as (p' & c & f & Ho & Hf). exists p', c, f. by rewrite Hsub.
Qed.

Lemma closed_lookup l k path fd : flocks (close_all l k) !! path = Some fd <->
  flocks k !! path = Some fd /\ forall c f, l !! c = Some f -> handle f <> Some fd.
Proof.
  unfold close_all. cbn. rewrite map_lookup_filter_Some. apply and_iff_compat_l. cbn.
  rewrite Is_true_true, negb_true_iff. split.
  - intros H c f Hc E. apply not_true_iff_false in H. apply H, existsb_exists. exists (c, f). split.
    + by apply list_elem_of_In, elem_of_map_to_list.
    + by apply bool_decide_eq_true.
  - intros H. apply not_true_iff_false. intros ([c f] & Hin & E)%existsb_exists. apply bool_decide_eq_true in E.
    apply list_elem_of_In, elem_of_map_to_list in Hin. by apply (H c f).
Qed.

Lemma locks_ok_crash k fs p l : locks_ok k fs -> fs !! p = Some l -> locks_ok (close_all l k) (delete p fs).
Proof.
  intros Hk Hl. assert (Hsub : forall p' c f, owns (delete p fs) p' c f <-> owns fs p' c f /\ p' <> p).
  { intros p' c f. unfold owns. destruct (decide (p' = p)) as [->|Hne]; [rewrite lookup_delete_eq|rewrite lookup_delete_ne by done]; naive_solver. }
  split.
  - intros p' c f [Ho Hne]%Hsub. destruct (owner_locked _ _ Hk _ _ _ Ho) as (fd & Hf & Hlk). exists fd. split; [done|].
    apply closed_lookup. split; [done|]. intros c' f' Hc' E. apply Hne.
    apply (one_owner _ _ Hk p' c f p c' f' Ho); [by exists l|congruence].
  - intros path fd [Hp Hne]%closed_lookup. destruct (lock_owned _ _ Hk _ _ Hp) as (p' & c & f & Ho & Hpath & Hf).
    exists p', c, f. split; [|done]. apply Hsub. split; [done|]. intros ->. destruct Ho as (l' & E1 & E2).
    assert (l' = l) as -> by congruence. by apply (Hne _ _ E2).
  - intros p1 c1 f1 p2 c2 f2 [H1 _]%Hsub [H2 _]%Hsub. by apply (one_owner _ _ Hk).
  - intros path fd [Hp _]%closed_lookup. by apply (files_opened _ _ Hk path).
Qed.

Lemma wp_split {S E A} (m : M S E A) (Q : A -> S -> Prop) (R : E -> S -> Prop) s :
  wp m Q R s -> match snd (m s) with Ok a => Q a (fst (m s)) | Raise e => R e (fst (m s)) end.
Proof. unfold wp. by destruct (m s) as [s' [a|e]]. Qed.

Lemma exec_moves c n : moves (drops c) n (fst (exec c n)).
Proof.
  pose proof (wp_split _ _ _ _ (moved_exec c n)) as H. destruct (snd (exec c n)); [|done].
  eapply moves_mono; [apply drops_ok_drops|exact H].
Qed.

Lemma happen_ok w e : world_ok w -> world_ok (happen w e).
Proof.
  unfold world_ok, held_files. intros Hw. destruct e as [p a d|p|p c]; cbn [happen]; destruct (processes w !! p) as [l|] eqn:E; try done; cbn.
  - rewrite fmap_insert. apply locks_ok_start; [done|]. by rewrite lookup_fmap, E.
  - rewrite fmap_delete. apply locks_ok_crash; [done|]. by rewrite lookup_fmap, E.
  - rewrite fmap_insert. apply (moves_ok (drops c) p (node_of w l) _ _ Hw); [|apply exec_moves]. cbn. by rewrite lookup_fmap, E.
Qed.

Lemma history_ok w tr : world_ok w -> world_ok (run_trace happen w tr).
Proof. intros Hw. apply run_trace_invariant; [by intros ? ? ?; apply happen_ok|done]. Qed.

Lemma initial_ok l : world_ok (initial l).
Proof.
  unfold world_ok, held_files. cbn. rewrite fmap_empty. split; cbn; intros *; rewrite ?lookup_empty; try done;
    intros (? & H & _); by rewrite lookup_empty in H.
Qed.

(** ** One run per workspace *)

(** What is left of a begun run: its ticket names the claim whose lock is held. *)
Definition running (ws : string) (t : RunTicket) (n : node) : Prop :=
  workspace_id t = ws /\ exists f, lock_files (self n) !! claim_path t = Some f /\ lock_path f = lock_path_of leases_dir ws.

Lemma wp_acquire_lock ws claim n :
  wp (acquire_workspace_lock leases_dir ws claim)
    (fun _ n' => flocks (locks (disk n)) !! lock_path_of leases_dir ws = None /\
       exists f, lock_files (self n') !! claim = Some f /\ lock_path f = lock_path_of leases_dir ws)
    (fun _ _ => True) n.
Proof.
  unfold acquire_workspace_lock. apply wp_bind.
  apply (wp_mono _ (fun _ n1 => view_of n1 = view_of n) _ (fun _ _ => True)); [| |done].
  { unfold wp, next_fault, bind, get. by destruct (faults (disk n)). }
  intros fault n1 Hv. apply wp_bind, wp_get. unfold acquire, new_file_lease. cbn [handle lock_path].
  destruct (negb (bool_decide (fault = None))); [by apply wp_bind, wp_put, wp_raise|].
  cbn [flocks next_file]. replace (locks (disk n)) with (locks (disk n1)) by (unfold view_of in Hv; congruence).
  destruct (flocks (locks (disk n1)) !! lock_path_of leases_dir ws) as [fd|] eqn:E; [by apply wp_bind, wp_put, wp_raise|].
  apply wp_bind, wp_put. unfold store_lock_file. apply wp_bind, wp_get, wp_put. split; [done|].
  cbn [self on_disk set_lock_files lock_files]. eexists. split; [apply lookup_insert_eq|done].
Qed.

Lemma wp_claim_run ws claim fields n :
  wp (claim_run leases_dir ws claim fields)
    (fun _ n' => flocks (locks (disk n)) !! lock_path_of leases_dir ws = None /\
       exists f, lock_files (self n') !! claim = Some f /\ lock_path f = lock_path_of leases_dir ws)
    (fun _ _ => True) n.
Proof.
  assert (H : wp (claim_lease leases_dir ws claim fields) (fun _ n' => flocks (locks (disk n)) !! lock_path_of leases_dir ws = None /\
       exists f, lock_files (self n') !! claim = Some f /\ lock_path f = lock_path_of leases_dir ws) (fun _ _ => True) n).
  { unfold claim_lease. apply wp_bind. eapply wp_mono; [apply wp_acquire_lock| |done].
    intros _ n1 (Hfree & f & Hf & Hp). apply wp_bind, wp_lift; [intros fs _|done]. apply wp_bind, wp_lift; [intros lease _|done].
    apply wp_bind. eapply wp_mono; [by apply (moved_persist ∅ ∅ lease)| |done]. intros u n2 Hm. apply wp_ret. split; [done|].
    exists f. split; [|done]. exact (moves_keeps _ _ _ _ _ Hm (not_elem_of_empty _) Hf). }
  unfold wp, claim_run in *. destruct (claim_lease _ _ _ _ n) as [n1 [lease|e]]; [done|].
  by destruct (release_workspace_lock_path claim n1) as [n2 [u|e']].
Qed.

Lemma wp_begin_run spec kind image host_ clock token n :
  wp (begin_run leases_dir (JObj spec) kind image host_ clock token)
    (fun t n' => exists ws, key_json "workspaceId" spec = JStr ws /\ running ws t n' /\
       claim_path t = claim_path_of leases_dir ("lease." +:+ token) /\
       flocks (locks (disk n)) !! lock_path_of leases_dir ws = None)
    (fun _ _ => True) n.
Proof.
  unfold begin_run. cbv zeta. wp_step. wp_step; [done|]. wp_step. wp_step; [|done]. wp_step. wp_step; [|done].
  do 3 (wp_step; wp_step; [|done]). do 2 wp_step. do 2 (wp_step; wp_step; [|done]).
  apply wp_bind. eapply wp_mono; [apply wp_claim_run| |done]. intros lease n' (Hfree & f & Hf & Hp). apply wp_ret.
  match goal with H : require_id (key_json "workspaceId" spec) _ = Ok ?ws |- _ => exists ws; split; [|split; [|done]] end.
  - unfold require_id in *. destruct (key_json "workspaceId" spec); try done. by repeat case_match; simplify_eq.
  - split; [done|]. by exists f.
Qed.

(** The process [p] may go on, crash or not, as long as no event gives up the lock of the
    claim [c] in its name: it does not crash, and its calls do not end the run. *)
Definition spared (p : nat) (c : string) (w : world) (e : event) : Prop :=
  match e with
  | Start _ _ _ => True
  | Crash q => q <> p
  | Call q call => q = p -> forall l, processes w !! p = Some l ->
      c ∉ drops call \/ (c ∉ drops_ok call /\ exists t, snd (exec call (node_of w l)) = Ok t)
  end.

Fixpoint undisturbed (p : nat) (c : string) (w : world) (tr : list event) : Prop :=
  match tr with [] => True | e :: tr => spared p c w e /\ undisturbed p c (happen w e) tr end.

Definition holds (w : world) (p : nat) (c : string) (f : file_lease) : Prop :=
  exists l, processes w !! p = Some l /\ lock_files l !! c = Some f.

Lemma spared_holds p c w e f : holds w p c f -> spared p c w e -> holds (happen w e) p c f.
Proof.
  intros (l & Hl & Hf) Hs. destruct e as [q a d|q|q call]; cbn [happen spared] in *.
  - destruct (processes w !! q) as [l'|] eqn:E; [by exists l|]. exists l. cbn. rewrite lookup_insert_ne; [done|congruence].
  - destruct (processes w !! q) as [l'|] eqn:E; [|by exists l]. exists l. cbn. by rewrite lookup_delete_ne.
  - destruct (processes w !! q) as [l'|] eqn:E; [|by exists l]. destruct (decide (q = p)) as [->|Hne].
    2: { exists l. cbn. by rewrite lookup_insert_ne. }
    assert (l' = l) as -> by congruence. exists (self (fst (exec call (node_of w l)))). cbn.
    rewrite lookup_insert_eq. split; [done|]. destruct (Hs eq_refl l Hl) as [Hd|[Hd [t Ht]]].
    + eapply moves_keeps; [apply exec_moves|exact Hd|exact Hf].
    + pose proof (wp_split _ _ _ _ (moved_exec call (node_of w l))) as Hm. rewrite Ht in Hm.
      eapply moves_keeps; [exact Hm|exact Hd|exact Hf].
Qed.

Lemma undisturbed_holds p c tr : forall w f, holds w p c f -> undisturbed p c w tr -> holds (run_trace happen w tr) p c f.
Proof.
  induction tr as [|e tr IH]; intros w f H Hu; [done|]. destruct Hu as [Hs Hu]. cbn. apply IH; [by apply spared_holds|done].
Qed.

Lemma holds_owns w p c f : holds w p c f -> owns (held_files w) p c f.
Proof. intros (l & Hl & Hf). exists (lock_files l). unfold held_files. by rewrite lookup_fmap, Hl. Qed.

Lemma owns_holds w p c f : owns (held_files w) p c f -> holds w p c f.
Proof.
  intros (fs & Hl & Hf). unfold held_files in Hl. apply lookup_fmap_Some in Hl as (l & <- & Hl). by exists l.
Qed.

Lemma exec_begin_Ok spec kind image host_ clock token n t :
  snd (exec (Begin (JObj spec) kind image host_ clock token) n) = Ok (Some t) ->
  let n' := fst (exec (Begin (JObj spec) kind image host_ clock token) n) in
  exists ws, key_json "workspaceId" spec = JStr ws /\ running ws t n' /\
    claim_path t = claim_path_of leases_dir ("lease." +:+ token).
Proof.
  cbn [exec]. unfold as_ticket, bind. pose proof (wp_split _ _ _ _ (wp_begin_run spec kind image host_ clock token n)) as H.
  destruct (begin_run _ _ _ _ _ _ _ n) as [n' [x|e]]; cbn in *; [|done]. intros [= ->].
  destruct H as (ws & E & Hr & Hc & _). by exists ws.
Qed.

(** A run begins only in a workspace whose lock is free. *)
Lemma begin_locked spec kind image host_ clock token n ws fd : key_json "workspaceId" spec = JStr ws ->
  flocks (locks (disk n)) !! lock_path_of leases_dir ws = Some fd ->
  exists e, snd (exec (Begin (JObj spec) kind image host_ clock token) n) = Raise e.
Proof.
  intros Hws Hl. cbn [exec]. unfold as_ticket, bind. pose proof (wp_split _ _ _ _ (wp_begin_run spec kind image host_ clock token n)) as H.
  destruct (begin_run _ _ _ _ _ _ _ n) as [n' [x|e]]; cbn in *; [|by exists e].
  destruct H as (ws' & E & _ & _ & Hfree). congruence.
Qed.

(** C27 One run per workspace, among all processes that share the directory of leases.  Once
    [begin_run] has returned a ticket, and until the process that got it ends the run or
    crashes (a failed renewal, an expiry, a revocation, a cancellation and a release end it;
    a renewal that returns does not), the process still holds the lock and every attempt to
    begin a run in the same workspace is refused, in any process and whatever grants,
    clocks and disk faults there are.  If the process crashes then, the workspace is free. *)
Theorem one_run_per_workspace faults_ tr p l spec kind image host_ clock token t tr2 :
  let w := run_trace happen (initial faults_) tr in
  let begin_ := Begin (JObj spec) kind image host_ clock token in
  processes w !! p = Some l -> snd (exec begin_ (node_of w l)) = Ok (Some t) ->
  let w1 := happen w (Call p begin_) in
  undisturbed p (claim_path t) w1 tr2 ->
  let w2 := run_trace happen w1 tr2 in
  (exists f, holds w2 p (claim_path t) f /\ lock_path f = lock_path_of leases_dir (workspace_id t)) /\
  (forall q lq spec' kind' image' host' clock' token', processes w2 !! q = Some lq ->
     key_json "workspaceId" spec' = JStr (workspace_id t) ->
     exists e, snd (exec (Begin (JObj spec') kind' image' host' clock' token') (node_of w2 lq)) = Raise e) /\
  flocks (locks (on_host (happen w2 (Crash p)))) !! lock_path_of leases_dir (workspace_id t) = None.
Proof.
  intros w begin_ Hl Ht w1 Hu w2.
  destruct (exec_begin_Ok _ _ _ _ _ _ _ _ Ht) as (ws & Hws & [<- (f & Hf & Hp)] & Hc).
  assert (Hw1 : holds w1 p (claim_path t) f).
  { exists (self (fst (exec begin_ (node_of w l)))). unfold w1. cbn [happen]. rewrite Hl. cbn. by rewrite lookup_insert_eq. }
  pose proof (undisturbed_holds _ _ _ _ _ Hw1 Hu) as Hw2. fold w2 in Hw2.
  assert (Hok : world_ok w2) by (apply history_ok, happen_ok, history_ok, initial_ok).
  destruct (owner_locked _ _ Hok _ _ _ (holds_owns _ _ _ _ Hw2)) as (fd & Hfd & Hlk). rewrite Hp in Hlk.
  split; [by exists f|]. split.
  - intros q lq spec' kind' image' host' clock' token' Hq Hws'. by eapply begin_locked.
  - pose proof (happen_ok w2 (Crash p) Hok) as Hcr. 
    destruct (flocks (locks (on_host (happen w2 (Crash p)))) !! _) as [fd'|] eqn:E; [|done].
    destruct (lock_owned _ _ Hcr _ _ E) as (p' & c' & f' & Ho & Hp' & _). apply owns_holds in Ho as (l' & Hl' & Hf').
    destruct Hw2 as (l2 & Hl2 & Hf2). cbn [happen] in Hl'. rewrite Hl2 in Hl'. cbn in Hl'.
    apply lookup_delete_Some in Hl' as [Hne Hl']. exfalso. apply Hne.
    destruct (one_holder _ _ p (claim_path t) f p' c' f' Hok) as [-> _]; [apply holds_owns; by exists l2| |congruence|done].
    apply holds_owns. by exists l'.
Qed.

(** ** An effect needs a live run *)

(** The disk may have failed in between; nothing else changed. *)
Definition only_faults (n n' : node) : Prop := self n' = self n /\ exists fs, disk n' = set_faults fs (disk n).

Lemma only_faults_refl n : only_faults n n.
Proof. split; [done|]. exists (faults (disk n)). by destruct (disk n). Qed.

Lemma only_faults_trans n1 n2 n3 : only_faults n1 n2 -> only_faults n2 n3 -> only_faults n1 n3.
Proof. intros [E1 [l1 F1]] [E2 [l2 F2]]. split; [congruence|]. exists l2. by rewrite F2, F1. Qed.

(** The lease that a claim file holds. *)
Definition lease_at (path : string) (lease : dict) (n : node) : Prop :=
  exists v, claims (disk n) !! path = Some (Some v) /\ from_dict RunLease v = Ok lease.

Lemma wp_next_fault n : wp next_fault (fun _ n' => only_faults n n') (fun _ n' => only_faults n n') n.
Proof.
  unfold wp, next_fault, bind, get. destruct (faults (disk n)) as [|f l]; [apply only_faults_refl|]. split; [done|]. by exists l.
Qed.

Lemma wp_read_claim path n :
  wp (read_claim path) (fun lease n' => only_faults n n' /\ lease_at path lease n) (fun _ n' => only_faults n n') n.
Proof.
  unfold read_claim. do 2 wp_step. destruct (claims (disk n) !! path) as [c|] eqn:E; [|wp_step; apply only_faults_refl].
  wp_step. eapply wp_mono; [apply wp_next_fault| |done]. intros [f|] n1 H; [by wp_step|]. apply wp_lift; [|done].
  intros lease Hc. split; [done|]. unfold claim_contents in Hc. destruct c as [v|]; [|done].
  destruct (from_dict RunLease v) as [d|[]] eqn:Ev; [|done..]. injection Hc as <-. by exists v.
Qed.

(** What [assert_live] checks: a live grant that is the ticket's, time left, a held lease. *)
Definition live (t : RunTicket) (clock : option Z) (n : node) : Prop :=
  (exists g, RunAuthority.assert_live (authority (self n)) (ticket_grant t) (image_digest t) (authority_grant_digest t) = Ok g) /\
  (exists now, clock = Some now /\ reached now (lease_expires_at t) = Ok false) /\
  (exists lease, lease_at (claim_path t) lease n /\ is_held lease = true).

Lemma wp_assert_live t clock n :
  wp (assert_live t clock) (fun t' n' => t' = t /\ only_faults n n' /\ live t clock n) (fun _ n' => only_faults n n') n.
Proof.
  unfold assert_live, assert_granted. wp_step. wp_step. wp_step. wp_step. wp_step; [|apply only_faults_refl]. wp_step.
  wp_step. wp_step; [|apply only_faults_refl]. wp_step. wp_step; [apply only_faults_refl|]. wp_step.
  eapply wp_mono; [apply wp_read_claim| |done]. intros lease n1 [Hf Hl]. wp_step. wp_step; [done|]. wp_step.
  split; [done|]. split; [done|]. unfold is_expired in *. split; [|split].
  - unfold authorized_or_refused in *. destruct (RunAuthority.assert_live _ _ _ _) as [g|[]]; [by exists g|done].
  - destruct clock as [now|]; [|done]. exists now. split; [done|]. cbn in *. by subst.
  - exists lease. split; [done|]. by split_bool.
Qed.

Lemma perform_cases {A} (t : RunTicket) (clock : option Z) (effect : call A) (n n' : node) r :
  perform_if_live t effect clock n = (n', r) ->
  (only_faults n n' /\ exists e, r = Raise e) \/
  (live t clock n /\ exists n1, only_faults n n1 /\ n' = fst (effect n1) /\
     forall a, r = Ok a -> snd (effect n1) = Ok a /\
       exists g, RunAuthority.assert_live (authority (self n')) (ticket_grant t) (image_digest t) (authority_grant_digest t) = Ok g).
Proof.
  unfold perform_if_live, bind. pose proof (wp_split _ _ _ _ (wp_assert_live t clock n)) as H.
  destruct (assert_live t clock n) as [n1 [t'|e]]; cbn in H; [|intros [= <- <-]; left; eauto].
  destruct H as (-> & Hf & Hl). intros Hrun. right. split; [done|]. exists n1. split; [done|]. revert Hrun.
  unfold from_authority, RunAuthority.perform_if_live, checked_live, run_effect, bind, get.
  assert (Hg : exists g, RunAuthority.assert_live (authority_of n1) (ticket_grant t) (image_digest t) (authority_grant_digest t) = Ok g).
  { destruct Hl as [[g Hg] _]. exists g. destruct Hf as [E _]. unfold authority_of. by rewrite E. }
  destruct Hg as [g Hg]. rewrite Hg. cbn. destruct (effect n1) as [n2 [a|e]]; cbn.
  - destruct (RunAuthority.assert_live (authority_of n2) _ _ _) as [g'|[m]] eqn:E; intros [= <- <-]; (split; [done|]); [|done].
    intros a' [= <-]. split; [done|]. by exists g'.
  - intros [= <- <-]. done.
Qed.

(** C28 An effect runs only while its run is live.  [perform_if_live] either refuses and
    changes nothing, or finds, at one instant, a grant that is registered, not revoked and
    the one the ticket was issued under, a lease whose time is not over, and a claim file
    whose lease is still held; then the effect runs on that very state, once, and its result
    is returned only if the grant is live after it too. *)
Theorem effects_need_a_live_run {A} (t : RunTicket) (clock : option Z) (effect : call A) (n n' : node) r :
  perform_if_live t effect clock n = (n', r) ->
  (only_faults n n' /\ exists e, r = Raise e) \/
  (live t clock n /\ exists n1, only_faults n n1 /\ n' = fst (effect n1) /\
     forall a, r = Ok a -> snd (effect n1) = Ok a /\
       exists g, RunAuthority.assert_live (authority (self n')) (ticket_grant t) (image_digest t) (authority_grant_digest t) = Ok g).
Proof. apply perform_cases. Qed.

(** ** A lease that has ended stays ended *)

Section ended.
(** A claim, if one has ended, and the lease document it holds since. *)
Context (c0 : option string) (v0 : json).

Definition terminal (lease : dict) : Prop := exists s, state_of lease = JStr s /\ s ∈ ["expired"; "released"; "revoked"].

(** Every claim file holds the lease of that path, as it was written; the one at [c0], if any,
    has ended. *)
Record settled (s : shared) : Prop := {
  claim_written : forall path v, claims s !! path = Some (Some v) ->
    wf_json v /\ norm v = v /\ forall lease, from_dict RunLease v = Ok lease -> claim_of lease = path;
  ended_claim : forall c, c0 = Some c -> claims s !! c = Some (Some v0) /\ exists lease, from_dict RunLease v0 = Ok lease /\ terminal lease;
}.

Definition preserves {A} (m : call A) : Prop := forall n, settled (disk n) -> settled (disk (fst (m n))).

Lemma preserves_bind {A B} (m : call A) (k : A -> call B) :
  preserves m -> (forall a, preserves (k a)) -> preserves (bind m k).
Proof.
  intros Hm Hk n H. specialize (Hm n H). unfold bind. destruct (m n) as [n1 [a|e]]; [|done]. by apply Hk.
Qed.

(** What was read before is known when the call goes on. *)
Lemma preserves_bind_known {A B} (m : call A) (k : A -> call B) (K : A -> Prop) :
  (forall n, settled (disk n) -> wp m (fun a n' => settled (disk n') /\ K a) (fun _ n' => settled (disk n')) n) ->
  (forall a, K a -> preserves (k a)) -> preserves (bind m k).
Proof.
  intros Hm Hk n H. specialize (Hm n H). unfold wp, bind in *. destruct (m n) as [n1 [a|e]]; [|done].
  destruct Hm as [H1 Ha]. by apply Hk.
Qed.

Lemma preserves_same {A} (m : call A) : (forall n, claims (disk (fst (m n))) = claims (disk n)) -> preserves m.
Proof. intros H n [H1 H2]. specialize (H n). split; rewrite H; done. Qed.

Lemma preserves_lift {A} (o : outcome lifecycle_error A) : preserves (lift o).
Proof. by apply preserves_same. Qed.
Lemma preserves_ret {A} (a : A) : preserves (ret a).
Proof. by apply preserves_same. Qed.
Lemma preserves_raise {A} e : preserves (raise e : call A).
Proof. by apply preserves_same. Qed.
Lemma preserves_raise_if b e : preserves (raise_if b e).
Proof. by apply preserves_same. Qed.
Lemma preserves_get : preserves get.
Proof. by apply preserves_same. Qed.
Lemma preserves_fault : preserves next_fault.
Proof. apply preserves_same. intros n. unfold next_fault, bind, get. by destruct (faults (disk n)). Qed.
Create HintDb settled.
#[local] Hint Resolve preserves_lift preserves_ret preserves_raise preserves_raise_if preserves_get preserves_fault : settled.

Ltac settling := repeat first
  [ solve [eauto with settled] | apply preserves_bind; [|intros ?]
  | match goal with |- preserves (match ?x with _ => _ end) => destruct x end ].

(** The contract of a lease is its document. *)
Lemma lease_is_document v lease : from_dict RunLease v = Ok lease -> v = JObj lease.
Proof.
  unfold from_dict. intros H. apply obind_Ok in H as (u & _ & H). cbn [validate] in H. unfold RunLease_validate in H.
  apply obind_Ok in H as (d & (-> & _ & _)%fields_Ok & H). repeat (apply obind_Ok in H as (? & _ & H)). by injection H as <-.
Qed.

Definition a_lease (lease : dict) : Prop := from_dict RunLease (JObj lease) = Ok lease.

Lemma from_dict_lease v lease : from_dict RunLease v = Ok lease -> a_lease lease.
Proof. intros H. unfold a_lease. by rewrite <-(lease_is_document _ _ H). Qed.

Lemma lease_claim_text lease : a_lease lease -> exists s, key_json "claimPath" lease = JStr s.
Proof.
  unfold a_lease, from_dict. intros H. apply obind_Ok in H as (u & _ & H). cbn [validate] in H. unfold RunLease_validate in H.
  apply obind_Ok in H as (d & (E & _ & _)%fields_Ok & H). assert (d = lease) as -> by congruence. clear E.
  apply obind_Ok in H as (? & _ & H). apply obind_Ok in H as (? & _ & H). apply obind_Ok in H as (s & Hs & _).
  exists s. unfold absolute_runtime_path in Hs. by apply text_Ok in Hs.
Qed.

Lemma norm_key_text k d s : wf_json (JObj d) -> key_json k d = JStr s -> forall d', norm (JObj d) = JObj d' -> key_json k d' = JStr s.
Proof.
  intros Hwf Hk d' Hd. assert (Hs : same (JObj d) (JObj d')) by (rewrite <-Hd; by apply same_norm).
  pose proof (same_cases _ _ (same_key d d' k Hs)) as H. by rewrite Hk in H.
Qed.

(** A lease read from the claim of [path], and one that may be written there. *)
Definition known (path : string) (lease : dict) : Prop :=
  a_lease lease /\ wf_json (JObj lease) /\ claim_of lease = path /\ (c0 = Some path -> norm (JObj lease) = v0).
Definition known_ended (path : string) (lease : dict) : Prop := known path lease /\ (c0 = Some path -> terminal lease).

Lemma settled_read path lease n : settled (disk n) -> lease_at path lease n -> known_ended path lease.
Proof.
  intros [Hw He] (v & Hv & Hl). destruct (Hw _ _ Hv) as (Hwf & Hn & Hp).
  pose proof (lease_is_document _ _ Hl) as ->. split; [split; [by eapply from_dict_lease|split; [done|split; [by apply Hp|]]]|].
  - intros E0. destruct (He _ E0) as [H0 _]. congruence.
  - intros E0. destruct (He _ E0) as [H0 (l0 & Hl0 & Ht)]. assert (E : v0 = JObj lease) by congruence.
    rewrite E in Hl0. rewrite Hl in Hl0. by injection Hl0 as ->.
Qed.

Lemma preserves_write path lease : known path lease -> preserves (write_claim lease).
Proof.
  intros (Hl & Hwf & Hp & H0) n [Hw He]. unfold write_claim, modify. cbn [fst]. split; cbn [disk on_disk set_claims claims].
  - intros path' v [[<- Hv]|[Hne Hv]]%lookup_insert_Some; [|by apply Hw]. assert (v = norm (JObj lease)) as -> by congruence.
    split; [by apply norm_wf|]. split; [by apply norm_idem|]. intros lease' Hl'. destruct (lease_claim_text _ Hl) as [s Hs].
    pose proof (norm_key_text _ _ _ Hwf Hs lease' (lease_is_document _ _ Hl')) as Hs'. unfold claim_of. by rewrite Hs, Hs'.
  - intros c Hc. destruct (He c Hc) as [Hv Ht]. split; [|done].
    destruct (decide (claim_of lease = c)) as [E|E]; [|by rewrite lookup_insert_ne].
    rewrite E, lookup_insert_eq. f_equal. f_equal. apply H0. congruence.
Qed.

Lemma preserves_persist path lease : known path lease -> preserves (persist_lease lease).
Proof.
  intros H. unfold persist_lease. pose proof (preserves_write _ _ H). settling.
Qed.

Lemma preserves_read {A} path (k : dict -> call A) :
  (forall lease, known_ended path lease -> preserves (k lease)) -> preserves (bind (read_claim path) k).
Proof.
  apply preserves_bind_known. intros n H. eapply wp_mono; [apply wp_read_claim|..]; cbn.
  - intros lease n' [[_ [l ->]] Hl]. split; [|by eapply settled_read]. destruct H. by split.
  - intros e n' [_ [l ->]]. destruct H. by split.
Qed.

Lemma preserves_release_path claim : preserves (release_workspace_lock_path claim).
Proof.
  apply preserves_same. intros n. unfold release_workspace_lock_path, bind, get.
  destruct (lock_files (self n) !! claim) as [f|]; [|done]. by destruct (release_file f _).
Qed.

Lemma preserves_acquire ws claim : preserves (acquire_workspace_lock leases_dir ws claim).
Proof.
  unfold acquire_workspace_lock. apply preserves_bind; [apply preserves_fault|]. intros f. apply preserves_same. intros n.
  unfold bind at 1. unfold get. destruct (acquire _ _ _) as [k [fl|e]]; [done|]. unfold bind, put.
  by destruct e.
Qed.

Lemma preserves_finally {A} (body : call A) cleanup : preserves body -> preserves cleanup -> preserves (try_finally body cleanup).
Proof.
  intros Hb Hc n H. unfold try_finally. specialize (Hb n H). destruct (body n) as [n1 r]. specialize (Hc n1 Hb).
  by destruct (cleanup n1) as [n2 [u|e]].
Qed.

Lemma preserves_end t lease : known (claim_path t) lease -> preserves (end_with t lease).
Proof. intros H. apply preserves_finally; [by eapply preserves_persist|apply preserves_release_path]. Qed.

(** A lease keeps its claim when its state or its expiry is set. *)
Lemma dict_set_same k v (d : dict) : dict_get k d = Some v -> dict_set k v d = d.
Proof.
  induction d as [|[k' x] d IH]; [done|]. cbn. destruct (String.eqb k k') eqn:E; [|intros H; by rewrite IH].
  intros [= ->]. by apply String.eqb_eq in E as ->.
Qed.

Lemma known_set path k v lease d : known_ended path lease -> k <> "claimPath" -> wf_json v ->
  from_dict RunLease (JObj (dict_set k v lease)) = Ok d -> (c0 = Some path -> dict_get k lease = Some v) -> known path d.
Proof.
  intros [(Hl & Hwf & Hp & H0) _] Hk Hv Hd Hsame. pose proof (lease_is_document _ _ Hd) as E. injection E as <-.
  split; [by eapply from_dict_lease|]. split; [by apply wf_dict_set|]. split.
  - unfold claim_of, key_json. by rewrite dict_get_set_ne.
  - intros Hc. rewrite <-(H0 Hc). f_equal. f_equal. by apply dict_set_same, Hsame.
Qed.

Lemma terminal_not_held lease : terminal lease -> is_held lease = false.
Proof.
  intros (s & Hs & Hin). unfold is_held. rewrite Hs. rewrite !elem_of_cons, elem_of_nil in Hin.
  by destruct Hin as [->|[->|[->|[]]]].
Qed.

Lemma key_get k s d : key_json k d = JStr s -> dict_get k d = Some (JStr s).
Proof. unfold key_json. destruct (dict_get k d); cbn; congruence. Qed.

Lemma contract_result_Ok d lease : lease_result (contract_of (from_dict RunLease d)) = Ok lease -> from_dict RunLease d = Ok lease.
Proof. destruct (from_dict RunLease d) as [x|[]]; cbn; congruence. Qed.

(** The controller keeps an ended lease as it is, or refuses. *)
Lemma known_transition path to lease d : known_ended path lease ->
  lease_result (transition lease to) = Ok d -> known path d.
Proof.
  intros Hk H. unfold transition in H. destruct (legal (state_of lease) to) eqn:E; [|done]. cbn in H.
  apply contract_result_Ok in H. apply (known_set path "state" (JStr to) lease); [exact Hk|done|constructor|exact H|].
  intros Hp. destruct (proj2 Hk Hp) as (s & Hs & Hin). apply key_get in Hs as Hg. rewrite Hg.
  rewrite Hs in E. rewrite !elem_of_cons, elem_of_nil in Hin. assert (to = s) as ->; [|done].
  destruct Hin as [->|[->|[->|[]]]]; apply mem_true in E; by apply list_elem_of_singleton in E.
Qed.

Lemma known_force path lease d : known_ended path lease -> lease_result (force_release lease) = Ok d -> known path d.
Proof.
  intros Hk H. apply contract_result_Ok in H. destruct (is_held lease) eqn:E.
  - apply (known_set path "state" (JStr "revoked") lease); [exact Hk|done|constructor|exact H|]. intros Hp. pose proof (terminal_not_held _ (proj2 Hk Hp)). congruence.
  - pose proof (lease_is_document _ _ H) as Eq. injection Eq as <-. apply Hk.
Qed.

Lemma known_release path lease d : known_ended path lease -> lease_result (release lease) = Ok d -> known path d.
Proof.
  intros Hk H. unfold release in H. destruct (is_held lease); [by eapply known_transition|]. injection H as <-. apply Hk.
Qed.

Lemma preserves_lift_then {A B} (o : outcome lifecycle_error A) (k : A -> call B) :
  (forall a, o = Ok a -> preserves (k a)) -> preserves (let* a := lift o in k a).
Proof. intros H n Hn. unfold bind, lift. destruct o as [a|e]; [by apply H|done]. Qed.

Lemma preserves_fail_expired t : preserves (fail_expired t).
Proof.
  unfold fail_expired. apply (preserves_read (claim_path t)). intros lease Hk. apply preserves_lift_then. intros d Hd.
  apply preserves_end. by eapply known_transition.
Qed.
#[local] Hint Resolve preserves_fail_expired : settled.

Lemma preserves_assert_granted t : preserves (assert_granted t).
Proof. unfold assert_granted. settling. Qed.
Lemma preserves_read_only path : preserves (read_claim path).
Proof.
  unfold read_claim. settling.
Qed.
Lemma preserves_read_lease t : preserves (read_lease t).
Proof. apply preserves_read_only. Qed.
#[local] Hint Resolve preserves_assert_granted preserves_read_only preserves_read_lease preserves_release_path : settled.

Lemma preserves_assert_live t clock : preserves (assert_live t clock).
Proof. unfold assert_live. settling. Qed.
Lemma preserves_fail_if_expired t clock : preserves (fail_if_expired t clock).
Proof. unfold fail_if_expired. settling. Qed.

Lemma preserves_revoke t : preserves (revoke_run t).
Proof.
  unfold revoke_run. apply (preserves_read (claim_path t)). intros lease Hk. apply preserves_lift_then. intros d Hd.
  apply preserves_bind; [|settling]. apply preserves_end. by eapply known_force.
Qed.
Lemma preserves_cancel t : preserves (cancel_run t).
Proof.
  unfold cancel_run. apply (preserves_read (claim_path t)). intros lease Hk. destruct (in_tuple _ _).
  - apply preserves_bind; [apply preserves_release_path|settling].
  - apply preserves_lift_then. intros d Hd. apply preserves_bind; [|settling]. apply preserves_end. by eapply known_release.
Qed.
Lemma preserves_release_run t : preserves (release_run t).
Proof.
  unfold release_run. apply (preserves_read (claim_path t)). intros lease Hk. apply preserves_lift_then. intros d Hd.
  apply preserves_bind; [|settling]. apply preserves_end. by eapply known_release.
Qed.

Lemma preserves_if_then {A} b e (k : call A) : (b = false -> preserves k) -> preserves (raise_if b e >>* k).
Proof. intros H n Hn. unfold bind, raise_if, lift, refuse_if. destruct b; [done|by apply H]. Qed.

Lemma preserves_renew t clock : preserves (renew_lease t clock).
Proof.
  unfold renew_lease. do 3 (apply preserves_bind; [settling|intros ?]). destruct (_ : bool); [settling|].
  apply (preserves_read (claim_path t)). intros lease [_ Hend]. apply preserves_if_then. intros Hst.
  assert (Hne : c0 <> Some (claim_path t)).
  { intros E. destruct (Hend E) as (s & Hs & Hin). rewrite Hs in Hst. cbn [in_tuple] in Hst. by apply mem_false in Hst. }
  do 2 (apply preserves_bind; [settling|intros ?]).
  apply (preserves_read (claim_path t)). intros current Hk. apply preserves_lift_then. intros base Hb.
  apply contract_result_Ok in Hb. apply preserves_lift_then. intros d Hd. apply preserves_bind; [|settling].
  apply (preserves_persist (claim_path t)), (known_transition _ "renewed" base); [|exact Hd]. split; [|done].
  by eapply (known_set _ "expiresAt"); [exact Hk|done|constructor|exact Hb|].
Qed.

Lemma preserves_claim_run ws claim fields : c0 <> Some claim ->
  (forall d, fields = Ok d -> wf_json (JObj d) /\ claim_of d = claim) -> preserves (claim_run leases_dir ws claim fields).
Proof.
  intros Hne Hf. assert (H : preserves (claim_lease leases_dir ws claim fields)).
  { unfold claim_lease. apply preserves_bind; [apply preserves_acquire|]. intros _. apply preserves_lift_then. intros d Hd.
    destruct (Hf d Hd) as [Hwf Hc]. apply preserves_lift_then. intros lease Hl%contract_result_Ok.
    pose proof (lease_is_document _ _ Hl) as E. injection E as ->. apply preserves_bind; [|settling].
    apply (preserves_persist claim). split; [by eapply from_dict_lease|]. done. }
  intros n Hn. unfold claim_run. specialize (H n Hn). destruct (claim_lease _ _ _ _ n) as [n1 [lease|e]]; [done|].
  pose proof (preserves_release_path claim n1 H) as H1. by destruct (release_workspace_lock_path claim n1) as [n2 [u|e']].
Qed.

Lemma preserves_begin spec kind image host_ clock token : c0 <> Some (claim_path_of leases_dir ("lease." +:+ token)) ->
  preserves (begin_run leases_dir spec kind image host_ clock token).
Proof.
  intros Hne. unfold begin_run. destruct spec; try settling. apply preserves_claim_run; [done|].
  intros d Hd. unfold obind in Hd. destruct (require_id (JStr kind) "executor_kind"); [|done]. injection Hd as <-.
  split; [by apply wf_jsonb_wf|done].
Qed.

Lemma preserves_lock_check ws : preserves (workspace_lock_is_held leases_dir ws).
Proof.
  unfold workspace_lock_is_held. apply preserves_bind; [apply preserves_fault|]. intros f. apply preserves_same. intros n.
  unfold bind at 1. unfold get. destruct (file_is_held _ _ _) as [k [b|e]]; done.
Qed.

Lemma preserves_active ws paths : preserves (first_active leases_dir ws paths).
Proof. pose proof preserves_lock_check. induction paths as [|path rest IH]; cbn [first_active]; settling. Qed.

(** The claims that a call may begin. *)
Fixpoint begun (c : run_call) : gset string :=
  match c with
  | Begin _ _ _ _ _ token => {[claim_path_of leases_dir ("lease." +:+ token)]}
  | Perform _ _ effect | Invoke _ _ effect => begun effect
  | _ => ∅
  end.

Definition not_begun (c : run_call) : Prop := forall path, c0 = Some path -> path ∉ begun c.

Lemma preserves_perform {A} t clock (effect : call A) : preserves effect -> preserves (perform_if_live t effect clock).
Proof.
  intros He n Hn. destruct (perform_if_live t effect clock n) as [n' r] eqn:E. cbn.
  destruct (perform_cases t clock effect n n' r E) as [[[_ [fs ->]] _]|(_ & n1 & [_ [fs Hfs]] & -> & _)].
  - destruct Hn. by split.
  - apply He. rewrite Hfs. destruct Hn. by split.
Qed.

Lemma preserves_invoke {A} t clock (effect : call A) : preserves effect -> preserves (invoke t (Some (fun _ => effect)) clock).
Proof.
  intros He n Hn. assert (H : preserves (reach_adapter t (Some (fun _ => effect)) clock)).
  { unfold reach_adapter. pose proof (preserves_fail_if_expired t clock). settling. }
  unfold invoke. specialize (H n Hn). by destruct (reach_adapter _ _ _ n) as [n1 [a|e]].
Qed.

Lemma preserves_exec c : not_begun c -> preserves (exec c).
Proof.
  assert (Ht : forall m, preserves m -> preserves (as_ticket m)) by (intros m Hm; unfold as_ticket; settling).
  induction c; intros Hc; cbn [exec].
  - apply Ht, preserves_begin. intros E. apply (Hc _ E). cbn. set_solver.
  - apply Ht, preserves_renew.
  - apply Ht, preserves_assert_live.
  - apply Ht, preserves_fail_if_expired.
  - apply Ht, preserves_revoke.
  - apply Ht, preserves_cancel.
  - apply Ht, preserves_release_run.
  - pose proof preserves_active. unfold active_for. settling.
  - by apply preserves_perform, IHc.
  - by apply preserves_invoke, IHc.
  - by apply preserves_same.
Qed.

Definition event_not_begun (e : event) : Prop := match e with Call _ c => not_begun c | _ => True end.

Lemma settled_happen w e : settled (on_host w) -> event_not_begun e -> settled (on_host (happen w e)).
Proof.
  intros Hw He. destruct e as [p a d|p|p c]; cbn [happen]; destruct (processes w !! p) as [l|] eqn:E; try done.
  - destruct Hw. by split.
  - cbn. by apply (preserves_exec c He (node_of w l)).
Qed.

Lemma settled_history tr : forall w, settled (on_host w) -> Forall event_not_begun tr -> settled (on_host (run_trace happen w tr)).
Proof.
  induction tr as [|e tr IH]; intros w Hw Htr; [done|]. apply Forall_cons in Htr as [He Htr]. cbn. apply IH; [|done]. by apply settled_happen.
Qed.
End ended.

Lemma initial_settled l : settled None JNull (on_host (initial l)).
Proof. split; [|done]. intros path v H. cbn in H. by rewrite lookup_empty in H. Qed.

Lemma reachable_settled l tr : settled None JNull (on_host (run_trace happen (initial l) tr)).
Proof.
  apply settled_history; [apply initial_settled|]. apply Forall_forall. intros e _. destruct e as [| |p c]; [done..|by intros ?].
Qed.

(** No call on the claim of an ended lease finds it live. *)
Lemma ended_not_held c v lease n : settled (Some c) v (disk n) -> lease_at c lease n -> is_held lease = false.
Proof. intros Hs Hl. apply terminal_not_held. by apply (settled_read _ _ _ _ _ Hs Hl). Qed.

Lemma ended_not_live c v t clock n : settled (Some c) v (disk n) -> claim_path t = c -> ~ live t clock n.
Proof. intros Hs Ht (_ & _ & lease & Hl & Hh). rewrite Ht in Hl. pose proof (ended_not_held _ _ _ _ Hs Hl). congruence. Qed.

Lemma ended_not_renewed c v t clock n : settled (Some c) v (disk n) -> claim_path t = c ->
  wp (renew_lease t clock) (fun _ _ => False) (fun _ _ => True) n.
Proof.
  intros Hs Ht. unfold renew_lease, assert_granted. do 4 wp_step. wp_step; [|done]. wp_step. wp_step. wp_step; [|done]. wp_step. wp_step; [|done].
  wp_step.
  - wp_step. unfold wp. destruct (fail_expired t n) as [n' [u|e]]; done.
  - wp_step. eapply wp_mono; [apply wp_read_claim| |done]. intros lease n1 [_ Hl]. rewrite Ht in Hl.
    destruct (proj2 (settled_read _ _ _ _ _ Hs Hl) eq_refl) as (s & Hst & Hin). wp_step. wp_step; [done|].
    rewrite Hst in *. cbn [in_tuple] in *. by match goal with H : mem _ _ = false |- _ => apply mem_false in H end.
Qed.

(** A lease that has ended stays ended.  Once a claim file holds an expired, released or
    revoked lease, then, whatever all the processes do later with whatever tickets, clocks
    and disk faults, the file keeps that very document, as long as no run begins under the
    same random token; and a ticket for it is dead: it is never found live, never renewed,
    and no effect runs under it. *)
Theorem ended_lease_stays_ended faults_ tr1 tr2 c v lease :
  let w1 := run_trace happen (initial faults_) tr1 in
  claims (on_host w1) !! c = Some (Some v) -> from_dict RunLease v = Ok lease -> terminal lease ->
  Forall (event_not_begun (Some c)) tr2 ->
  let w2 := run_trace happen w1 tr2 in
  claims (on_host w2) !! c = Some (Some v) /\
  forall p l t clock, processes w2 !! p = Some l -> claim_path t = c ->
    (exists e, snd (exec (AssertLive t clock) (node_of w2 l)) = Raise e) /\
    (exists e, snd (exec (Renew t clock) (node_of w2 l)) = Raise e) /\
    (forall effect, only_faults (node_of w2 l) (fst (exec (Perform t clock effect) (node_of w2 l))) /\
       exists e, snd (exec (Perform t clock effect) (node_of w2 l)) = Raise e).
Proof.
  intros w1 Hc Hl Ht Htr w2. assert (H1 : settled (Some c) v (on_host w1)).
  { destruct (reachable_settled faults_ tr1) as [Hw _]. split; [exact Hw|]. intros c' [= <-]. split; [done|]. by exists lease. }
  pose proof (settled_history _ _ tr2 w1 H1 Htr) as H2. fold w2 in H2. split; [by apply (ended_claim _ _ _ H2)|].
  intros p l t clock Hp Htc. set (n := node_of w2 l). assert (Hn : settled (Some c) v (disk n)) by done.
  pose proof (ended_not_live c v t clock n Hn Htc) as Hdead. split; [|split].
  - cbn [exec]. unfold as_ticket, bind. pose proof (wp_split _ _ _ _ (wp_assert_live t clock n)) as H.
    destruct (assert_live t clock n) as [n' [t'|e]]; [|by exists e]. by destruct H as (_ & _ & H).
  - cbn [exec]. unfold as_ticket, bind. pose proof (wp_split _ _ _ _ (ended_not_renewed c v t clock n Hn Htc)) as H.
    destruct (renew_lease t clock n) as [n' [t'|e]]; [done|by exists e].
  - intros effect. cbn [exec]. destruct (perform_if_live t (exec effect) clock n) as [n' r] eqn:E. cbn.
    by destruct (perform_cases t clock (exec effect) n n' r E) as [H|[H _]].
Qed.
End system.

(** ** Two processes, one workspace *)

Definition the_dir : string := "/state/leases".
Definition owner : RunAuthority.authority := run_trace RunAuthority.run_call fresh_authority [Register (codex_grant false)].
Definition noon : Z := 63918590400000000.

Definition run_spec (run : string) : dict :=
  [("runId", JStr run); ("workspaceId", JStr "w1"); ("imageDigest", JStr (digest_of_char "a"));
   ("authorityGrantDigest", JStr (authority_digest (codex_grant false)))].

Abbreviation begin_as := (fun run token => Begin (JObj (run_spec run)) "codex-cli" (claimed_image (codex_grant false)) "host-1" (Some noon) token).
Abbreviation idle := {| authority := owner; lease_duration := 900; lock_files := ∅ |}.
Abbreviation one_process := (run_trace (happen the_dir) (initial []) [Start 1 owner 900]).

Definition begun_lease : dict :=
  [("formatVersion", JStr LEASE_FORMAT); ("leaseId", JStr "lease.1a"); ("runId", JStr "run.1"); ("workspaceId", JStr "w1");
   ("executorKind", JStr "codex-cli"); ("imageDigest", JStr (digest_of_char "a"));
   ("claimPath", JStr "/state/leases/lease.1a.json"); ("startedAt", JStr (utc_text noon));
   ("expiresAt", JStr (utc_text (noon + 900 * SECOND))); ("state", JStr "granted")].

Definition begun_ticket : RunTicket :=
  {| run_id := "run.1"; workspace_id := "w1"; ticket_executor := "codex-cli"; image_digest := digest_of_char "a";
     ticket_grant := "grant.1"; authority_grant_digest := authority_digest (codex_grant false);
     started_at := utc_text noon; claim_path := "/state/leases/lease.1a.json";
     lease_expires_at := utc_text (noon + 900 * SECOND); ticket_lease := begun_lease |}.

Abbreviation first_begun := (happen the_dir one_process (Call 1 (begin_as "run.1" "1a"))).
Abbreviation checked_then_second := [Call 1 (AssertLive begun_ticket (Some (noon + 60 * SECOND)%Z)); Start 2 owner 900].

Example second_is_refused :
  snd (exec the_dir (begin_as "run.2" "2b") (node_of (run_trace (happen the_dir) first_begun checked_then_second) idle))
  = Raise (RunRefused "run_single_in_flight").
Proof. vm_compute. reflexivity. Qed.

Lemma begun_ticket_Ok : snd (exec the_dir (begin_as "run.1" "1a") (node_of one_process idle)) = Ok (Some begun_ticket).
Proof. vm_compute. reflexivity. Qed.

Lemma first_idle : processes one_process !! 1 = Some idle.
Proof. apply lookup_insert_eq. Qed.

Lemma second_started : bool_decide (is_Some (processes (run_trace (happen the_dir) first_begun checked_then_second) !! 2)) = true.
Proof. vm_compute. reflexivity. Qed.

Lemma first_undisturbed : undisturbed the_dir 1 (claim_path begun_ticket) first_begun checked_then_second.
Proof. split; [intros _ l _; left; apply not_elem_of_empty|]. by split. Qed.

Lemma one_run_per_workspace_witness :
  exists l e, snd (exec the_dir (begin_as "run.2" "2b") (node_of (run_trace (happen the_dir) first_begun checked_then_second) l)) = Raise e.
Proof.
  destruct (bool_decide_eq_true_1 _ second_started) as [l Hl]. exists l.
  exact (proj1 (proj2 (one_run_per_workspace the_dir [] [Start 1 owner 900] 1 idle (run_spec "run.1") "codex-cli"
    (claimed_image (codex_grant false)) "host-1" (Some noon) "1a" begun_ticket checked_then_second
    first_idle begun_ticket_Ok first_undisturbed)) 2 l (run_spec "run.2") "codex-cli"
    (claimed_image (codex_grant false)) "host-1" (Some noon) "2b" Hl eq_refl).
Defined.

Abbreviation running_node := (fst (exec the_dir (begin_as "run.1" "1a") (node_of one_process idle))).

Lemma effects_need_a_live_run_witness :
  snd (perform_if_live begun_ticket (ret true) (Some noon) running_node) = Ok true /\ live begun_ticket (Some noon) running_node.
Proof.
  assert (H : snd (perform_if_live begun_ticket (ret true) (Some noon) running_node) = Ok true) by (vm_compute; reflexivity).
  split; [exact H|].
  destruct (effects_need_a_live_run begun_ticket (Some noon) (ret true) running_node
    (fst (perform_if_live begun_ticket (ret true) (Some noon) running_node))
    (snd (perform_if_live begun_ticket (ret true) (Some noon) running_node)) (surjective_pairing _)) as [[_ [e He]]|[L _]].
  - rewrite H in He. discriminate He.
  - exact L.
Defined.

Abbreviation begun_and_released := [Start 1 owner 900; Call 1 (begin_as "run.1" "1a"); Call 1 (ReleaseRun begun_ticket)].
Definition released_claim : json := norm (JObj (with_state "released" begun_lease)).
Definition released_dict : dict := match released_claim with JObj d => d | _ => [] end.

Lemma ended_lease_stays_ended_witness :
  claims (on_host (run_trace (happen the_dir) (run_trace (happen the_dir) (initial []) begun_and_released)
    [Call 1 (Renew begun_ticket (Some noon)); Call 1 (begin_as "run.2" "2b")])) !! "/state/leases/lease.1a.json" = Some (Some released_claim).
Proof.
  apply (ended_lease_stays_ended the_dir [] begun_and_released
    [Call 1 (Renew begun_ticket (Some noon)); Call 1 (begin_as "run.2" "2b")]
    "/state/leases/lease.1a.json" released_claim released_dict).
  - vm_compute. reflexivity.
  - vm_compute. reflexivity.
  - exists "released". split; [vm_compute; reflexivity|]. apply mem_true. reflexivity.
  - repeat constructor; intros path [= <-]; cbn; set_solver.
Defined.

(** *** Where the code and its descriptions differ *)

(** [invoke] asks for the grant and the time of the ticket only: the adapter of a run that
    was released is still reached, although [assert_live] refuses it. *)
Abbreviation released_node := (node_of (run_trace (happen the_dir) (initial []) begun_and_released) idle).

Example released_run_reaches_adapter :
  snd (invoke begun_ticket (Some (fun _ => ret true)) (Some noon) released_node) = Ok true
  /\ snd (assert_live begun_ticket (Some noon) released_node) = Raise (RunRefused "run_lease_released").
Proof. vm_compute. split; reflexivity. Qed.

(** After a crash, the claim of the crashed run still says [granted]: [active_for] names it
    while another run holds the workspace. *)
Abbreviation crashed_and_followed := [Start 1 owner 900; Call 1 (begin_as "run.1" "1a"); Crash 1; Start 2 owner 900;
  Call 2 (begin_as "run.2" "2b")].

Example active_names_the_crashed_run :
  snd (active_for the_dir (JStr "w1") (node_of (run_trace (happen the_dir) (initial []) crashed_and_followed) idle)) = Ok (Some "run.1")
  /\ workspace_id begun_ticket = "w1".
Proof. vm_compute. split; reflexivity. Qed.
