(* ===== verification/ProviderBindings.v ===== *)
(** * Provider bindings and run evidence (packages/execution-host, provider_bindings.py)

    The owner's provider configurations and the handles that runs get of them
    ([ProviderBindingManager], [ProviderBindingHandle]), and the service that turns a
    finished run into evidence ([RunEvidenceService]).  Both keep their state under a lock,
    so a call is one step.  The environment of the process is read once, when the manager is
    made; handles are objects, numbered in the order of their making. *)

From S2P Require Import Prelude Json Contracts RuntimeContracts.

(** [ProviderSecretUnavailable] is a [ProviderBindError]; the evidence contract may refuse
    too. *)
Inductive binding_error :=
| ProviderBindError (message : string)
| ProviderSecretUnavailable (message : string)
| EvidenceRefused (e : contract_error).

Abbreviation bound := (outcome binding_error).

Definition unbound {A} (message : string) : bound A := Raise (ProviderBindError message).
Definition unbound_if (b : bool) (message : string) : bound unit := refuse_if b (ProviderBindError message).

Definition require_id (value name : string) : bound string :=
  if ID_fullmatch value then Ok value else unbound (name +:+ " is not a valid identifier").

Definition CHILD_ENVIRONMENT_KEYS : list string := ["PATH"; "LANG"; "LC_ALL"; "LC_CTYPE"; "TZ"; "TERM"].

Definition scrubbed_environment (env : list (string * string)) : list (string * string) :=
  List.filter (fun kv => mem (fst kv) CHILD_ENVIRONMENT_KEYS) env.

(** ** Process identities *)

Record ProcessIdentity := {
  identity_executor : string;
  argv_digest : string;
}.

#[export] Instance ProcessIdentity_eq_dec : EqDecision ProcessIdentity.
Proof. solve_decision. Defined.

Definition require_digest (value : string) : bound string :=
  if DIGEST_fullmatch value then Ok value else unbound "process argv digest must be a pinned sha256 digest".

Definition new_process_identity (executor digest : string) : bound ProcessIdentity :=
  let? executor := require_id executor "executor_kind" in
  let? digest := require_digest digest in
  Ok {| identity_executor := executor; argv_digest := digest |}.

Definition of_argv (executor : string) (argv : list string) : bound ProcessIdentity :=
  unbound_if (bool_decide (argv = []) || existsb has_nul argv) "process argv must be a bounded non-empty string array" >>?
  new_process_identity executor (canonical_digest (jstrs argv)).

(** ** Configurations *)

Record ProviderConfigRef := {
  config_id : string;
  provider : string;
  model : string;
  token_env : string;
  process_identity : option ProcessIdentity;
}.

#[export] Instance ProviderConfigRef_eq_dec : EqDecision ProviderConfigRef.
Proof. solve_decision. Defined.

(** [__post_init__] *)
Definition new_config_ref (id provider model token_env : string) (identity : option ProcessIdentity) : bound ProviderConfigRef :=
  let? id := require_id id "config_id" in
  let? provider := require_id provider "provider" in
  let? model := require_id model "model" in
  let? token_env := require_id token_env "token_env" in
  unbound_if (SECRET_search token_env) "provider token environment name is suspicious" >>?
  Ok {| config_id := id; provider := provider; model := model; token_env := token_env; process_identity := identity |}.

(** ** Handles

    A handle keeps the configuration it was made for, in the closure of its reader. *)

Record ProviderBindingHandle := {
  handle_ref : ProviderConfigRef;
  handle_revoked : bool;
}.

Record ProviderBindingManager := {
  environment : list (string * string);
  configs : list (string * ProviderConfigRef);
  handles : list ProviderBindingHandle;
}.

Definition new_manager (env : list (string * string)) : ProviderBindingManager :=
  {| environment := env; configs := []; handles := [] |}.

Definition set_configs (c : list (string * ProviderConfigRef)) (m : ProviderBindingManager) : ProviderBindingManager :=
  {| environment := environment m; configs := c; handles := handles m |}.
Definition set_handles (h : list ProviderBindingHandle) (m : ProviderBindingManager) : ProviderBindingManager :=
  {| environment := environment m; configs := configs m; handles := h |}.

Definition define_config (id provider model token_env : string) (identity : option ProcessIdentity)
    : M ProviderBindingManager binding_error string :=
  let* ref := lift (new_config_ref id provider model token_env identity) in
  let* m := get in
  raise_if match assoc_get (config_id ref) (configs m) with
           | Some existing => negb (bool_decide (existing = ref))
           | None => false
           end (ProviderBindError "config_id is already bound to another provider") >>*
  put (set_configs (assoc_set (config_id ref) ref (configs m)) m) >>*
  ret (config_id ref).

Definition configured (m : ProviderBindingManager) (id : string) : bound bool :=
  let? id := require_id id "config_id" in
  Ok (mem id (map fst (configs m))).

Definition config (m : ProviderBindingManager) (id : string) : bound ProviderConfigRef :=
  let? id := require_id id "config_id" in
  match assoc_get id (configs m) with
  | None => unbound "provider_config_unavailable"
  | Some ref => Ok ref
  end.

(** [bind] answers the number of the new handle. *)
Definition bind_config (id : string) (granted : bool) : M ProviderBindingManager binding_error nat :=
  raise_if (negb granted) (ProviderBindError "provider_binding_grant_required") >>*
  let* m := get in
  let* ref := lift (config m id) in
  put (set_handles (handles m ++ [{| handle_ref := ref; handle_revoked := false |}]) m) >>*
  ret (length (handles m)).

(** [_reader_for]: what the closure of a handle reads *)
Definition read_token (m : ProviderBindingManager) (ref : ProviderConfigRef) : bound string :=
  if bool_decide (assoc_get (config_id ref) (configs m) = Some ref)
  then Ok (default "" (assoc_get (token_env ref) (environment m)))
  else Raise (ProviderSecretUnavailable "provider configuration was removed or replaced; run fails closed").

(** [ProviderBindingHandle.token] *)
Definition handle_token (m : ProviderBindingManager) (h : ProviderBindingHandle) : bound string :=
  refuse_if (handle_revoked h) (ProviderSecretUnavailable "provider binding was revoked; run fails closed") >>?
  let? value := read_token m (handle_ref h) in
  refuse_if (bool_decide (value = "")) (ProviderSecretUnavailable "provider token is unavailable; run fails closed") >>?
  Ok value.

(** An object that is no handle has no number. *)
Definition token (m : ProviderBindingManager) (n : nat) : bound string :=
  match handles m !! n with
  | None => unbound "provider binding handle must be typed"
  | Some h => handle_token m h
  end.

Definition revoke_handle (h : ProviderBindingHandle) : ProviderBindingHandle :=
  {| handle_ref := handle_ref h; handle_revoked := true |}.

Definition revoke (n : nat) : M ProviderBindingManager binding_error unit :=
  let* m := get in
  match handles m !! n with
  | None => raise (ProviderBindError "provider binding handle must be typed")
  | Some h => put (set_handles (<[n := revoke_handle h]> (handles m)) m)
  end.

Definition remove_config (id : string) : M ProviderBindingManager binding_error unit :=
  let* id := lift (require_id id "config_id") in
  modify (fun m => set_configs (List.filter (fun kv => negb (bool_decide (fst kv = id))) (configs m)) m).

Definition resolve_token (m : ProviderBindingManager) (id : string) : bound string :=
  let? ref := config m id in
  let value := default "" (assoc_get (token_env ref) (environment m)) in
  refuse_if (bool_decide (value = "")) (ProviderSecretUnavailable "provider token is unavailable; run fails closed") >>?
  Ok value.

Definition child_environment (m : ProviderBindingManager) : list (string * string) :=
  scrubbed_environment (environment m).

(** ** The executed process of a run *)

(** [_normalize_executed_process] *)
Definition normalize_executed_process (value : json) : bound dict :=
  match value with
  | JObj process =>
      unbound_if (negb (forallb (fun k => dict_has k process) ["executor"; "exitCode"; "digestOfOutput"]))
        "executed process identity is incomplete" >>?
      let? executor := match key_json "executor" process with
                       | JStr s => require_id s "executed process.executor"
                       | _ => unbound "executed process.executor is not a valid identifier"
                       end in
      let pid := key_json "pid" process in
      let container := key_json "containerWorkloadId" process in
      unbound_if (bool_decide (pid = JNull) && bool_decide (container = JNull))
        "executed process must bind a real pid or a container workload id" >>?
      unbound_if match pid with JNull => false | JInt z => (z <=? 0)%Z | _ => true end
        "executed process pid must be a real positive integer" >>?
      let? exit_code := match key_json "exitCode" process with
                        | JInt z => Ok z
                        | _ => unbound "executed process exitCode must be an integer"
                        end in
      let? digest := match key_json "digestOfOutput" process with
                     | JStr s => if DIGEST_fullmatch s then Ok s else unbound "executed process output digest must be pinned"
                     | _ => unbound "executed process output digest must be pinned"
                     end in
      let? duration := match default (JInt 0) (dict_get "durationSeconds" process) with
                       | JInt z => if (z <? 0)%Z then unbound "executed process duration must be a non-negative integer" else Ok z
                       | _ => unbound "executed process duration must be a non-negative integer"
                       end in
      let? container_field := match container with
                              | JNull => Ok []
                              | JStr s => let? s := require_id s "executed process.containerWorkloadId" in
                                          Ok [("containerWorkloadId", JStr s)]
                              | _ => unbound "executed process.containerWorkloadId is not a valid identifier"
                              end in
      let? image_field := match key_json "observedImageDigest" process with
                          | JNull => Ok []
                          | JStr s => if DIGEST_fullmatch s then Ok [("observedImageDigest", JStr s)]
                                      else unbound "executed process observed image digest must be pinned"
                          | _ => unbound "executed process observed image digest must be pinned"
                          end in
      Ok ([("executor", JStr executor); ("pid", pid); ("exitCode", JInt exit_code); ("durationSeconds", JInt duration);
           ("digestOfOutput", JStr digest)] ++ container_field ++ image_field)
  | _ => unbound "executed process must be a mapping"
  end.

(** ** [RunEvidenceService] *)

Record service := {
  used : gset (string * string);
  finalized : gset string;
}.

Definition new_service : service := {| used := ∅; finalized := ∅ |}.

Definition mark_provider_used (run config : string) : M service binding_error unit :=
  let* run := lift (require_id run "run_id") in
  let* config := lift (require_id config "config_id") in
  let* s := get in
  raise_if (bool_decide (run ∈ finalized s)) (ProviderBindError "run evidence is already finalized") >>*
  put {| used := {[(run, config)]} ∪ used s; finalized := finalized s |}.

Definition provider_used (s : service) (run config : string) : bound bool :=
  let? run := require_id run "run_id" in
  let? config := require_id config "config_id" in
  Ok (bool_decide ((run, config) ∈ used s)).

(** The arguments of [finish_evidence] *)
Record finish := {
  f_run : string;
  f_workspace : string;
  f_executor : string;
  f_image : string;
  f_lease : string;
  f_started : string;
  f_ended : string;
  f_outcome : string;
  f_reason : string;
  f_output : string;
  f_config : option string;
  f_revoked : bool;
  f_use_required : bool;
  f_process : option json;
}.

Definition normalized_process (process : option json) : bound (option dict) :=
  match process with None => Ok None | Some v => let? d := normalize_executed_process v in Ok (Some d) end.

(** What is recorded as outcome and reason: refused when the grant was revoked or the
    provider was not used, *)
Definition honest (q : finish) (was_used : bool) : string * string :=
  if f_revoked q then ("refused", "authority-grant-revoked")
  else if bool_decide (f_outcome q = "completed") && f_use_required q && negb was_used
  then ("refused", "provider-effect-unobserved")
  else (f_outcome q, f_reason q).

(** and failed when the process was not observed to run the pinned image. *)
Definition identified (q : finish) (process : option dict) (o : string * string) : string * string :=
  let o := match process with
           | Some d => if bool_decide (o.1 = "completed") && differs (key_json "observedImageDigest" d) (f_image q)
                       then ("failed", "observed-image-identity-mismatch") else o
           | None => o
           end in
  if negb (bool_decide (o.1 = "completed")) && bool_decide (o.2 = "ok") then (o.1, o.1) else o.

Definition evidence_record (q : finish) (process : option dict) (o : string * string) : dict :=
  [("formatVersion", JStr "stateport.run-evidence/v1"); ("runId", JStr (f_run q)); ("workspaceId", JStr (f_workspace q));
   ("executorKind", JStr (f_executor q)); ("imageDigest", JStr (f_image q)); ("startedAt", JStr (f_started q));
   ("endedAt", JStr (f_ended q)); ("outcome", JStr o.1); ("exitReason", JStr o.2); ("digestOfOutput", JStr (f_output q));
   ("leaseId", JStr (f_lease q))] ++
  match process with Some d => [("executedProcess", JObj d)] | None => [] end.

Definition contract_evidence (o : checked dict) : bound dict :=
  match o with Ok d => Ok d | Raise e => Raise (EvidenceRefused e) end.

Definition config_checked (c : option string) : bound unit :=
  match c with None => Ok tt | Some c => let? c := require_id c "config_id" in Ok tt end.

Definition finish_evidence (q : finish) : M service binding_error dict :=
  raise_if (negb (DIGEST_fullmatch (f_output q))) (ProviderBindError "output digest must be a pinned sha256 digest") >>*
  let* run := lift (require_id (f_run q) "run_id") in
  let* process := lift (normalized_process (f_process q)) in
  lift (config_checked (f_config q)) >>*
  let* s := get in
  raise_if (bool_decide (run ∈ finalized s)) (ProviderBindError "run evidence is already finalized") >>*
  let was_used := match f_config q with Some c => bool_decide ((run, c) ∈ used s) | None => false end in
  let o := honest q was_used in
  raise_if (negb (mem o.1 EVIDENCE_OUTCOMES)) (ProviderBindError "run evidence outcome is invalid") >>*
  let o := identified q process o in
  let* evidence := lift (contract_evidence (from_dict RunEvidence (JObj (evidence_record q process o)))) in
  put {| used := filter (fun rc => rc.1 <> run) (used s); finalized := {[run]} ∪ finalized s |} >>*
  ret evidence.

(** ** Handles over time *)

Inductive manager_call :=
| Define (id provider model token_env : string) (identity : option ProcessIdentity)
| Bind (id : string) (granted : bool)
| RevokeHandle (n : nat)
| RemoveConfig (id : string).

Definition manager_step (m : ProviderBindingManager) (c : manager_call) : ProviderBindingManager :=
  match c with
  | Define id p mo t i => fst (define_config id p mo t i m)
  | Bind id g => fst (bind_config id g m)
  | RevokeHandle n => fst (revoke n m)
  | RemoveConfig id => fst (remove_config id m)
  end.

(** A handle stays, with its configuration; once revoked it stays revoked. *)
Definition handles_kept (m m' : ProviderBindingManager) : Prop :=
  environment m' = environment m /\
  forall n h, handles m !! n = Some h ->
    exists h', handles m' !! n = Some h' /\ handle_ref h' = handle_ref h /\ (handle_revoked h = true -> handle_revoked h' = true).

#[export] Instance handles_kept_preorder : PreOrder handles_kept.
Proof.
  split; [intros m; split; [done|]; eauto|].
  intros m1 m2 m3 [E1 H1] [E2 H2]. split; [congruence|]. intros n h (h2 & Hn2 & R2 & V2)%H1.
  destruct (H2 _ _ Hn2) as (h3 & Hn3 & R3 & V3). exists h3. split; [done|]. split; [congruence|auto].
Qed.

Lemma handles_kept_same m m' : environment m' = environment m -> handles m' = handles m -> handles_kept m m'.
Proof. intros E H. split; [done|]. intros n h Hn. exists h. by rewrite H. Qed.

Lemma manager_step_keeps m c : handles_kept m (manager_step m c).
Proof.
  destruct c as [id p mo t i|id g|n|id]; cbn [manager_step]; apply (wp_final _ (handles_kept m)).
  - unfold define_config. repeat wp_step; try done. by apply handles_kept_same.
  - unfold bind_config. repeat wp_step; try done. split; [done|]. intros n h Hn. exists h. cbn. by rewrite (lookup_app_l_Some _ _ _ _ Hn).
  - unfold revoke. do 2 wp_step. destruct (handles m !! n) as [h0|] eqn:E; wp_step; [|done]. split; [done|].
    intros k h Hk. cbn [set_handles handles]. destruct (decide (k = n)) as [->|Hne].
    + rewrite E in Hk. injection Hk as <-. rewrite list_lookup_insert_eq by (by eapply lookup_lt_Some). by eexists.
    + rewrite list_lookup_insert_ne by done. eauto.
  - unfold remove_config. wp_step; wp_step; [|done]. wp_step. by apply handles_kept_same.
Qed.

Lemma manager_trace_keeps tr : forall m, handles_kept m (run_trace manager_step m tr).
Proof. induction tr as [|c tr IH]; intros m; [done|]. cbn. etrans; [apply manager_step_keeps|apply IH]. Qed.

Lemma handle_token_spec m h v : handle_token m h = Ok v <->
  handle_revoked h = false /\ assoc_get (config_id (handle_ref h)) (configs m) = Some (handle_ref h) /\
  assoc_get (token_env (handle_ref h)) (environment m) = Some v /\ v <> "".
Proof.
  unfold handle_token, read_token. destruct (handle_revoked h); cbn [refuse_if obind]; [naive_solver|].
  case_bool_decide as Hc; cbn [obind]; [|naive_solver].
  destruct (assoc_get (token_env (handle_ref h)) (environment m)) as [w|]; cbn [default]; case_bool_decide; naive_solver.
Qed.

(** A handle reads the token of the one configuration it was made for, and nothing else.
    Whatever is defined, bound, revoked or removed after a handle exists: it still stands
    for the same configuration, a revocation stays, and its token can be read exactly when it
    is not revoked, its configuration is registered unchanged, and the owner's environment
    holds a non-empty value for it, which is the value that is read. *)
Theorem handle_reads_its_configuration tr1 n h tr2 env :
  let m1 := run_trace manager_step (new_manager env) tr1 in
  let m2 := run_trace manager_step m1 tr2 in
  handles m1 !! n = Some h ->
  exists h', handles m2 !! n = Some h' /\ handle_ref h' = handle_ref h /\
    (handle_revoked h = true -> handle_revoked h' = true) /\
    forall v, token m2 n = Ok v <->
      handle_revoked h' = false /\ assoc_get (config_id (handle_ref h)) (configs m2) = Some (handle_ref h) /\
      assoc_get (token_env (handle_ref h)) env = Some v /\ v <> "".
Proof.
  intros m1 m2 Hn. destruct (manager_trace_keeps tr1 (new_manager env)) as [E1 _].
  destruct (manager_trace_keeps tr2 m1) as [E2 Hk]. fold m2 in E2, Hk. destruct (Hk _ _ Hn) as (h' & Hn' & R & V).
  exists h'. do 3 (split; [done|]). intros v. unfold token. rewrite Hn', handle_token_spec, R, E2. fold m1 in E1. by rewrite E1.
Qed.

(** ** Evidence over time *)

Inductive service_call := Mark (run config : string) | Finish (q : finish).

Definition service_step (s : service) (c : service_call) : service :=
  match c with Mark run config => fst (mark_provider_used run config s) | Finish q => fst (finish_evidence q s) end.

Lemma require_id_Ok v n a : require_id v n = Ok a -> a = v /\ ID_fullmatch v = true.
Proof. unfold require_id. destruct (ID_fullmatch v); [by intros [= <-]|done]. Qed.

Lemma contract_evidence_Ok o d : contract_evidence o = Ok d -> o = Ok d.
Proof. destruct o; [by intros [= <-]|done]. Qed.

Lemma wp_mark run config s :
  wp (mark_provider_used run config)
    (fun _ s' => run ∉ finalized s /\ s' = {| used := {[(run, config)]} ∪ used s; finalized := finalized s |})
    (fun _ s' => s' = s) s.
Proof.
  unfold mark_provider_used. repeat wp_step; try done.
  repeat match goal with H : require_id _ _ = Ok _ |- _ => apply require_id_Ok in H as [-> _] end. by split_bool.
Qed.

Definition used_by (q : finish) (s : service) : bool :=
  match f_config q with Some c => bool_decide ((f_run q, c) ∈ used s) | None => false end.

Lemma wp_finish_evidence q s :
  wp (finish_evidence q)
    (fun evidence s' =>
       f_run q ∉ finalized s /\
       s' = {| used := filter (fun rc => rc.1 <> f_run q) (used s); finalized := {[f_run q]} ∪ finalized s |} /\
       exists process, normalized_process (f_process q) = Ok process /\
         let o := identified q process (honest q (used_by q s)) in
         from_dict RunEvidence (JObj (evidence_record q process o)) = Ok evidence)
    (fun _ s' => s' = s) s.
Proof.
  unfold finish_evidence. repeat wp_step; try exact eq_refl.
  repeat match goal with
  | H : require_id _ _ = Ok _ |- _ => apply require_id_Ok in H as [-> _]
  | H : contract_evidence _ = Ok _ |- _ => apply contract_evidence_Ok in H
  end.
  split_bool. split; [assumption|]. split; [reflexivity|].
  eexists. split; [eassumption|]. eassumption.
Qed.

Lemma evidence_is_its_record r d : from_dict RunEvidence (JObj r) = Ok d -> d = r.
Proof.
  unfold from_dict. intros H. apply obind_Ok in H as (u & _ & H). cbn [validate] in H. unfold RunEvidence_validate in H.
  apply obind_Ok in H as (e & (He & _ & _)%fields_Ok & H). repeat (apply obind_Ok in H as (? & _ & H)). injection H as <-. congruence.
Qed.

(** The normalized process says what the observed one did. *)
Lemma normalized_fields p d : normalize_executed_process (JObj p) = Ok d ->
  key_json "exitCode" d = key_json "exitCode" p /\ (exists z, key_json "exitCode" p = JInt z) /\
  key_json "containerWorkloadId" d = key_json "containerWorkloadId" p /\
  key_json "observedImageDigest" d = key_json "observedImageDigest" p.
Proof.
  unfold normalize_executed_process. intros H. apply obind_Ok in H as (u & _ & H). apply obind_Ok in H as (executor & _ & H).
  cbv zeta in H. apply obind_Ok in H as (u1 & _ & H). apply obind_Ok in H as (u2 & _ & H).
  apply obind_Ok in H as (z & Hz & H). apply obind_Ok in H as (digest & _ & H). apply obind_Ok in H as (duration & _ & H).
  apply obind_Ok in H as (cs & Hc & H). apply obind_Ok in H as (is_ & Hi & H). injection H as <-.
  assert (Ez : key_json "exitCode" p = JInt z) by (destruct (key_json "exitCode" p); try discriminate Hz; by injection Hz as <-).
  assert (Ec : (key_json "containerWorkloadId" p = JNull /\ cs = []) \/
               exists s, key_json "containerWorkloadId" p = JStr s /\ cs = [("containerWorkloadId", JStr s)]).
  { destruct (key_json "containerWorkloadId" p) as [| | |s| |]; try discriminate Hc; [injection Hc as <-; by left|right].
    apply obind_Ok in Hc as (s' & [-> _]%require_id_Ok & [= <-]). by eexists. }
  assert (Ei : (key_json "observedImageDigest" p = JNull /\ is_ = []) \/
               exists s, key_json "observedImageDigest" p = JStr s /\ is_ = [("observedImageDigest", JStr s)]).
  { destruct (key_json "observedImageDigest" p) as [| | |s| |]; try discriminate Hi; [injection Hi as <-; by left|right].
    destruct (DIGEST_fullmatch s); [injection Hi as <-; by eexists|done]. }
  rewrite Ez. split; [done|]. split; [by eexists|].
  destruct Ec as [[-> ->]|(c & -> & ->)], Ei as [[-> ->]|(i & -> & ->)]; done.
Qed.

(** What is final stays final, and what was used was marked. *)
Definition final_kept (s s' : service) : Prop := finalized s ⊆ finalized s'.

Lemma service_step_keeps s c : final_kept s (service_step s c).
Proof.
  destruct c as [run config|q]; cbn [service_step]; apply (wp_final _ (final_kept s)).
  - eapply wp_mono; [apply wp_mark|by intros ? ? [_ ->]; unfold final_kept|by intros ? ? ->; unfold final_kept].
  - eapply wp_mono; [apply wp_finish_evidence| |by intros ? ? ->; unfold final_kept]. intros ? ? (_ & -> & _).
    unfold final_kept. apply union_subseteq_r.
Qed.

(** A run that is final has no pair left. *)
Definition used_marked (tr : list service_call) (s : service) : Prop :=
  forall run config, (run, config) ∈ used s -> run ∉ finalized s /\ Mark run config ∈ tr.

Lemma used_marked_trace tr : used_marked tr (run_trace service_step new_service tr).
Proof.
  induction tr as [|c tr IH] using rev_ind; [intros run config []%not_elem_of_empty|].
  rewrite run_trace_app. change (run_trace service_step ?x [c]) with (service_step x c).
  set (s := run_trace service_step new_service tr) in *.
  assert (Hs : used_marked (tr ++ [c]) s).
  { intros run config [H1 H2]%IH. split; [done|]. apply elem_of_app. by left. }
  destruct c as [run config|q]; cbn [service_step]; apply (wp_final _ (used_marked (tr ++ _))).
  - eapply wp_mono; [apply wp_mark| |by intros ? ? ->]. intros _ s' [Hf ->] r c. cbn [used finalized].
    intros [[= -> ->]%elem_of_singleton|H]%elem_of_union; [|by apply Hs].
    split; [done|]. apply elem_of_app. right. by apply list_elem_of_singleton.
  - eapply wp_mono; [apply wp_finish_evidence| |by intros ? ? ->]. intros ev s' (Hf & -> & _) r c. cbn [used finalized].
    intros [Hne H]%elem_of_filter. destruct (Hs _ _ H) as [Hr Hm]. cbn in Hne. split; [|done].
    by intros [->%elem_of_singleton|?]%elem_of_union.
Qed.

Definition marked_before (q : finish) (tr : list service_call) : Prop :=
  exists c, f_config q = Some c /\ Mark (f_run q) c ∈ tr.

(** Evidence that says completed *)
Lemma honest_completed q u process : fst (identified q process (honest q u)) = "completed" ->
  f_revoked q = false /\ f_outcome q = "completed" /\ (f_use_required q = true -> u = true) /\
  (forall d, process = Some d -> differs (key_json "observedImageDigest" d) (f_image q) = false).
Proof.
  unfold identified, honest. destruct (f_revoked q); cbn [fst snd].
  { destruct process as [d|]; cbn; repeat case_bool_decide; simplify_eq; done. }
  destruct (_ && negb u) eqn:E; cbn [fst snd].
  { destruct process as [d|]; cbn; repeat case_bool_decide; simplify_eq; done. }
  case_bool_decide as Ho.
  - intros H. split; [done|]. split; [done|]. split.
    { intros Hq. rewrite Hq in E. cbn in E. by apply negb_false_iff in E. }
    intros d ->. destruct (differs _ _); [|done]. cbn in H. by repeat case_bool_decide.
  - intros H. exfalso. destruct process as [d|]; cbn in H; repeat case_bool_decide; simplify_eq; done.
Qed.

(** C30 Evidence is final, and completed evidence says no more than was observed.  Once a
    run's evidence is made, no later history lets it be made again or lets a provider effect
    be marked for it.  Evidence that says completed belongs to a finish that claimed
    completion with its grant unrevoked; unless the finish waived provider use, an effect of
    this very run and configuration was marked before; and either the finish named no executed
    process, and the evidence names none, or the evidence names the process and it was
    observed to run the pinned image. *)
Theorem evidence_is_final_and_observed tr1 q s' evidence tr2 :
  finish_evidence q (run_trace service_step new_service tr1) = (s', Ok evidence) ->
  let s2 := run_trace service_step s' tr2 in
  (forall q2, f_run q2 = f_run q -> exists e, finish_evidence q2 s2 = (s2, Raise e)) /\
  (forall c, exists e, mark_provider_used (f_run q) c s2 = (s2, Raise e)) /\
  (key_json "outcome" evidence = JStr "completed" ->
     f_outcome q = "completed" /\ f_revoked q = false /\
     (f_use_required q = true -> marked_before q tr1) /\
     match f_process q with
     | None => dict_get "executedProcess" evidence = None
     | Some p =>
         exists d, normalize_executed_process p = Ok d /\ key_json "observedImageDigest" d = JStr (f_image q) /\
                   key_json "executedProcess" evidence = JObj d
     end).
Proof.
  intros H s2. pose proof (wp_finish_evidence q (run_trace service_step new_service tr1)) as W. unfold wp in W. rewrite H in W.
  destruct W as (Hnew & -> & process & Hp & He). cbv zeta in He. apply evidence_is_its_record in He.
  assert (Hf : f_run q ∈ finalized s2).
  { apply (run_trace_invariant service_step (fun s => f_run q ∈ finalized s)); [|cbn; set_solver].
    intros s c Hs. by apply (service_step_keeps s c). }
  split; [|split].
  - intros q2 Hq. pose proof (wp_finish_evidence q2 s2) as W. unfold wp in W.
    destruct (finish_evidence q2 s2) as [s3 [d|e]]; [|exists e; by rewrite W]. destruct W as [Hn _]. by rewrite Hq in Hn.
  - intros c. pose proof (wp_mark (f_run q) c s2) as W. unfold wp in W.
    destruct (mark_provider_used (f_run q) c s2) as [s3 [u|e]]; [by destruct W|exists e; by rewrite W].
  - intros Ho. subst evidence. cbn in Ho. assert (Ho' : (identified q process (honest q (used_by q (run_trace service_step new_service tr1)))).1 = "completed") by congruence.
    destruct (honest_completed _ _ _ Ho') as (Hr & Hoc & Hu & Hd). do 2 (split; [done|]). split.
    + intros Hq. specialize (Hu Hq). unfold used_by in Hu. destruct (f_config q) as [c|] eqn:Ec; [|done].
      apply bool_decide_eq_true in Hu. exists c. split; [done|]. by apply (used_marked_trace tr1).
    + destruct (f_process q) as [p|] eqn:Ep; [|by injection Hp as <-]. cbn in Hp. apply obind_Ok in Hp as (d & Hn & [= <-]). exists d. split; [done|].
      specialize (Hd d eq_refl). unfold differs in Hd. apply negb_false_iff, py_eqb_text in Hd. by split.
Qed.

(** ** At work *)

Definition synthetic_manager : ProviderBindingManager :=
  run_trace manager_step (new_manager [("SP_TEST_TOKEN", "synthetic-provider-token")])
    [Define "cfg.1" "synthetic" "synthetic-model" "SP_TEST_TOKEN" None; Bind "cfg.1" true].

Example token_until_revoked :
  token synthetic_manager 0 = Ok "synthetic-provider-token" /\
  token (run_trace manager_step synthetic_manager [RevokeHandle 0; Bind "cfg.1" true]) 0
    = Raise (ProviderSecretUnavailable "provider binding was revoked; run fails closed") /\
  token (run_trace manager_step synthetic_manager [RevokeHandle 0; Bind "cfg.1" true]) 1 = Ok "synthetic-provider-token".
Proof. split_and!; vm_compute; reflexivity. Qed.

(** Removing a configuration shuts out its handles until an equal one is defined again. *)
Example removed_handle_revives :
  let removed := run_trace manager_step synthetic_manager [RemoveConfig "cfg.1"] in
  let defined := run_trace manager_step removed [Define "cfg.1" "synthetic" "synthetic-model" "SP_TEST_TOKEN" None] in
  token removed 0 = Raise (ProviderSecretUnavailable "provider configuration was removed or replaced; run fails closed") /\
  token defined 0 = Ok "synthetic-provider-token".
Proof. split; vm_compute; reflexivity. Qed.

Example no_grant_no_handle : bind_config "cfg.1" false synthetic_manager = (synthetic_manager, unbound "provider_binding_grant_required").
Proof. reflexivity. Qed.

Example suspicious_environment_name : new_config_ref "cfg.1" "synthetic" "m" "PROVIDER_API_KEY" None
  = unbound "provider token environment name is suspicious".
Proof. vm_compute. reflexivity. Qed.

Definition digest_of (c : string) : string := "sha256:" +:+ String.concat "" (repeat c 64).

Definition observed_process : json :=
  JObj [("executor", JStr "execution-host-agent-container"); ("pid", JNull); ("containerWorkloadId", JStr "run-run.1");
        ("exitCode", JInt 0); ("durationSeconds", JInt 3); ("digestOfOutput", JStr (digest_of "c"));
        ("observedImageDigest", JStr (digest_of "a"))].

Definition completed_finish : finish :=
  {| f_run := "run.1"; f_workspace := "ws.1"; f_executor := "execution-host-agent-container"; f_image := digest_of "a";
     f_lease := "lease.1"; f_started := "2026-08-08T00:00:00.000000Z"; f_ended := "2026-08-08T00:00:03.000000Z";
     f_outcome := "completed"; f_reason := "ok"; f_output := digest_of "c"; f_config := Some "cfg.1"; f_revoked := false;
     f_use_required := true; f_process := Some observed_process |}.

Definition used_service : service := run_trace service_step new_service [Mark "run.1" "cfg.1"].

Definition completed_evidence : dict :=
  evidence_record completed_finish (match normalize_executed_process observed_process with Ok d => Some d | _ => None end) ("completed", "ok").

Lemma completes : snd (finish_evidence completed_finish used_service) = Ok completed_evidence.
Proof. vm_compute. reflexivity. Qed.

Lemma completes_run : finish_evidence completed_finish used_service
  = (fst (finish_evidence completed_finish used_service), Ok completed_evidence).
Proof. rewrite <-completes. by destruct (finish_evidence completed_finish used_service). Qed.

Lemma evidence_is_final_and_observed_witness :
  f_outcome completed_finish = "completed" /\ f_revoked completed_finish = false /\
  marked_before completed_finish [Mark "run.1" "cfg.1"] /\
  exists e, mark_provider_used "run.1" "cfg.1" (fst (finish_evidence completed_finish used_service))
            = (fst (finish_evidence completed_finish used_service), Raise e).
Proof.
  destruct (evidence_is_final_and_observed [Mark "run.1" "cfg.1"] completed_finish
              (fst (finish_evidence completed_finish used_service)) completed_evidence [] completes_run) as (_ & Hm & Hc).
  destruct (Hc eq_refl) as (H1 & H2 & H3 & _). split; [exact H1|]. split; [exact H2|]. split; [exact (H3 eq_refl)|].
  exact (Hm "cfg.1").
Defined.

Example unused_provider_is_refused :
  match snd (finish_evidence completed_finish new_service) with
  | Ok d => key_json "outcome" d = JStr "refused" /\ key_json "exitReason" d = JStr "provider-effect-unobserved"
  | Raise _ => False
  end.
Proof. vm_compute. split; reflexivity. Qed.
