(* ===== verification/RunEngine.v ===== *)
(** * The run engine (packages/execution-host, run_engine.py)

    [RunEngine.run]: one validated agent-run specification becomes one container.  A run is
    lowered to a workload of the daemon, begun under the owner's grant, created and started
    only while it is live, watched until the daemon says that it ended, cleaned up, and
    settled: its outcome is decided from what was observed, its lease ended, its completion
    recorded once and its evidence made.

    What the daemon answers and when the threads act is a [script]: the replies of the
    client, the passes of the monitor thread between the steps of the run, and what the rest
    of the process and of the host does to the shared state meanwhile.  Settling a run is
    one step, and the monitor thread has ended by then. *)

From S2P Require Import Prelude Instants Json Sha256 Contracts ExecutionContract ExecutionLedger RuntimeContracts.
From S2P Require Import RunAuthority RunLease RunLifecycle RunSystem ProviderBindings.

(** ** The client of the daemon *)

(** [ExecutionHostRefusal], [ExecutionHostTransportError], or another exception by its name. *)
Inductive client_fault :=
| Refusal (reason : string)
| TransportError (detail : string)
| OtherFault (name : string).

(** A call of the client answers a receipt. *)
Abbreviation reply := (outcome client_fault dict).

Definition fault_name (f : client_fault) : string :=
  match f with
  | Refusal _ => "ExecutionHostRefusal"
  | TransportError _ => "ExecutionHostTransportError"
  | OtherFault name => name
  end.

Definition TERMINAL_WORKLOAD_STATES : list string :=
  ["exited"; "timed_out"; "cancelled"; "failed"; "interrupted"; "removed"].

Definition receipt_state (receipt : dict) : option string :=
  match key_json "result" receipt with
  | JObj result => match key_json "state" result with JStr s => Some s | _ => None end
  | _ => None
  end.

Definition is_terminal (state : option string) : bool :=
  match state with Some s => mem s TERMINAL_WORKLOAD_STATES | None => false end.

(** ** What a run has seen so far *)

Record watch := {
  w_node : node;
  reason : option string;      (* cancelled["reason"] *)
  monitoring : bool;           (* the monitor thread looks *)
  w_state : string;
  exit_status : json;
  observed_image : json;
  output_text : string;
  create_cleanup_required : bool;
  workload_created : bool;
}.

Definition new_watch (n : node) : watch :=
  {| w_node := n; reason := None; monitoring := false; w_state := "unknown"; exit_status := JNull; observed_image := JNull;
     output_text := ""; create_cleanup_required := false; workload_created := false |}.

Definition set_node (n : node) (w : watch) : watch :=
  {| w_node := n; reason := reason w; monitoring := monitoring w; w_state := w_state w; exit_status := exit_status w;
     observed_image := observed_image w; output_text := output_text w;
     create_cleanup_required := create_cleanup_required w; workload_created := workload_created w |}.

(** [cancelled.setdefault("reason", r)] *)
Definition default_reason (r : string) (w : watch) : watch :=
  {| w_node := w_node w; reason := Some (default r (reason w)); monitoring := monitoring w; w_state := w_state w;
     exit_status := exit_status w; observed_image := observed_image w; output_text := output_text w;
     create_cleanup_required := create_cleanup_required w; workload_created := workload_created w |}.

Definition set_monitoring (b : bool) (w : watch) : watch :=
  {| w_node := w_node w; reason := reason w; monitoring := b; w_state := w_state w; exit_status := exit_status w;
     observed_image := observed_image w; output_text := output_text w;
     create_cleanup_required := create_cleanup_required w; workload_created := workload_created w |}.

Definition set_state (s : string) (w : watch) : watch :=
  {| w_node := w_node w; reason := reason w; monitoring := monitoring w; w_state := s; exit_status := exit_status w;
     observed_image := observed_image w; output_text := output_text w;
     create_cleanup_required := create_cleanup_required w; workload_created := workload_created w |}.

Definition set_exit (v : json) (w : watch) : watch :=
  {| w_node := w_node w; reason := reason w; monitoring := monitoring w; w_state := w_state w; exit_status := v;
     observed_image := observed_image w; output_text := output_text w;
     create_cleanup_required := create_cleanup_required w; workload_created := workload_created w |}.

(** [v or observed_image] *)
Definition see_image (v : json) (w : watch) : watch :=
  {| w_node := w_node w; reason := reason w; monitoring := monitoring w; w_state := w_state w; exit_status := exit_status w;
     observed_image := if truthy v then v else observed_image w; output_text := output_text w;
     create_cleanup_required := create_cleanup_required w; workload_created := workload_created w |}.

Definition set_output (s : string) (w : watch) : watch :=
  {| w_node := w_node w; reason := reason w; monitoring := monitoring w; w_state := w_state w; exit_status := exit_status w;
     observed_image := observed_image w; output_text := s;
     create_cleanup_required := create_cleanup_required w; workload_created := workload_created w |}.

Definition set_cleanup (b : bool) (w : watch) : watch :=
  {| w_node := w_node w; reason := reason w; monitoring := monitoring w; w_state := w_state w; exit_status := exit_status w;
     observed_image := observed_image w; output_text := output_text w;
     create_cleanup_required := b; workload_created := workload_created w |}.

Definition set_created (b : bool) (w : watch) : watch :=
  {| w_node := w_node w; reason := reason w; monitoring := monitoring w; w_state := w_state w; exit_status := exit_status w;
     observed_image := observed_image w; output_text := output_text w;
     create_cleanup_required := create_cleanup_required w; workload_created := b |}.

(** The observation ends with an exception, or the script ends before the run does. *)
Inductive interruption :=
| Failed (name : string)
| StillRunning.

Abbreviation watching := (M watch interruption).

(** ** The monitor *)

(** [_withdrawal_reason] *)
Definition withdrawal_reason (ticket : RunTicket) (now : Z) (n : node) : node * option string :=
  match RunLifecycle.assert_live ticket (Some now) n with
  | (n', Ok _) => (n', None)
  | (n', Raise (RunRefused m)) => (n', Some (if has_sub "lease_expired" m then "lease-expired" else "revoked"))
  | (n', Raise _) => (n', Some "revoked")
  end.

(** [cancelled.get("reason") or self._withdrawal_reason(ticket)], kept if there is one *)
Definition look (ticket : RunTicket) (now : Z) (w : watch) : watch * option string :=
  match reason w with
  | Some r => (w, Some r)
  | None =>
      match withdrawal_reason ticket now (w_node w) with
      | (n, Some r) => (default_reason r (set_node n w), Some r)
      | (n, None) => (set_node n w, None)
      end
  end.

(** One round of [_monitor]: a withdrawn run is cancelled at the daemon, until it says that
    the workload has ended. *)
Definition monitor_pass (ticket : RunTicket) (now : Z) (cancel_reply status_reply : reply) (w : watch) : watch :=
  if negb (monitoring w) then w
  else
    match look ticket now w with
    | (w', None) => w'
    | (w', Some _) =>
        let state := match cancel_reply with
                     | Ok receipt => receipt_state receipt
                     | Raise _ => match status_reply with Ok receipt => receipt_state receipt | Raise _ => None end
                     end in
        if is_terminal state then set_monitoring false w' else w'
    end.

(** What happens between two steps of the run *)
Inductive aside :=
| Others (f : node -> node)
| MonitorPass (now : Z) (cancel_reply status_reply : reply).

Definition act (ticket : RunTicket) (w : watch) (a : aside) : watch :=
  match a with
  | Others f => set_node (f (w_node w)) w
  | MonitorPass now c s => monitor_pass ticket now c s w
  end.

Definition act_all (ticket : RunTicket) (l : list aside) (w : watch) : watch := run_trace (act ticket) w l.

(** ** Creating, starting, watching *)

Record poll := {
  before_poll : list aside;
  status_reply : reply;
  past_deadline : bool;
}.

Record script := {
  create_at : Z;
  during_create : node -> node;
  create_reply : reply;
  before_start : list aside;
  monitor_ready : bool;
  start_look : Z;
  start_at : Z;
  during_start : node -> node;
  start_reply : reply;
  polls : list poll;
  before_logs : list aside;
  logs_reply : reply;
  removals : list (reply * reply);   (* the answers to cancel and to removeWorkload *)
  before_stop : list aside;
  ended_at : Z;
  duration : Z;
}.

(** A call of the lifecycle during the observation *)
Definition on_watch {A} (m : call A) : watching A :=
  fun w => match m (w_node w) with
           | (n, Ok a) => (set_node n w, Ok a)
           | (n, Raise e) => (set_node n w, Raise (Failed (exception_name e)))
           end.

Definition authority_seen (w : watch) : RunAuthority.authority := authority (self (w_node w)).

(** [self._lifecycle.perform_if_live] of an effect that also changes what the run has seen *)
Definition live_effect {A} (ticket : RunTicket) (now : Z) (effect : watching A) : watching A :=
  on_watch (RunLifecycle.assert_live ticket (Some now)) >>*
  fun w => match RunAuthority.perform_if_live authority_seen (ticket_grant ticket) (image_digest ticket)
                   (authority_grant_digest ticket) effect w with
           | (w', Ok a) => (w', Ok a)
           | (w', Raise (inl (RunAuthorityError _))) => (w', Raise (Failed "RunAuthorityError"))
           | (w', Raise (inr e)) => (w', Raise e)
           end.

Definition answered (r : reply) : outcome interruption dict :=
  match r with Ok receipt => Ok receipt | Raise f => Raise (Failed (fault_name f)) end.

(** Whether the workload may exist after an answer to its creation *)
Definition may_exist (r : reply) : bool :=
  match r with
  | Raise (Refusal _) => false
  | Raise (TransportError detail) => negb (startswith "socket-absent:" detail || startswith "socket-refused:" detail)
  | _ => true
  end.

(** A call of the client, during which others may act *)
Definition client_call (others : node -> node) (r : reply) : watching dict :=
  modify (fun w => set_node (others (w_node w)) w) >>* lift (answered r).

Definition create_effect (sc : script) : watching dict :=
  modify (fun w => set_node (during_create sc (w_node w)) w) >>*
  modify (set_cleanup (may_exist (create_reply sc))) >>*
  lift (answered (create_reply sc)).

Definition create_workload (ticket : RunTicket) (sc : script) : watching unit :=
  live_effect ticket (create_at sc) (create_effect sc) >>*
  modify (set_created true) >>*
  modify (set_monitoring true).

Definition start_workload (ticket : RunTicket) (sc : script) : watching unit :=
  modify (act_all ticket (before_start sc)) >>*
  raise_if (negb (monitor_ready sc)) (Failed "RunEngineError") >>*
  let* w := get in
  let '(w, withdrawn) := look ticket (start_look sc) w in
  put w >>*
  raise_if (bool_decide (is_Some withdrawn)) (Failed "RunRefused") >>*
  live_effect ticket (start_at sc) (client_call (during_start sc) (start_reply sc)) >>*
  ret tt.

(** [str(receipt["result"][field])] *)
Definition result_text (field : string) (receipt : dict) : outcome interruption string :=
  match dict_get "result" receipt with
  | None => Raise (Failed "KeyError")
  | Some (JObj result) =>
      match dict_get field result with
      | None => Raise (Failed "KeyError")
      | Some v => Ok (py_str v)
      end
  | Some _ => Raise (Failed "TypeError")
  end.

(** [receipt.get("observed", {}).get("imageDigest")] *)
Definition receipt_image (receipt : dict) : outcome interruption json :=
  match dict_get "observed" receipt with
  | None => Ok JNull
  | Some (JObj observed) => Ok (key_json "imageDigest" observed)
  | Some _ => Raise (Failed "AttributeError")
  end.

(** [receipt["result"].get("exitStatus")] *)
Definition receipt_exit (receipt : dict) : json :=
  match key_json "result" receipt with JObj result => key_json "exitStatus" result | _ => JNull end.

(** One receipt of the status; it answers whether the workload has ended. *)
Definition see_status (receipt : dict) : watching bool :=
  let* state := lift (result_text "state" receipt) in
  modify (set_state state) >>*
  let* image := lift (receipt_image receipt) in
  modify (see_image image) >>*
  if mem state TERMINAL_WORKLOAD_STATES then modify (set_exit (receipt_exit receipt)) >>* ret true else ret false.

Fixpoint watch_status (ticket : RunTicket) (polls : list poll) : watching unit :=
  match polls with
  | [] => raise StillRunning
  | p :: rest =>
      modify (act_all ticket (before_poll p)) >>*
      let* receipt := lift (answered (status_reply p)) in
      let* ended := see_status receipt in
      if ended then ret tt
      else modify (if past_deadline p then default_reason "timed_out" else id) >>* watch_status ticket rest
  end.

Definition read_logs (ticket : RunTicket) (sc : script) : watching unit :=
  modify (act_all ticket (before_logs sc)) >>*
  let* receipt := lift (answered (logs_reply sc)) in
  let* text := lift (result_text "output" receipt) in
  modify (set_output text).

Definition run_workload (ticket : RunTicket) (sc : script) : watching unit :=
  create_workload ticket sc >>* start_workload ticket sc >>* watch_status ticket (polls sc) >>* read_logs ticket sc.

(** ** Cleaning up *)

Inductive command := CancelWorkload | RemoveWorkload.

Definition unknown_workload (r : reply) : bool :=
  match r with Raise (Refusal m) => bool_decide (m = "unknown-workload") | _ => false end.

(** [_cleanup_workload]: the commands it sends; [None] if the answers do not end it. *)
Fixpoint cleanup_workload (cancellation_required : bool) (answers : list (reply * reply)) : option (list command) :=
  match answers with
  | [] => None
  | (cancelled, removed) :: rest =>
      if cancellation_required && unknown_workload cancelled then Some [CancelWorkload]
      else
        let sent := if cancellation_required then [CancelWorkload; RemoveWorkload] else [RemoveWorkload] in
        let still := cancellation_required &&
                     negb match cancelled with Ok receipt => is_terminal (receipt_state receipt) | Raise _ => false end in
        match removed with
        | Ok _ => Some sent
        | Raise _ => if unknown_workload removed then Some sent else app sent <$> cleanup_workload still rest
        end
  end.

(** The observation of a run with its explanation when it is incomplete; [None] if the
    script ends first. *)
Definition observe (ticket : RunTicket) (sc : script) (n : node) : option (watch * option string) :=
  match run_workload ticket sc (new_watch n) with
  | (_, Raise StillRunning) => None
  | (w, r) =>
      let observation := match r with Raise (Failed name) => Some ("observation-incomplete:" +:+ name) | _ => None end in
      let cancellation_required := bool_decide (is_Some (reason w)) || negb (mem (w_state w) TERMINAL_WORKLOAD_STATES) in
      if create_cleanup_required w && negb (bool_decide (is_Some (cleanup_workload cancellation_required (removals sc)))) then None
      else Some (act_all ticket (before_stop sc) w, observation)
  end.

(** ** Settling *)

(** One engine with the process it runs in. *)
Record engine := {
  at_node : node;
  completion : gate;
  evidence : service;
  providers : ProviderBindingManager;
}.

Inductive engine_error :=
| RunEngineError (message : string)
| LifecycleFault (e : lifecycle_error)
| GateFault (e : lease_error)
| BindingFault (e : binding_error)
| EngineTypeError.

Abbreviation engine_call := (M engine engine_error).

Definition with_node (n : node) (s : engine) : engine :=
  {| at_node := n; completion := completion s; evidence := evidence s; providers := providers s |}.
Definition with_gate (g : gate) (s : engine) : engine :=
  {| at_node := at_node s; completion := g; evidence := evidence s; providers := providers s |}.
Definition with_evidence (v : service) (s : engine) : engine :=
  {| at_node := at_node s; completion := completion s; evidence := v; providers := providers s |}.

(** A call of the lifecycle or of the gate inside [try]: its exception is a value. *)
Definition try_lifecycle {A} (m : call A) : engine_call (outcome lifecycle_error A) :=
  fun s => let '(n, r) := m (at_node s) in (with_node n s, Ok r).
Definition try_gate {A} (m : M gate lease_error A) : engine_call (outcome lease_error A) :=
  fun s => let '(g, r) := m (completion s) in (with_gate g s, Ok r).

Definition from_service {A} (m : M service binding_error A) : engine_call A :=
  fun s => match m (evidence s) with
           | (v, Ok a) => (with_evidence v s, Ok a)
           | (v, Raise e) => (with_evidence v s, Raise (BindingFault e))
           end.

Definition bound_or_raise {A} (o : bound A) : outcome engine_error A :=
  match o with Ok a => Ok a | Raise e => Raise (BindingFault e) end.

Record RunOutcome := {
  run_evidence : dict;
  run_outcome : json;
  run_refused : bool;
  run_cancelled : bool;
}.

(** The certified outcome before the image and the provider are looked at *)
Definition verdict (w : watch) (observation : option string) (revoked : bool) : string :=
  if bool_decide (reason w = Some "revoked") || (revoked && bool_decide (w_state w = "cancelled")) then "cancelled"
  else if revoked then "refused"
  else if bool_decide (is_Some observation) || bool_decide (reason w = Some "timed_out") || bool_decide (reason w = Some "lease-expired")
          || negb (bool_decide (w_state w = "exited")) then "failed"
  else if py_eqb (exit_status w) (JInt 0) then "completed" else "failed".

Definition image_verdict (image : string) (w : watch) (o : string * option string) : string * option string :=
  if bool_decide (o.1 = "completed") && differs (observed_image w) image
  then ("failed", Some (if bool_decide (observed_image w = JNull) then "observed-image-missing"
                        else "observed-image-identity-mismatch"))
  else o.

Definition provider_verdict (was_used : bool) (o : string * option string) : string * option string :=
  if bool_decide (o.1 = "completed") && negb was_used then ("refused", Some "provider-effect-unobserved") else o.

Definition exit_reason (w : watch) (o : string * option string) : string :=
  if bool_decide (o.1 = "completed") then "ok"
  else match o.2, reason w with
       | Some observation, _ => observation
       | None, Some r => r
       | None, None => o.1
       end.

Definition output_digest (w : watch) : string := "sha256:" +:+ sha256_hex (encode (output_text w)).

Definition real_process (image workload_id executor : string) (duration : Z) (w : watch) : dict :=
  [("executor", JStr executor); ("pid", JNull); ("containerWorkloadId", JStr workload_id);
   ("exitCode", if bool_decide (exit_status w = JNull) then JInt (-1) else exit_status w);
   ("durationSeconds", JInt duration); ("digestOfOutput", JStr (output_digest w))] ++
  if differs (observed_image w) image then [] else [("observedImageDigest", observed_image w)].

(** Ending the lease of a run *)
Definition end_run (ticket : RunTicket) (w : watch) (revoked : bool) : call RunTicket :=
  if bool_decide (reason w = Some "revoked") || revoked then revoke_run ticket
  else if bool_decide (is_Some (reason w)) then cancel_run ticket
  else release_run ticket.

(** The lease as its claim file has it now; an unreadable claim leaves the ticket's own. *)
Definition terminal_lease (ticket : RunTicket) (o : string * option string) : engine_call (dict * (string * option string)) :=
  let* r := try_lifecycle (read_lease ticket) in
  match r with
  | Ok lease => ret (lease, o)
  | Raise TypeFault => raise EngineTypeError
  | Raise _ => ret (ticket_lease ticket, ("refused", o.2))
  end.

Definition complete_once (lease_id : string) (lease : dict) (o : string * option string) : engine_call (string * option string) :=
  let* r := try_gate (complete lease o.1) in
  match r with
  | Raise _ => ret ("refused", o.2)
  | Ok _ => let* s := get in ret (default o.1 (finished_outcome lease_id (completion s)), o.2)
  end.

Section settle.
Context (image executor workload_id config : string) (ticket : RunTicket).

Definition lease_id : string := lease_id_of (ticket_lease ticket).

(** [finish_evidence] of the decided run *)
Definition finish_of (w : watch) (sc : script) (revoked : bool) (o : string * option string) : finish :=
  {| f_run := run_id ticket; f_workspace := workspace_id ticket; f_executor := executor; f_image := image;
     f_lease := lease_id; f_started := started_at ticket; f_ended := utc_text (ended_at sc); f_outcome := o.1;
     f_reason := exit_reason w o; f_output := output_digest w; f_config := Some config;
     f_revoked := revoked && negb (bool_decide (o.1 = "cancelled")); f_use_required := true;
     f_process := if workload_created w then Some (JObj (real_process image workload_id executor (duration sc) w)) else None |}.

Definition settle (sc : script) (w : watch) (observation : option string) : engine_call RunOutcome :=
  let* s := get in
  let revoked := match is_revoked (authority (self (at_node s))) (ticket_grant ticket) with Ok b => b | Raise _ => true end in
  let first := verdict w observation revoked in
  (if bool_decide (first = "cancelled") then try_gate (certify_cancelled lease_id) >>* ret tt else ret tt) >>*
  let o := image_verdict image w (first, observation) in
  let* o := if bool_decide (o.1 = "completed")
            then let* was_used := lift (bound_or_raise (provider_used (evidence s) (run_id ticket) config)) in
                 ret (provider_verdict was_used o)
            else ret o in
  let* ended := try_lifecycle (end_run ticket w revoked) in
  let o := match ended with Ok _ => o | Raise _ => ("refused", Some "lease-release-failed") end in
  let* '(lease, o) := terminal_lease ticket o in
  let* o := complete_once lease_id lease o in
  let* document := from_service (finish_evidence (finish_of w sc revoked o)) in
  let final := key_json "outcome" document in
  ret {| run_evidence := document; run_outcome := final; run_refused := py_eqb final (JStr "refused");
         run_cancelled := py_eqb final (JStr "cancelled") |}.
End settle.

(** ** One run *)

Definition EXECUTOR_KIND : string := "execution-host-agent-container".

(** [s.endswith(p)] *)
Definition ends_with (p s : string) : bool :=
  (String.length p <=? String.length s)
  && bool_decide (String.substring (String.length s - String.length p) (String.length p) s = p).

Definition int_of (v : json) : Z := match v with JInt z => z | _ => 0 end.

(** [max(1, min(int(budgets.get("timeSeconds", 0)) or 900, 86400))] *)
Definition timeout_of (budgets : dict) : Z :=
  let t := int_of (key_json "timeSeconds" budgets) in
  Z.max 1 (Z.min (if (t =? 0)%Z then 900 else t) 86400).

(** [spec_data[field]] of a validated specification: a string, or a mapping *)
Definition text_field (field : string) (spec : dict) : string := py_str (key_json field spec).
Definition dict_field (field : string) (spec : dict) : dict := match key_json field spec with JObj d => d | _ => [] end.

Definition workload_of (spec : dict) (claimed_image : string) (output_byte_bound : Z) : dict :=
  [("kind", JStr "agent-run"); ("workloadId", JStr ("run-" +:+ text_field "runId" spec));
   ("image", JObj [("reference", JStr claimed_image)]);
   ("parameters", JObj [("runSpecDigest", JStr (canonical_digest (JObj spec)));
                        ("statePackReference", key_json "stagingPath" spec);
                        ("baseRevision", key_json "baseRevision" spec)]);
   ("timeoutSeconds", JInt (timeout_of (dict_field "budgets" spec)));
   ("outputByteBound", JInt output_byte_bound); ("resources", key_json "resources" spec)].

(** [_validated_lowering] *)
Definition validated_lowering (workload : dict) : outcome engine_error unit :=
  match validate_workload_spec (JObj workload) with
  | Raise (Invalid m) => Raise (RunEngineError ("lowered agent-run workload is invalid: " +:+ m))
  | Raise Unhashable => Raise EngineTypeError
  | Ok normalized =>
      refuse_if (negb (py_eqb (JObj (resources_dict (w_resources normalized))) (key_json "resources" workload)))
        (RunEngineError "lowered agent-run workload did not retain every requested resource ceiling")
  end.

(** The arguments of [run]: whether the client is typed and the poll interval positive, and
    its clock and the token that the lease is named by. *)
Record arguments := {
  specification : dict;
  client_typed : bool;
  claimed_image_ : string;
  host_ : string;
  config_ : string;
  output_byte_bound : Z;
  clock : option Z;
  poll_interval_positive : bool;
  lease_token : string;
}.

Definition binding_message (e : binding_error) : string :=
  match e with
  | ProviderBindError m | ProviderSecretUnavailable m => m
  | EvidenceRefused (Invalid m) => m
  | EvidenceRefused Unhashable => ""
  end.

(** The checks before anything is changed: the specification, the image, the client, the
    host, the owner's provider configuration, the network and the lowered workload. *)
Definition admit_run (a : arguments) (s : engine) : outcome engine_error dict :=
  let? spec := match from_dict AgentRunSpecification (JObj (specification a)) with
               | Ok d => Ok d
               | Raise (Invalid m) => Raise (RunEngineError ("agent run specification is invalid: " +:+ m))
               | Raise Unhashable => Raise EngineTypeError
               end in
  refuse_if (negb (ends_with ("@" +:+ text_field "imageDigest" spec) (claimed_image_ a)))
    (RunEngineError "claimed image reference does not resolve to the specification image digest") >>?
  refuse_if (negb (poll_interval_positive a)) (RunEngineError "status_poll_seconds must be positive") >>?
  refuse_if (negb (client_typed a)) (RunEngineError "run requires the concrete typed ExecutionHostClient boundary") >>?
  refuse_if (negb (bool_decide (host_ a = RunAuthority.host (authority (self (at_node s))))))
    (RunEngineError "run host does not match the owner authority host") >>?
  let? ref := match ProviderBindings.config (providers s) (config_ a) with
              | Ok ref => Ok ref
              | Raise e => Raise (RunEngineError (binding_message e))
              end in
  refuse_if (negb (py_eqb (key_json "provider" spec) (JStr (provider ref)) && py_eqb (key_json "model" spec) (JStr (model ref))))
    (RunEngineError "agent run provider/model does not match the owner provider configuration") >>?
  refuse_if (py_eqb (key_json "mode" (dict_field "networkProfile" spec)) (JStr "model-gateway-only"))
    (RunEngineError "requested provider route cannot execute: no configured model gateway is exposed to the workload") >>?
  validated_lowering (workload_of spec (claimed_image_ a) (output_byte_bound a)) >>?
  Ok spec.

(** What [begin_run] is asked for *)
Definition run_request (spec : dict) : json :=
  JObj [("runId", key_json "runId" spec); ("workspaceId", key_json "workspaceId" spec);
        ("imageDigest", key_json "imageDigest" spec); ("authorityGrantDigest", key_json "authorityGrantDigest" spec)].

Definition begin (leases_dir : string) (a : arguments) (spec : dict) : engine_call RunTicket :=
  let* r := try_lifecycle (begin_run leases_dir (run_request spec) EXECUTOR_KIND (claimed_image_ a) (host_ a) (clock a) (lease_token a)) in
  match r with
  | Ok ticket => ret ticket
  | Raise (RunRefused m) => raise (RunEngineError m)
  | Raise e => raise (LifecycleFault e)
  end.

(** [RunEngine.run]; [None] when the script ends before the run does. *)
Definition run (leases_dir : string) (a : arguments) (sc : script) (s : engine) : option (engine * outcome engine_error RunOutcome) :=
  match admit_run a s with
  | Raise e => Some (s, Raise e)
  | Ok spec =>
      match begin leases_dir a spec s with
      | (s1, Raise e) => Some (s1, Raise e)
      | (s1, Ok ticket) =>
          match observe ticket sc (at_node s1) with
          | None => None
          | Some (w, observation) =>
              Some (settle (text_field "imageDigest" spec) EXECUTOR_KIND ("run-" +:+ text_field "runId" spec) (config_ a) ticket
                      sc w observation (with_node (w_node w) s1))
          end
      end
  end.

(** ** What is observed *)

Definition reasons_ok (w : watch) : Prop := forall r, reason w = Some r -> r ∈ ["revoked"; "lease-expired"; "timed_out"].

(** Neither the monitor nor anybody else touches what the polls reported; a reason stays. *)
Record unseen (w w' : watch) : Prop := {
  same_state : w_state w' = w_state w;
  same_exit : exit_status w' = exit_status w;
  same_image : observed_image w' = observed_image w;
  same_created : workload_created w' = workload_created w;
  kept_reason : is_Some (reason w) -> reason w' = reason w;
  known_reason : reasons_ok w -> reasons_ok w';
}.

#[export] Instance unseen_preorder : PreOrder unseen.
Proof.
  split; [by intros w; split|]. intros w1 w2 w3 [] []. split; [congruence..| |auto].
  intros H. specialize (kept_reason0 H). rewrite <-kept_reason0 in *. auto.
Qed.

Lemma unseen_node n w : unseen w (set_node n w).
Proof. by split. Qed.

Lemma unseen_default r w : r ∈ ["revoked"; "lease-expired"; "timed_out"] -> unseen w (default_reason r w).
Proof.
  intros Hr. split; [done..| |].
  - intros [x Hx]. cbn. by rewrite Hx.
  - intros H x. cbn. unfold reasons_ok in H. destruct (reason w); intros [= <-]; [by apply H|done].
Qed.

Lemma withdrawal_known t now n n' r : withdrawal_reason t now n = (n', Some r) -> r ∈ ["revoked"; "lease-expired"; "timed_out"].
Proof.
  unfold withdrawal_reason. destruct (RunLifecycle.assert_live t (Some now) n) as [n1 [t'|[]]];
    intros [= <- <-]; try destruct (has_sub _ _); set_solver.
Qed.

Lemma unseen_look t now w : unseen w (fst (look t now w)).
Proof.
  unfold look. destruct (reason w); [done|]. destruct (withdrawal_reason t now (w_node w)) as [n [r|]] eqn:E; cbn [fst].
  - etrans; [apply unseen_node|]. eapply unseen_default, withdrawal_known, E.
  - apply unseen_node.
Qed.

Lemma unseen_monitoring b w : unseen w (set_monitoring b w).
Proof. by split. Qed.

Lemma unseen_act t w a : unseen w (act t w a).
Proof.
  destruct a as [f|now c s]; cbn [act]; [apply unseen_node|]. unfold monitor_pass. destruct (negb _); [done|].
  pose proof (unseen_look t now w) as H. destruct (look t now w) as [w' [r|]]; cbn [fst] in H; [|done].
  cbv zeta. destruct (is_terminal _); [|done]. etrans; [exact H|apply unseen_monitoring].
Qed.

Lemma unseen_act_all t l : forall w, unseen w (act_all t l w).
Proof. induction l as [|a l IH]; intros w; [done|]. cbn. etrans; [apply unseen_act|apply IH]. Qed.

(** Where what the run has seen comes from: a status receipt of the polls [ps] *)
Definition came_from (ps : list poll) (w w' : watch) : Prop :=
  observed_image w' = observed_image w \/
  exists p receipt, p ∈ ps /\ status_reply p = Ok receipt /\ receipt_image receipt = Ok (observed_image w').

Definition is_late (p : poll) : Prop := past_deadline p = true.

Record watched (ps : list poll) (w w' : watch) : Prop := {
  ending : exists before p after receipt, ps = before ++ p :: after /\ status_reply p = Ok receipt /\
    result_text "state" receipt = Ok (w_state w') /\ exit_status w' = receipt_exit receipt /\
    (is_Some (reason w) \/ Exists is_late before -> is_Some (reason w'));
  image_origin : came_from ps w w';
  created_as_before : workload_created w' = workload_created w;
  reasons_known : reasons_ok w -> reasons_ok w';
}.

Lemma unseen_some w w' : unseen w w' -> is_Some (reason w) -> is_Some (reason w').
Proof. intros H Hr. by rewrite (kept_reason _ _ H Hr). Qed.

Lemma wp_see_status receipt w :
  wp (see_status receipt)
    (fun ended w' => result_text "state" receipt = Ok (w_state w') /\ (ended = true -> exit_status w' = receipt_exit receipt) /\
       (observed_image w' = observed_image w \/ receipt_image receipt = Ok (observed_image w')) /\
       workload_created w' = workload_created w /\ reason w' = reason w)
    (fun _ _ => True) w.
Proof.
  unfold see_status. wp_step. wp_step; [|done]. wp_step. wp_step. wp_step. wp_step; [|done]. wp_step. wp_step.
  assert (Hi : forall w1, observed_image w1 = observed_image w -> observed_image (see_image a0 w1) = observed_image w \/
                receipt_image receipt = Ok (observed_image (see_image a0 w1))).
  { intros w1 E. cbn. rewrite E. destruct (truthy a0); auto. }
  wp_step.
  - wp_step. wp_step. wp_step. split; [done|]. split; [done|]. split; [|done]. by apply Hi.
  - wp_step. split; [done|]. split; [done|]. split; [|done]. by apply Hi.
Qed.

Lemma answered_Ok r a : answered r = Ok a -> r = Ok a.
Proof. destruct r; [by intros [= <-]|done]. Qed.

Lemma wp_watch_status t ps : forall w, wp (watch_status t ps) (fun _ w' => watched ps w w') (fun _ _ => True) w.
Proof.
  induction ps as [|p ps IH]; intros w; [done|]. cbn [watch_status]. wp_step. wp_step. wp_step. wp_step; [|done].
  set (w1 := act_all t (before_poll p) w). pose proof (unseen_act_all t (before_poll p) w : unseen w w1) as H1.
  assert (Hp : status_reply p = Ok a) by by apply answered_Ok.
  wp_step. eapply wp_mono; [apply wp_see_status| |done]. intros [|] w2 (Hs & He & Hi & Hc & Hr).
  - wp_step. split.
    + exists [], p, ps, a. do 4 (split; [auto|]). rewrite Exists_nil. intros [?|[]]. rewrite Hr. by eapply unseen_some.
    + destruct Hi as [Hi|Hi]; [left; by rewrite Hi, (same_image _ _ H1)|right].
      exists p, a. split; [by left|done].
    + by rewrite Hc, (same_created _ _ H1).
    + intros Hk r Hr'. rewrite Hr in Hr'. by apply (known_reason _ _ H1).
  - wp_step. wp_step. set (w3 := _ w2). 
    assert (H3 : unseen w2 w3).
    { unfold w3. destruct (past_deadline p); [apply unseen_default; set_solver|done]. }
    eapply wp_mono; [apply IH| |done]. intros u w4 [(before & q & after & receipt & -> & Hq & Hqs & Hqe & Hl) Hio Hca Hk]. split.
    + exists (p :: before), q, after, receipt. do 4 (split; [done|]).
      assert (H23 : is_Some (reason w2) -> is_Some (reason w3)) by by apply unseen_some.
      rewrite Exists_cons. intros [?|[Hp'|Hb]]; apply Hl; [left|left|by right].
      * apply H23. rewrite Hr. by eapply unseen_some.
      * unfold w3. rewrite Hp'. cbn. eauto.
    + destruct Hio as [Hio|(p' & r' & Hp' & Hr')]; [|right; exists p', r'; split; [by right|done]].
      unfold came_from. rewrite Hio, (same_image _ _ H3). destruct Hi as [Hi|Hi]; [left; by rewrite Hi, (same_image _ _ H1)|right].
      exists p, a. split; [by left|by rewrite Hi].
    + by rewrite Hca, (same_created _ _ H3), Hc, (same_created _ _ H1).
    + intros Hk'. apply Hk, (known_reason _ _ H3). intros r Hr'. rewrite Hr in Hr'. by apply (known_reason _ _ H1).
Qed.

(** What a run has seen when nothing cut its observation short. *)
Record observed (sc : script) (w : watch) : Prop := {
  last_poll : exists before p after receipt, polls sc = before ++ p :: after /\ status_reply p = Ok receipt /\
    result_text "state" receipt = Ok (w_state w) /\ exit_status w = receipt_exit receipt /\
    (Exists is_late before -> is_Some (reason w));
  image_reported : observed_image w = JNull \/
    exists p receipt, p ∈ polls sc /\ status_reply p = Ok receipt /\ receipt_image receipt = Ok (observed_image w);
  was_created : workload_created w = true;
  reason_known : reasons_ok w;
}.

(** Before the first poll: nothing is seen but the creation. *)
Definition fresh (created : bool) (w : watch) : Prop :=
  observed_image w = JNull /\ workload_created w = created /\ reasons_ok w.

Lemma fresh_unseen b w w' : fresh b w -> unseen w w' -> fresh b w'.
Proof. intros (Hi & Hc & Hr) []. split; [congruence|]. split; [congruence|auto]. Qed.

Lemma wp_on_watch {A} (m : call A) b w : fresh b w -> wp (on_watch m) (fun _ => fresh b) (fun _ _ => True) w.
Proof. intros H. unfold wp, on_watch. destruct (m (w_node w)) as [n [a|e]]; [|done]. by eapply fresh_unseen, unseen_node. Qed.

Lemma wp_live_effect {A} t now (effect : watching A) b w : fresh b w ->
  (forall w, fresh b w -> wp effect (fun _ => fresh b) (fun _ _ => True) w) ->
  wp (live_effect t now effect) (fun _ => fresh b) (fun _ _ => True) w.
Proof.
  intros H He. unfold live_effect. apply wp_bind. eapply wp_mono; [by apply (wp_on_watch _ b)| |done]. intros ? w1 H1.
  unfold wp, RunAuthority.perform_if_live, checked_live, run_effect, bind, get.
  destruct (RunAuthority.assert_live (authority_seen w1) _ _ _) as [g|[m]]; cbn; [|done].
  specialize (He w1 H1). unfold wp in He. destruct (effect w1) as [w2 [x|x]]; cbn; [|done].
  by destruct (RunAuthority.assert_live (authority_seen w2) _ _ _) as [g'|[m]].
Qed.

Lemma wp_create t sc w : fresh false w -> wp (create_workload t sc) (fun _ => fresh true) (fun _ _ => True) w.
Proof.
  intros H. unfold create_workload. wp_step. eapply wp_mono; [apply (wp_live_effect _ _ _ false); [done|]| |done].
  - intros w1 (H1 & H2 & H3). unfold create_effect. repeat wp_step; done.
  - intros ? w1 (H1 & H2 & H3). repeat wp_step. done.
Qed.

Lemma wp_start t sc w : fresh true w -> wp (start_workload t sc) (fun _ => fresh true) (fun _ _ => True) w.
Proof.
  intros H. unfold start_workload. do 4 wp_step; [done|]. do 2 wp_step. set (w1 := act_all _ _ _).
  assert (H1 : fresh true w1) by by eapply fresh_unseen, unseen_act_all.
  pose proof (unseen_look t (start_look sc) w1) as Hl. destruct (look t (start_look sc) w1) as [w2 r]. cbn [fst] in Hl.
  do 2 wp_step. wp_step. wp_step; [done|]. wp_step. eapply wp_mono; [apply (wp_live_effect _ _ _ true)| |done].
  - by eapply fresh_unseen.
  - intros w3 Hw3. unfold client_call. wp_step. wp_step. wp_step; [|done]. by eapply fresh_unseen, unseen_node.
  - intros ? w3 Hw3. by wp_step.
Qed.

Lemma unseen_observed sc w w' : observed sc w -> unseen w w' -> observed sc w'.
Proof.
  intros [(before & p & after & receipt & Hp & Hr & Hs & He & Hl) Hi Hc Hk] H. pose proof H as [E1 E2 E3 E4 _ _]. split.
  - exists before, p, after, receipt. do 2 (split; [done|]). split; [by rewrite E1|]. split; [by rewrite E2|].
    intros Hb. eapply unseen_some; [exact H|auto].
  - by rewrite E3.
  - by rewrite E4.
  - by apply (known_reason _ _ H).
Qed.

Lemma wp_run_workload t sc n : wp (run_workload t sc) (fun _ => observed sc) (fun _ _ => True) (new_watch n).
Proof.
  unfold run_workload. wp_step. eapply wp_mono; [by apply wp_create| |done]. intros ? w1 H1.
  wp_step. eapply wp_mono; [by apply wp_start| |done]. intros ? w2 (Hi2 & Hc2 & Hr2).
  wp_step. eapply wp_mono; [apply wp_watch_status| |done].
  intros ? w3 [(before & p & after & receipt & Hp & Hr & Hs & He & Hl) Hio Hc Hk].
  assert (H3 : observed sc w3).
  { split; [exists before, p, after, receipt; auto 10| |congruence|auto]. destruct Hio as [Hio|Hio]; [left; congruence|by right]. }
  unfold read_logs. wp_step. wp_step. wp_step. wp_step; [|done]. wp_step. wp_step; [|done]. wp_step.
  apply (unseen_observed sc (act_all t (before_logs sc) w3)); [by eapply unseen_observed, unseen_act_all|by split].
Qed.

Lemma observe_observed t sc n w : observe t sc n = Some (w, None) -> observed sc w.
Proof.
  unfold observe. pose proof (wp_run_workload t sc n) as W. unfold wp in W.
  destruct (run_workload t sc (new_watch n)) as [w1 [u|[name|]]]; [| |done]; cbv zeta; destruct (_ && _); try done;
    intros [= <-]. by eapply unseen_observed, unseen_act_all.
Qed.

(** ** How a run is settled *)

Lemma verdict_completed w observation revoked_ : verdict w observation revoked_ = "completed" ->
  revoked_ = false /\ observation = None /\ w_state w = "exited" /\ py_eqb (exit_status w) (JInt 0) = true /\
  (reasons_ok w -> reason w = None).
Proof.
  unfold verdict. destruct revoked_; cbn [andb].
  { case_bool_decide; [done|]. by destruct (_ || _). }
  rewrite orb_false_r. case_bool_decide as Hr; [done|]. destruct (_ || _) eqn:E; [done|]. destruct (py_eqb _ _); [|done]. intros _.
  split_bool. split; [done|]. split; [by apply eq_None_not_Some|]. split; [done|]. split; [done|].
  intros Hk. destruct (reason w) as [r|] eqn:Er; [|done]. specialize (Hk r Er). set_solver.
Qed.

(** The owner's authority is not the run's to change. *)
Definition keeps_authority {A} (m : call A) : Prop := forall n, authority (self (fst (m n))) = authority (self n).

Lemma authority_bind {A B} (m : call A) (k : A -> call B) : keeps_authority m -> (forall a, keeps_authority (k a)) -> keeps_authority (bind m k).
Proof.
  intros Hm Hk n. specialize (Hm n). unfold bind. destruct (m n) as [n1 [a|e]]; [|done]. cbn in Hm. by rewrite Hk.
Qed.

Lemma authority_lift {A} (o : outcome lifecycle_error A) : keeps_authority (lift o).
Proof. done. Qed.
Lemma authority_ret {A} (a : A) : keeps_authority (ret a).
Proof. done. Qed.
Lemma authority_get : keeps_authority get.
Proof. done. Qed.

Lemma authority_fault : keeps_authority next_fault.
Proof. intros n. unfold next_fault, bind, get. by destruct (faults (disk n)). Qed.

Lemma keeps_persist d : keeps_authority (persist_lease d).
Proof. apply authority_bind; [apply authority_fault|]. by intros [[]|] n. Qed.

Lemma authority_release t : keeps_authority (release_workspace_lock t).
Proof.
  intros n. unfold release_workspace_lock, release_workspace_lock_path, bind, get. destruct (_ !! _); [|done].
  by destruct (release_file _ _).
Qed.

Lemma authority_end t d : keeps_authority (end_with t d).
Proof.
  intros n. unfold end_with, try_finally. pose proof (keeps_persist d n) as H1. destruct (persist_lease d n) as [n1 r].
  pose proof (authority_release t n1) as H2. destruct (release_workspace_lock t n1) as [n2 [u|e]]; cbn in *; congruence.
Qed.

Lemma keeps_read path : keeps_authority (read_claim path).
Proof.
  apply authority_bind; [apply authority_get|]. intros n. destruct (claims (disk n) !! path); [|done].
  apply authority_bind; [apply authority_fault|]. by intros [f|].
Qed.

Lemma keeps_end_run t w b : keeps_authority (end_run t w b).
Proof.
  unfold end_run, revoke_run, cancel_run, release_run, read_lease. pose proof (keeps_read (claim_path t)) as Hr.
  assert (He : forall d, keeps_authority (end_with t d >>* ret t)) by (intros d; apply authority_bind; [apply authority_end|intros; apply authority_ret]).
  destruct (_ || _); [|destruct (bool_decide _)].
  all: apply authority_bind; [exact Hr|]; intros lease; try (apply authority_bind; [apply authority_lift|exact He]).
  destruct (in_tuple _ _); [|apply authority_bind; [apply authority_lift|exact He]].
  apply authority_bind; [apply authority_release|intros; apply authority_ret].
Qed.

(** What settling a run leaves of the engine *)
Definition same_owner (s s' : engine) : Prop :=
  authority (self (at_node s')) = authority (self (at_node s)) /\ evidence s' = evidence s /\ finished (completion s') = finished (completion s).

#[export] Instance same_owner_preorder : PreOrder same_owner.
Proof. split; [by intros s; repeat split|]. intros s1 s2 s3 (?&?&?) (?&?&?). repeat split; congruence. Qed.

Lemma try_lifecycle_owner {A} (m : call A) s s' r : keeps_authority m -> try_lifecycle m s = (s', Ok r) ->
  same_owner s s' /\ m (at_node s) = (at_node s', r).
Proof.
  intros Hm. unfold try_lifecycle. specialize (Hm (at_node s)). destruct (m (at_node s)) as [n x]. intros [= <- <-]. by repeat split.
Qed.

Lemma terminal_lease_completed t o s s' lease o' : terminal_lease t o s = (s', Ok (lease, o')) ->
  same_owner s s' /\ (o'.1 = "completed" -> o' = o /\ lease_at (claim_path t) lease (at_node s')).
Proof.
  unfold terminal_lease. intros H. apply bind_Ok in H as (s1 & r & Hr & H).
  apply try_lifecycle_owner in Hr as [Hs Hr]; [|apply keeps_read].
  destruct r as [d|e].
  - injection H as <- <- <-. split; [done|]. intros _. split; [done|]. pose proof (wp_read_claim (claim_path t) (at_node s)) as W.
    unfold wp, read_lease in *. rewrite Hr in W. destruct W as [[_ [fs Hf]] (v & Hv & Hd)]. exists v. split; [|done].
    by rewrite Hf.
  - destruct e; try discriminate H; by (injection H as <- <- <-).
Qed.

Lemma complete_once_completed id lease o s s' o' : complete_once id lease o s = (s', Ok o') ->
  finished (completion s) !! id = None -> o'.1 = "completed" ->
  o.1 = "completed" /\ at_node s' = at_node s /\ evidence s' = evidence s /\ is_held lease = false /\
  (lease_id_of lease = id -> finished (completion s') !! id = Some "completed").
Proof.
  unfold complete_once, try_gate. intros H Hf Ho. apply bind_Ok in H as (s1 & r & Hr & H).
  pose proof (wp_complete lease o.1 (completion s)) as W. unfold wp in W.
  destruct (complete lease o.1 (completion s)) as [g [b|e]]; injection Hr as <- <-; [|injection H as <- <-; discriminate Ho].
  destruct W as (_ & Hh & _ & ->). unfold bind, get, ret in H. injection H as <- <-. cbn in Ho |- *.
  unfold finished_outcome in Ho. cbn in Ho. destruct (decide (lease_id_of lease = id)) as [E|E].
  - rewrite E, lookup_insert_eq in *. cbn in Ho. unfold recorded in *. destruct (_ && _); [discriminate Ho|]. by rewrite Ho.
  - rewrite lookup_insert_ne, Hf in Ho by done. cbn in Ho. do 4 (split; [done|]). intros ?. done.
Qed.

Section settled_run.
Context (image executor workload_id config : string) (ticket : RunTicket) (sc : script) (w : watch).
Abbreviation id := (lease_id ticket).

(** What a completed run says of itself *)
Record certified (s s' : engine) (out : RunOutcome) : Prop := {
  image_seen : observed_image w = JStr image;
  provider_seen : (run_id ticket, config) ∈ used (evidence s);
  not_revoked : is_revoked (authority (self (at_node s'))) (ticket_grant ticket) = Ok false;
  evidence_final : run_id ticket ∈ finalized (evidence s');
  lease_ended : exists lease, lease_at (claim_path ticket) lease (at_node s') /\ is_held lease = false /\
    (lease_id_of lease = id -> finished (completion s') !! id = Some "completed");
  image_recorded : key_json "imageDigest" (run_evidence out) = JStr image;
  process_recorded : workload_created w = true -> exists d, key_json "executedProcess" (run_evidence out) = JObj d /\
    key_json "observedImageDigest" d = JStr image /\ key_json "containerWorkloadId" d = JStr workload_id /\
    (py_eqb (exit_status w) (JInt 0) = true -> key_json "exitCode" d = JInt 0);
}.

Lemma py_eqb_zero z : py_eqb (JInt z) (JInt 0) = true -> z = 0%Z.
Proof. unfold py_eqb, py_eq. rewrite bool_decide_eq_true. cbn. by intros [= ->]. Qed.

Lemma wp_finish_completed revoked_ o s s' document :
  from_service (finish_evidence (finish_of image executor workload_id config ticket w sc revoked_ o)) s = (s', Ok document) ->
  key_json "outcome" document = JStr "completed" ->
  at_node s' = at_node s /\ completion s' = completion s /\ run_id ticket ∈ finalized (evidence s') /\
  o.1 = "completed" /\ revoked_ = false /\ (run_id ticket, config) ∈ used (evidence s) /\
  key_json "imageDigest" document = JStr image /\
  (workload_created w = true -> exists d, key_json "executedProcess" document = JObj d /\
    key_json "observedImageDigest" d = JStr image /\ key_json "containerWorkloadId" d = JStr workload_id /\
    (py_eqb (exit_status w) (JInt 0) = true -> key_json "exitCode" d = JInt 0)).
Proof.
  set (q := finish_of _ _ _ _ _ _ _ _ _). unfold from_service. pose proof (wp_finish_evidence q (evidence s)) as W. unfold wp in W.
  destruct (finish_evidence q (evidence s)) as [v [d|e]]; [|discriminate 1]. intros [= <- <-] Ho.
  destruct W as (_ & -> & process & Hp & ->%evidence_is_its_record). cbv zeta in Ho |- *.
  assert (Hc : (identified q process (honest q (used_by q (evidence s)))).1 = "completed").
  { set (x := identified _ _ _) in *. change (JStr x.1 = JStr "completed") in Ho. congruence. }
  destruct (honest_completed _ _ _ Hc) as (Hr & Hoc & Hu & Hd). cbn in Hoc, Hr, Hu. rewrite Hoc in Hr. cbn in Hr. rewrite andb_true_r in Hr.
  do 2 (split; [done|]). split; [cbn; set_solver|]. do 2 (split; [done|]). split.
  { specialize (Hu eq_refl). unfold used_by in Hu. cbn in Hu. by apply bool_decide_eq_true in Hu. }
  split; [done|]. intros Hcr. cbn in Hp. rewrite Hcr in Hp. apply obind_Ok in Hp as (p & Hn & [= <-]).
  exists p. split; [done|]. specialize (Hd p eq_refl). unfold differs in Hd. apply negb_false_iff, py_eqb_text in Hd.
  split; [exact Hd|]. destruct (normalized_fields _ _ Hn) as (He & [z Hz'] & Hci & _). split; [by rewrite Hci|].
  intros Hz. rewrite He. cbn in Hz' |- *. case_bool_decide as En; [by rewrite En in Hz|].
  rewrite Hz' in Hz |- *. by apply py_eqb_zero in Hz as ->.
Qed.

Lemma settle_completed observation s s' out :
  settle image executor workload_id config ticket sc w observation s = (s', Ok out) ->
  finished (completion s) !! id = None -> run_outcome out = JStr "completed" ->
  verdict w observation false = "completed" /\ certified s s' out.
Proof.
  unfold settle. intros H Hf Ho. apply bind_Ok in H as (? & s0 & [= <- <-] & H).
  set (rv := match is_revoked _ _ with Ok b => b | Raise _ => true end) in *.
  assert (Hrv : rv = false -> is_revoked (authority (self (at_node s))) (ticket_grant ticket) = Ok false).
  { unfold rv. destruct (is_revoked _ _); [by intros ->|done]. }
  cbv zeta in H. apply bind_Ok in H as (s1 & u1 & H1 & H).
  assert (O1 : same_owner s s1).
  { destruct (bool_decide _); [|by injection H1 as <- <-]. apply bind_Ok in H1 as (sx & ux & Hx & [= <- <-]).
    unfold try_gate in Hx. cbn in Hx. injection Hx as <- <-. by repeat split. }
  apply bind_Ok in H as (s2 & o2 & H2 & H).
  assert (O2 : s2 = s1 /\ (o2.1 = "completed" -> o2 = image_verdict image w (verdict w observation rv, observation) /\
                 (image_verdict image w (verdict w observation rv, observation)).1 = "completed")).
  { case_bool_decide as Hc; [|by injection H2 as <- <-]. apply bind_Ok in H2 as (sx & b & Hx & [= <- <-]).
    apply lift_Ok in Hx as [-> _]. split; [done|]. unfold provider_verdict. intros Hp. split; [|done].
    destruct (_ && _); [discriminate Hp|done]. }
  destruct O2 as [-> O2]. apply bind_Ok in H as (s3 & r3 & H3 & H).
  apply try_lifecycle_owner in H3 as [O3 _]; [|apply keeps_end_run].
  set (o3 := match r3 with Ok _ => o2 | Raise _ => _ end) in *.
  assert (H3o : o3.1 = "completed" -> o3 = o2) by (unfold o3; by destruct r3).
  apply bind_Ok in H as (s4 & [lease o4] & H4 & H). apply bind_Ok in H as (s5 & o5 & H5 & H).
  apply bind_Ok in H as (s6 & document & H6 & [= <- <-]). cbn [run_outcome] in Ho.
  apply wp_finish_completed in H6 as (Hn6 & Hg6 & Hfin & Hc5 & Hr & Hu & Hi & Hp); [|done].
  rewrite Hr in *. specialize (Hrv eq_refl).
  apply terminal_lease_completed in H4 as [O4 H4].
  assert (O14 : same_owner s s4) by (etrans; [exact O1|]; etrans; [exact O3|exact O4]). destruct O14 as (Ha & He & Hg).
  apply complete_once_completed in H5 as (Hc4 & Hn5 & He5 & Hh & Hrec); [|by rewrite Hg|done].
  destruct (H4 Hc4) as [-> Hl]. rewrite (H3o Hc4) in Hc4. destruct (O2 Hc4) as [_ Hv]. clear O2.
  unfold image_verdict in Hv. destruct (_ && _) eqn:Hd in Hv; [discriminate Hv|]. cbn in Hv. rewrite Hv in Hd.
  split; [exact Hv|]. split.
  - cbn in Hd. unfold differs in Hd. by apply negb_false_iff, py_eqb_text in Hd.
  - by rewrite <-He, <-He5.
  - by rewrite Hn6, Hn5, Ha.
  - done.
  - exists lease. rewrite Hn6, Hn5, Hg6. done.
  - done.
  - done.
Qed.
End settled_run.

(** ** How a run begins *)

Section begun.
Context (leases_dir : string).

Lemma claim_run_document ws claim fields n n' lease : claim_run leases_dir ws claim fields n = (n', Ok lease) -> fields = Ok lease.
Proof.
  unfold claim_run. destruct (claim_lease _ _ _ _ n) as [n1 [d|e]] eqn:E; [|by destruct (release_workspace_lock_path _ n1) as [? []]].
  intros [= _ ->]. unfold claim_lease in E. apply bind_Ok in E as (? & ? & _ & E). apply bind_Ok in E as (? & fs & [_ ->]%lift_Ok & E).
  apply bind_Ok in E as (? & d & [_ Hd%contract_result_Ok]%lift_Ok & E). apply bind_Ok in E as (? & ? & _ & [_ ->]%ret_Ok).
  apply lease_is_document in Hd. congruence.
Qed.

(** The ticket of a run that began: what it was asked for, under a grant for just that. *)
Record ticket_of (spec : dict) (kind image host_ token : string) (n : node) (t : RunTicket) : Prop := {
  asked_run : key_json "runId" spec = JStr (run_id t);
  asked_image : key_json "imageDigest" spec = JStr (image_digest t);
  asked_grant : key_json "authorityGrantDigest" spec = JStr (authority_grant_digest t);
  granted_by : exists g, ticket_grant t = grant_id g /\
    authorize (authority (self n)) kind image host_ (image_digest t) (authority_grant_digest t) = Ok g;
  its_claim : claim_path t = claim_path_of leases_dir ("lease." +:+ token);
  its_lease : lease_id_of (ticket_lease t) = "lease." +:+ token;
}.

Lemma required_text v name s : RunLifecycle.require_id v name = Ok s -> v = JStr s.
Proof. unfold RunLifecycle.require_id. destruct v; try done. destruct (_ || _); [done|]. by intros [= <-]. Qed.

Lemma text_or_refused_Ok v m s : text_or_refused v m = Ok s -> v = JStr s.
Proof. destruct v; try done. by intros [= <-]. Qed.

Lemma wp_begun spec kind image host_ clock token n :
  wp (begin_run leases_dir (JObj spec) kind image host_ clock token) (fun t _ => ticket_of spec kind image host_ token n t) (fun _ _ => True) n.
Proof.
  unfold begin_run. cbv zeta. wp_step. wp_step; [done|]. wp_step. wp_step; [|done]. wp_step. wp_step; [|done].
  do 3 (wp_step; wp_step; [|done]). do 2 wp_step. do 2 (wp_step; wp_step; [|done]). wp_step.
  match goal with |- wp ?m _ _ _ => unfold wp at 1; destruct (m n) as [n' [lease|e]] eqn:E; [|done] end.
  apply claim_run_document in E. wp_step. apply obind_Ok in E as (k & _ & [= <-]).
  repeat match goal with
  | H : RunLifecycle.require_id ?v _ = Ok _ |- _ => apply required_text in H
  | H : text_or_refused ?v _ = Ok _ |- _ => apply text_or_refused_Ok in H
  end.
  split; [done..| |done|done].
  cbn [image_digest authority_grant_digest ticket_grant].
  match goal with H : authorized_or_refused ?o = Ok ?g |- _ => exists g; split; [done|]; destruct o as [?|[]]; cbn in H; congruence end.
Qed.
End begun.

(** ** Properties *)

(** Some poll says that the workload exited with status zero, and no poll before it was
    past the deadline; whether that poll itself is late is not looked at. *)
Definition exit_reported (sc : script) : Prop :=
  exists before p after receipt, polls sc = before ++ p :: after /\ Forall (fun q => past_deadline q = false) before /\
    status_reply p = Ok receipt /\ result_text "state" receipt = Ok "exited" /\ py_eqb (receipt_exit receipt) (JInt 0) = true.

Definition image_reported_as (image : string) (sc : script) : Prop :=
  exists p receipt, p ∈ polls sc /\ status_reply p = Ok receipt /\ receipt_image receipt = Ok (JStr image).

(** C29 A run is completed only if everything was observed.  When [run] answers an outcome that
    says completed, under a lease that no earlier completion used: the specification was
    valid and the owner's authority authorized exactly this executor, image, host and grant
    digest; the daemon reported that the workload exited with status zero, and no earlier
    report of it running had come after the deadline (the engine does not compare the deadline
    with the report of the exit itself); the daemon reported the very image digest of the
    specification; a provider effect of this run and configuration had been marked; the grant is not revoked at the end; the
    lease of the run has ended and its completion is recorded; and the evidence, now final,
    names that image and the process of this run with exit code zero. *)
Theorem completed_run_was_observed leases_dir a sc s s' out :
  run leases_dir a sc s = Some (s', Ok out) ->
  finished (completion s) !! ("lease." +:+ lease_token a) = None ->
  run_outcome out = JStr "completed" ->
  exists spec image run_ grant,
    from_dict AgentRunSpecification (JObj (specification a)) = Ok spec /\
    key_json "imageDigest" spec = JStr image /\ key_json "runId" spec = JStr run_ /\
    authorize (authority (self (at_node s))) EXECUTOR_KIND (claimed_image_ a) (host_ a) image
      (text_field "authorityGrantDigest" spec) = Ok grant /\
    exit_reported sc /\ image_reported_as image sc /\
    (run_, config_ a) ∈ used (evidence s) /\
    is_revoked (authority (self (at_node s'))) (grant_id grant) = Ok false /\
    (exists lease, lease_at (claim_path_of leases_dir ("lease." +:+ lease_token a)) lease (at_node s') /\ is_held lease = false /\
       (lease_id_of lease = "lease." +:+ lease_token a ->
          finished (completion s') !! ("lease." +:+ lease_token a) = Some "completed")) /\
    run_ ∈ finalized (evidence s') /\ key_json "imageDigest" (run_evidence out) = JStr image /\
    exists d, key_json "executedProcess" (run_evidence out) = JObj d /\ key_json "observedImageDigest" d = JStr image /\
      key_json "containerWorkloadId" d = JStr ("run-" +:+ run_) /\ key_json "exitCode" d = JInt 0.
Proof.
  unfold run. intros H Hf Ho. destruct (admit_run a s) as [spec|e] eqn:Ea; [|discriminate H].
  destruct (begin leases_dir a spec s) as [s1 [ticket|e]] eqn:Eb; [|discriminate H].
  destruct (observe ticket sc (at_node s1)) as [[w observation]|] eqn:Eo; [|discriminate H]. injection H as H.
  assert (Hspec : from_dict AgentRunSpecification (JObj (specification a)) = Ok spec).
  { unfold admit_run in Ea. apply obind_Ok in Ea as (d & Hd & Ea). destruct (from_dict _ _) as [d'|[]]; try discriminate Hd.
    injection Hd as ->. repeat (apply obind_Ok in Ea as (? & _ & Ea)). congruence. }
  unfold begin in Eb. apply bind_Ok in Eb as (s2 & r & Hr & Eb). unfold try_lifecycle in Hr.
  pose proof (wp_begun leases_dir [("runId", key_json "runId" spec); ("workspaceId", key_json "workspaceId" spec);
    ("imageDigest", key_json "imageDigest" spec); ("authorityGrantDigest", key_json "authorityGrantDigest" spec)]
    EXECUTOR_KIND (claimed_image_ a) (host_ a) (clock a) (lease_token a) (at_node s)) as W. unfold wp in W.
  fold (run_request spec) in W. destruct (begin_run _ _ _ _ _ _ _ _) as [n' [t|e]]; injection Hr as <- <-; [|by destruct e].
  apply ret_Ok in Eb as [-> ->]. destruct W as [Hrun Himg Hgd (grant & Hg & Hauth) Hclaim Hlease]. cbn in Hrun, Himg, Hgd.
  apply settle_completed in H as [Hv C]; [|by unfold lease_id; rewrite Hlease|done].
  destruct (verdict_completed _ _ _ Hv) as (_ & -> & Hst & Hz & Hreason).
  destruct (observe_observed _ _ _ _ Eo) as [(before & p & after & receipt & Hps & Hp & Hs & He & Hlate) Hio Hcr Hk].
  destruct C as [Ci Cu Cr Cf Cl Cd Cp]. specialize (Hreason Hk).
  assert (Etext : text_field "imageDigest" spec = image_digest t) by (unfold text_field; by rewrite Himg).
  exists spec, (image_digest t), (run_id t), grant. split; [done|]. split; [done|]. split; [done|].
  split. { unfold text_field. by rewrite Hgd. }
  split.
  { exists before, p, after, receipt. split; [done|]. split; [|split; [done|split; [congruence|congruence]]].
    apply Forall_forall. intros q Hq. destruct (past_deadline q) eqn:E; [|done]. exfalso.
    assert (Hb : Exists is_late before) by (apply Exists_exists; by exists q). apply Hlate in Hb. rewrite Hreason in Hb. by destruct Hb. }
  rewrite Etext in *. split.
  { destruct Hio as [Hio|(q & r & Hq & Hqr & Hqi)]; [congruence|]. exists q, r. split; [done|]. split; [done|]. congruence. }
  split; [done|]. split; [by rewrite <-Hg|]. unfold lease_id in Cl. rewrite Hclaim, Hlease in Cl. split; [done|].
  split; [done|]. split; [done|]. destruct (Cp Hcr) as (d & H1 & H2 & H3 & H4). exists d. split; [done|]. split; [done|].
  split; [|by apply H4]. rewrite H3. unfold text_field. by rewrite Hrun.
Qed.

(** *** Cleaning up *)

(** The daemon removed the workload or does not know it. *)
Definition gone (r : reply) : bool := match r with Ok _ => true | Raise _ => unknown_workload r end.

(** Cleaning up ends with the workload.  It returns only when a removal was answered with
    success or with an unknown workload, or when a cancellation it still had to make was
    answered so; until then no removal had gone through; its first command is the
    cancellation, if one was required.  And it does return as soon as one removal is answered
    so. *)
Theorem cleanup_ends_with_the_workload answers : forall required,
  (forall sent, cleanup_workload required answers = Some sent ->
     (exists before c r after, answers = before ++ (c, r) :: after /\ (gone r = true \/ (required = true /\ unknown_workload c = true)) /\
        Forall (fun cr => gone cr.2 = false) before) /\
     (required = true -> head sent = Some CancelWorkload)) /\
  (Exists (fun cr => gone cr.2 = true) answers -> is_Some (cleanup_workload required answers)).
Proof.
  induction answers as [|[c r] answers IH]; intros required; [split; [done|by intros ?%Exists_nil]|].
  cbn [cleanup_workload]. destruct (required && unknown_workload c) eqn:Ec.
  { apply andb_true_iff in Ec as [-> Hc]. split; [|by eexists]. intros sent [= <-]. split; [|done].
    exists [], c, r, answers. split; [done|]. split; [by right|constructor]. }
  set (sent0 := if required then _ else _). set (still := required && negb _).
  assert (Hhead : forall l, required = true -> head (app sent0 l) = Some CancelWorkload) by (unfold sent0; by intros l ->).
  assert (Hnow : forall sent, Some sent0 = Some sent -> gone r = true ->
    (exists before c0 r0 after, (c, r) :: answers = before ++ (c0, r0) :: after /\
       (gone r0 = true \/ (required = true /\ unknown_workload c0 = true)) /\ Forall (fun cr => gone cr.2 = false) before) /\
    (required = true -> head sent = Some CancelWorkload)).
  { intros sent [= <-] Hr. split; [exists [], c, r, answers; auto using Forall_nil_2|]. intros Hq. specialize (Hhead [] Hq).
    by rewrite app_nil_r in Hhead. }
  destruct (gone r) eqn:Hr.
  - assert (E : match r with Ok _ => Some sent0
                | Raise _ => if unknown_workload r then Some sent0 else app sent0 <$> cleanup_workload still answers end = Some sent0)
      by (destruct r; [done|unfold gone in Hr; by rewrite Hr]).
    rewrite E. split; [|by eexists]. intros sent Hs. by apply Hnow.
  - assert (E : match r with Ok _ => Some sent0
                | Raise _ => if unknown_workload r then Some sent0 else app sent0 <$> cleanup_workload still answers end
                = app sent0 <$> cleanup_workload still answers)
      by (destruct r; [done|unfold gone in Hr; by rewrite Hr]).
    rewrite E. destruct (IH still) as [IH1 IH2]. split.
    + intros sent Hs. destruct (cleanup_workload still answers) as [l|]; [|done]. injection Hs as <-. split; [|by apply Hhead].
      destruct (IH1 l eq_refl) as [(before & c0 & r0 & after & -> & Hg & Hb) _]. exists ((c, r) :: before), c0, r0, after.
      split; [done|]. split; [|by constructor]. destruct Hg as [Hg|[Hst Hg]]; [by left|right]. split; [|done].
      unfold still in Hst. by apply andb_true_iff in Hst as [-> _].
    + intros [H|H]%Exists_cons; [cbn in H; congruence|]. destruct (IH2 H) as [l ->]. by eexists.
Qed.

(** ** At work *)

Definition pin : string := digest_of "a".
Definition claimed : string := "example.invalid/stateagent@" +:+ pin.

Definition owner_grant (revoked_ : bool) : RunGrant :=
  {| grant_id := "grant.1"; executor_kind := EXECUTOR_KIND; claimed_image := claimed; grant_host := "exec-1"; scope := "test grant";
     issued_at := "2026-08-08T00:00:00Z"; digest_pin := pin; revoked := revoked_ |}.

Definition engine_of (marks : list service_call) : engine :=
  {| at_node := {| disk := {| claims := ∅; locks := {| flocks := ∅; next_file := 0 |}; faults := [] |};
                   self := {| authority := RunAuthority.run_call {| RunAuthority.host := "exec-1"; by_key := ∅; by_id := [] |}
                                             (Register (owner_grant false));
                              lease_duration := 900%Z; lock_files := ∅ |} |};
     completion := new_gate;
     evidence := run_trace service_step new_service marks;
     providers := synthetic_manager |}.

Definition run_spec : dict :=
  [("formatVersion", JStr "stateport.managed-agent-run/v1"); ("runId", JStr "run.1"); ("workspaceId", JStr "ws.1");
   ("baseRevision", JStr (String.concat "" (repeat "d" 40))); ("stagingPath", JStr "/staging/candidate");
   ("imageDigest", JStr pin); ("provider", JStr "synthetic"); ("model", JStr "synthetic-model");
   ("networkProfile", JObj [("mode", JStr "disabled"); ("allowlist", JArr [])]);
   ("authorityGrantDigest", JStr (authority_digest (owner_grant false)));
   ("budgets", JObj [("timeSeconds", JInt 30); ("token", JInt 100); ("costMinor", JInt 0); ("steps", JInt 10)]);
   ("resources", JObj [("memoryMaxBytes", JInt 268435456); ("cpuQuotaPercent", JInt 100); ("pidsMax", JInt 128);
                       ("diskMaxBytes", JInt 67108864)]);
   ("validationCommands", JArr [])].

Definition run_arguments : arguments :=
  {| specification := run_spec; client_typed := true; claimed_image_ := claimed; host_ := "exec-1"; config_ := "cfg.1";
     output_byte_bound := 4194304%Z; clock := Some 1786147200000000%Z; poll_interval_positive := true;
     lease_token := "0123456789abcdef01234567" |}.

Definition answer (state : string) (exit : json) (image : json) : reply :=
  Ok [("result", JObj [("state", JStr state); ("exitStatus", exit)]); ("observed", JObj [("imageDigest", image)])].

(** The daemon runs the workload to its end; [meanwhile] happens before the second poll. *)
Definition run_script (exit image : json) (meanwhile : list aside) : script :=
  {| create_at := 1786147200000000%Z; during_create := id; create_reply := answer "created" JNull JNull;
     before_start := [MonitorPass 1786147200000000%Z (Raise (OtherFault "RuntimeError")) (Raise (OtherFault "RuntimeError"))]; monitor_ready := true;
     start_look := 1786147200000000%Z; start_at := 1786147200000000%Z; during_start := id; start_reply := answer "running" JNull JNull;
     polls := [{| before_poll := []; status_reply := answer "running" JNull image; past_deadline := false |};
               {| before_poll := meanwhile; status_reply := answer "exited" exit image; past_deadline := false |}];
     before_logs := []; logs_reply := Ok [("result", JObj [("output", JStr "run-output")])];
     removals := [(answer "cancelled" JNull JNull, answer "removed" JNull JNull)]; before_stop := [];
     ended_at := 1786147203000000%Z; duration := 3%Z |}.

Definition outcome_and_reason (r : option (engine * outcome engine_error RunOutcome)) : option (json * json) :=
  match r with
  | Some (_, Ok o) => Some (run_outcome o, key_json "exitReason" (run_evidence o))
  | _ => None
  end.

Definition withdraw (n : node) : node :=
  {| disk := disk n; self := {| authority := RunAuthority.run_call (authority (self n)) (Revoke "grant.1");
                                lease_duration := lease_duration (self n); lock_files := lock_files (self n) |} |}.

Example observed_run_completes :
  outcome_and_reason (run "/state/leases" run_arguments (run_script (JInt 0) (JStr pin) []) (engine_of [Mark "run.1" "cfg.1"]))
  = Some (JStr "completed", JStr "ok").
Proof. vm_compute. reflexivity. Qed.

(** A workload that the first report after the deadline finds exited is completed; one that is
    found running then has timed out, whatever the next report says. *)
Definition reports (l : list poll) : script :=
  let sc := run_script (JInt 0) (JStr pin) [] in
  {| create_at := create_at sc; during_create := id; create_reply := create_reply sc; before_start := before_start sc; monitor_ready := true;
     start_look := start_look sc; start_at := start_at sc; during_start := id; start_reply := start_reply sc; polls := l;
     before_logs := []; logs_reply := logs_reply sc; removals := removals sc; before_stop := []; ended_at := ended_at sc; duration := 3%Z |}.

Definition late (state : string) : poll :=
  {| before_poll := []; status_reply := answer state (if bool_decide (state = "exited") then JInt 0 else JNull) (JStr pin); past_deadline := true |}.

Example late_exit_completes :
  outcome_and_reason (run "/state/leases" run_arguments (reports [late "exited"]) (engine_of [Mark "run.1" "cfg.1"]))
    = Some (JStr "completed", JStr "ok") /\
  option_map fst (outcome_and_reason (run "/state/leases" run_arguments (reports [late "running"; late "exited"]) (engine_of [Mark "run.1" "cfg.1"])))
    = Some (JStr "failed").
Proof. split; vm_compute; reflexivity. Qed.

Example unused_provider_refuses_run :
  outcome_and_reason (run "/state/leases" run_arguments (run_script (JInt 0) (JStr pin) []) (engine_of []))
  = Some (JStr "refused", JStr "provider-effect-unobserved").
Proof. vm_compute. reflexivity. Qed.

Example other_image_fails_run :
  outcome_and_reason (run "/state/leases" run_arguments (run_script (JInt 0) (JStr (digest_of "b")) []) (engine_of [Mark "run.1" "cfg.1"]))
  = Some (JStr "failed", JStr "observed-image-identity-mismatch").
Proof. vm_compute. reflexivity. Qed.

(** Revoked in the middle, and seen by the monitor or not *)
Example revoked_run_is_cancelled :
  outcome_and_reason (run "/state/leases" run_arguments
    (run_script (JInt 0) (JStr pin) [Others withdraw; MonitorPass 1786147201000000%Z (answer "cancelled" JNull JNull) (answer "exited" JNull JNull)])
    (engine_of [Mark "run.1" "cfg.1"]))
  = Some (JStr "cancelled", JStr "revoked").
Proof. vm_compute. reflexivity. Qed.

Example unseen_revocation_is_refused :
  outcome_and_reason (run "/state/leases" run_arguments (run_script (JInt 0) (JStr pin) [Others withdraw]) (engine_of [Mark "run.1" "cfg.1"]))
  = Some (JStr "refused", JStr "authority-grant-revoked").
Proof. vm_compute. reflexivity. Qed.

(** The owner withdraws the grant while the daemon creates the workload: it is not started,
    and cleaned up. *)
Definition withdrawn_script : script :=
  let sc := run_script (JInt 0) (JStr pin) [] in
  {| create_at := create_at sc; during_create := withdraw; create_reply := create_reply sc; before_start := []; monitor_ready := true;
     start_look := start_look sc; start_at := start_at sc; during_start := id; start_reply := start_reply sc; polls := []; before_logs := [];
     logs_reply := logs_reply sc; removals := [(Raise (OtherFault "RuntimeError"), Raise (OtherFault "RuntimeError"));
                                               (answer "cancelled" JNull JNull, answer "removed" JNull JNull)];
     before_stop := []; ended_at := ended_at sc; duration := 1%Z |}.

Example withdrawn_during_creation :
  outcome_and_reason (run "/state/leases" run_arguments withdrawn_script (engine_of [Mark "run.1" "cfg.1"]))
  = Some (JStr "refused", JStr "authority-grant-revoked").
Proof. vm_compute. reflexivity. Qed.

Example cleanup_retries : cleanup_workload true (removals withdrawn_script)
  = Some [CancelWorkload; RemoveWorkload; CancelWorkload; RemoveWorkload].
Proof. reflexivity. Qed.

Abbreviation answer_of := (option (engine * outcome engine_error RunOutcome)).

Definition engine_of_answer (r : answer_of) : engine := match r with Some (s, _) => s | None => engine_of [] end.
Definition outcome_of_answer (r : answer_of) : RunOutcome :=
  match r with
  | Some (_, Ok o) => o
  | _ => {| run_evidence := []; run_outcome := JNull; run_refused := false; run_cancelled := false |}
  end.

Lemma answer_known (r : answer_of) : bool_decide (is_Some (outcome_and_reason r)) = true ->
  r = Some (engine_of_answer r, Ok (outcome_of_answer r)).
Proof. destruct r as [[s [o|e]]|]; [done|by intros [? ?]%bool_decide_eq_true..]. Qed.

Definition used_engine : engine := engine_of [Mark "run.1" "cfg.1"].
Definition good_script : script := run_script (JInt 0) (JStr pin) [].
Definition engine_after : engine := engine_of_answer (run "/state/leases" run_arguments good_script used_engine).
Definition outcome_after : RunOutcome := outcome_of_answer (run "/state/leases" run_arguments good_script used_engine).

Lemma good_run_answers : run "/state/leases" run_arguments good_script used_engine = Some (engine_after, Ok outcome_after).
Proof. apply answer_known. vm_compute. reflexivity. Qed.

Lemma lease_is_new : finished (completion used_engine) !! ("lease." +:+ lease_token run_arguments) = None.
Proof. vm_compute. reflexivity. Qed.

Lemma good_grant spec : from_dict AgentRunSpecification (JObj (specification run_arguments)) = Ok spec ->
  text_field "authorityGrantDigest" spec = authority_digest (owner_grant false).
Proof.
  assert (H : match from_dict AgentRunSpecification (JObj (specification run_arguments)) with
              | Ok d => bool_decide (text_field "authorityGrantDigest" d = authority_digest (owner_grant false)) | Raise _ => true end = true)
    by (vm_compute; reflexivity).
  intros Hs. rewrite Hs in H. by apply bool_decide_eq_true in H.
Qed.

Lemma outcome_after_completed : run_outcome outcome_after = JStr "completed".
Proof. vm_compute. reflexivity. Qed.

Lemma completed_run_was_observed_witness :
  exists image run_ grant,
    authorize (authority (self (at_node used_engine))) EXECUTOR_KIND (claimed_image_ run_arguments) (host_ run_arguments) image
      (authority_digest (owner_grant false)) = Ok grant /\
    exit_reported good_script /\ image_reported_as image good_script /\ run_ ∈ finalized (evidence engine_after).
Proof.
  destruct (completed_run_was_observed "/state/leases" run_arguments good_script used_engine engine_after outcome_after
              good_run_answers lease_is_new outcome_after_completed)
    as (spec & image & run_ & grant & Hs & _ & _ & Ha & He & Hi & _ & _ & _ & Hf & _).
  exists image, run_, grant. split; [|split; [exact He|split; [exact Hi|exact Hf]]].
  rewrite <-(good_grant spec Hs). exact Ha.
Defined.
