(* ===== verification/RunSnapshots.v ===== *)
(** * Instance snapshots of governed runs (packages/governed-runner, state.py)

    Capturing the files and directories of an instance, comparing two captures, and
    restoring one over whatever a run left behind.  A tree of the file system is a map from
    the components of a path below the instance to an entry; a relative path of a snapshot is
    a POSIX text.  [rglob] lists the entries of a tree in some order.  A write may be short,
    as the kernel decides; other failures of system calls, and what [fsync] makes durable,
    are left out. *)

From S2P Require Import Prelude Json Sha256 Paths Contracts.

Abbreviation path := (list string).

(** Contents are strings of bytes. *)
Inductive entry :=
| File (content : string)
| Directory
| Link
| Special.

#[export] Instance entry_eq_dec : EqDecision entry.
Proof. solve_decision. Defined.

Abbreviation tree := (gmap path entry).

(** [relative.as_posix()], and the components of [target / relative] *)
Definition posix (p : path) : string := join_slash p.
Definition below (relative : string) : path := path_parts relative.

Definition parent (p : path) : path := removelast p.

Record StateSnapshot := {
  files : list (string * string);      (* in the order of capture *)
  directories : gset string;
}.

Inductive snapshot_error :=
| ValueError (message : string)
| FileExists
| FileMissing
| NoProgress.

(** ** Capturing *)

Fixpoint capture (entries : list (path * entry)) (s : StateSnapshot) : outcome snapshot_error StateSnapshot :=
  match entries with
  | [] => Ok s
  | (p, e) :: rest =>
      match e with
      | Link => Raise (ValueError ("instance contains a symlink: " +:+ posix p))
      | File content => capture rest {| files := assoc_set (posix p) content (files s); directories := directories s |}
      | Directory => capture rest {| files := files s; directories := {[posix p]} ∪ directories s |}
      | Special => Raise (ValueError ("instance contains a non-regular entry: " +:+ posix p))
      end
  end.

Definition empty_snapshot : StateSnapshot := {| files := []; directories := ∅ |}.

(** [root] is the tree below the instance, or nothing if it is not a directory. *)
Definition snapshot_files (target : string) (root : option tree) : outcome snapshot_error StateSnapshot :=
  match root with
  | None => Raise (ValueError ("instance is not a directory: " +:+ target))
  | Some t => capture (map_to_list t) empty_snapshot
  end.

(** ** Comparing *)

Definition hash (content : string) : string := "sha256:" +:+ sha256_hex content.

Definition names (s : StateSnapshot) : gset string := list_to_set (map fst (files s)).

(** [{path: _hash(snapshot[path]) for path in sorted(snapshot)}] *)
Definition hashes (s : StateSnapshot) : list (string * string) :=
  (fun p => (p, hash (default "" (assoc_get p (files s))))) <$> sorted_set (names s).

Definition hashes_json (s : StateSnapshot) : json := JObj (prod_map id JStr <$> hashes s).

Definition digest_document (s : StateSnapshot) : json :=
  JObj [("directories", jstrs (sorted_set (directories s))); ("files", hashes_json s)].

Definition digest_snapshot (s : StateSnapshot) : string := canonical_digest (digest_document s).

Record StateDiff := {
  before_hashes : list (string * string);
  after_hashes : list (string * string);
  added : list string;
  removed : list string;
  modified : list string;
  added_directories : list string;
  removed_directories : list string;
  files_changed : list string;
}.

Definition diff_snapshots (before after : StateSnapshot) : StateDiff :=
  let b := hashes before in
  let a := hashes after in
  let bs : gset string := list_to_set (map fst b) in
  let as_ : gset string := list_to_set (map fst a) in
  let added_ := sorted_set (as_ ∖ bs) in
  let removed_ := sorted_set (bs ∖ as_) in
  let modified_ := sorted_set (filter (fun p => assoc_get p b <> assoc_get p a) (bs ∩ as_)) in
  let added_dirs := sorted_set (directories after ∖ directories before) in
  let removed_dirs := sorted_set (directories before ∖ directories after) in
  let slashed l := map (fun p => p +:+ "/") l in
  {| before_hashes := b; after_hashes := a; added := added_; removed := removed_; modified := modified_;
     added_directories := added_dirs; removed_directories := removed_dirs;
     files_changed := sorted_set (list_to_set (added_ ++ removed_ ++ modified_ ++ slashed added_dirs ++ slashed removed_dirs)) |}.

(** ** Restoring *)

(** The tree below the target, and how much the next writes take at most. *)
Record disk := {
  entries : tree;
  short_writes : list nat;
}.

Definition set_entries (t : tree) (d : disk) : disk := {| entries := t; short_writes := short_writes d |}.

Abbreviation restoring := (M disk snapshot_error).

Fixpoint for_each {A} (f : A -> restoring unit) (l : list A) : restoring unit :=
  match l with
  | [] => ret tt
  | x :: rest => f x >>* for_each f rest
  end.

(** The order of removal: by depth, then by text, both descending *)
Definition removed_before (p q : path) : Prop :=
  length q < length p \/ (length p = length q /\ String.le (posix q) (posix p)).

#[export] Instance removed_before_dec : RelDecision removed_before.
Proof. intros p q. unfold removed_before. apply _. Defined.

Definition items (t : tree) : list path := merge_sort removed_before (fst <$> map_to_list t).

Definition has_child (t : tree) (p : path) : bool :=
  existsb (fun qe => bool_decide (parent (fst qe) = p)) (map_to_list t).

(** Files, links and other entries are unlinked; a directory that is not required is removed
    if it is empty. *)
Definition remove_item (required : gset string) (item : path) : restoring unit :=
  let* d := get in
  match entries d !! item with
  | None => raise FileMissing
  | Some Directory =>
      if bool_decide (posix item ∈ required) then ret tt
      else if has_child (entries d) item then ret tt
      else put (set_entries (delete item (entries d)) d)
  | Some _ => put (set_entries (delete item (entries d)) d)
  end.

(** One directory of [mkdir(parents=True, exist_ok=True)] *)
Definition make_one (p : path) : restoring unit :=
  let* d := get in
  match entries d !! p with
  | None => put (set_entries (<[p := Directory]> (entries d)) d)
  | Some Directory => ret tt
  | Some _ => raise FileExists
  end.

(** The directories on the way to [p] below the target, and [p] itself *)
Definition ways (p : path) : list path := (fun n => take (S n) p) <$> seq 0 (length p).

Definition make_directory (p : path) : restoring unit := for_each make_one (ways p).

(** [while view: written = os.write(descriptor, view); ...; view = view[written:]]: what is
    written in the end, and the error if a write makes no progress *)
Fixpoint write_all (sizes : list nat) (view : string) : list nat * string * option snapshot_error :=
  if bool_decide (view = "") then (sizes, "", None)
  else
    match sizes with
    | [] => ([], view, None)
    | 0 :: rest => (rest, "", Some NoProgress)
    | n :: rest =>
        let n := Nat.min n (String.length view) in
        let '(sizes, written, e) := write_all rest (String.substring n (String.length view - n) view) in
        (sizes, String.substring 0 n view +:+ written, e)
    end.

(** [O_CREAT | O_EXCL], then the writes *)
Definition write_file (p : path) (content : string) : restoring unit :=
  let* d := get in
  match entries d !! p with
  | Some _ => raise FileExists
  | None =>
      let '(sizes, written, e) := write_all (short_writes d) content in
      put {| entries := <[p := File written]> (entries d); short_writes := sizes |} >>*
      match e with Some e => raise e | None => ret tt end
  end.

Definition restore_file (f : string * string) : restoring unit :=
  make_directory (parent (below (fst f))) >>* write_file (below (fst f)) (snd f).

Definition shallower (p q : string) : Prop := length (below p) <= length (below q).

#[export] Instance shallower_dec : RelDecision shallower.
Proof. intros p q. unfold shallower. apply _. Defined.

(** Restoring the tree of an existing target *)
Definition restore_tree (s : StateSnapshot) : restoring unit :=
  let* d := get in
  for_each (remove_item (directories s)) (items (entries d)) >>*
  for_each (fun p => make_directory (below p)) (merge_sort shallower (elements (directories s))) >>*
  for_each restore_file (files s).

Definition restore_snapshot (exists_ : bool) (s : StateSnapshot) : restoring unit :=
  if exists_ then restore_tree s else ret tt.

(** ** Paths and their texts *)

Definition good_name (c : string) : Prop := c <> "" /\ c <> "." /\ no_slash c.

Lemma split_part acc c s : no_slash c -> split_slash acc (c +:+ s) = split_slash (acc +:+ c) s.
Proof.
  revert acc. induction c as [|x c IH]; intros acc Hc; [by rewrite str_app_nil_r|].
  unfold no_slash in Hc. cbn [any_char] in Hc. apply orb_false_iff in Hc as [Hx Hc]. rewrite str_cons_app. cbn [split_slash].
  rewrite Hx, IH by done. by rewrite str_app_assoc.
Qed.

Lemma split_join (p : path) : p <> [] -> Forall no_slash p -> split_slash "" (join_slash p) = p.
Proof.
  induction p as [|c p IH]; [done|]. intros _ [Hc Hp]%Forall_cons. destruct p as [|c' p].
  - cbn [join_slash]. rewrite <-(str_app_nil_r c), split_part by done. cbn. by rewrite str_app_nil_r.
  - rewrite join_slash_cons by done. rewrite split_part by done. cbn [split_slash]. rewrite bool_decide_eq_true_2 by done.
    f_equal. by apply IH.
Qed.

Lemma good_no_slash p : Forall good_name p -> Forall no_slash p.
Proof. intros H. eapply Forall_impl; [exact H|]. by intros c (_ & _ & ?). Qed.

Lemma below_posix (p : path) : Forall good_name p -> below (posix p) = p.
Proof.
  intros Hp. destruct (decide (p = [])) as [->|Hne]; [done|]. unfold below, posix, path_parts.
  rewrite split_join by (done || by apply good_no_slash).
  clear Hne. induction Hp as [|c p (H1 & H2 & _) _ IH]; [done|]. cbn [List.filter].
  assert (E : mem c [""; "."] = false) by (apply mem_false; rewrite !elem_of_cons; intros [?|[?|[]%not_elem_of_nil]]; done).
  rewrite E. cbn [negb]. by rewrite IH.
Qed.

Lemma posix_inj p q : Forall good_name p -> Forall good_name q -> posix p = posix q -> p = q.
Proof. intros Hp Hq H. by rewrite <-(below_posix p), <-(below_posix q), H. Qed.

(** ** Trees *)

(** Names are names, and every entry lies in a directory. *)
Record wf_tree (t : tree) : Prop := {
  wf_names : forall p e, t !! p = Some e -> p <> [] /\ Forall good_name p;
  wf_parents : forall p e, t !! p = Some e -> parent p = [] \/ t !! parent p = Some Directory;
}.

Lemma ways_snoc p c : ways (p ++ [c]) = ways p ++ [p ++ [c]].
Proof.
  unfold ways. rewrite length_app, seq_app, fmap_app. cbn [length seq fmap list_fmap]. f_equal.
  - apply list_fmap_ext. intros i x [-> Hi]%lookup_seq. rewrite take_app_le by lia. done.
  - f_equal. rewrite take_ge; [done|]. rewrite length_app. cbn. lia.
Qed.

(** The way to a directory consists of directories. *)
Lemma ways_directories t p q : wf_tree t -> t !! p = Some Directory -> q ∈ ways p -> t !! q = Some Directory.
Proof.
  intros Hwf. revert q. induction p as [|c p IH] using rev_ind; intros q Hp Hq; [by apply not_elem_of_nil in Hq|].
  rewrite ways_snoc in Hq. apply elem_of_app in Hq as [Hq|Hq%list_elem_of_singleton]; [|by subst].
  destruct (wf_parents _ Hwf _ _ Hp) as [H|H]; unfold parent in H; rewrite removelast_last in H; [|by apply IH].
  subst. by apply not_elem_of_nil in Hq.
Qed.

Lemma way_itself p : p <> [] -> p ∈ ways p.
Proof.
  destruct p as [|c p] using rev_ind; [done|]. intros _. rewrite ways_snoc. apply elem_of_app. right. by apply list_elem_of_singleton.
Qed.

(** What a capture says of the tree it was taken from. *)
Record fits (s : StateSnapshot) (t : tree) : Prop := {
  its_files : forall k c, (k, c) ∈ files s <-> exists p, t !! p = Some (File c) /\ k = posix p;
  its_directories : forall k, k ∈ directories s <-> exists p, t !! p = Some Directory /\ k = posix p;
  its_plain : forall p e, t !! p = Some e -> e = Directory \/ exists c, e = File c;
  one_each : NoDup (map fst (files s));
}.

Lemma list_case_snoc {A} (l : list A) : l <> [] -> exists x l', l = l' ++ [x].
Proof. destruct l as [|x l _] using rev_ind; [done|]. eauto. Qed.

(** *** A capture fits its tree *)

Definition files_of (l : list (path * entry)) : list (string * string) :=
  omap (fun pe => match pe.2 with File c => Some (posix pe.1, c) | _ => None end) l.

Lemma assoc_set_new k (v : string) d : k ∉ map fst d -> assoc_set k v d = d ++ [(k, v)].
Proof.
  induction d as [|[k' v'] d IH]; [done|]. cbn [map fst assoc_set]. intros Hk. destruct (String.eqb_spec k k') as [->|Hne].
  - exfalso. apply Hk. by left.
  - cbn. f_equal. apply IH. intros ?. apply Hk. by right.
Qed.

Lemma capture_Ok l : forall s s', capture l s = Ok s' -> NoDup (map fst (files s) ++ map (fun pe => posix pe.1) l) ->
  files s' = files s ++ files_of l /\
  (forall k, k ∈ directories s' <-> k ∈ directories s \/ exists p, (p, Directory) ∈ l /\ k = posix p) /\
  (forall p e, (p, e) ∈ l -> e = Directory \/ exists c, e = File c).
Proof.
  induction l as [|[p e] l IH]; intros s s' H Hnd.
  { injection H as <-. unfold files_of. cbn. rewrite app_nil_r. split; [done|]. split; [|by intros ? ? []%not_elem_of_nil].
    intros k. split; [by left|]. intros [?|(p & []%not_elem_of_nil & _)]; done. }
  cbn [map fst] in Hnd. cbn [capture] in H. destruct e as [c| | |]; try done.
  - apply IH in H as (Hf & Hd & Hp).
    + cbn [files] in Hf. rewrite assoc_set_new in Hf.
      * split; [by rewrite Hf, <-app_assoc|]. split.
        -- intros k. rewrite Hd. cbn [directories]. split; (intros [?|(q & Hq & ->)]; [by left|right; exists q]).
           ++ split; [by right|done].
           ++ apply elem_of_cons in Hq as [Hq|Hq]; [congruence|done].
        -- intros q e [[= -> ->]|Hq]%elem_of_cons; [right; by eexists|by eapply Hp].
      * apply NoDup_app in Hnd as (_ & Hnd & _). intros Hin. apply (Hnd _ Hin). by left.
    + cbn [files]. rewrite assoc_set_new.
      * rewrite map_app. cbn. by rewrite <-app_assoc.
      * apply NoDup_app in Hnd as (_ & Hnd & _). intros Hin. apply (Hnd _ Hin). by left.
  - apply IH in H as (Hf & Hd & Hp).
    + cbn [files] in Hf. split; [done|]. split.
      * intros k. rewrite Hd. cbn [directories]. rewrite elem_of_union, elem_of_singleton. split.
        -- intros [[->|?]|(q & Hq & ->)]; [right; exists p; split; [by left|done]|by left|right; exists q; split; [by right|done]].
        -- intros [?|(q & [Hq|Hq]%elem_of_cons & ->)]; [by left; right|left; left; congruence|right; by exists q].
      * intros q e [[= -> ->]|Hq]%elem_of_cons; [by left|by eapply Hp].
    + cbn [files]. apply NoDup_app in Hnd as (H1 & H2 & H3). apply NoDup_cons in H3 as [_ H3].
      apply NoDup_app. split; [done|]. split; [|done]. intros x Hx Hin. apply (H2 _ Hx). by right.
Qed.

Lemma NoDup_posix (t : tree) : wf_tree t -> NoDup (map (fun pe : path * entry => posix pe.1) (map_to_list t)).
Proof.
  intros Hwf. apply (NoDup_fmap_2_strong (fun pe : path * entry => posix pe.1)); [|apply NoDup_map_to_list].
  intros [p e] [q f] Hp%elem_of_map_to_list Hq%elem_of_map_to_list E. cbn in E.
  apply posix_inj in E as ->; [congruence|by eapply wf_names|by eapply wf_names].
Qed.

Lemma files_of_NoDup l : NoDup (map (fun pe : path * entry => posix pe.1) l) -> NoDup (map fst (files_of l)).
Proof.
  unfold files_of. induction l as [|[p e] l IH]; [constructor|]. cbn [map]. intros [Hn Hnd]%NoDup_cons. specialize (IH Hnd).
  destruct e as [c| | |]; cbn; [|exact IH..]. apply NoDup_cons. split; [|exact IH]. intros Hin. apply Hn.
  apply list_elem_of_fmap in Hin as ([k c'] & Ek & Hin). apply list_elem_of_omap in Hin as ([q e] & Hq & He).
  apply list_elem_of_fmap. exists (q, e). split; [|done]. cbn [fst snd] in *. destruct e; try done. injection He as <- _. exact Ek.
Qed.

Lemma captured_fits target t s : wf_tree t -> snapshot_files target (Some t) = Ok s -> fits s t.
Proof.
  intros Hwf H. apply capture_Ok in H as (Hf & Hd & Hp); [|by apply NoDup_posix]. cbn [files empty_snapshot app] in Hf.
  split.
  - intros k c. rewrite Hf. unfold files_of. rewrite list_elem_of_omap. split.
    + intros ([p e] & Hin%elem_of_map_to_list & He). cbn in He. destruct e as [c'| | |]; try done. injection He as <- <-. by exists p.
    + intros (p & Hpt & ->). exists (p, File c). split; [by apply elem_of_map_to_list|done].
  - intros k. rewrite Hd. cbn [directories empty_snapshot]. split.
    + intros [[]%not_elem_of_empty|(p & Hin%elem_of_map_to_list & ->)]. by exists p.
    + intros (p & Hpt & ->). right. exists p. split; [by apply elem_of_map_to_list|done].
  - intros p e Hpt. apply (Hp p e). by apply elem_of_map_to_list.
  - rewrite Hf. by apply files_of_NoDup, NoDup_posix.
Qed.

(** ** Removing *)

(** What removal leaves: the required directories *)
Definition keep (required : gset string) (pe : path * entry) : Prop := pe.2 = Directory /\ posix pe.1 ∈ required.

#[export] Instance keep_dec required pe : Decision (keep required pe).
Proof. unfold keep. apply _. Defined.

(** Every way to a required directory is required. *)
Definition closed (required : gset string) (t : tree) : Prop :=
  forall p e, t !! p = Some e -> posix p ∈ required -> parent p = [] \/ posix (parent p) ∈ required.

Lemma has_child_true (t : tree) p : has_child t p = true <-> exists q e, t !! q = Some e /\ parent q = p.
Proof.
  unfold has_child. rewrite existsb_exists. split.
  - intros ([q e] & Hin & Hq%bool_decide_eq_true). exists q, e. split; [|done]. by apply elem_of_map_to_list, list_elem_of_In.
  - intros (q & e & Hq & Hp). exists (q, e). split; [by apply list_elem_of_In, elem_of_map_to_list|]. by apply bool_decide_eq_true.
Qed.

Lemma keep_delete (required : gset string) (t : tree) (p : path) (e : entry) : t !! p = Some e -> ~ keep required (p, e) -> filter (keep required) (delete p t) = filter (keep required) t.
Proof.
  intros Hp Hk. apply map_eq. intros q. apply option_eq. intros f. rewrite !map_lookup_filter_Some, lookup_delete_Some.
  split; [by intros [[_ ?] ?]|]. intros [Hq Hf]. split; [|done]. split; [|done]. intros <-. by assert (f = e) as -> by congruence.
Qed.

Section removing.
Context (required : gset string).

(** One item, when everything deeper is gone but the required directories *)
Lemma remove_item_keeps d p e : entries d !! p = Some e -> p <> [] ->
  closed required (entries d) ->
  (forall q f, entries d !! q = Some f -> parent q = p -> posix q ∈ required) ->
  exists t, remove_item required p d = (set_entries t d, Ok tt) /\
    (t = entries d /\ keep required (p, e) \/ t = delete p (entries d) /\ ~ keep required (p, e)).
Proof.
  intros Hp Hne Hc Hq. unfold remove_item, bind, get. rewrite Hp.
  assert (Hd : d = set_entries (entries d) d) by by destruct d.
  destruct e as [c| | |]; try (eexists; split; [done|]; right; split; [done|]; by intros [? _]).
  case_bool_decide as Hr; [exists (entries d); split; [by rewrite <-Hd|]; by left|].
  destruct (has_child (entries d) p) eqn:Ech.
  - exfalso. apply has_child_true in Ech as (q & f & Hqt & Hpar). specialize (Hq q f Hqt Hpar).
    destruct (Hc _ _ Hqt Hq) as [H|H]; rewrite Hpar in H; done.
  - eexists. split; [done|]. right. split; [done|]. by intros [_ ?].
Qed.

Definition deeper (p q : path) : Prop := length q <= length p.

Lemma remove_all l : forall d, closed required (entries d) -> NoDup l -> StronglySorted deeper l ->
  (forall p, p ∈ l -> p <> [] /\ is_Some (entries d !! p)) ->
  (forall q f, entries d !! q = Some f -> q ∉ l -> keep required (q, f)) ->
  for_each (remove_item required) l d = (set_entries (filter (keep required) (entries d)) d, Ok tt).
Proof.
  induction l as [|p l IH]; intros d Hc Hnd Hs Hin Hout; cbn [for_each].
  { rewrite map_filter_id; [by destruct d|]. intros q f Hq. apply (Hout q f Hq), not_elem_of_nil. }
  apply NoDup_cons in Hnd as [Hp Hnd]. apply StronglySorted_inv in Hs as [Hs Hd].
  destruct (Hin p) as [Hne [e He]]; [by left|].
  destruct (remove_item_keeps d p e He Hne Hc) as (t & Hrun & Ht).
  { intros q f Hq Hpar. apply (Hout q f Hq). intros [->|Hql]%elem_of_cons.
    - apply (f_equal length) in Hpar. unfold parent in Hpar. destruct (list_case_snoc p Hne) as (x & p' & ->).
      rewrite removelast_last, length_app in Hpar. cbn in Hpar. lia.
    - pose proof (proj1 (Forall_forall _ _) Hd _ Hql) as Hlen. unfold deeper in Hlen.
      destruct (Hin q) as [Hq' _]; [by right|]. destruct (list_case_snoc q Hq') as (x & q' & ->).
      unfold parent in Hpar. rewrite removelast_last in Hpar. subst. rewrite length_app in Hlen. cbn in Hlen. lia. }
  unfold bind. rewrite Hrun. destruct Ht as [[-> Hk]|[-> Hk]].
  - assert (E : set_entries (entries d) d = d) by by destruct d. rewrite E. apply IH; [done..| |].
    + intros q Hq. apply Hin. by right.
    + intros q f Hq Hl. destruct (decide (q = p)) as [->|Hqp]; [by assert (f = e) as -> by congruence|].
      apply (Hout q f Hq). intros [?|?]%elem_of_cons; done.
  - rewrite IH; cbn [entries set_entries]; [by rewrite (keep_delete _ _ _ _ He Hk)|..].
    + intros q f [_ Hq]%lookup_delete_Some. by apply (Hc q f).
    + done.
    + done.
    + intros q Hq. destruct (Hin q) as [Hq' Hs']; [by right|]. split; [done|]. rewrite lookup_delete_ne; [done|]. by intros ->.
    + intros q f [Hqp Hq]%lookup_delete_Some Hl. apply (Hout q f Hq). intros [?|?]%elem_of_cons; done.
Qed.
End removing.

(** ** Making directories *)

(** A step that leaves a directory at every path of [ps] and everything else as it was. *)
Definition makes (ps : list path) (m : restoring unit) : Prop :=
  forall d, (forall p, p ∈ ps -> entries d !! p = None \/ entries d !! p = Some Directory) ->
  exists t, m d = (set_entries t d, Ok tt) /\
    (forall p, p ∈ ps -> t !! p = Some Directory) /\ (forall q, q ∉ ps -> t !! q = entries d !! q).

Lemma makes_none : makes [] (ret tt).
Proof. intros d _. exists (entries d). split; [by destruct d|]. split; [by intros ? ?%not_elem_of_nil|done]. Qed.

Lemma makes_app ps qs m1 m2 : makes ps m1 -> makes qs m2 -> makes (ps ++ qs) (m1 >>* m2).
Proof.
  intros H1 H2 d Hd. destruct (H1 d) as (t1 & E1 & Hin1 & Hout1); [intros p Hp; apply Hd, elem_of_app; by left|].
  assert (Hd1 : forall p, p ∈ qs -> t1 !! p = None \/ t1 !! p = Some Directory).
  { intros p Hp. destruct (decide (p ∈ ps)) as [Hps|Hps]; [right; by apply Hin1|]. rewrite Hout1 by done.
    apply Hd, elem_of_app. by right. }
  destruct (H2 (set_entries t1 d) Hd1) as (t2 & E2 & Hin2 & Hout2). cbn [entries set_entries] in Hout2. exists t2. unfold bind.
  rewrite E1, E2. split; [done|]. split.
  - intros p [Hp|Hp]%elem_of_app; [|by apply Hin2]. destruct (decide (p ∈ qs)) as [Hq|Hq]; [by apply Hin2|].
    rewrite Hout2 by done. by apply Hin1.
  - intros q Hq. rewrite Hout2, Hout1; [done|..]; intros ?; apply Hq, elem_of_app; auto.
Qed.

Lemma makes_one p : makes [p] (make_one p).
Proof.
  intros d Hd. unfold make_one, bind, get. destruct (Hd p) as [E|E]; [by left|..]; rewrite E.
  - exists (<[p := Directory]> (entries d)). split; [done|]. split.
    + intros q ->%list_elem_of_singleton. apply lookup_insert_eq.
    + intros q Hq. rewrite lookup_insert_ne; [done|]. intros ->. apply Hq. by left.
  - exists (entries d). split; [by destruct d|]. split; [by intros q ->%list_elem_of_singleton|done].
Qed.

Lemma makes_each {A} (f : A -> restoring unit) (g : A -> list path) l :
  (forall x, makes (g x) (f x)) -> makes (l ≫= g) (for_each f l).
Proof. intros H. induction l as [|x l IH]; [apply makes_none|]. cbn. by apply makes_app. Qed.

Lemma makes_directory p : makes (ways p) (make_directory p).
Proof.
  unfold make_directory. pose proof (makes_each make_one (fun p => [p]) (ways p) makes_one) as H.
  assert (E : forall l : list path, l ≫= (fun p => [p]) = l) by (intros l; induction l as [|x l IH]; [done|cbn; by f_equal]).
  by rewrite E in H.
Qed.

(** Directories that are there stay as they are. *)
Lemma make_present p d : (forall q, q ∈ ways p -> entries d !! q = Some Directory) -> make_directory p d = (d, Ok tt).
Proof.
  intros H. destruct (makes_directory p d) as (t & E & Hin & Hout); [auto|]. rewrite E. f_equal.
  assert (Et : t = entries d).
  { apply map_eq. intros q. destruct (decide (q ∈ ways p)) as [Hq|Hq]; [by rewrite Hin, H|by apply Hout]. }
  rewrite Et. by destruct d.
Qed.

(** ** Writing *)

Lemma substring_split n v : n <= String.length v ->
  String.substring 0 n v +:+ String.substring n (String.length v - n) v = v.
Proof.
  revert v. induction n as [|n IH]; intros v Hn.
  - rewrite Nat.sub_0_r, substring_all. by destruct v.
  - destruct v as [|c v]; [cbn in Hn; lia|]. cbn in Hn |- *. rewrite str_cons_app. f_equal. apply IH. lia.
Qed.

(** Every content is written in full, however short each write is. *)
Lemma write_all_full sizes : forall view, Forall (lt 0) sizes ->
  exists rest, write_all sizes view = (rest, view, None) /\ Forall (lt 0) rest.
Proof.
  induction sizes as [|n sizes IH]; intros view Hs; cbn [write_all]; case_bool_decide as Hv; try (subst; by eexists).
  apply Forall_cons in Hs as [Hn Hs]. destruct n as [|n]; [lia|].
  set (k := Nat.min (S n) (String.length view)).
  destruct (IH (String.substring k (String.length view - k) view) Hs) as (rest & -> & Hr).
  exists rest. split; [|done]. f_equal. f_equal. apply substring_split. lia.
Qed.

Section writing.
Context (t0 : tree) (Hwf : wf_tree t0).

Lemma restore_one p c d : t0 !! p = Some (File c) -> entries d !! p = None ->
  (forall q, t0 !! q = Some Directory -> entries d !! q = Some Directory) -> Forall (lt 0) (short_writes d) ->
  exists sizes, restore_file (posix p, c) d = ({| entries := <[p := File c]> (entries d); short_writes := sizes |}, Ok tt) /\ Forall (lt 0) sizes.
Proof.
  intros Hp Hnone Hdirs Hs. destruct (wf_names _ Hwf _ _ Hp) as [Hne Hgood]. unfold restore_file. cbn [fst snd].
  rewrite below_posix by done. unfold bind at 1. rewrite make_present.
  - unfold write_file, bind, get. rewrite Hnone. destruct (write_all_full (short_writes d) c Hs) as (rest & -> & Hr). by exists rest.
  - intros q Hq. apply Hdirs. destruct (wf_parents _ Hwf _ _ Hp) as [E|E].
    + rewrite E in Hq. by apply not_elem_of_nil in Hq.
    + by apply (ways_directories t0 (parent p)).
Qed.

(** The files restored so far are in place, and nothing else is touched. *)
Lemma restore_files fs : forall d,
  (forall k c, (k, c) ∈ fs -> exists p, t0 !! p = Some (File c) /\ k = posix p /\ entries d !! p = None) ->
  NoDup (map fst fs) -> (forall q, t0 !! q = Some Directory -> entries d !! q = Some Directory) -> Forall (lt 0) (short_writes d) ->
  exists d', for_each restore_file fs d = (d', Ok tt) /\
    (forall p c, t0 !! p = Some (File c) -> (posix p, c) ∈ fs -> entries d' !! p = Some (File c)) /\
    (forall q, (forall e, t0 !! q = Some e -> posix q ∉ map fst fs) -> entries d' !! q = entries d !! q).
Proof.
  induction fs as [|[k c] fs IH]; intros d Hfs Hnd Hdirs Hs; cbn [for_each].
  { exists d. split; [done|]. split; [by intros ? ? _ ?%not_elem_of_nil|done]. }
  cbn [map fst] in Hnd. apply NoDup_cons in Hnd as [Hk Hnd]. destruct (Hfs k c) as (p & Hp & -> & Hnone); [by left|].
  destruct (restore_one p c d Hp Hnone Hdirs Hs) as (sizes & E & Hs'). unfold bind. rewrite E.
  assert (Hother : forall q e, t0 !! q = Some e -> posix q ∈ map fst fs -> q <> p).
  { intros q e Hq Hin ->. done. }
  destruct (IH {| entries := <[p := File c]> (entries d); short_writes := sizes |}) as (d' & E' & Hin & Hout).
  - intros k c' Hkc. destruct (Hfs k c') as (q & Hq & -> & Hqn); [by right|]. exists q. split; [done|]. split; [done|]. cbn [entries].
    rewrite lookup_insert_ne; [done|]. intros <-. apply Hk. apply list_elem_of_fmap. by exists (posix p, c').
  - done.
  - intros q Hq. cbn [entries]. rewrite lookup_insert_ne; [by apply Hdirs|]. intros <-. congruence.
  - done.
  - exists d'. split; [done|]. cbn [entries] in Hout. split.
    + intros q c' Hq [[= Eq ->]|Hin']%elem_of_cons; [|by apply Hin].
      apply posix_inj in Eq as ->; [|by eapply wf_names..]. rewrite Hout; [by rewrite lookup_insert_eq|].
      intros e _. done.
    + intros q Hq. destruct (decide (q = p)) as [->|Hqp].
      * exfalso. apply (Hq _ Hp). by left.
      * rewrite Hout; [by rewrite lookup_insert_ne|]. intros e He Hin'. apply (Hq e He). by right.
Qed.
End writing.

(** ** Properties *)

Lemma closed_directories (s : StateSnapshot) (t0 t : tree) : wf_tree t0 -> fits s t0 -> wf_tree t -> closed (directories s) t.
Proof.
  intros Hwf0 Hf Hwf p e Hp (q & Hq & E)%(its_directories _ _ Hf).
  apply posix_inj in E as ->; [|apply (wf_names _ Hwf _ _ Hp)|apply (wf_names _ Hwf0 _ _ Hq)]. destruct (wf_parents _ Hwf0 _ _ Hq) as [H|H]; [by left|right].
  apply (its_directories _ _ Hf). by eexists.
Qed.

#[export] Instance removed_before_total : Total removed_before.
Proof.
  intros p q. unfold removed_before. destruct (lt_eq_lt_dec (length p) (length q)) as [[?|E]|?]; [by right; left| |by left; left].
  destruct (total String.le (posix q) (posix p)); [left|right]; by right.
Qed.

#[export] Instance removed_before_trans : Transitive removed_before.
Proof.
  intros p q r. unfold removed_before. intros [H1|[E1 H1]] [H2|[E2 H2]]; try (left; lia). right. split; [lia|]. by etrans.
Qed.

Lemma deepest_first (t : tree) : StronglySorted deeper (items t).
Proof.
  assert (Hs : StronglySorted removed_before (items t)) by (apply StronglySorted_merge_sort; apply _).
  induction Hs as [|p l _ IH Hp]; constructor; [done|]. eapply Forall_impl; [exact Hp|].
  intros q. unfold removed_before, deeper. lia.
Qed.

Lemma items_elem (t : tree) p : p ∈ items t <-> is_Some (t !! p).
Proof.
  unfold items. rewrite (merge_sort_Permutation removed_before), list_elem_of_fmap. split.
  - intros ([q e] & -> & Hin%elem_of_map_to_list). by exists e.
  - intros [e He]. exists (p, e). split; [done|]. by apply elem_of_map_to_list.
Qed.

Lemma items_NoDup (t : tree) : NoDup (items t).
Proof. unfold items. rewrite (merge_sort_Permutation removed_before). apply NoDup_fst_map_to_list. Qed.

Lemma bind_assoc {A B C} (m : restoring A) (k : A -> restoring B) (h : B -> restoring C) d :
  bind (bind m k) h d = bind m (fun a => bind (k a) h) d.
Proof. unfold bind. by destruct (m d) as [d' [a|e]]. Qed.

(** After removing and making directories, the directories are the captured ones. *)
Lemma restore_directories (s : StateSnapshot) (t0 : tree) (d : disk) : wf_tree t0 -> fits s t0 -> wf_tree (entries d) ->
  exists t, (for_each (remove_item (directories s)) (items (entries d)) >>*
             for_each (fun p => make_directory (below p)) (merge_sort shallower (elements (directories s)))) d
            = (set_entries t d, Ok tt) /\
    (forall p, t0 !! p = Some Directory -> t !! p = Some Directory) /\ (forall p e, t !! p = Some e -> t0 !! p = Some Directory).
Proof.
  intros Hwf0 Hfit Hwf. unfold bind. rewrite remove_all.
  2: by apply (closed_directories s t0). 2: apply items_NoDup. 2: apply deepest_first.
  2: { intros p Hp%items_elem. split; [|done]. destruct Hp as [e He]. by apply (wf_names _ Hwf _ _ He). }
  2: { intros q f Hq Hn. exfalso. by apply Hn, items_elem. }
  set (t1 := filter (keep (directories s)) (entries d)).
  assert (Ht1 : forall p e, t1 !! p = Some e -> e = Directory /\ t0 !! p = Some Directory).
  { intros p e [Hp [Hd Hr]]%map_lookup_filter_Some. cbn in Hd, Hr. split; [done|].
    apply (its_directories _ _ Hfit) in Hr as (q & Hq & E).
    apply posix_inj in E as ->; [done|apply (wf_names _ Hwf _ _ Hp)|apply (wf_names _ Hwf0 _ _ Hq)]. }
  set (ks := merge_sort shallower (elements (directories s))).
  assert (Hways : forall p, p ∈ ks ≫= (fun k => ways (below k)) <-> t0 !! p = Some Directory).
  { intros p. rewrite list_elem_of_bind. unfold ks. setoid_rewrite (merge_sort_Permutation shallower). setoid_rewrite elem_of_elements.
    split.
    - intros (k & Hp & (q & Hq & ->)%(its_directories _ _ Hfit)). rewrite below_posix in Hp by apply (wf_names _ Hwf0 _ _ Hq).
      by apply (ways_directories t0 q).
    - intros Hp. exists (posix p). split; [|apply (its_directories _ _ Hfit); by exists p].
      destruct (wf_names _ Hwf0 _ _ Hp) as [Hne Hg]. rewrite below_posix by done. by apply way_itself. }
  destruct (makes_each (fun k => make_directory (below k)) (fun k => ways (below k)) ks
              (fun k => makes_directory (below k)) (set_entries t1 d)) as (t2 & E2 & Hin2 & Hout2).
  { intros p Hp. cbn. destruct (t1 !! p) as [e|] eqn:E; [right|by left]. by destruct (Ht1 _ _ E) as [-> _]. }
  rewrite E2. exists t2. split; [done|]. split; [intros p Hp; by apply Hin2, Hways|].
  intros p e Hp. destruct (decide (t0 !! p = Some Directory)) as [?|Hn]; [done|]. rewrite Hout2 in Hp; [|by rewrite Hways].
  by apply (Ht1 p e).
Qed.

(** C31 Restoring brings back exactly what was captured.  Let a snapshot be captured from an
    instance, and let the instance then hold any tree at all: files added, changed or
    removed, directories replaced by files or links and the other way around, links and
    special entries anywhere.  Restoring succeeds and leaves exactly the captured tree, every
    file with its full contents, however short the single writes are, as long as each makes
    progress. *)
Theorem restore_brings_back (target : string) (t0 : tree) (s : StateSnapshot) (t : tree) (sizes : list nat) :
  wf_tree t0 -> snapshot_files target (Some t0) = Ok s -> wf_tree t -> Forall (lt 0) sizes ->
  exists rest, restore_snapshot true s {| entries := t; short_writes := sizes |}
               = ({| entries := t0; short_writes := rest |}, Ok tt).
Proof.
  intros Hwf0 Hcap Hwf Hsizes. pose proof (captured_fits _ _ _ Hwf0 Hcap) as Hfit.
  unfold restore_snapshot, restore_tree. rewrite bind_get.
  destruct (restore_directories s t0 {| entries := t; short_writes := sizes |} Hwf0 Hfit Hwf) as (t2 & E2 & Hdirs & Ht2).
  rewrite <-bind_assoc. rewrite (bind_run _ _ _ _ _ E2).
  destruct (restore_files t0 Hwf0 (files s) {| entries := t2; short_writes := sizes |}) as (d' & E3 & Hin3 & Hout3).
  - intros k c (p & Hp & ->)%(its_files _ _ Hfit). exists p. split; [done|]. split; [done|]. cbn.
    destruct (t2 !! p) as [e|] eqn:E; [|done]. apply Ht2 in E. congruence.
  - apply (one_each _ _ Hfit).
  - done.
  - done.
  - change (set_entries t2 _) with {| entries := t2; short_writes := sizes |}. rewrite E3. exists (short_writes d').
    f_equal. enough (entries d' = t0) as <- by by destruct d'. apply map_eq. intros p.
    destruct (t0 !! p) as [e|] eqn:Hp.
    + destruct (its_plain _ _ Hfit _ _ Hp) as [->|[c ->]].
      * rewrite Hout3; [cbn; by apply Hdirs|]. intros e Hpe Hin.
        apply list_elem_of_fmap in Hin as ([k c] & Ek & (q & Hq & ->)%(its_files _ _ Hfit)). cbn in Ek.
        apply posix_inj in Ek as ->; [congruence|apply (wf_names _ Hwf0 _ _ Hp)|apply (wf_names _ Hwf0 _ _ Hq)].
      * apply Hin3; [done|]. apply (its_files _ _ Hfit). by exists p.
    + rewrite Hout3; [|congruence]. cbn. destruct (t2 !! p) as [e|] eqn:E; [|done]. apply Ht2 in E. congruence.
Qed.

(** *** What two captures that agree were taken from *)

Lemma assoc_get_hashes s k : assoc_get k (hashes s) = hash <$> assoc_get k (files s).
Proof.
  unfold hashes. rewrite assoc_get_keys.
  destruct (decide (k ∈ sorted_set (names s))) as [Hk|Hk]; rewrite sorted_set_elem in Hk; unfold names in Hk; rewrite elem_of_list_to_set in Hk.
  - destruct (assoc_get k (files s)) eqn:E; [done|]. by apply assoc_get_None in E.
  - by rewrite (proj2 (assoc_get_None _ _) Hk).
Qed.

Lemma assoc_get_in (k v : string) d : NoDup (map fst d) -> (k, v) ∈ d -> assoc_get k d = Some v.
Proof.
  induction d as [|[k' v'] d IH]; [by intros _ ?%not_elem_of_nil|]. cbn [map fst assoc_get]. intros [Hk Hd]%NoDup_cons.
  intros [[= -> ->]|H]%elem_of_cons; [by rewrite String.eqb_refl|]. destruct (String.eqb_spec k k') as [->|Hne]; [|by apply IH].
  exfalso. apply Hk. apply list_elem_of_fmap. by exists (k', v).
Qed.

Lemma fits_file (s : StateSnapshot) (t : tree) (p : path) (c : string) : wf_tree t -> fits s t -> t !! p = Some (File c) -> assoc_get (posix p) (files s) = Some c.
Proof. intros Hwf Hf Hp. apply assoc_get_in; [apply (one_each _ _ Hf)|]. apply (its_files _ _ Hf). by exists p. Qed.

Definition contents (s : StateSnapshot) : list string := map snd (files s).

(** Directories, and files up to their hashes, determine the tree. *)
Lemma agree_includes (s1 s2 : StateSnapshot) (t1 t2 : tree) (p : path) (e : entry) : wf_tree t1 -> wf_tree t2 -> fits s1 t1 -> fits s2 t2 ->
  collision_free (contents s1 ++ contents s2) ->
  (forall k, k ∈ directories s1 -> k ∈ directories s2) ->
  (forall k, hash <$> assoc_get k (files s1) = hash <$> assoc_get k (files s2)) ->
  t1 !! p = Some e -> t2 !! p = Some e.
Proof.
  intros Hw1 Hw2 F1 F2 Hc Hd Hh Hp. destruct (its_plain _ _ F1 _ _ Hp) as [->|[c ->]].
  - destruct (proj1 (its_directories _ _ F2 (posix p))) as (q & Hq & E).
    { apply Hd, (its_directories _ _ F1). by exists p. }
    apply posix_inj in E as ->; [done|apply (wf_names _ Hw1 _ _ Hp)|apply (wf_names _ Hw2 _ _ Hq)].
  - pose proof (Hh (posix p)) as H. rewrite (fits_file _ _ _ _ Hw1 F1 Hp) in H.
    destruct (assoc_get (posix p) (files s2)) as [c'|] eqn:E; [|done]. apply (inj Some) in H. apply str_app_inj_l in H.
    apply assoc_get_elem in E. destruct (proj1 (its_files _ _ F2 _ _) E) as (q & Hq & Eq).
    apply posix_inj in Eq as ->; [|apply (wf_names _ Hw1 _ _ Hp)|apply (wf_names _ Hw2 _ _ Hq)].
    rewrite Hq. do 2 f_equal. symmetry. apply Hc; [| |done]; apply elem_of_app.
    + left. apply list_elem_of_fmap. exists (posix q, c). split; [done|]. apply (its_files _ _ F1). by exists q.
    + right. apply list_elem_of_fmap. by exists (posix q, c').
Qed.

Lemma agree_same (s1 s2 : StateSnapshot) (t1 t2 : tree) : wf_tree t1 -> wf_tree t2 -> fits s1 t1 -> fits s2 t2 ->
  collision_free (contents s1 ++ contents s2) -> directories s1 = directories s2 ->
  (forall k, hash <$> assoc_get k (files s1) = hash <$> assoc_get k (files s2)) -> t1 = t2.
Proof.
  intros Hw1 Hw2 F1 F2 Hc Hd Hh. apply map_eq. intros p. apply option_eq. intros e. split.
  - apply (agree_includes s1 s2); [done..| |done]. by rewrite Hd.
  - apply (agree_includes s2 s1); [done..| | |done]; [|by rewrite Hd].
    intros d1 d2 H1 H2. apply Hc; set_solver.
Qed.

Lemma sorted_set_nil X : sorted_set X = [] <-> X = ∅.
Proof.
  split; [|by intros ->]. intros H. apply set_eq. intros x. rewrite <-sorted_set_elem, H. set_solver.
Qed.

Lemma difference_both (X Y : gset string) : Y ∖ X = ∅ -> X ∖ Y = ∅ -> X = Y.
Proof.
  intros H1%empty_difference_subseteq_L H2%empty_difference_subseteq_L. by apply (anti_symm (⊆)).
Qed.

Lemma names_app_nil (l1 l2 : list string) : (list_to_set (l1 ++ l2) : gset string) = ∅ -> l1 = [] /\ (list_to_set l2 : gset string) = ∅.
Proof.
  intros H. split; [|set_solver]. destruct l1 as [|x l1]; [done|]. exfalso.
  apply (not_elem_of_empty (C := gset string) x). rewrite <-H. apply elem_of_list_to_set. by left.
Qed.

Lemma keys_elem (d : list (string * string)) k : k ∈ (list_to_set (map fst d) : gset string) <-> is_Some (assoc_get k d).
Proof.
  rewrite elem_of_list_to_set. destruct (assoc_get k d) as [v|] eqn:E.
  - split; [by eexists|]. intros _. apply list_elem_of_fmap. exists (k, v). split; [done|]. by apply assoc_get_elem.
  - apply assoc_get_None in E. split; [done|]. by intros [].
Qed.

(** Two dictionaries with no key added, removed or modified *)
Lemma same_keys_same_values (b a : list (string * string)) :
  (list_to_set (map fst a) ∖ list_to_set (map fst b) : gset string) = ∅ ->
  (list_to_set (map fst b) ∖ list_to_set (map fst a) : gset string) = ∅ ->
  (filter (fun p => assoc_get p b <> assoc_get p a) (list_to_set (map fst b) ∩ list_to_set (map fst a)) : gset string) = ∅ ->
  forall k, assoc_get k b = assoc_get k a.
Proof.
  intros Ha Hr Hm k. pose proof (difference_both _ _ Ha Hr) as Hk. clear Ha Hr.
  destruct (decide (assoc_get k b = assoc_get k a)) as [E|Hne]; [done|]. exfalso.
  apply (not_elem_of_empty (C := gset string) k). rewrite <-Hm. apply elem_of_filter. split; [done|].
  rewrite <-Hk, intersection_idemp_L. apply keys_elem.
  destruct (assoc_get k b) eqn:Eb; [by eexists|]. apply eq_None_not_Some in Eb. rewrite <-keys_elem, Hk, keys_elem in Eb.
  apply eq_None_not_Some in Eb. congruence.
Qed.

(** No change is reported only when directories and hashes are the same. *)
Lemma unchanged s1 s2 : files_changed (diff_snapshots s1 s2) = [] ->
  directories s1 = directories s2 /\ forall k, hash <$> assoc_get k (files s1) = hash <$> assoc_get k (files s2).
Proof.
  intros H. unfold diff_snapshots in H. cbv zeta in H. cbn [files_changed] in H. apply sorted_set_nil in H.
  apply names_app_nil in H as [Ha H]. apply names_app_nil in H as [Hr H]. apply names_app_nil in H as [Hm H].
  apply names_app_nil in H as [Had H]. rewrite <-(app_nil_r (map _ _)) in H. apply names_app_nil in H as [Hrd _].
  apply map_eq_nil in Had, Hrd. rewrite sorted_set_nil in Ha, Hr, Hm, Had, Hrd.
  split; [by apply difference_both|]. intros k. rewrite <-!assoc_get_hashes. by apply same_keys_same_values.
Qed.

Lemma norm_strings l1 l2 : norm (jstrs l1) = norm (jstrs l2) -> l1 = l2.
Proof.
  unfold jstrs. rewrite !norm_arr. intros H. injection H. clear H.
  revert l2. induction l1 as [|x l1 IH]; intros [|y l2] H; try done. cbn in H. injection H as -> H. f_equal. by apply IH.
Qed.

Lemma norm_strings_dict (d e : list (string * string)) : NoDup (map fst d) -> NoDup (map fst e) ->
  norm (JObj (prod_map id JStr <$> d)) = norm (JObj (prod_map id JStr <$> e)) -> forall k, assoc_get k d = assoc_get k e.
Proof.
  assert (Hget : forall (l : list (string * string)) k, dict_get k (prod_map id JStr <$> l) = JStr <$> assoc_get k l).
  { intros l k. induction l as [|[k' v] l IH]; [done|]. cbn. by destruct (String.eqb k k'). }
  assert (Hkeys : forall l : list (string * string), dict_keys (prod_map id JStr <$> l) = map fst l).
  { intros l. unfold dict_keys. induction l as [|[k' v] l IH]; [done|]. cbn. f_equal. exact IH. }
  intros Hd He H k. rewrite !norm_obj in H. apply (f_equal (fun j => match j with JObj fs => dict_get k fs | _ => None end)) in H.
  rewrite !dict_get_sort_norm in H by by rewrite Hkeys. rewrite !Hget in H.
  destruct (assoc_get k d), (assoc_get k e); cbn in H; congruence.
Qed.

Lemma hashes_NoDup s : NoDup (map fst (hashes s)).
Proof.
  unfold hashes. change (map fst) with (fmap (M := list) (@fst string string)). rewrite <-list_fmap_compose.
  rewrite list_fmap_id. apply sorted_set_NoDup.
Qed.

Lemma document_agrees s1 s2 : norm (digest_document s1) = norm (digest_document s2) ->
  directories s1 = directories s2 /\ forall k, hash <$> assoc_get k (files s1) = hash <$> assoc_get k (files s2).
Proof.
  unfold digest_document. rewrite !norm_obj. cbn [norm_fields map]. intros H.
  assert (Hk : forall k, dict_get k [("directories", norm (jstrs (sorted_set (directories s1)))); ("files", norm (hashes_json s1))]
                    = dict_get k [("directories", norm (jstrs (sorted_set (directories s2)))); ("files", norm (hashes_json s2))]).
  { intros k. apply (f_equal (fun j => match j with JObj fs => dict_get k fs | _ => None end)) in H. exact H. }
  pose proof (Hk "directories") as Hd. pose proof (Hk "files") as Hf. cbn in Hd, Hf. apply (inj Some) in Hd, Hf. split.
  - apply norm_strings in Hd. apply set_eq. intros x. by rewrite <-!sorted_set_elem, Hd.
  - intros k. rewrite <-!assoc_get_hashes. revert k. apply norm_strings_dict; [apply hashes_NoDup..|exact Hf].
Qed.

(** C32 Captures are compared exactly.  For captures of any two instance trees whose file
    contents do not collide under SHA-256, the reported changes are empty if and only if the
    trees are the same, down to empty directories; and if their digest documents do not
    collide either, the digests are equal if and only if the trees are. *)
Theorem captures_compare_exactly (target : string) (t1 t2 : tree) (s1 s2 : StateSnapshot) :
  wf_tree t1 -> wf_tree t2 -> snapshot_files target (Some t1) = Ok s1 -> snapshot_files target (Some t2) = Ok s2 ->
  collision_free (contents s1 ++ contents s2) ->
  (files_changed (diff_snapshots s1 s2) = [] <-> t1 = t2) /\
  (collision_free [document (digest_document s1); document (digest_document s2)] ->
     digest_snapshot s1 = digest_snapshot s2 <-> t1 = t2).
Proof.
  intros Hw1 Hw2 H1 H2 Hc. pose proof (captured_fits _ _ _ Hw1 H1) as F1. pose proof (captured_fits _ _ _ Hw2 H2) as F2.
  assert (Hsame : t1 = t2 -> s1 = s2) by (intros ->; congruence). split.
  - split.
    + intros [Hd Hh]%unchanged. by apply (agree_same s1 s2).
    + intros Ht. rewrite (Hsame Ht). unfold diff_snapshots. cbv zeta. cbn [files_changed]. apply sorted_set_nil.
      rewrite (difference_diag_L (directories s2)), (difference_diag_L (list_to_set _ : gset string)).
      assert (Hf : filter (fun p => assoc_get p (hashes s2) <> assoc_get p (hashes s2))
                (list_to_set (map fst (hashes s2)) ∩ list_to_set (map fst (hashes s2)) : gset string) = ∅) by set_solver.
      rewrite Hf, (proj2 (sorted_set_nil ∅) eq_refl). done.
  - intros Hdoc. split; [|intros Ht; f_equal; exact (Hsame Ht)].
    intros Hg. apply (digest_norm _ _ _ Hdoc) in Hg as [Hd Hh]%document_agrees; [by apply (agree_same s1 s2)|by left|by right; left].
Qed.

(** ** Examples *)

Definition wf_entry (t : tree) (pe : path * entry) : Prop :=
  fst pe <> [] /\ Forall good_name (fst pe) /\ (parent (fst pe) = [] \/ t !! parent (fst pe) = Some Directory).

#[export] Instance good_name_dec c : Decision (good_name c).
Proof. unfold good_name, no_slash. apply _. Defined.

Definition wf_treeb (t : tree) : bool := forallb (fun pe => bool_decide (wf_entry t pe)) (map_to_list t).

Lemma wf_treeb_true (t : tree) : wf_treeb t = true -> wf_tree t.
Proof.
  unfold wf_treeb. rewrite forallb_forall. intros H.
  assert (Hall : forall (p : path) (e : entry), t !! p = Some e -> wf_entry t (p, e)).
  { intros p e Hp. apply (bool_decide_eq_true_1 (wf_entry t (p, e))), (H (p, e)), list_elem_of_In, elem_of_map_to_list. exact Hp. }
  constructor; intros p e Hp; destruct (Hall p e Hp) as (? & ? & ?); done.
Qed.

(** An instance with a directory, an empty directory and two files *)
Definition instance : tree :=
  list_to_map [(["state"], Directory); (["state"; "log"], Directory); (["state"; "plan.json"], File "{}"); (["README"], File "synthetic")].

(** What a run left: the plan is a link, a directory is a file, a file has changed, and there
    are entries that were not there. *)
Definition damaged : tree :=
  list_to_map [(["state"], Directory); (["state"; "log"], File "was a directory"); (["state"; "plan.json"], Link);
               (["README"], File "changed"); (["extra"], Directory); (["extra"; "pipe"], Special)].

Definition snapshot_of (t : tree) : StateSnapshot :=
  match snapshot_files "instance" (Some t) with Ok s => s | Raise _ => empty_snapshot end.

Lemma instance_captured : snapshot_files "instance" (Some instance) = Ok (snapshot_of instance).
Proof. vm_compute. reflexivity. Qed.

Definition restored (t : tree) (sizes : list nat) : list (path * entry) * outcome snapshot_error unit :=
  let '(d, r) := restore_snapshot true (snapshot_of instance) {| entries := t; short_writes := sizes |} in (map_to_list (entries d), r).

(** Every write takes one byte or two. *)
Example restored_instance : restored damaged [1; 1; 2; 1; 2; 1; 1; 2; 1] = (map_to_list instance, Ok tt).
Proof. vm_compute. reflexivity. Qed.

Example no_progress : snd (restored damaged [1; 0]) = Raise NoProgress.
Proof. vm_compute. reflexivity. Qed.

Example captures_refuse_links : snapshot_files "instance" (Some damaged) = Raise (ValueError "instance contains a non-regular entry: extra/pipe")
  \/ snapshot_files "instance" (Some damaged) = Raise (ValueError "instance contains a symlink: state/plan.json").
Proof. vm_compute. (left; reflexivity) || (right; reflexivity). Qed.

Definition written_log : tree := <[["state"; "log"; "1"] := File "started"]> (delete ["README"] instance).

Example reported_changes :
  let d := diff_snapshots (snapshot_of instance) (snapshot_of written_log) in
  added d = ["state/log/1"] /\ removed d = ["README"] /\ modified d = [] /\ files_changed d = ["README"; "state/log/1"].
Proof. vm_compute. split_and!; reflexivity. Qed.

Lemma restore_brings_back_witness :
  exists rest, restore_snapshot true (snapshot_of instance) {| entries := damaged; short_writes := [1; 1; 2] |}
               = ({| entries := instance; short_writes := rest |}, Ok tt).
Proof.
  apply (restore_brings_back "instance" instance (snapshot_of instance) damaged [1; 1; 2]).
  - apply wf_treeb_true. vm_compute. reflexivity.
  - exact instance_captured.
  - apply wf_treeb_true. vm_compute. reflexivity.
  - repeat constructor.
Defined.

Lemma captures_compare_exactly_witness :
  files_changed (diff_snapshots (snapshot_of instance) (snapshot_of written_log)) <> [] /\
  digest_snapshot (snapshot_of instance) <> digest_snapshot (snapshot_of written_log).
Proof.
  destruct (captures_compare_exactly "instance" instance written_log (snapshot_of instance) (snapshot_of written_log)) as [Hf Hd].
  - apply wf_treeb_true. vm_compute. reflexivity.
  - apply wf_treeb_true. vm_compute. reflexivity.
  - exact instance_captured.
  - vm_compute. reflexivity.
  - apply collision_free_dups, collision_free_compute. apply (bool_decide_unpack _). vm_compute. constructor.
  - assert (Hne : instance <> written_log).
    { intros H. apply (f_equal (lookup ["README"])) in H. vm_compute in H. discriminate H. }
    split; [by intros ?%Hf|]. intros ?%Hd; [done|].
    apply collision_free_compute. apply (bool_decide_unpack _). vm_compute. constructor.
Defined.
