(* ===== verification/RunLedger.v ===== *)
(** * The ledger of governed runs (packages/governed-runner, ledger.py)

    Plans and outcomes of runs in one JSON file.  Every call reads the file again; writers
    hold a lock, so a call is one step, and replace the file as a whole.  The file is kept as
    [json.loads] would return it, that is with sorted keys; a write may fail before or after
    the file was replaced.  What an object remembers of an earlier read is part of its call,
    since any number of processes share the file. *)

From S2P Require Import Prelude Json Contracts.

Inductive ledger_error :=
| ValueError (message : string)
| KeyError (message : string)
| OSError.

Inductive ledger_file :=
| Absent
| Garbage
| Document (v : json).

Inductive write_fault := Lost | Late.

Abbreviation records := (list (string * dict)).

Record run_ledger := {
  file : ledger_file;
  memory : records;                       (* self._records *)
  faults : list (option write_fault);     (* what happens to the next writes *)
}.

Abbreviation ledger_call := (M run_ledger ledger_error).

Definition RUN_FORMAT : string := "stateport.governed-run/v1".
Definition STATUSES : list string := ["planned"; "queued"; "running"; "completed"; "failed"].

Definition TRANSITIONS (status : string) : list string :=
  if bool_decide (status = "planned") then ["queued"; "running"; "failed"]
  else if bool_decide (status = "queued") then ["running"; "failed"]
  else if bool_decide (status = "running") then ["running"; "completed"; "failed"]
  else [].

(** ** Reading *)

Definition load_failure (reason : string) : ledger_error := ValueError ("run ledger could not be loaded: " +:+ reason).

(** [item.get("status") in _STATUSES]; a status that cannot be hashed is refused as well. *)
Definition known_status (v : json) : bool := match v with JStr s => mem s STATUSES | _ => false end.

(** The [runId] of one record, when the record is valid *)
Definition record_run_id (record : json) : outcome ledger_error (string * dict) :=
  match record with
  | JObj item =>
      refuse_if (negb (py_eqb (key_json "formatVersion" item) (JStr RUN_FORMAT)))
        (load_failure "run ledger record has an invalid formatVersion") >>?
      let? run_id := match key_json "runId" item with
                     | JStr s => if nonblank s then Ok s else Raise (load_failure "run ledger record has an invalid runId")
                     | _ => Raise (load_failure "run ledger record has an invalid runId")
                     end in
      refuse_if (negb (known_status (key_json "status" item)))
        (load_failure (match key_json "status" item with
                       | JArr _ | JObj _ => "unhashable type"
                       | _ => "run ledger record has an invalid status"
                       end)) >>?
      Ok (run_id, item)
  | _ => Raise (load_failure "run ledger contains an invalid record")
  end.

Fixpoint load_records (loaded : records) (raw : list json) : outcome ledger_error records :=
  match raw with
  | [] => Ok loaded
  | record :: rest =>
      let? '(run_id, item) := record_run_id record in
      refuse_if (mem run_id (map fst loaded)) (load_failure "run ledger contains a duplicate runId") >>?
      load_records (loaded ++ [(run_id, item)]) rest
  end.

(** [_load] of an existing file *)
Definition loaded_from (v : json) : outcome ledger_error records :=
  match v with
  | JArr raw => load_records [] raw
  | _ => Raise (load_failure "run ledger must contain a list")
  end.

Definition set_memory (r : records) (s : run_ledger) : run_ledger := {| file := file s; memory := r; faults := faults s |}.

Definition refresh : ledger_call unit :=
  let* s := get in
  match file s with
  | Absent => put (set_memory [] s)
  | Garbage => raise (load_failure "not JSON")
  | Document v => let* r := lift (loaded_from v) in put (set_memory r s)
  end.

(** ** Writing *)

Definition document_of (r : records) : json :=
  JArr ((fun key => JObj (default [] (assoc_get key r))) <$> merge_sort String.le (map fst r)).

Definition persist : ledger_call unit :=
  let* s := get in
  let written := {| file := Document (norm (document_of (memory s))); memory := memory s; faults := tail (faults s) |} in
  match faults s with
  | Some Lost :: rest => put {| file := file s; memory := memory s; faults := rest |} >>* raise OSError
  | Some Late :: _ => put written >>* raise OSError
  | _ => put written
  end.

Record plan := {
  actor : string;
  instance_id : string;
  instance_path : string;
  template_path : string;
  capability : string;
  policy : dict;
  quota : dict;
  execution_plan : dict;
  estimated_cost : json;
  run_id_ : option string;
  mode : string;
  command : option (list string);
  container_engine : option string;
  runner_image : option string;
}.

(** [run_id or "run:" + secrets.token_hex(12)] *)
Definition chosen_run_id (p : plan) (token : string) : string :=
  match run_id_ p with
  | Some id => if bool_decide (id = "") then "run:" +:+ token else id
  | None => "run:" +:+ token
  end.

Definition jopt (o : option string) : json := match o with Some s => JStr s | None => JNull end.

Definition planned_record (p : plan) (run_id : string) : dict :=
  [("formatVersion", JStr RUN_FORMAT); ("runId", JStr run_id); ("status", JStr "planned"); ("actor", JStr (actor p));
   ("instanceId", JStr (instance_id p)); ("instancePath", JStr (instance_path p)); ("templatePath", JStr (template_path p));
   ("capability", JStr (capability p)); ("policy", JObj (policy p)); ("quota", JObj (quota p)); ("estimatedCost", estimated_cost p);
   ("executionPlan", JObj (execution_plan p)); ("mode", JStr (mode p)); ("command", jstrs (default [] (command p)));
   ("containerEngine", jopt (container_engine p)); ("runnerImage", jopt (runner_image p))].

Definition bad_image (image : string) : bool :=
  negb (nonblank image) || startswith "-" image || any_char py_isspace image.

Definition create (p : plan) (token : string) : ledger_call dict :=
  let run_id := chosen_run_id p token in
  raise_if (negb (nonblank (mode p))) (ValueError "run mode is required") >>*
  raise_if (match command p with Some l => bool_decide (l = []) || existsb (fun item => bool_decide (item = "")) l | None => false end)
    (ValueError "run command must be a non-empty list of strings") >>*
  raise_if (match container_engine p with Some e => negb (mem e ["docker"; "podman"]) | None => false end)
    (ValueError "container engine must be docker or podman") >>*
  raise_if (match runner_image p with Some i => bad_image i | None => false end)
    (ValueError "runner image must be a single non-empty image reference") >>*
  let record := planned_record p run_id in
  refresh >>*
  let* s := get in
  raise_if (mem run_id (map fst (memory s))) (ValueError "runId already exists") >>*
  put (set_memory (assoc_set run_id record (memory s)) s) >>*
  persist >>*
  ret record.

Definition get_run (run_id : string) : ledger_call (option dict) :=
  refresh >>* gets (fun s => assoc_get run_id (memory s)).

Definition IDENTITY : list string := ["runId"; "formatVersion"; "actor"; "instanceId"].

(** [status not in _TRANSITIONS[current["status"]]] *)
Definition may_become (current : dict) (status : string) : bool := mem status (TRANSITIONS (py_str (key_json "status" current))).

Definition update (run_id status : string) (fields : dict) : ledger_call dict :=
  raise_if (negb (mem status STATUSES)) (ValueError "invalid run status") >>*
  raise_if (existsb (fun k => mem k IDENTITY) (dict_keys fields)) (ValueError "immutable run identity fields may not be updated") >>*
  refresh >>*
  let* s := get in
  match assoc_get run_id (memory s) with
  | None => raise (KeyError "unknown run")
  | Some current =>
      raise_if (negb (may_become current status)) (ValueError "invalid run status transition") >>*
      let updated := dict_set "status" (JStr status) (dict_update current fields) in
      put (set_memory (assoc_set run_id updated (memory s)) s) >>*
      persist >>*
      ret updated
  end.

Definition all_runs : ledger_call (list dict) :=
  refresh >>* gets (fun s => (fun key => default [] (assoc_get key (memory s))) <$> merge_sort String.le (map fst (memory s))).

(** ** What the file holds *)

Definition runs (f : ledger_file) : option records :=
  match f with
  | Absent => Some []
  | Garbage => None
  | Document v => match loaded_from v with Ok r => Some r | Raise _ => None end
  end.

Record valid_records (r : records) : Prop := {
  distinct_ids : NoDup (map fst r);
  each_valid : Forall (fun kd => record_run_id (JObj (snd kd)) = Ok kd) r;
  each_wf : Forall (fun kd => wf_json (JObj (snd kd))) r;
}.

Lemma record_run_id_Ok record id d : record_run_id record = Ok (id, d) <->
  record = JObj d /\ key_json "formatVersion" d = JStr RUN_FORMAT /\ key_json "runId" d = JStr id /\ nonblank id = true /\
  exists status, key_json "status" d = JStr status /\ mem status STATUSES = true.
Proof.
  unfold record_run_id. split.
  - destruct record as [| | | | |item]; try done. intros H.
    apply obind_Ok in H as (? & Hf%refuse_if_Ok & H). apply negb_false_iff in Hf.
    apply obind_Ok in H as (id' & Hid & H). apply obind_Ok in H as (? & Hs%refuse_if_Ok & [= <- <-]). apply negb_false_iff in Hs.
    split; [done|]. split; [unfold py_eqb in Hf; apply bool_decide_eq_true in Hf; symmetry in Hf; by apply py_eq_str_l in Hf|].
    destruct (key_json "runId" item) as [| | |s| |]; try done. destruct (nonblank s) eqn:E; [|done]. injection Hid as ->.
    split; [done|]. split; [done|]. destruct (key_json "status" item) as [| | |t| |]; try done. by exists t.
  - intros (-> & Hf & Hid & Hn & status & Hs & Hm). rewrite Hf, py_eqb_refl, Hid, Hn, Hs. unfold known_status. by rewrite Hm.
Qed.

Lemma load_records_Ok raw : forall loaded r, load_records loaded raw = Ok r ->
  exists new, r = loaded ++ new /\ raw = (JObj ∘ snd) <$> new /\ Forall (fun kd => record_run_id (JObj (snd kd)) = Ok kd) new /\
    (NoDup (map fst loaded) -> NoDup (map fst r)).
Proof.
  induction raw as [|x raw IH]; intros loaded r H; cbn [load_records] in H.
  - injection H as <-. exists []. by rewrite app_nil_r.
  - apply obind_Ok in H as ([id d] & Hx & H). apply obind_Ok in H as (? & Hm%refuse_if_Ok%mem_false & H).
    apply IH in H as (new & -> & -> & Hall & Hnd). exists ((id, d) :: new). rewrite <-app_assoc. split; [done|].
    pose proof (proj1 (proj1 (record_run_id_Ok _ _ _) Hx)) as ->. split; [done|]. split; [by constructor|].
    intros Hl. rewrite <-app_assoc in Hnd. apply Hnd. rewrite map_app. apply NoDup_app. split; [done|]. split; [|apply NoDup_singleton].
    by intros y Hy ->%list_elem_of_singleton.
Qed.

Lemma load_records_accepts new : forall loaded, NoDup (map fst (loaded ++ new)) ->
  Forall (fun kd => record_run_id (JObj (snd kd)) = Ok kd) new -> load_records loaded ((JObj ∘ snd) <$> new) = Ok (loaded ++ new).
Proof.
  induction new as [|[id d] new IH]; intros loaded Hnd Hall; [by rewrite app_nil_r|].
  apply Forall_cons in Hall as [Hd Hall]. rewrite fmap_cons. cbn [load_records]. cbn [compose snd] in *. rewrite Hd. cbn [obind].
  assert (Hm : mem id (map fst loaded) = false).
  { apply mem_false. intros Hin. rewrite map_app in Hnd. apply NoDup_app in Hnd as (_ & Hnd & _). apply (Hnd id Hin). by left. }
  rewrite Hm. cbn [refuse_if obind]. change ((id, d) :: new) with ([(id, d)] ++ new) in *. rewrite app_assoc in *. by apply IH.
Qed.

Lemma load_records_refuses raw x e : x ∈ raw -> record_run_id x = Raise e -> forall loaded, exists e', load_records loaded raw = Raise e'.
Proof.
  intros Hin Hx. induction raw as [|y raw IH]; [by apply not_elem_of_nil in Hin|]. intros loaded. cbn [load_records].
  destruct (record_run_id y) as [[id d]|e'] eqn:Ey; cbn [obind]; [|by exists e'].
  destruct (mem id (map fst loaded)); cbn; [by eexists|]. apply elem_of_cons in Hin as [->|Hin]; [congruence|by apply IH].
Qed.

(** The file is absent, or holds a ledger that loads. *)
Definition good (f : ledger_file) (r : records) : Prop :=
  runs f = Some r /\ match f with Document v => wf_json v | _ => True end.

Lemma good_valid f r : good f r -> valid_records r.
Proof.
  intros [H Hw]. destruct f as [| |v]; [injection H as <-; repeat constructor|done|]. cbn in H.
  destruct (loaded_from v) as [r'|] eqn:E; [|done]. injection H as ->. destruct v as [| | | |raw|]; try done.
  apply load_records_Ok in E as (new & -> & -> & Hall & Hnd). cbn [app] in *. constructor; [apply Hnd; constructor|done|].
  inversion Hw as [| | | |? Hf|]; subst.
  exact (proj1 (Forall_fmap (JObj ∘ snd) wf_json new) Hf).
Qed.

(** *** What is written is read back *)

Definition norm_dict (d : dict) : dict := sort_fields (norm_fields d).

Definition normed (r : records) : records :=
  (fun k => (k, norm_dict (default [] (assoc_get k r)))) <$> merge_sort String.le (map fst r).

Lemma key_json_normed k (d : dict) : NoDup (dict_keys d) -> key_json k (norm_dict d) = norm (key_json k d).
Proof. intros H. unfold key_json, norm_dict. rewrite dict_get_sort_norm by done. by destruct (dict_get k d). Qed.

Lemma normed_get k r : assoc_get k (normed r) = norm_dict <$> assoc_get k r.
Proof.
  unfold normed. rewrite assoc_get_keys. destruct (assoc_get k r) as [d|] eqn:E.
  - rewrite decide_True; [done|]. rewrite (merge_sort_Permutation String.le). apply list_elem_of_fmap. exists (k, d). split; [done|].
    by apply assoc_get_elem.
  - apply assoc_get_None in E. rewrite decide_False; [done|]. by rewrite (merge_sort_Permutation String.le).
Qed.

Lemma valid_get r k d : valid_records r -> assoc_get k r = Some d ->
  record_run_id (JObj d) = Ok (k, d) /\ wf_json (JObj d).
Proof.
  intros [_ Hv Hw] H. apply assoc_get_elem in H.
  exact (conj (proj1 (Forall_forall _ _) Hv _ H) (proj1 (Forall_forall _ _) Hw _ H)).
Qed.

Lemma normed_record k d : record_run_id (JObj d) = Ok (k, d) -> wf_json (JObj d) -> record_run_id (JObj (norm_dict d)) = Ok (k, norm_dict d).
Proof.
  intros (_ & Hf & Hid & Hn & status & Hs & Hm)%record_run_id_Ok [Hnd _]%wf_json_obj. apply record_run_id_Ok.
  rewrite !key_json_normed, Hf, Hid, Hs by done. eauto 10.
Qed.

Lemma written_is_read r : valid_records r -> good (Document (norm (document_of r))) (normed r).
Proof.
  intros Hv.
  assert (Hkeys : forall k, k ∈ merge_sort String.le (map fst r) -> exists d, assoc_get k r = Some d).
  { intros k Hk. rewrite (merge_sort_Permutation String.le) in Hk. destruct (assoc_get k r) as [d|] eqn:E; [by exists d|].
    by apply assoc_get_None in E. }
  assert (Hdoc : norm (document_of r) = JArr ((JObj ∘ snd) <$> normed r)).
  { unfold document_of, normed. rewrite norm_arr, <-list_fmap_compose. f_equal. change map with (@fmap list _). 
    rewrite <-list_fmap_compose. apply list_fmap_ext. intros i k _. cbn [compose snd]. by rewrite norm_obj. }
  assert (Hall : Forall (fun kd => record_run_id (JObj (snd kd)) = Ok kd) (normed r)).
  { apply Forall_fmap, Forall_forall. intros k (d & Hd)%Hkeys. cbn. rewrite Hd. destruct (valid_get _ _ _ Hv Hd). by apply normed_record. }
  split.
  - cbn [runs]. rewrite Hdoc. cbn [loaded_from]. rewrite load_records_accepts; [done| |done]. cbn [app]. unfold normed.
    change (map fst) with (fmap (M := list) (@fst string dict)). rewrite <-list_fmap_compose, list_fmap_id.
    rewrite (merge_sort_Permutation String.le). apply (distinct_ids _ Hv).
  - apply norm_wf. constructor. apply Forall_fmap, Forall_forall. intros k (d & Hd)%Hkeys. cbn. rewrite Hd. by apply (valid_get _ _ _ Hv Hd).
Qed.

(** ** Calls of any number of processes *)

Inductive ledger_request :=
| Create (p : plan) (token : string)
| Update (run_id status : string) (fields : dict)
| Get (run_id : string)
| All.

Definition silently {A} (m : ledger_call A) : ledger_call unit := m >>*fun s => (s, Ok tt).

Definition perform (c : ledger_request) : ledger_call unit :=
  match c with
  | Create p token => silently (create p token)
  | Update id status fields => silently (update id status fields)
  | Get id => silently (get_run id)
  | All => silently all_runs
  end.

(** A call by an object that remembers [stale] *)
Definition ledger_step (s : run_ledger) (c : records * ledger_request) : run_ledger := fst (perform (snd c) (set_memory (fst c) s)).

Definition wf_plan (p : plan) : Prop :=
  wf_json (JObj (policy p)) /\ wf_json (JObj (quota p)) /\ wf_json (JObj (execution_plan p)) /\ wf_json (estimated_cost p).

(** Documents are well formed: no dictionary has a key twice. *)
Definition wf_request (c : ledger_request) : Prop :=
  match c with
  | Create p _ => wf_plan p
  | Update _ _ fields => wf_json (JObj fields)
  | _ => True
  end.

(** *** How a run may change *)

Definition status_of (d : dict) : string := py_str (key_json "status" d).
Definition transition (s t : string) : Prop := t ∈ TRANSITIONS s.

Record legal (d d' : dict) : Prop := {
  same_identity : Forall (fun k => norm (key_json k d') = norm (key_json k d)) IDENTITY;
  status_path : rtc transition (status_of d) (status_of d');
  ended_unchanged : TRANSITIONS (status_of d) = [] -> norm (JObj d') = norm (JObj d);
}.

#[export] Instance legal_preorder : PreOrder legal.
Proof.
  split.
  - intros d. constructor; [by apply Forall_true|constructor|done].
  - intros d1 d2 d3 [I1 P1 E1] [I2 P2 E2]. constructor.
    + apply Forall_forall. intros k Hk. etrans; [exact (proj1 (Forall_forall _ _) I2 k Hk)|exact (proj1 (Forall_forall _ _) I1 k Hk)].
    + by etrans.
    + intros H. specialize (E1 H). etrans; [|exact E1]. apply E2.
      inversion P1 as [? E1' E2'|? y ? Ht _]; [congruence|]. unfold transition in Ht. rewrite H in Ht. by apply not_elem_of_nil in Ht.
Qed.

(** Every run stays in the ledger and changes legally. *)
Definition evolves (r r' : records) : Prop :=
  forall id d, assoc_get id r = Some d -> exists d', assoc_get id r' = Some d' /\ legal d d'.

#[export] Instance evolves_preorder : PreOrder evolves.
Proof.
  split.
  - intros r id d H. by exists d.
  - intros r1 r2 r3 H1 H2 id d (d2 & Hd2 & L2)%H1. destruct (H2 _ _ Hd2) as (d3 & Hd3 & L3). exists d3. split; [done|]. by etrans.
Qed.

Lemma legal_normed d : wf_json (JObj d) -> (exists s, key_json "status" d = JStr s) -> legal d (norm_dict d).
Proof.
  intros Hw [s Hs]. pose proof Hw as [Hnd _]%wf_json_obj.
  assert (Hn : norm (JObj (norm_dict d)) = norm (JObj d)).
  { change (norm_dict d) with (sort_fields (norm_fields d)). rewrite <-(norm_obj d). by apply norm_idem. }
  constructor; [| |done].
  - apply Forall_forall. intros k _. rewrite key_json_normed by done. apply norm_idem. by apply wf_key.
  - unfold status_of. rewrite key_json_normed, Hs by done. constructor.
Qed.

Lemma evolves_normed r : valid_records r -> evolves r (normed r).
Proof.
  intros Hv id d Hd. exists (norm_dict d). rewrite normed_get, Hd. split; [done|].
  destruct (valid_get _ _ _ Hv Hd) as [(_ & _ & _ & _ & s & Hs & _)%record_run_id_Ok Hw]. apply legal_normed; [done|by exists s].
Qed.

(** *** Every call *)

(** The file still loads, and its runs evolved. *)
Definition moved (r : records) (s : run_ledger) : Prop := exists r', good (file s) r' /\ evolves r r'.

Lemma wp_refresh {Q R} s r : good (file s) r -> Q tt (set_memory r s) -> wp refresh Q R s.
Proof.
  intros [H _] HQ. unfold wp, refresh. rewrite bind_get. destruct (file s) as [| |v] eqn:Ef; cbn [runs] in H.
  - injection H as <-. exact HQ.
  - done.
  - destruct (loaded_from v) as [r'|]; [|done]. injection H as ->. rewrite bind_lift_ok. exact HQ.
Qed.

Lemma persist_moves r s : good (file s) r -> valid_records (memory s) -> evolves r (memory s) ->
  wp persist (fun _ s' => moved r s') (fun _ s' => moved r s') s.
Proof.
  intros Hg Hv He. unfold persist.
  assert (Hw : forall m l, moved r {| file := Document (norm (document_of (memory s))); memory := m; faults := l |}).
  { intros m l. exists (normed (memory s)). split; [by apply written_is_read|]. etrans; [exact He|by apply evolves_normed]. }
  repeat wp_step. destruct (faults s) as [|[[]|] l]; repeat wp_step; try apply Hw. by exists r.
Qed.

Lemma valid_set r id d : valid_records r -> record_run_id (JObj d) = Ok (id, d) -> wf_json (JObj d) ->
  valid_records (assoc_set id d r).
Proof.
  intros [Hn Hv Hw] Hd Hwd. constructor; [by apply assoc_set_NoDup| |].
  - apply Forall_forall. intros [k e] [[= -> ->]|H]%assoc_set_elem; [done|exact (proj1 (Forall_forall _ _) Hv _ H)].
  - apply Forall_forall. intros [k e] [[= -> ->]|H]%assoc_set_elem; [done|exact (proj1 (Forall_forall _ _) Hw _ H)].
Qed.

Lemma evolves_set r id d : (forall c, assoc_get id r = Some c -> legal c d) -> evolves r (assoc_set id d r).
Proof.
  intros H k c Hc. destruct (decide (k = id)) as [->|Hne].
  - exists d. rewrite assoc_get_set_eq. split; [done|by apply H].
  - exists c. by rewrite assoc_get_set_ne.
Qed.

Lemma planned_record_valid p id : wf_plan p -> nonblank id = true ->
  record_run_id (JObj (planned_record p id)) = Ok (id, planned_record p id) /\ wf_json (JObj (planned_record p id)).
Proof.
  intros (Hp & Hq & He & Hc) Hn. split.
  - apply record_run_id_Ok. split_and!; [done..|]. exists "planned". by split.
  - apply wf_json_obj. split; [apply (bool_decide_unpack _); vm_compute; constructor|].
    repeat (constructor; [cbn [snd]; try done; try (by constructor); try apply wf_jstrs; try (destruct (container_engine p); constructor);
      try (destruct (runner_image p); constructor)|]). constructor.
Qed.

Lemma updated_legal d id status fields : record_run_id (JObj d) = Ok (id, d) -> wf_json (JObj d) -> wf_json (JObj fields) ->
  existsb (fun k => mem k IDENTITY) (dict_keys fields) = false -> mem status STATUSES = true -> may_become d status = true ->
  let d' := dict_set "status" (JStr status) (dict_update d fields) in
  record_run_id (JObj d') = Ok (id, d') /\ wf_json (JObj d') /\ legal d d'.
Proof.
  intros Hd Hw Hf Hi Hs Hm d'. pose proof (proj1 (record_run_id_Ok _ _ _) Hd) as (_ & Hv & Hid & Hn & _).
  assert (Hkey : forall k, k ∈ IDENTITY -> key_json k d' = key_json k d).
  { intros k Hk. unfold d', key_json. rewrite dict_get_set_ne, dict_get_update; [done| |].
    - intros Hin. pose proof (proj1 (existsb_false _ _) Hi _ Hin) as Hm'. by apply mem_false in Hm'.
    - intros ->. by repeat (apply elem_of_cons in Hk as [Hk|Hk]; [done|]); apply not_elem_of_nil in Hk. }
  assert (Hst : key_json "status" d' = JStr status) by (unfold d', key_json; by rewrite dict_get_set_eq).
  split; [|split].
  - apply record_run_id_Ok. rewrite !Hkey by (repeat constructor). split_and!; [done..|]. by exists status.
  - apply wf_dict_set; [|constructor]. apply wf_dict_update; [done|]. by apply wf_json_obj in Hf as [_ Hf].
  - constructor.
    + apply Forall_forall. intros k Hk. by rewrite Hkey.
    + unfold status_of. rewrite Hst. apply rtc_once. by apply mem_true.
    + intros E. unfold may_become, status_of in *. rewrite E in Hm. by apply mem_true, not_elem_of_nil in Hm.
Qed.

Lemma moved_here r s : good (file s) r -> moved r s.
Proof. intros H. by exists r. Qed.

(** What [create] can do to the file: nothing, or one planned run more. *)
Lemma wp_create_run r p token s (Q : run_ledger -> Prop) : good (file s) r ->
  (forall s', file s' = file s -> Q s') ->
  (assoc_get (chosen_run_id p token) r = None -> forall s',
     file s' = Document (norm (document_of (assoc_set (chosen_run_id p token) (planned_record p (chosen_run_id p token)) r))) -> Q s') ->
  wp (create p token) (fun _ => Q) (fun _ => Q) s.
Proof.
  intros Hg Hsame Hnew. unfold create. cbv zeta. do 4 (wp_step; wp_step; [by apply Hsame|]).
  wp_step. apply wp_refresh with (r := r); [exact Hg|]. wp_step. wp_step. wp_step. wp_step; [by apply Hsame|].
  match goal with H : mem _ _ = false |- _ => apply mem_false, assoc_get_None in H; specialize (Hnew H) end.
  wp_step. wp_step. wp_step. unfold persist. repeat wp_step. cbn [set_memory file memory faults] in *.
  destruct (faults s) as [|[[]|] l]; repeat wp_step; first [by apply Hsame|by apply Hnew].
Qed.

Lemma create_moves r p token s : good (file s) r -> wf_plan p -> nonblank (chosen_run_id p token) = true ->
  wp (create p token) (fun _ s' => moved r s') (fun _ s' => moved r s') s.
Proof.
  intros Hg Hp Hn. destruct (planned_record_valid p _ Hp Hn) as [Hr Hw].
  apply (wp_create_run r); [done| |].
  - intros s' E. exists r. by rewrite E.
  - intros Hnew s' E. set (m := assoc_set _ _ r) in *.
    assert (Hm : valid_records m) by (apply valid_set; [by eapply good_valid|done..]).
    exists (normed m). rewrite E. split; [by apply written_is_read|]. etrans; [|by apply evolves_normed].
    apply evolves_set. congruence.
Qed.

Lemma update_moves r id status fields s : good (file s) r -> wf_json (JObj fields) ->
  wp (update id status fields) (fun _ s' => moved r s') (fun _ s' => moved r s') s.
Proof.
  intros Hg Hf. pose proof (good_valid _ _ Hg) as Hv. pose proof (moved_here r s Hg) as Hs. unfold update.
  wp_step. wp_step; [exact Hs|]. match goal with H : negb _ = false |- _ => apply negb_false_iff in H; rename H into Hst end.
  wp_step. wp_step; [exact Hs|]. match goal with H : existsb _ _ = false |- _ => rename H into Hid end.
  wp_step. apply wp_refresh with (r := r); [exact Hg|]. wp_step. wp_step. cbn [set_memory memory].
  destruct (assoc_get id r) as [d|] eqn:Ed; [|wp_step; exact Hs].
  wp_step. wp_step; [exact Hs|]. match goal with H : negb _ = false |- _ => apply negb_false_iff in H; rename H into Hmay end.
  destruct (valid_get _ _ _ Hv Ed) as [Hd Hw].
  destruct (updated_legal d id status fields Hd Hw Hf Hid Hst Hmay) as (Hd' & Hw' & Hl). cbv zeta.
  wp_step. wp_step. wp_step. eapply wp_mono; [apply (persist_moves r)| |done]; cbn [set_memory file memory].
  - exact Hg.
  - by apply valid_set.
  - apply evolves_set. intros c Hc. rewrite Ed in Hc. by injection Hc as <-.
  - intros [] s' Hm. by wp_step.
Qed.

Lemma silently_moves {A} (m : ledger_call A) r s : wp m (fun _ s' => moved r s') (fun _ s' => moved r s') s -> moved r (fst (silently m s)).
Proof.
  intros H. apply (wp_final (silently m) (moved r)). unfold silently. apply wp_bind. eapply wp_mono; [exact H| |done].
  intros a s' Hm. exact Hm.
Qed.

(** *** A blank identifier *)

(** [create] accepts any identifier that is not empty, and [_load] refuses blank ones. *)
Definition locked (f : ledger_file) : Prop := exists v e, f = Document v /\ loaded_from v = Raise e.

Lemma locked_refresh s : locked (file s) -> exists e, refresh s = (s, Raise e).
Proof.
  intros (v & e & Hf & He). exists e. unfold refresh. rewrite bind_get, Hf. unfold bind. by rewrite He.
Qed.

Lemma locked_call s c : locked (file s) -> file (fst (perform c s)) = file s /\ exists e, snd (perform c s) = Raise e.
Proof.
  intros [e He]%locked_refresh.
  assert (Hwp : wp (perform c) (fun _ _ => False) (fun _ s' => s' = s) s).
  { assert (Hr : forall {B} (k : unit -> ledger_call B), wp (refresh >>*k tt) (fun _ _ => False) (fun _ s' => s' = s) s)
      by (intros B k; unfold wp; by rewrite (bind_raises _ _ _ _ _ He)).
    assert (Hsil : forall {A} (m : ledger_call A), wp m (fun _ _ => False) (fun _ s' => s' = s) s ->
              wp (silently m) (fun _ _ => False) (fun _ s' => s' = s) s).
    { intros A m Hm. unfold silently. apply wp_bind. by eapply wp_mono; [exact Hm| |]. }
    destruct c as [p token|id status fields|id|]; cbn [perform]; apply Hsil.
    - unfold create. cbv zeta. do 4 (wp_step; wp_step; [done|]). apply (Hr _ (fun _ => _)).
    - unfold update. do 2 (wp_step; wp_step; [done|]). apply (Hr _ (fun _ => _)).
    - apply (Hr _ (fun _ => _)).
    - apply (Hr _ (fun _ => _)). }
  unfold wp in Hwp. destruct (perform c s) as [s' [a|e']]; [done|]. subst s'. split; [done|]. by exists e'.
Qed.

Lemma locked_step s c : locked (file s) -> file (ledger_step s c) = file s.
Proof. intros H. unfold ledger_step. by apply (locked_call (set_memory (fst c) s)). Qed.

Lemma blank_refused p id : nonblank id = false -> exists e, record_run_id (norm (JObj (planned_record p id))) = Raise e.
Proof.
  intros Hb. rewrite norm_obj. fold (norm_dict (planned_record p id)).
  destruct (record_run_id _) as [[id' d]|e] eqn:E; [|by exists e]. exfalso.
  apply record_run_id_Ok in E as ([= <-] & _ & Hid & Hn & _). rewrite key_json_normed in Hid
    by (apply (bool_decide_unpack _); vm_compute; constructor).
  cbn in Hid. injection Hid as <-. congruence.
Qed.

(** The document that a run with a blank identifier is written into does not load. *)
Lemma blank_document_locks p id r : nonblank id = false -> locked (Document (norm (document_of (assoc_set id (planned_record p id) r)))).
Proof.
  intros Hb. set (m := assoc_set id (planned_record p id) r). destruct (blank_refused p id Hb) as [e He].
  destruct (load_records_refuses (norm <$> ((fun key => JObj (default [] (assoc_get key m))) <$> merge_sort String.le (map fst m)))
              (norm (JObj (planned_record p id))) e) with (loaded := @nil (string * dict)) as [e' He'].
  - apply list_elem_of_fmap. eexists. split; [done|]. apply list_elem_of_fmap. exists id. unfold m at 1. rewrite assoc_get_set_eq.
    split; [done|]. rewrite (merge_sort_Permutation String.le). apply list_elem_of_fmap.
    exists (id, planned_record p id). split; [done|]. apply assoc_get_elem. apply assoc_get_set_eq.
  - exact He.
  - exists (norm (document_of m)), e'. by split.
Qed.

(** *** What a call leaves behind *)

(** A document that does not load, with every run of [r] in it, legally changed. *)
Definition stuck (r : records) (s : run_ledger) : Prop :=
  exists m, evolves r m /\ file s = Document (norm (document_of m)) /\ locked (file s).

Definition names_blank_run (c : ledger_request) : Prop :=
  match c with Create p token => nonblank (chosen_run_id p token) = false | _ => False end.

Lemma ledger_step_moves r s c : good (file s) r -> wf_request (snd c) ->
  moved r (ledger_step s c) \/ (names_blank_run (snd c) /\ stuck r (ledger_step s c)).
Proof.
  intros Hg Hc. destruct c as [stale [p token|id status fields|id|]]; cbn [snd wf_request] in Hc; unfold ledger_step; cbn [fst snd perform].
  - destruct (nonblank (chosen_run_id p token)) eqn:Hn; [left; apply silently_moves; by apply create_moves|].
    set (Q := fun s' => moved r s' \/ (nonblank (chosen_run_id p token) = false /\ stuck r s')).
    apply (wp_final (silently (create p token)) Q). unfold silently. apply wp_bind.
    eapply (wp_mono _ (fun _ => Q) _ (fun _ => Q)); [apply (wp_create_run r); [exact Hg|..]|by intros a s' H|done].
    + intros s' E. left. exists r. by rewrite E.
    + intros Hnew s' E. right. split; [done|]. eexists. split; [|split; [exact E|rewrite E; by apply blank_document_locks]].
      apply evolves_set. congruence.
  - left. apply silently_moves. by apply update_moves.
  - left. apply silently_moves. unfold get_run. wp_step. apply wp_refresh with (r := r); [exact Hg|]. wp_step. by apply moved_here.
  - left. apply silently_moves. unfold all_runs. wp_step. apply wp_refresh with (r := r); [exact Hg|]. wp_step. by apply moved_here.
Qed.

Lemma stuck_for_good r s tr : stuck r s -> stuck r (run_trace ledger_step s tr).
Proof.
  intros (m & He & Hf & Hl). exists m. split; [done|]. enough (file (run_trace ledger_step s tr) = file s) as E by by rewrite E.
  apply (run_trace_invariant ledger_step (fun t => file t = file s)); [|done]. intros t c E. rewrite locked_step; [done|]. by rewrite E.
Qed.

(** C35 The history of every run is legal.  However many processes plan, update and read runs,
    each remembering whatever it read before, and whichever writes fail before or after the
    file is replaced: no run ever leaves the file; a run keeps its identifier, format, actor
    and instance; its status only moves along the transitions planned, queued, running,
    completed or failed; and the record of a run that completed or failed does not change any
    more.  The ledger file keeps loading, unless some call created a run with a blank
    identifier: then the file never loads again, and still holds what it held. *)
Theorem run_history_is_legal s r tr : good (file s) r -> Forall (fun c => wf_request (snd c)) tr ->
  let u := run_trace ledger_step s tr in
  exists r', (forall id d, assoc_get id r = Some d -> exists d', assoc_get id r' = Some d' /\ legal d d') /\
    (good (file u) r' \/
     (file u = Document (norm (document_of r')) /\ locked (file u) /\ Exists (fun c => names_blank_run (snd c)) tr)).
Proof.
  intros Hg Htr. cbv zeta. revert s r Hg. induction Htr as [|c tr Hc _ IH]; intros s r Hg.
  { exists r. split; [by apply evolves_preorder|by left]. }
  cbn [run_trace foldl]. fold (run_trace ledger_step (ledger_step s c) tr).
  destruct (ledger_step_moves r s c Hg Hc) as [(r1 & Hg1 & He1)|[Hb Hs]].
  - destruct (IH _ _ Hg1) as (r2 & He2 & H). exists r2. split; [exact (PreOrder_Transitive r r1 r2 He1 He2)|].
    destruct H as [H|(Hf & Hl & Hx)]; [by left|right]. do 2 (split; [done|]). by apply Exists_cons_tl.
  - destruct (stuck_for_good r _ tr Hs) as (m & He & Hf & Hl). exists m. split; [exact He|right].
    do 2 (split; [done|]). by apply Exists_cons_hd.
Qed.

Lemma persist_Ok s s' : persist s = (s', Ok tt) -> file s' = Document (norm (document_of (memory s))).
Proof.
  unfold persist. rewrite bind_get. destruct (faults s) as [|[[]|] l]; cbn; intros [= <-]; done.
Qed.

Lemma create_Ok p token s s' d : create p token s = (s', Ok d) ->
  exists r, file s' = Document (norm (document_of (assoc_set (chosen_run_id p token) (planned_record p (chosen_run_id p token)) r))).
Proof.
  unfold create. intros H. do 4 (apply bind_Ok in H as (? & ? & [-> _]%raise_if_Ok & H)).
  apply bind_Ok in H as (s1 & [] & _ & H). rewrite bind_get in H. apply bind_Ok in H as (? & ? & [-> _]%raise_if_Ok & H).
  apply bind_Ok in H as (s2 & ? & ->%put_Ok & H). apply bind_Ok in H as (s3 & [] & Hp%persist_Ok & H).
  apply ret_Ok in H as [-> _]. exists (memory s1). exact Hp.
Qed.

(** A blank identifier locks the ledger.  If [create] accepts a run whose explicit
    identifier consists of blanks, the file it writes never loads again: every later call of
    any process raises and leaves the file as it is. *)
Theorem blank_identifier_locks_ledger p token s s' d tr c :
  create p token s = (s', Ok d) -> nonblank (chosen_run_id p token) = false ->
  file (run_trace ledger_step s' tr) = file s' /\
  exists e, snd (perform (snd c) (set_memory (fst c) (run_trace ledger_step s' tr))) = Raise e.
Proof.
  intros (r & Hf)%create_Ok Hb.
  assert (Hl : locked (file s')) by (rewrite Hf; by apply blank_document_locks).
  assert (Ht : file (run_trace ledger_step s' tr) = file s').
  { apply (run_trace_invariant ledger_step (fun t => file t = file s')); [|done].
    intros t c' E. rewrite locked_step; [done|]. by rewrite E. }
  split; [exact Ht|]. apply locked_call. cbn. by rewrite Ht.
Qed.

(** ** Examples *)

Definition echo_plan (id : option string) : plan :=
  {| actor := "owner"; instance_id := "instance-1"; instance_path := "/instances/1"; template_path := "/templates/1"; capability := "run.echo";
     policy := [("decision", JStr "allow")]; quota := []; execution_plan := [("steps", JArr [])]; estimated_cost := JInt 0; run_id_ := id;
     mode := "echo"; command := Some ["echo"; "hi"]; container_engine := None; runner_image := None |}.

Definition no_ledger (l : list (option write_fault)) : run_ledger := {| file := Absent; memory := []; faults := l |}.

Definition one_run : list (records * ledger_request) :=
  [([], Create (echo_plan (Some "run:1")) ""); ([], Update "run:1" "running" [("startedAt", JStr "now")]);
   ([], Update "run:1" "completed" []); ([], Update "run:1" "failed" [])].

Definition statuses (s : run_ledger) : option (list (string * string)) := fmap (M := list) (fun kd => (fst kd, status_of (snd kd))) <$> runs (file s).

Example run_completes : statuses (run_trace ledger_step (no_ledger []) one_run) = Some [("run:1", "completed")].
Proof. vm_compute. reflexivity. Qed.

(** The second write is lost, the third is made although it raises. *)
Example faulty_writes : statuses (run_trace ledger_step (no_ledger [None; Some Lost; Some Late])
  [([], Create (echo_plan (Some "run:1")) ""); ([], Update "run:1" "queued" []); ([], Update "run:1" "running" [])]) = Some [("run:1", "running")].
Proof. vm_compute. reflexivity. Qed.

Lemma echo_plan_wf id : wf_plan (echo_plan id).
Proof. split_and!; apply wf_jsonb_wf; reflexivity. Qed.

Lemma run_history_is_legal_witness : exists r', good (file (run_trace ledger_step (no_ledger []) one_run)) r'.
Proof.
  destruct (run_history_is_legal (no_ledger []) [] one_run) as (r' & _ & [Hg|(_ & _ & Hb)]).
  - by split.
  - unfold one_run. repeat (constructor; [cbn [snd wf_request];
      first [apply echo_plan_wf | apply wf_jsonb_wf; reflexivity]|]). constructor.
  - exists r'. exact Hg.
  - exfalso. unfold one_run in Hb. repeat (apply Exists_cons in Hb as [Hb|Hb]; [cbn in Hb; done|]). by apply Exists_nil in Hb.
Defined.

Definition blank_ledger : run_ledger := fst (create (echo_plan (Some " ")) "" (no_ledger [])).

Lemma blank_identifier_locks_ledger_witness :
  exists e, snd (perform (Get "run:1") (set_memory [] (run_trace ledger_step blank_ledger one_run))) = Raise e.
Proof.
  apply (blank_identifier_locks_ledger (echo_plan (Some " ")) "" (no_ledger []) blank_ledger (planned_record (echo_plan (Some " ")) " ")
           one_run ([], Get "run:1")).
  - vm_compute. reflexivity.
  - reflexivity.
Defined.
