(* ===== verification/AppendOnly.v ===== *)
(** * Append-only instance state (packages/statedd-core, append_only_policy.py)

    A stream of records that a lifecycle may extend by one registered migration marker, and
    never rewrite.  An update is planned over the live records, applied only to its exact
    base and rolled back only from its exact result.  Records are JSON documents; the files
    they are kept in are the caller's. *)

From S2P Require Import Prelude Json Sha256 Paths Contracts.

(** [parsed.parts[0]] of an empty path raises [IndexError]. *)
Inductive policy_error :=
| LifecycleError (message : string)
| IndexError.

Abbreviation allowed := (outcome policy_error).

Definition forbidden {A} (message : string) : allowed A := Raise (LifecycleError message).
Definition forbidden_if (b : bool) (message : string) : allowed unit := refuse_if b (LifecycleError message).

Definition MIGRATION_MARKER_FORMAT : string := "statedd.migration-marker/v1".
Definition APPEND_ONLY_ROLLBACK_MODE : string := "transactional_snapshot".
Definition MIGRATION_MARKER_TYPE : string := "migration_marker".
Definition SENSITIVITIES : list string := ["public"; "internal"; "private"; "secret"].

(** [_string] *)
Definition string_ (v : json) (label : string) : allowed string :=
  match v with
  | JStr s => if nonblank s then Ok s else forbidden (label +:+ " must be a non-empty string")
  | _ => forbidden (label +:+ " must be a non-empty string")
  end.

(** [PurePosixPath(path).as_posix()] of a relative path *)
Definition as_posix (parts : list string) : string := if bool_decide (parts = []) then "." else join_slash parts.

Definition policy_path (value : string) : allowed string :=
  let? path := string_ (JStr value) "path" in
  let parts := path_parts path in
  let refused := forbidden "append-only path must be a safe relative data path" in
  if startswith "/" path || has_backslash path || negb (bool_decide (path = as_posix parts))
     || existsb (fun part => mem part [""; "."; ".."]) parts
  then refused
  else match parts with
       | [] => Raise IndexError
       | first :: _ => if mem first [".git"; ".statedd"; ".stateport"] then refused else Ok path
       end.

(** [_canonical_digest]: ASCII only *)
Definition ascii_document (v : json) : string := encode (dumps true v).
Definition ascii_digest (v : json) : string := "sha256:" +:+ sha256_hex (ascii_document v).

(** ** Markers and policies *)

Record MigrationMarker := {
  marker_id : string;
  source_schema : string;
  target_schema : string;
  marker_sensitivity : string;
}.

#[export] Instance MigrationMarker_eq_dec : EqDecision MigrationMarker.
Proof. solve_decision. Defined.

Definition new_marker (id source target sensitivity : string) : allowed MigrationMarker :=
  string_ (JStr id) "marker_id" >>?
  string_ (JStr source) "source_schema" >>?
  string_ (JStr target) "target_schema" >>?
  forbidden_if (negb (mem sensitivity SENSITIVITIES)) "marker sensitivity is invalid" >>?
  forbidden_if (bool_decide (source = target)) "migration marker must change schema" >>?
  Ok {| marker_id := id; source_schema := source; target_schema := target; marker_sensitivity := sensitivity |}.

Definition record_id (m : MigrationMarker) : string := "migration:" +:+ marker_id m.

Definition as_record (m : MigrationMarker) : dict :=
  [("formatVersion", JStr MIGRATION_MARKER_FORMAT); ("recordId", JStr (record_id m)); ("recordType", JStr MIGRATION_MARKER_TYPE);
   ("markerId", JStr (marker_id m)); ("sourceSchema", JStr (source_schema m)); ("targetSchema", JStr (target_schema m));
   ("sensitivity", JStr (marker_sensitivity m))].

Record AppendOnlyLifecyclePolicy := {
  path : string;
  sensitivity : string;
  registered_markers : list MigrationMarker;
}.

Definition new_policy (path_ sensitivity_ : string) (markers : list MigrationMarker) (rollback_mode : string)
    : allowed AppendOnlyLifecyclePolicy :=
  let? p := policy_path path_ in
  forbidden_if (negb (mem sensitivity_ SENSITIVITIES)) "append-only policy sensitivity is invalid" >>?
  forbidden_if (negb (bool_decide (rollback_mode = APPEND_ONLY_ROLLBACK_MODE)))
    "append-only policy must use transactional snapshot rollback" >>?
  forbidden_if (has_dups (marker_id <$> markers)) "registered migration markers must be unique" >>?
  match List.find (fun m => negb (bool_decide (marker_sensitivity m = sensitivity_))) markers with
  | Some m => forbidden ("marker " +:+ repr_str (marker_id m) +:+ " sensitivity does not match policy")
  | None => Ok {| path := p; sensitivity := sensitivity_; registered_markers := markers |}
  end.

Definition create (path_ sensitivity_ : string) (markers : list MigrationMarker) : allowed AppendOnlyLifecyclePolicy :=
  new_policy path_ sensitivity_ markers APPEND_ONLY_ROLLBACK_MODE.

(** [policy.marker(marker_id)] *)
Definition marker (policy : AppendOnlyLifecyclePolicy) (id : string) : allowed MigrationMarker :=
  match List.find (fun m => bool_decide (marker_id m = id)) (registered_markers policy) with
  | Some m => Ok m
  | None => forbidden ("migration marker is not registered: " +:+ id)
  end.

(** ** Records *)

Definition is_marker (record : dict) : bool := py_eqb (key_json "recordType" record) (JStr MIGRATION_MARKER_TYPE).

Definition check_marker (policy : AppendOnlyLifecyclePolicy) (id : string) (record : dict) : allowed unit :=
  if is_marker record
  then let? mid := string_ (key_json "markerId" record) ("record " +:+ id +:+ ".markerId") in
       let? m := marker policy mid in
       forbidden_if (negb (py_eqb (JObj record) (JObj (as_record m))))
         ("registered migration marker " +:+ repr_str mid +:+ " was rewritten")
  else forbidden_if (dict_has "markerId" record || dict_has "sourceSchema" record || dict_has "targetSchema" record)
         ("record " +:+ repr_str id +:+ " has unregistered migration fields").

(** One round of [_normalise_records]: the record and its identifier *)
Definition check_record (policy : AppendOnlyLifecyclePolicy) (index : nat) (seen : list string) (raw : json) : allowed (string * dict) :=
  match raw with
  | JObj record =>
      let? id := string_ (key_json "recordId" record) ("append-only record " +:+ pretty index +:+ ".recordId") in
      forbidden_if (mem id seen) ("append-only records contain duplicate recordId: " +:+ id) >>?
      forbidden_if (negb (py_eqb (key_json "sensitivity" record) (JStr (sensitivity policy))))
        ("append-only record " +:+ repr_str id +:+ " sensitivity does not match policy") >>?
      check_marker policy id record >>?
      Ok (id, record)
  | _ => forbidden ("append-only record " +:+ pretty index +:+ " must be a mapping")
  end.

Fixpoint normalise (policy : AppendOnlyLifecyclePolicy) (index : nat) (seen : list string) (records : list json) : allowed (list dict) :=
  match records with
  | [] => Ok []
  | raw :: rest =>
      let? '(id, record) := check_record policy index seen raw in
      let? normalised := normalise policy (S index) (id :: seen) rest in
      Ok (record :: normalised)
  end.

Definition normalise_records (records : list json) (policy : AppendOnlyLifecyclePolicy) : allowed (list dict) :=
  normalise policy 0 [] records.

(** ** Updates *)

Record AppendOnlyUpdate := {
  before : list dict;
  after : list dict;
  the_marker : MigrationMarker;
  update_path : string;
  update_sensitivity : string;
  update_markers : list MigrationMarker;
  update_digest : string;
}.

Definition records_json (l : list dict) : json := JArr (JObj <$> l).

Definition update_payload (p s : string) (b a : list dict) (m : MigrationMarker) : json :=
  JObj [("path", JStr p); ("sensitivity", JStr s); ("before", records_json b); ("after", records_json a);
        ("marker", JObj (as_record m)); ("rollback", JStr APPEND_ONLY_ROLLBACK_MODE)].

(** The marker with this identifier is among the records. *)
Definition present (m : MigrationMarker) (record : dict) : bool :=
  is_marker record && py_eqb (key_json "markerId" record) (JStr (marker_id m)).

Definition plan_append_only_marker (records : list json) (m : MigrationMarker) (policy : AppendOnlyLifecyclePolicy)
    : allowed AppendOnlyUpdate :=
  let? registered := marker policy (marker_id m) in
  forbidden_if (negb (bool_decide (m = registered))) "migration marker does not match its registered definition" >>?
  let? b := normalise_records records policy in
  forbidden_if (existsb (present m) b) ("migration marker is already present: " +:+ marker_id m) >>?
  let a := b ++ [as_record m] in
  Ok {| before := b; after := a; the_marker := m; update_path := path policy; update_sensitivity := sensitivity policy;
        update_markers := registered_markers policy;
        update_digest := ascii_digest (update_payload (path policy) (sensitivity policy) b a m) |}.

Definition update_policy (u : AppendOnlyUpdate) : allowed AppendOnlyLifecyclePolicy :=
  create (update_path u) (update_sensitivity u) (update_markers u).

(** [==] of two tuples of records *)
Definition records_eqb (a b : list dict) : bool := py_eqb (records_json a) (records_json b).

Definition validate_update (u : AppendOnlyUpdate) : allowed unit :=
  let? policy := update_policy u in
  let? m := marker policy (marker_id (the_marker u)) in
  forbidden_if (negb (bool_decide (m = the_marker u))) "append-only update marker is not policy-bound" >>?
  let? b := normalise_records (JObj <$> before u) policy in
  let? a := normalise_records (JObj <$> after u) policy in
  forbidden_if (negb (records_eqb b (before u)) || negb (records_eqb a (after u)))
    "append-only update contains non-canonical records" >>?
  forbidden_if (negb (records_eqb a (b ++ [as_record m]))) "append-only update may contain only one registered append" >>?
  forbidden_if (negb (bool_decide (update_digest u = ascii_digest (update_payload (path policy) (sensitivity policy) b a m))))
    "append-only update digest is invalid".

Definition apply_append_only_update (current_records : list json) (u : AppendOnlyUpdate) : allowed (list dict) :=
  validate_update u >>?
  let? policy := update_policy u in
  let? current := normalise_records current_records policy in
  forbidden_if (negb (records_eqb current (before u)))
    "append-only update is stale; historical records must remain unchanged" >>?
  Ok (after u).

Definition rollback_append_only_update (current_records : list json) (u : AppendOnlyUpdate) : allowed (list dict) :=
  validate_update u >>?
  let? policy := update_policy u in
  let? current := normalise_records current_records policy in
  forbidden_if (negb (records_eqb current (after u)))
    "append-only rollback would rewrite records added after this update" >>?
  Ok (before u).

(** ** Checking records *)

Definition id_of (record : dict) : string := match key_json "recordId" record with JStr s => s | _ => "" end.

Lemma policy_string_Ok v label s : string_ v label = Ok s -> v = JStr s /\ nonblank s = true.
Proof. unfold string_. destruct v; try done. destruct (nonblank s0) eqn:E; [|done]. by intros [= <-]. Qed.

Lemma string_nonblank s label : nonblank s = true -> string_ (JStr s) label = Ok s.
Proof. intros H. unfold string_. by rewrite H. Qed.

Lemma forbidden_if_Ok b message u : forbidden_if b message = Ok u <-> b = false.
Proof. apply refuse_if_Ok. Qed.

(** Whether a record passes depends on its place only through the identifiers before it. *)
Record passes (policy : AppendOnlyLifecyclePolicy) (seen : list string) (record : dict) : Prop := {
  its_id : key_json "recordId" record = JStr (id_of record);
  id_nonblank : nonblank (id_of record) = true;
  id_new : id_of record ∉ seen;
  its_sensitivity : py_eqb (key_json "sensitivity" record) (JStr (sensitivity policy)) = true;
  its_marker : check_marker policy (id_of record) record = Ok tt;
}.

Lemma check_record_Ok policy i seen raw id record : check_record policy i seen raw = Ok (id, record) <->
  raw = JObj record /\ id = id_of record /\ passes policy seen record.
Proof.
  split.
  - unfold check_record. destruct raw as [| | | | |r]; try done. intros H.
    apply obind_Ok in H as (s & [Hid Hnb]%policy_string_Ok & H). apply obind_Ok in H as (? & Hm%forbidden_if_Ok & H).
    apply obind_Ok in H as (? & Hs%forbidden_if_Ok & H). apply obind_Ok in H as ([] & Hc & [= <- <-]).
    assert (E : id_of r = s) by (unfold id_of; by rewrite Hid). split; [done|]. split; [done|].
    constructor; rewrite ?E; [done|done|by apply mem_false|by apply negb_false_iff|done].
  - intros (-> & -> & [Hid Hnb Hnew Hs Hm]). unfold check_record. rewrite Hid, string_nonblank by done. cbn [obind].
    rewrite (proj2 (mem_false _ _) Hnew), Hs, Hm. done.
Qed.

Lemma normalise_ids policy l : forall i seen l', normalise policy i seen l = Ok l' ->
  l = JObj <$> l' /\ NoDup (id_of <$> l') /\ (forall id, id ∈ id_of <$> l' -> id ∉ seen) /\
  Forall (fun r => passes policy [] r) l'.
Proof.
  induction l as [|raw l IH]; intros i seen l' H; cbn [normalise] in H.
  - injection H as <-. split_and!; [done|constructor|by intros ? ?%not_elem_of_nil|constructor].
  - apply obind_Ok in H as ([id r] & (-> & -> & Hp)%check_record_Ok & H). apply obind_Ok in H as (l1 & H & [= <-]).
    apply IH in H as (-> & Hnd & Hnew & Hall). split; [done|]. rewrite fmap_cons. split_and!.
    + constructor; [|done]. intros Hin. apply (Hnew _ Hin). by left.
    + intros id [->|Hin]%elem_of_cons; [apply (id_new _ _ _ Hp)|]. intros Hs. apply (Hnew _ Hin). by right.
    + constructor; [|done]. destruct Hp. constructor; try done. apply not_elem_of_nil.
Qed.

Lemma normalise_accepts policy l : forall i seen, NoDup (id_of <$> l) -> (forall id, id ∈ id_of <$> l -> id ∉ seen) ->
  Forall (fun r => passes policy [] r) l -> normalise policy i seen (JObj <$> l) = Ok l.
Proof.
  induction l as [|r l IH]; intros i seen Hnd Hnew Hall; [done|]. rewrite fmap_cons. cbn [normalise].
  apply Forall_cons in Hall as [Hr Hall]. rewrite fmap_cons in Hnd. apply NoDup_cons in Hnd as [Hid Hnd].
  assert (Hp : passes policy seen r).
  { destruct Hr. constructor; try done. apply Hnew. rewrite fmap_cons. by left. }
  rewrite (proj2 (check_record_Ok policy i seen (JObj r) (id_of r) r)) by done. cbn [obind].
  rewrite IH; [done|done| |done]. intros id Hin [->|Hs]%elem_of_cons; [done|]. apply (Hnew id); [|done]. rewrite fmap_cons. by right.
Qed.

(** Accepted records are unchanged, with distinct identifiers. *)
Lemma normalise_records_Ok policy l l' : normalise_records l policy = Ok l' <->
  l = JObj <$> l' /\ NoDup (id_of <$> l') /\ Forall (fun r => passes policy [] r) l'.
Proof.
  unfold normalise_records. split.
  - intros (? & ? & _ & ?)%normalise_ids. done.
  - intros (-> & Hnd & Hall). apply normalise_accepts; [done| |done]. intros id _. apply not_elem_of_nil.
Qed.

(** ** Policies *)

Definition registered (policy : AppendOnlyLifecyclePolicy) : Prop :=
  create (path policy) (sensitivity policy) (registered_markers policy) = Ok policy /\
  Forall (fun m => new_marker (marker_id m) (source_schema m) (target_schema m) (marker_sensitivity m) = Ok m) (registered_markers policy).

Lemma marker_Ok policy id m : marker policy id = Ok m -> m ∈ registered_markers policy /\ marker_id m = id.
Proof.
  unfold marker. destruct (List.find _ _) as [m'|] eqn:E; [|done]. intros [= ->]. apply find_some in E as [Hin Heq].
  split; [by apply list_elem_of_In|by apply bool_decide_eq_true in Heq].
Qed.

Lemma create_sensitivity p s ms policy : create p s ms = Ok policy ->
  path policy = p /\ sensitivity policy = s /\ registered_markers policy = ms /\ Forall (fun m => marker_sensitivity m = s) ms.
Proof.
  unfold create, new_policy. intros H. apply obind_Ok in H as (p' & Hp & H). do 3 (apply obind_Ok in H as (? & _ & H)).
  destruct (List.find _ _) as [m|] eqn:E; [done|]. injection H as <-. cbn.
  split.
  { unfold policy_path in Hp. apply obind_Ok in Hp as (q & [[= ->] _]%policy_string_Ok & Hp).
    destruct (_ || _); [done|]. destruct (path_parts q); [done|]. destruct (mem _ _); [done|]. congruence. }
  split; [done|]. split; [done|]. apply Forall_forall. intros m Hm%list_elem_of_In. apply (find_none _ _ E) in Hm.
  apply negb_false_iff, bool_decide_eq_true in Hm. exact Hm.
Qed.

Lemma nonblank_head c s : py_isspace c = false -> nonblank (String c s) = true.
Proof.
  intros H. unfold nonblank, py_strip. cbn [py_lstrip]. rewrite H. cbn [py_rstrip]. rewrite H. by destruct (py_rstrip s).
Qed.

(** A registered marker makes a record that passes. *)
Lemma marker_passes policy m : registered policy -> marker policy (marker_id m) = Ok m -> passes policy [] (as_record m).
Proof.
  intros [Hc Hm] Hreg. pose proof (marker_Ok _ _ _ Hreg) as [Hin _].
  apply create_sensitivity in Hc as (_ & _ & _ & Hs).
  pose proof (proj1 (Forall_forall _ _) Hs _ Hin) as Hsen. pose proof (proj1 (Forall_forall _ _) Hm _ Hin) as Hnew. cbn in Hsen.
  assert (Hid : nonblank (marker_id m) = true).
  { unfold new_marker in Hnew. apply obind_Ok in Hnew as (? & [[= <-] ?]%policy_string_Ok & _). done. }
  constructor.
  - done.
  - by apply nonblank_head.
  - apply not_elem_of_nil.
  - change (key_json "sensitivity" (as_record m)) with (JStr (marker_sensitivity m)). rewrite Hsen. apply py_eqb_refl.
  - unfold check_marker. change (is_marker (as_record m)) with true. cbv iota.
    change (key_json "markerId" (as_record m)) with (JStr (marker_id m)). rewrite string_nonblank by done. cbn [obind].
    rewrite Hreg. cbn [obind]. rewrite py_eqb_refl. done.
Qed.

(** ** Records that are equal in Python *)

Definition same_records (a b : list dict) : Prop := Forall2 (fun r s => py_eq (JObj r) (JObj s)) a b.

#[export] Instance same_records_equiv : Equivalence same_records.
Proof.
  unfold same_records. split.
  - intros l. by apply Forall_Forall2_diag, Forall_true.
  - intros a b H. apply Forall2_flip. eapply Forall2_impl; [exact H|]. by intros r s ?.
  - intros a b c H. revert c. induction H as [|x y a b Hxy _ IH]; intros c Hc; [done|].
    inversion Hc as [|? z ? c' Hyz Hc']; subst. constructor; [by etrans|by apply IH].
Qed.

Lemma unbool_arr l : unbool (JArr l) = JArr (map unbool l).
Proof. reflexivity. Qed.

#[export] Instance JObj_inj : Inj (=) (=) JObj.
Proof. by intros a b [= ->]. Qed.

Lemma records_eqb_same a b : records_eqb a b = true <-> same_records a b.
Proof.
  unfold records_eqb, py_eqb, records_json, same_records. rewrite bool_decide_eq_true. unfold py_eq.
  rewrite !unbool_arr, !norm_arr, !map_map. split.
  - intros H. apply (f_equal (fun j => match j with JArr l => l | _ => [] end)) in H. revert b H.
    induction a as [|x a IH]; intros [|y b] H; try done. rewrite !fmap_cons in H. cbn [map] in H.
    apply (inj2 cons) in H as [H1 H2]. constructor; [exact H1|by apply IH].
  - intros H. apply (f_equal JArr). induction H as [|x y a b Hxy _ IH]; [done|].
    rewrite !fmap_cons. cbn [map]. apply (f_equal2 cons); [exact Hxy|]. exact IH.
Qed.

Lemma py_eq_lookup (a b : dict) k : wf_json (JObj a) -> wf_json (JObj b) -> py_eq (JObj a) (JObj b) ->
  option_Forall2 py_eq (dict_get k a) (dict_get k b).
Proof.
  intros [Ha _]%wf_json_obj [Hb _]%wf_json_obj H. unfold py_eq in H. rewrite !unbool_obj, !norm_obj in H.
  apply (f_equal (fun j => match j with JObj fs => dict_get k fs | _ => None end)) in H.
  rewrite !dict_get_sort_norm, !dict_get_unbool in H by by rewrite unbool_fields_keys.
  destruct (dict_get k a), (dict_get k b); cbn in H; try done; constructor. unfold py_eq. congruence.
Qed.

Lemma py_eqb_proper x y s : py_eq x y -> py_eqb x s = py_eqb y s.
Proof. intros H. unfold py_eqb. apply bool_decide_ext. by rewrite H. Qed.

Definition wf_records (l : list dict) : Prop := Forall (fun r => wf_json (JObj r)) l.

Lemma is_marker_same (a b : dict) : wf_json (JObj a) -> wf_json (JObj b) -> py_eq (JObj a) (JObj b) -> is_marker a = is_marker b.
Proof.
  intros Ha Hb H. unfold is_marker, key_json. destruct (py_eq_lookup a b "recordType" Ha Hb H); [|done]. cbn. by apply py_eqb_proper.
Qed.

(** ** Planning, applying, rolling back *)

Lemma validated u policy : validate_update u = Ok tt -> update_policy u = Ok policy ->
  exists m, m ∈ update_markers u /\ m = the_marker u /\ same_records (after u) (before u ++ [as_record m]) /\
    update_digest u = ascii_digest (update_payload (update_path u) (update_sensitivity u) (before u) (after u) m).
Proof.
  intros H Hp. unfold validate_update in H. rewrite Hp in H. cbn [obind] in H.
  apply obind_Ok in H as (m & Hm & H). apply obind_Ok in H as (? & He%forbidden_if_Ok%negb_false_iff%bool_decide_eq_true & H).
  apply obind_Ok in H as (b & (Hb & _)%normalise_records_Ok & H). apply obind_Ok in H as (a & (Ha & _)%normalise_records_Ok & H).
  apply obind_Ok in H as (? & _ & H). apply obind_Ok in H as (? & Hr%forbidden_if_Ok%negb_false_iff%records_eqb_same & H).
  apply forbidden_if_Ok, negb_false_iff, bool_decide_eq_true in H.
  apply (inj (fmap JObj)) in Hb as <-. apply (inj (fmap JObj)) in Ha as <-. apply create_sensitivity in Hp as (E1 & E2 & E3 & _).
  exists m. split; [rewrite <-E3; by apply (marker_Ok _ _ _ Hm)|]. split; [done|]. split; [done|]. by rewrite E1, E2 in H.
Qed.

Lemma applied current u l : apply_append_only_update (JObj <$> current) u = Ok l ->
  l = after u /\ same_records current (before u) /\ exists m, m ∈ update_markers u /\ same_records (after u) (before u ++ [as_record m]).
Proof.
  unfold apply_append_only_update. intros H. apply obind_Ok in H as ([] & Hv & H). apply obind_Ok in H as (policy & Hp & H).
  apply obind_Ok in H as (c & (Hc & _)%normalise_records_Ok & H). apply obind_Ok in H as (? & He%forbidden_if_Ok%negb_false_iff%records_eqb_same & [= <-]).
  destruct (validated _ _ Hv Hp) as (m & Hm & _ & Hs & _). split; [done|]. split; [|by exists m].
  by apply (inj (fmap JObj)) in Hc as ->.
Qed.

Lemma rolled_back current u l : rollback_append_only_update (JObj <$> current) u = Ok l ->
  l = before u /\ same_records current (after u) /\ exists m, m ∈ update_markers u /\ same_records (after u) (before u ++ [as_record m]).
Proof.
  unfold rollback_append_only_update. intros H. apply obind_Ok in H as ([] & Hv & H). apply obind_Ok in H as (policy & Hp & H).
  apply obind_Ok in H as (c & (Hc & _)%normalise_records_Ok & H). apply obind_Ok in H as (? & He%forbidden_if_Ok%negb_false_iff%records_eqb_same & [= <-]).
  destruct (validated _ _ Hv Hp) as (m & Hm & _ & Hs & _). split; [done|]. split; [|by exists m].
  by apply (inj (fmap JObj)) in Hc as ->.
Qed.

(** ** Histories of a stream *)

(** The instance writes records of its own; updates are applied or rolled back, whoever
    planned or made them. *)
Inductive stream_call :=
| Write (new : list dict)
| Apply (u : AppendOnlyUpdate)
| Rollback (u : AppendOnlyUpdate).

Definition stream_step (s : list dict) (c : stream_call) : list dict :=
  match c with
  | Write new => s ++ new
  | Apply u => match apply_append_only_update (JObj <$> s) u with Ok l => l | Raise _ => s end
  | Rollback u => match rollback_append_only_update (JObj <$> s) u with Ok l => l | Raise _ => s end
  end.

Definition wf_call (c : stream_call) : Prop :=
  match c with
  | Write new => wf_records new
  | Apply u | Rollback u => wf_records (before u) /\ wf_records (after u)
  end.

(** The records that are no markers *)
Definition ordinary (s : list dict) : list dict := filter (fun r => is_marker r = false) s.

(** [new] begins with the records of [old]. *)
Definition extends (old new : list dict) : Prop := exists kept rest, new = kept ++ rest /\ same_records old kept.

#[export] Instance extends_preorder : PreOrder extends.
Proof.
  split; [intros l; exists l, []; by rewrite app_nil_r|].
  intros a b c (k1 & r1 & -> & H1) (k2 & r2 & -> & H2). apply Forall2_app_inv_l in H2 as (k3 & k4 & H3 & H4 & ->).
  exists k3, (k4 ++ r2). split; [by rewrite <-app_assoc|]. by etrans.
Qed.

Lemma ordinary_marker m : ordinary [as_record m] = [].
Proof. reflexivity. Qed.

Lemma ordinary_app a b : ordinary (a ++ b) = ordinary a ++ ordinary b.
Proof. apply filter_app. Qed.

Lemma ordinary_same a b : wf_records a -> wf_records b -> same_records a b -> same_records (ordinary a) (ordinary b).
Proof.
  intros Ha Hb H. induction H as [|x y a b Hxy _ IH]; [done|]. apply Forall_cons in Ha as [Hx Ha], Hb as [Hy Hb].
  unfold ordinary in *. rewrite !filter_cons. rewrite (is_marker_same x y) by done.
  case_decide; [constructor; [done|by apply IH]|by apply IH].
Qed.

Lemma wf_as_record m : wf_records [as_record m].
Proof.
  constructor; [|constructor]. apply wf_json_obj. split; [apply (bool_decide_unpack _); vm_compute; constructor|]. repeat constructor.
Qed.

Lemma ordinary_appended u m : wf_records (before u) -> wf_records (after u) -> same_records (after u) (before u ++ [as_record m]) ->
  same_records (ordinary (after u)) (ordinary (before u)).
Proof.
  intros Hb Ha H. rewrite <-(app_nil_r (ordinary (before u))), <-(ordinary_marker m), <-ordinary_app.
  apply ordinary_same; [done| |done]. apply Forall_app. split; [done|apply wf_as_record].
Qed.

Lemma same_extends a b : same_records a b -> extends a b.
Proof. exists b, []. by rewrite app_nil_r. Qed.

Lemma stream_step_keeps s c : wf_records s -> wf_call c ->
  wf_records (stream_step s c) /\ extends (ordinary s) (ordinary (stream_step s c)).
Proof.
  intros Hs Hc. destruct c as [new|u|u]; cbn [stream_step wf_call] in *.
  - split; [by apply Forall_app|]. rewrite ordinary_app. by exists (ordinary s), (ordinary new).
  - destruct Hc as [Hb Ha]. destruct (apply_append_only_update _ u) as [l|] eqn:E; [|done].
    apply applied in E as (-> & Hsb & m & _ & Hm). split; [done|]. apply same_extends.
    rewrite (ordinary_same s (before u)) by done. symmetry. by apply (ordinary_appended u m).
  - destruct Hc as [Hb Ha]. destruct (rollback_append_only_update _ u) as [l|] eqn:E; [|done].
    apply rolled_back in E as (-> & Hsa & m & _ & Hm). split; [done|]. apply same_extends.
    rewrite (ordinary_same s (after u)) by done. by apply (ordinary_appended u m).
Qed.

(** C36 History is append-only.  Whatever updates are applied to a stream and rolled back,
    planned or forged, between whatever records the instance writes itself, the ordinary
    records of the stream stay where they are, equal as Python values, and only more follow
    them.  An update that is applied adds exactly one record, a marker registered by its
    policy, at the end; a rollback takes exactly that record away again. *)
Theorem history_is_append_only s tr : wf_records s -> Forall wf_call tr ->
  extends (ordinary s) (ordinary (run_trace stream_step s tr)) /\
  (forall u l, apply_append_only_update (JObj <$> run_trace stream_step s tr) u = Ok l ->
     exists m, m ∈ update_markers u /\ same_records l (run_trace stream_step s tr ++ [as_record m])) /\
  (forall u l, rollback_append_only_update (JObj <$> run_trace stream_step s tr) u = Ok l ->
     exists m, m ∈ update_markers u /\ same_records (run_trace stream_step s tr) (l ++ [as_record m])).
Proof.
  intros Hs Htr. split; [|split].
  - revert s Hs. induction Htr as [|c tr Hc _ IH]; intros s Hs; [done|]. cbn.
    destruct (stream_step_keeps s c Hs Hc) as [Hw He]. etrans; [exact He|by apply IH].
  - intros u l (-> & Hb & m & Hm & Ha)%applied. exists m. split; [done|]. rewrite Ha. apply Forall2_app; [by symmetry|done].
  - intros u l (-> & Hb & m & Hm & Ha)%rolled_back. exists m. split; [done|]. by etrans.
Qed.

(** *** A planned update *)

Lemma update_policy_of policy u : registered policy -> update_path u = path policy -> update_sensitivity u = sensitivity policy ->
  update_markers u = registered_markers policy -> update_policy u = Ok policy.
Proof. intros [Hc _] E1 E2 E3. unfold update_policy. by rewrite E1, E2, E3. Qed.

Lemma planned records m policy u : plan_append_only_marker records m policy = Ok u ->
  marker policy (marker_id m) = Ok m /\ records = JObj <$> before u /\ normalise_records records policy = Ok (before u) /\
  u = {| before := before u; after := before u ++ [as_record m]; the_marker := m; update_path := path policy;
         update_sensitivity := sensitivity policy; update_markers := registered_markers policy;
         update_digest := ascii_digest (update_payload (path policy) (sensitivity policy) (before u) (before u ++ [as_record m]) m) |}.
Proof.
  unfold plan_append_only_marker. intros H. apply obind_Ok in H as (r & Hr & H).
  apply obind_Ok in H as (? & He%forbidden_if_Ok%negb_false_iff%bool_decide_eq_true & H).
  apply obind_Ok in H as (b & Hb & H). apply obind_Ok in H as (? & _ & [= <-]). cbn [before]. subst r.
  split; [done|]. split; [by apply normalise_records_Ok in Hb as [? _]|]. done.
Qed.

Lemma planned_after_passes policy m history : registered policy -> marker policy (marker_id m) = Ok m ->
  normalise_records (JObj <$> history) policy = Ok history -> record_id m ∉ id_of <$> history ->
  normalise_records (JObj <$> (history ++ [as_record m])) policy = Ok (history ++ [as_record m]).
Proof.
  intros Hp Hm (_ & Hnd & Hall)%normalise_records_Ok Hnew. apply normalise_records_Ok. split; [done|].
  rewrite fmap_app. split.
  - apply NoDup_app. split; [done|]. split; [|apply NoDup_singleton].
    intros id Hin Hid%list_elem_of_singleton. change (id_of (as_record m)) with (record_id m) in Hid. congruence.
  - apply Forall_app. split; [done|]. constructor; [|constructor]. by apply marker_passes.
Qed.

Lemma records_eqb_refl l : records_eqb l l = true.
Proof. by apply records_eqb_same. Qed.

Lemma planned_valid records m policy u : registered policy -> plan_append_only_marker records m policy = Ok u ->
  record_id m ∉ id_of <$> before u -> validate_update u = Ok tt.
Proof.
  intros Hp H Hnew. destruct (planned _ _ _ _ H) as (Hm & Hr & Hb & Hu). rewrite Hr in Hb.
  pose proof (planned_after_passes policy m (before u) Hp Hm Hb Hnew) as Ha.
  unfold validate_update. rewrite (update_policy_of policy) by (done || by rewrite Hu). cbn [obind].
  rewrite Hu. cbn [the_marker before after update_digest]. rewrite Hm. cbn [obind].
  rewrite bool_decide_eq_true_2 by done. unfold forbidden_if at 1. cbn [negb refuse_if obind]. rewrite Hb. cbn [obind]. rewrite Ha. cbn [obind].
  rewrite !records_eqb_refl, bool_decide_eq_true_2 by done. done.
Qed.

(** A planned marker is applied to its base and rolled back from its result, exactly.  For
    a policy whose markers are registered, an update planned over a stream leaves the stream
    as it was and, if no record of the stream has taken the identifier of the marker's
    record, applying it to the same stream appends that record, and rolling it back from the
    result gives back the stream; if the identifier is taken, it is never applied. *)
Theorem marker_round_trip records m policy u :
  registered policy -> plan_append_only_marker records m policy = Ok u ->
  exists history, records = JObj <$> history /\
    (record_id m ∉ id_of <$> history ->
       apply_append_only_update records u = Ok (history ++ [as_record m]) /\
       rollback_append_only_update (JObj <$> (history ++ [as_record m])) u = Ok history) /\
    (record_id m ∈ id_of <$> history -> exists e, apply_append_only_update records u = Raise e).
Proof.
  intros Hp H. destruct (planned _ _ _ _ H) as (Hm & Hr & Hb & Hu). exists (before u). split; [done|]. split.
  - intros Hnew. pose proof (planned_valid _ _ _ _ Hp H Hnew) as Hv.
    unfold apply_append_only_update, rollback_append_only_update. rewrite Hv. cbn [obind].
    rewrite (update_policy_of policy) by (done || by rewrite Hu). cbn [obind]. rewrite Hb. cbn [obind]. rewrite records_eqb_refl.
    rewrite Hr in Hb. rewrite (planned_after_passes policy m (before u)) by done. cbn [obind].
    rewrite Hu. cbn [before after]. rewrite records_eqb_refl. done.
  - intros Hin. destruct (apply_append_only_update records u) as [l|e] eqn:E; [|by exists e]. exfalso.
    unfold apply_append_only_update in E. apply obind_Ok in E as ([] & Hv & _).
    unfold validate_update in Hv. rewrite (update_policy_of policy) in Hv by (done || by rewrite Hu). cbn [obind] in Hv.
    apply obind_Ok in Hv as (m' & _ & Hv). apply obind_Ok in Hv as (? & _ & Hv). apply obind_Ok in Hv as (? & _ & Hv).
    apply obind_Ok in Hv as (a & (Ha & Hnd & _)%normalise_records_Ok & _). apply (inj (fmap JObj)) in Ha as <-.
    rewrite Hu in Hnd. cbn [after] in Hnd. rewrite fmap_app in Hnd. apply NoDup_app in Hnd as (_ & Hnd & _).
    apply (Hnd _ Hin). apply list_elem_of_singleton. done.
Qed.

(** *** The digest of an update *)

(** Updates that were applied or rolled back under one digest are the same up to the order of
    keys, unless SHA-256 collides on the two payloads. *)
Theorem update_digest_binds u1 u2 p1 p2 :
  let payload u := update_payload (update_path u) (update_sensitivity u) (before u) (after u) (the_marker u) in
  validate_update u1 = Ok tt -> validate_update u2 = Ok tt -> update_policy u1 = Ok p1 -> update_policy u2 = Ok p2 ->
  collision_free [ascii_document (payload u1); ascii_document (payload u2)] ->
  update_digest u1 = update_digest u2 ->
  update_path u1 = update_path u2 /\ update_sensitivity u1 = update_sensitivity u2 /\ the_marker u1 = the_marker u2 /\
  norm (records_json (before u1)) = norm (records_json (before u2)) /\ norm (records_json (after u1)) = norm (records_json (after u2)).
Proof.
  intros payload V1 V2 P1 P2 Hc Hd. destruct (validated _ _ V1 P1) as (m1 & _ & -> & _ & D1), (validated _ _ V2 P2) as (m2 & _ & -> & _ & D2).
  rewrite D1, D2 in Hd. unfold ascii_digest in Hd. apply str_app_inj_l, Hc in Hd; [|by left|by right; left].
  apply encode_inj, dumps_inj in Hd. unfold update_payload in Hd. rewrite !norm_obj in Hd.
  assert (Hk : forall k, dict_get k (norm_fields [("path", JStr (update_path u1)); ("sensitivity", JStr (update_sensitivity u1));
      ("before", records_json (before u1)); ("after", records_json (after u1)); ("marker", JObj (as_record (the_marker u1)));
      ("rollback", JStr APPEND_ONLY_ROLLBACK_MODE)])
    = dict_get k (norm_fields [("path", JStr (update_path u2)); ("sensitivity", JStr (update_sensitivity u2));
      ("before", records_json (before u2)); ("after", records_json (after u2)); ("marker", JObj (as_record (the_marker u2)));
      ("rollback", JStr APPEND_ONLY_ROLLBACK_MODE)])).
  { intros k. apply (f_equal (fun j => match j with JObj fs => dict_get k fs | _ => None end)) in Hd. 
    rewrite !dict_get_sort_norm in Hd by (apply (bool_decide_unpack _); vm_compute; constructor). rewrite !dict_get_norm_fields. exact Hd. }
  pose proof (Hk "path") as E1. pose proof (Hk "sensitivity") as E2. pose proof (Hk "before") as E3. pose proof (Hk "after") as E4.
  pose proof (Hk "marker") as E5. cbn -[norm] in E1, E2, E3, E4, E5. apply (inj Some) in E1, E2, E3, E4, E5.
  split; [by injection E1|]. split; [by injection E2|]. split; [|by split].
  destruct (the_marker u1), (the_marker u2). cbn in E5. injection E5. intros. f_equal; congruence.
Qed.

(** ** Examples *)

Definition v1_to_v2 : MigrationMarker :=
  {| marker_id := "journal-v2"; source_schema := "journal/v1"; target_schema := "journal/v2"; marker_sensitivity := "private" |}.

Definition journal_policy : AppendOnlyLifecyclePolicy :=
  {| path := "data/journal.jsonl"; sensitivity := "private"; registered_markers := [v1_to_v2] |}.

Lemma journal_registered : registered journal_policy.
Proof. split; [vm_compute; reflexivity|]. constructor; [vm_compute; reflexivity|constructor]. Qed.

Definition entry (id : string) (n : json) : dict := [("recordId", JStr id); ("sensitivity", JStr "private"); ("n", n)].
Definition journal : list dict := [entry "e1" (JInt 1); entry "e2" (JInt 2)].

Definition update_of (l : list dict) : AppendOnlyUpdate :=
  {| before := l; after := l ++ [as_record v1_to_v2]; the_marker := v1_to_v2; update_path := path journal_policy;
     update_sensitivity := sensitivity journal_policy; update_markers := registered_markers journal_policy;
     update_digest := ascii_digest (update_payload (path journal_policy) (sensitivity journal_policy) l (l ++ [as_record v1_to_v2]) v1_to_v2) |}.

Lemma journal_planned : plan_append_only_marker (JObj <$> journal) v1_to_v2 journal_policy = Ok (update_of journal).
Proof. vm_compute. reflexivity. Qed.

Lemma marker_round_trip_witness :
  apply_append_only_update (JObj <$> journal) (update_of journal) = Ok (journal ++ [as_record v1_to_v2]) /\
  rollback_append_only_update (JObj <$> (journal ++ [as_record v1_to_v2])) (update_of journal) = Ok journal.
Proof.
  destruct (marker_round_trip (JObj <$> journal) v1_to_v2 journal_policy (update_of journal) journal_registered journal_planned)
    as (history & Hh & Happly & _).
  apply (inj (fmap JObj)) in Hh as <-. apply Happly. apply (bool_decide_unpack _). vm_compute. constructor.
Defined.

Lemma history_is_append_only_witness :
  extends (ordinary journal)
    (ordinary (run_trace stream_step journal [Apply (update_of journal); Write [entry "e3" (JInt 3)]; Rollback (update_of journal)])).
Proof.
  assert (Hj : wf_records journal) by (repeat (constructor; [apply wf_jsonb_wf; vm_compute; reflexivity|]); constructor).
  apply history_is_append_only; [exact Hj|].
  assert (Ha : wf_records (journal ++ [as_record v1_to_v2])) by (apply Forall_app; split; [exact Hj|apply wf_as_record]).
  constructor; [by split|]. constructor; [constructor; [apply wf_jsonb_wf; vm_compute; reflexivity|constructor]|].
  constructor; [by split|constructor].
Defined.

(** A later record keeps the marker from being rolled back, and an applied update is stale. *)
Example rollback_keeps_later_records :
  rollback_append_only_update (JObj <$> (journal ++ [as_record v1_to_v2; entry "e3" (JInt 3)])) (update_of journal)
  = forbidden "append-only rollback would rewrite records added after this update" /\
  apply_append_only_update (JObj <$> (journal ++ [entry "e3" (JInt 3)])) (update_of journal)
  = forbidden "append-only update is stale; historical records must remain unchanged".
Proof. split; vm_compute; reflexivity. Qed.

(** The base is compared with [==]: a record whose number is [1] counts as one whose number
    is [True], and is replaced by it. *)
Example history_is_rewritten :
  apply_append_only_update (JObj <$> [entry "e1" (JInt 1)]) (update_of [entry "e1" (JBool true)])
  = Ok [entry "e1" (JBool true); as_record v1_to_v2].
Proof. vm_compute. reflexivity. Qed.

(** An ordinary record may take the identifier of a marker's record; the plan is made, and
    refused when it is applied. *)
Example identifier_taken :
  let stream := [entry "migration:journal-v2" (JInt 1)] in
  plan_append_only_marker (JObj <$> stream) v1_to_v2 journal_policy = Ok (update_of stream) /\
  apply_append_only_update (JObj <$> stream) (update_of stream)
  = forbidden "append-only records contain duplicate recordId: migration:journal-v2".
Proof. split; vm_compute; reflexivity. Qed.

Example policy_paths :
  policy_path "data/journal.jsonl" = Ok "data/journal.jsonl" /\
  policy_path "data//journal.jsonl" = forbidden "append-only path must be a safe relative data path" /\
  policy_path "../journal" = forbidden "append-only path must be a safe relative data path" /\
  policy_path ".git/config" = forbidden "append-only path must be a safe relative data path" /\
  policy_path "." = Raise IndexError.
Proof. split_and!; vm_compute; reflexivity. Qed.
