(* ===== verification/AssistantWork.v ===== *)
(** * Assistant work (packages/persistent-app, assistant_work.py)

    The durable store of the work an assistant owes to accepted messages: claims, provider
    results, replies and an event journal, in one SQLite database, with the cancellations of
    [CancellableAssistantWorkStore] (assistant_cancellable_runtime.py) and the redelivery of
    [ResilientAssistantWorkStore] (assistant_resilient_runtime.py).  Every transaction is one
    step, and leaves the database as it was when it raises.  Clocks are microseconds since
    1970; each reading of the clock and each random token is an argument.  Identifiers are
    strings, and foreign keys, which always hold here, are not checked. *)

From S2P Require Import Prelude Instants Json JsonParse Sha256 Contracts.

Inductive work_error :=
| AssistantWorkError (message : string)
| AssistantWorkConflict (message : string)
| AssistantWorkStateError (message : string)
| AssistantWorkLeaseError (message : string)
| IntegrityError
| Overflow.

Abbreviation answer := (outcome work_error).

Definition refused {A} (message : string) : answer A := Raise (AssistantWorkError message).

(** ** Values *)

Definition ID_search (s : string) : bool :=
  match s with
  | EmptyString => false
  | String c rest => is_alnum c && all_chars (fun c => is_alnum c || one_of "._:-" c) rest && (py_len rest <=? 255)%Z
  end.

Definition identifier (value field : string) : answer string :=
  if ID_search value then Ok value else refused (field +:+ " is not a bounded identifier").

Definition SECRET_KEY_search (key : string) : bool :=
  existsb (fun p => has_sub p (lower key))
    (optional_separator "api" "key" ++ ["authorization"; "cookie"; "credential"; "password"; "secret"]
     ++ optional_separator "access" "token" ++ optional_separator "refresh" "token" ++ optional_separator "lease" "token").

(** [_reject_secret_keys] *)
Fixpoint reject_secret_keys (value : json) (path : string) : answer unit :=
  match value with
  | JObj fs =>
      (fix go (l : dict) : answer unit :=
         match l with
         | [] => Ok tt
         | (key, item) :: rest =>
             if SECRET_KEY_search key then refused ("credential-like field is forbidden at " +:+ path +:+ "." +:+ key)
             else reject_secret_keys item (path +:+ "." +:+ key) >>? go rest
         end) fs
  | JArr l =>
      (fix go (l : list json) (index : nat) : answer unit :=
         match l with
         | [] => Ok tt
         | item :: rest => reject_secret_keys item (path +:+ "[" +:+ pretty index +:+ "]") >>? go rest (S index)
         end) l 0
  | _ => Ok tt
  end.

Definition canonical (d : dict) : string := dumps false (JObj d).
Definition bytes_of (s : string) : Z := py_len (encode s).

Definition UNIX_EPOCH : Z := 719162 * DAY.

(** [_epoch], and [_iso] of it *)
Definition epoch_of (clock : Z) : answer Z :=
  if (clock <? 0)%Z then refused "assistant work clock is invalid" else Ok clock.

Definition iso (epoch : Z) : answer string :=
  let t := (UNIX_EPOCH + epoch)%Z in
  if (t <? LAST_INSTANT)%Z then Ok (utc_seconds t) else Raise Overflow.

Definition now_of (clock : Z) : answer string := let? epoch := epoch_of clock in iso epoch.

Definition lease_hash (token : string) : string := sha256_hex (encode token).

(** ** The database *)

Record work := {
  work_id : string;
  instance_id : string;
  application_id : string;
  conversation_id : string;
  message_id : string;
  participant_id : string;
  source_sequence : Z;
  state : string;
  attempt_count : Z;
  active_attempt_id : option string;
  lease : option (string * string * Z);     (* owner, token hash and expiry: set and cleared together *)
  provider_result : option (string * string);   (* its text and its digest *)
  reply_message_id : option string;
  work_failure : option string;
  created_at : string;
  updated_at : string;
}.

Record attempt := {
  attempt_work : string;
  ordinal : Z;
  attempt_state : string;
  runtime_profile : option string;
  process_identity : option string;
  started_at : string;
  finished_at : option string;
  result_digest : option string;
  attempt_failure : option string;
}.

Record event := {
  event_work : string;
  event_sequence : Z;
  event_id : string;
  event_attempt : option string;
  event_type : string;
  event_payload : string;
  occurred_at : string;
}.

Record database := {
  works : gmap string work;
  attempts : gmap string attempt;
  events : list event;       (* in the order of their insertion *)
}.

Definition empty_store : database := {| works := ∅; attempts := ∅; events := [] |}.

Abbreviation tx := (M database work_error).

(** [BEGIN IMMEDIATE] ... [commit], with [rollback] when the body raises *)
Definition transaction {A} (body : tx A) : tx A :=
  fun d => match body d with
           | (d', Ok a) => (d', Ok a)
           | (_, Raise e) => (d, Raise e)
           end.

Definition set_works (w : gmap string work) (d : database) : database := {| works := w; attempts := attempts d; events := events d |}.
Definition set_attempts (a : gmap string attempt) (d : database) : database := {| works := works d; attempts := a; events := events d |}.
Definition set_events (e : list event) (d : database) : database := {| works := works d; attempts := attempts d; events := e |}.

(** [UPDATE assistant_work SET f WHERE work_id=?] *)
Definition update_work (id : string) (f : work -> work) : tx unit := modify (fun d => set_works (alter f id (works d)) d).

(** [UPDATE assistant_attempts SET f WHERE attempt_id=? AND p] *)
Definition update_attempt (id : option string) (p : attempt -> bool) (f : attempt -> attempt) : tx unit :=
  match id with
  | Some id => modify (fun d => set_attempts (alter (fun a => if p a then f a else a) id (attempts d)) d)
  | None => ret tt
  end.

Definition in_state (s : string) (a : attempt) : bool := bool_decide (attempt_state a = s).

(** The setters of [UPDATE] *)
Definition set_state (s now : string) (w : work) : work :=
  {| work_id := work_id w; instance_id := instance_id w; application_id := application_id w; conversation_id := conversation_id w;
     message_id := message_id w; participant_id := participant_id w; source_sequence := source_sequence w; state := s;
     attempt_count := attempt_count w; active_attempt_id := active_attempt_id w; lease := None; provider_result := provider_result w;
     reply_message_id := reply_message_id w; work_failure := work_failure w; created_at := created_at w; updated_at := now |}.

Definition set_failure (e : string) (w : work) : work :=
  {| work_id := work_id w; instance_id := instance_id w; application_id := application_id w; conversation_id := conversation_id w;
     message_id := message_id w; participant_id := participant_id w; source_sequence := source_sequence w; state := state w;
     attempt_count := attempt_count w; active_attempt_id := active_attempt_id w; lease := lease w; provider_result := provider_result w;
     reply_message_id := reply_message_id w; work_failure := Some e; created_at := created_at w; updated_at := updated_at w |}.

Definition set_lease (owner hash : string) (expires : Z) (w : work) : work :=
  {| work_id := work_id w; instance_id := instance_id w; application_id := application_id w; conversation_id := conversation_id w;
     message_id := message_id w; participant_id := participant_id w; source_sequence := source_sequence w; state := state w;
     attempt_count := attempt_count w; active_attempt_id := active_attempt_id w; lease := Some (owner, hash, expires);
     provider_result := provider_result w; reply_message_id := reply_message_id w; work_failure := work_failure w;
     created_at := created_at w; updated_at := updated_at w |}.

Definition set_attempt (n : Z) (id : string) (w : work) : work :=
  {| work_id := work_id w; instance_id := instance_id w; application_id := application_id w; conversation_id := conversation_id w;
     message_id := message_id w; participant_id := participant_id w; source_sequence := source_sequence w; state := state w;
     attempt_count := n; active_attempt_id := Some id; lease := lease w; provider_result := provider_result w;
     reply_message_id := reply_message_id w; work_failure := work_failure w; created_at := created_at w; updated_at := updated_at w |}.

Definition set_result (text digest : string) (w : work) : work :=
  {| work_id := work_id w; instance_id := instance_id w; application_id := application_id w; conversation_id := conversation_id w;
     message_id := message_id w; participant_id := participant_id w; source_sequence := source_sequence w; state := state w;
     attempt_count := attempt_count w; active_attempt_id := active_attempt_id w; lease := lease w;
     provider_result := Some (text, digest); reply_message_id := reply_message_id w; work_failure := work_failure w;
     created_at := created_at w; updated_at := updated_at w |}.

Definition set_reply (id : string) (w : work) : work :=
  {| work_id := work_id w; instance_id := instance_id w; application_id := application_id w; conversation_id := conversation_id w;
     message_id := message_id w; participant_id := participant_id w; source_sequence := source_sequence w; state := state w;
     attempt_count := attempt_count w; active_attempt_id := active_attempt_id w; lease := lease w; provider_result := provider_result w;
     reply_message_id := Some id; work_failure := work_failure w; created_at := created_at w; updated_at := updated_at w |}.

Definition become (s : string) (a : attempt) : attempt :=
  {| attempt_work := attempt_work a; ordinal := ordinal a; attempt_state := s; runtime_profile := runtime_profile a;
     process_identity := process_identity a; started_at := started_at a; finished_at := finished_at a;
     result_digest := result_digest a; attempt_failure := attempt_failure a |}.

Definition finish_at (now : string) (a : attempt) : attempt :=
  {| attempt_work := attempt_work a; ordinal := ordinal a; attempt_state := attempt_state a; runtime_profile := runtime_profile a;
     process_identity := process_identity a; started_at := started_at a; finished_at := Some now;
     result_digest := result_digest a; attempt_failure := attempt_failure a |}.

Definition fail_with (e : string) (a : attempt) : attempt :=
  {| attempt_work := attempt_work a; ordinal := ordinal a; attempt_state := attempt_state a; runtime_profile := runtime_profile a;
     process_identity := process_identity a; started_at := started_at a; finished_at := finished_at a;
     result_digest := result_digest a; attempt_failure := Some e |}.

Definition identify (process runtime : string) (a : attempt) : attempt :=
  {| attempt_work := attempt_work a; ordinal := ordinal a; attempt_state := attempt_state a; runtime_profile := Some runtime;
     process_identity := Some process; started_at := started_at a; finished_at := finished_at a;
     result_digest := result_digest a; attempt_failure := attempt_failure a |}.

Definition digest_attempt (digest : string) (a : attempt) : attempt :=
  {| attempt_work := attempt_work a; ordinal := ordinal a; attempt_state := attempt_state a; runtime_profile := runtime_profile a;
     process_identity := process_identity a; started_at := started_at a; finished_at := finished_at a;
     result_digest := Some digest; attempt_failure := attempt_failure a |}.

(** ** The event journal *)

Definition EVENTS : list string :=
  ["work.queued"; "attempt.started"; "process.started"; "provider.result_stored"; "delivery.started"; "reply.persisted";
   "attempt.failed"; "attempt.interrupted"].

Definition journal (id : string) (d : database) : list event := filter (fun e => event_work e = id) (events d).

(** [COALESCE(MAX(sequence),0)+1] *)
Definition next_sequence (id : string) (d : database) : Z := (foldr (fun e n => Z.max (event_sequence e) n) 0 (journal id d) + 1)%Z.

(** [_event] *)
Definition record_event (id : string) (attempt_id : option string) (type : string) (payload : dict) (now : string) : tx event :=
  raise_if (negb (mem type EVENTS)) (AssistantWorkError "assistant event type is unsupported") >>*
  lift (reject_secret_keys (JObj payload) "$") >>*
  raise_if (131072 <? bytes_of (canonical payload))%Z (AssistantWorkError "assistant event payload exceeds 128KiB") >>*
  let* d := get in
  let n := next_sequence id d in
  let e := {| event_work := id; event_sequence := n; event_id := "event." +:+ id +:+ "." +:+ pretty n; event_attempt := attempt_id;
              event_type := type; event_payload := canonical payload; occurred_at := now |} in
  raise_if (existsb (fun old => bool_decide (event_id old = event_id e)) (events d)) IntegrityError >>*
  put (set_events (events d ++ [e]) d) >>*
  ret e.

(** ** Enqueueing *)

Record message := {
  m_instance : string;
  m_application : string;
  m_conversation : string;
  m_message : string;
  m_participant : string;
  m_sequence : Z;
}.

Definition identified (m : message) : answer unit :=
  identifier (m_instance m) "instance_id" >>?
  identifier (m_application m) "application_id" >>?
  identifier (m_conversation m) "conversation_id" >>?
  identifier (m_message m) "message_id" >>?
  identifier (m_participant m) "participant_id" >>?
  refuse_if (m_sequence m <? 1)%Z (AssistantWorkError "source_sequence must be a positive integer").

Definition work_id_of (m : message) : string :=
  "assistant." +:+ String.substring 7 32
    (canonical_digest (JObj [("conversationId", JStr (m_conversation m)); ("messageId", JStr (m_message m))])).

Definition new_work (m : message) (now : string) : work :=
  {| work_id := work_id_of m; instance_id := m_instance m; application_id := m_application m; conversation_id := m_conversation m;
     message_id := m_message m; participant_id := m_participant m; source_sequence := m_sequence m; state := "queued";
     attempt_count := 0; active_attempt_id := None; lease := None; provider_result := None; reply_message_id := None;
     work_failure := None; created_at := now; updated_at := now |}.

(** [SELECT * FROM assistant_work WHERE message_id=?] *)
Definition by_message (id : string) (d : database) : option work :=
  snd <$> List.find (fun kw => bool_decide (message_id (snd kw) = id)) (map_to_list (works d)).

Definition same_facts (m : message) (w : work) : bool :=
  bool_decide (work_id w = work_id_of m) && bool_decide (instance_id w = m_instance m) && bool_decide (application_id w = m_application m)
  && bool_decide (conversation_id w = m_conversation m) && bool_decide (message_id w = m_message m)
  && bool_decide (participant_id w = m_participant m) && (source_sequence w =? m_sequence m)%Z.

(** A larger number cannot be stored. *)
Definition SQLITE_MAX : Z := (2 ^ 63 - 1)%Z.

Definition enqueue (m : message) (clock : Z) : tx work :=
  lift (identified m) >>*
  let* now := lift (now_of clock) in
  transaction (
    let* d := get in
    match by_message (m_message m) d with
    | Some existing =>
        raise_if (negb (same_facts m existing))
          (AssistantWorkConflict "assistant message identity was reused with different work facts") >>*
        ret existing
    | None =>
        raise_if (SQLITE_MAX <? m_sequence m)%Z Overflow >>*
        raise_if (bool_decide (is_Some (works d !! work_id_of m))) (AssistantWorkConflict "assistant work identity is not unique") >>*
        put (set_works (<[work_id_of m := new_work m now]> (works d)) d) >>*
        (fun d => match record_event (work_id_of m) None "work.queued"
                          [("instanceId", JStr (m_instance m)); ("conversationId", JStr (m_conversation m)); ("messageId", JStr (m_message m))]
                          now d with
                  | (d', Raise IntegrityError) => (d', Raise (AssistantWorkConflict "assistant work identity is not unique"))
                  | (d', Raise e) => (d', Raise e)
                  | (d', Ok _) => (d', Ok (new_work m now))
                  end)
    end).

(** ** Claiming *)

Definition older (a b : work) : Prop :=
  (created_at a = created_at b /\ String.le (work_id a) (work_id b)) \/ (created_at a <> created_at b /\ String.le (created_at a) (created_at b)).

#[export] Instance older_dec : RelDecision older.
Proof. intros a b. unfold older. apply _. Defined.

(** [SELECT * FROM assistant_work WHERE p ORDER BY created_at,work_id] *)
Definition select (p : work -> bool) (d : database) : list work :=
  merge_sort older (List.filter p (snd <$> map_to_list (works d))).

Definition is_state (s : string) (w : work) : bool := bool_decide (state w = s).

Definition lease_expired (epoch : Z) (w : work) : bool :=
  match lease w with Some (_, _, expires) => (expires <=? epoch)%Z | None => false end.

Definition UNKNOWN_OUTCOME : dict :=
  [("code", JStr "provider_outcome_unknown_after_lease_expiry");
   ("message", JStr "Automatic reinvocation is refused because the provider outcome is unknown.")].

(** One round of [reconcile_expired_leases]: an interrupted invocation fails, an interrupted
    delivery is ready again. *)
Definition reconcile_one (now : string) (w : work) : tx unit :=
  if is_state "invoking" w then
    update_work (work_id w) (set_failure (canonical UNKNOWN_OUTCOME) ∘ set_state "failed" now) >>*
    update_attempt (active_attempt_id w) (in_state "running") (fail_with (canonical UNKNOWN_OUTCOME) ∘ finish_at now ∘ become "interrupted") >>*
    record_event (work_id w) (active_attempt_id w) "attempt.interrupted" [("reason", key_json "code" UNKNOWN_OUTCOME)] now >>*
    ret tt
  else
    update_work (work_id w) (set_state "result_ready" now) >>*
    update_attempt (active_attempt_id w) (in_state "delivering") (become "result_ready").

Fixpoint each_work (f : work -> tx unit) (l : list work) : tx unit :=
  match l with
  | [] => ret tt
  | w :: rest => f w >>* each_work f rest
  end.

Definition expired_rows (epoch : Z) (d : database) : list work :=
  select (fun w => (is_state "invoking" w || is_state "delivering" w) && lease_expired epoch w) d.

(** It answers how many invocations were interrupted and how many deliveries requeued. *)
Definition reconcile_expired_leases (clock : Z) : tx (nat * nat) :=
  let* epoch := lift (epoch_of clock) in
  let* now := lift (iso epoch) in
  transaction (
    let* rows := gets (expired_rows epoch) in
    each_work (reconcile_one now) rows >>*
    ret (length (List.filter (is_state "invoking") rows), length (List.filter (is_state "delivering") rows))).

Record AssistantClaim := {
  claimed : work;
  claim_attempt : string;
  phase : string;
  claim_token : string;
  claim_expires : string;
  claim_ordinal : Z;
  claim_result : option json;
}.

(** [_mapping] of a stored text *)
Definition mapping (value : option string) (field : string) : answer (option json) :=
  match value with
  | None => Ok None
  | Some text =>
      match loads text with
      | Some (JObj d) => Ok (Some (JObj d))
      | _ => refused ("stored " +:+ field +:+ " is malformed")
      end
  end.

Definition new_attempt (id : string) (n : Z) (now : string) : attempt :=
  {| attempt_work := id; ordinal := n; attempt_state := "running"; runtime_profile := None; process_identity := None; started_at := now;
     finished_at := None; result_digest := None; attempt_failure := None |}.

Definition attempt_id_of (id : string) (n : Z) : string := "attempt." +:+ id +:+ "." +:+ pretty n.

(** [UNIQUE(work_id,ordinal)] *)
Definition same_ordinal (id : string) (n : Z) (a : attempt) : bool := bool_decide (attempt_work a = id) && (ordinal a =? n)%Z.

Definition insert_attempt (aid id : string) (n : Z) (now : string) : tx unit :=
  let* d := get in
  raise_if (bool_decide (is_Some (attempts d !! aid)) || existsb (fun ka => same_ordinal id n (snd ka)) (map_to_list (attempts d))) IntegrityError >>*
  put (set_attempts (<[aid := new_attempt id n now]> (attempts d)) d).

Definition in_work_state (s : string) (f : work -> work) (w : work) : work := if is_state s w then f w else w.

Definition start_invocation (w : work) (owner hash : string) (expires : Z) (now : string) : tx (string * Z) :=
  let n := (attempt_count w + 1)%Z in
  let aid := attempt_id_of (work_id w) n in
  insert_attempt aid (work_id w) n now >>*
  update_work (work_id w) (in_work_state "queued" (set_lease owner hash expires ∘ set_attempt n aid ∘ set_state "invoking" now)) >>*
  record_event (work_id w) (Some aid) "attempt.started" [("ordinal", JInt n)] now >>*
  ret (aid, n).

Definition start_delivery (w : work) (owner hash : string) (expires : Z) (now : string) : tx (string * Z) :=
  let aid := default "" (active_attempt_id w) in
  raise_if (bool_decide (aid = "")) (AssistantWorkStateError "result-ready work has no active attempt") >>*
  update_work (work_id w) (in_work_state "result_ready" (set_lease owner hash expires ∘ set_state "delivering" now)) >>*
  update_attempt (Some aid) (in_state "result_ready") (become "delivering") >>*
  record_event (work_id w) (Some aid) "delivery.started" [] now >>*
  ret (aid, attempt_count w).

(** The row that is claimed next, with its phase *)
Definition candidate (d : database) : option (work * string) :=
  match select (is_state "result_ready") d with
  | w :: _ => Some (w, "deliver")
  | [] => match select (is_state "queued") d with w :: _ => Some (w, "invoke") | [] => None end
  end.

(** The transaction of [claim_next]: [None] if there is nothing to claim *)
Definition claim_row (owner token : string) (epoch expires : Z) (now : string) : tx (option (option work * string * string * Z)) :=
  transaction (
    let* d := get in
    match candidate d with
    | None => ret None
    | Some (w, phase) =>
        let* '(aid, n) := if bool_decide (phase = "invoke") then start_invocation w owner (lease_hash token) expires now
                          else start_delivery w owner (lease_hash token) expires now in
        let* current := gets (fun d => works d !! work_id w) in
        ret (Some (current, phase, aid, n))
    end).

(** [claim_next] after it has reconciled.  The claimed row is there when it is read back. *)
Definition claim_after (owner : string) (lease_seconds : Z) (token : string) (clock : Z) : tx (option AssistantClaim) :=
  let* epoch := lift (epoch_of clock) in
  let expires := (epoch + lease_seconds * SECOND)%Z in
  let* now := lift (iso epoch) in
  let* row := claim_row owner token epoch expires now in
  match row with
  | Some (Some current, phase, aid, n) =>
      let* until := lift (iso expires) in
      let* result := lift (mapping (fst <$> provider_result current) "provider result") in
      ret (Some {| claimed := current; claim_attempt := aid; phase := phase; claim_token := token; claim_expires := until;
                   claim_ordinal := n; claim_result := result |})
  | _ => ret None
  end.

Definition claim_next (worker : string) (lease_seconds : Z) (token : string) (clock1 clock2 : Z) : tx (option AssistantClaim) :=
  let* owner := lift (identifier worker "worker_id") in
  raise_if (negb ((5 <=? lease_seconds) && (lease_seconds <=? 3600))%Z) (AssistantWorkError "lease_seconds must be between 5 and 3600") >>*
  reconcile_expired_leases clock1 >>*
  claim_after owner lease_seconds token clock2.

(** ** Under a lease *)

(** [_lease]; it reads the clock itself. *)
Definition check_lease (id aid token st : string) (clock : Z) : tx work :=
  lift (identifier id "work_id") >>*
  lift (identifier aid "attempt_id") >>*
  raise_if (py_len token <? 32)%Z (AssistantWorkLeaseError "assistant lease token is invalid") >>*
  let not_owned := raise (AssistantWorkLeaseError "assistant work lease is not owned") in
  let* d := get in
  match works d !! id with
  | None => not_owned
  | Some w =>
      if negb (is_state st w) || negb (bool_decide (active_attempt_id w = Some aid)) then not_owned
      else match lease w with
           | None => not_owned
           | Some (_, hash, expires) =>
               if bool_decide (hash = "") || negb (bool_decide (hash = lease_hash token)) then not_owned
               else let* epoch := lift (epoch_of clock) in if (expires <=? epoch)%Z then not_owned else ret w
           end
  end.

(** What a caller shows of its claim, with the two times at which the clock is read *)
Record credentials := {
  c_work : string;
  c_attempt : string;
  c_token : string;
  c_now : Z;
  c_then : Z;
}.

Definition leased (c : credentials) (st : string) : tx work := check_lease (c_work c) (c_attempt c) (c_token c) st (c_then c).

Definition record_process_identity (c : credentials) (process runtime : dict) : tx event :=
  lift (reject_secret_keys (JObj process) "$") >>*
  lift (reject_secret_keys (JObj runtime) "$") >>*
  raise_if ((16384 <? py_len (canonical process)) || (16384 <? py_len (canonical runtime)))%Z
    (AssistantWorkError "assistant process identity exceeds bounds") >>*
  let* now := lift (now_of (c_now c)) in
  transaction (
    leased c "invoking" >>*
    update_attempt (Some (c_attempt c)) (in_state "running") (identify (canonical process) (canonical runtime)) >>*
    record_event (c_work c) (Some (c_attempt c)) "process.started"
      [("runtimeProfileDigest", JStr (canonical_digest (JObj runtime))); ("processIdentityDigest", JStr (canonical_digest (JObj process)))] now).

Definition RESULT_FIELDS : list string := ["runtime"; "adapter"; "provider"; "model"; "usage"].
Definition is_object (v : json) : bool := match v with JObj _ => true | _ => false end.

(** [_provider_result]; which of several bad fields it names is up to the order of a set. *)
Definition checked_result (value : dict) : answer unit :=
  refuse_if (negb (forallb (fun k => mem k ("assistantText" :: RESULT_FIELDS ++ ["durationMs"; "cleanup"])) (dict_keys value))
             || negb (forallb (fun k => dict_has k value) ("assistantText" :: RESULT_FIELDS)))
    (AssistantWorkError "provider result shape is invalid") >>?
  match key_json "assistantText" value with
  | JStr text => refuse_if (negb (nonblank text) || (262144 <? bytes_of text)%Z) (AssistantWorkError "provider assistant text is invalid")
  | _ => refused "provider assistant text is invalid"
  end >>?
  match List.find (fun k => negb (is_object (key_json k value))) RESULT_FIELDS with
  | Some k => refused ("provider result " +:+ k +:+ " is invalid")
  | None => Ok tt
  end >>?
  reject_secret_keys (JObj value) "$" >>?
  refuse_if (327680 <? bytes_of (canonical value))%Z (AssistantWorkError "provider result exceeds bounds").

Definition store_provider_result (c : credentials) (result : dict) : tx event :=
  lift (checked_result result) >>*
  let digest := canonical_digest (JObj result) in
  let* now := lift (now_of (c_now c)) in
  transaction (
    leased c "invoking" >>*
    update_work (c_work c) (set_result (canonical result) digest ∘ set_state "result_ready" now) >>*
    update_attempt (Some (c_attempt c)) (in_state "running") (digest_attempt digest ∘ become "result_ready") >>*
    record_event (c_work c) (Some (c_attempt c)) "provider.result_stored"
      (("resultDigest", JStr digest) :: ((fun k => (k, key_json k result)) <$> RESULT_FIELDS)) now).

Definition record_reply (c : credentials) (reply : string) : tx event :=
  lift (identifier reply "reply_message_id") >>*
  let* now := lift (now_of (c_now c)) in
  transaction (
    let* w := leased c "delivering" in
    match provider_result w with
    | None => raise (AssistantWorkStateError "provider result must be durable before reply")
    | Some (_, digest) =>
        update_work (c_work c) (set_reply reply ∘ set_state "completed" now) >>*
        update_attempt (Some (c_attempt c)) (in_state "delivering") (finish_at now ∘ become "completed") >>*
        record_event (c_work c) (Some (c_attempt c)) "reply.persisted" [("replyMessageId", JStr reply); ("resultDigest", JStr digest)] now
    end).

Definition CODE_fullmatch (s : string) : bool :=
  match s with
  | EmptyString => false
  | String c rest =>
      is_lower c && all_chars (fun c => is_lower c || is_digit c || bool_decide (c = "_"%char)) rest
      && (2 <=? py_len rest)%Z && (py_len rest <=? 127)%Z
  end.

Definition bad_message (m : string) : bool := bool_decide (m = "") || (2048 <? py_len m)%Z.

Definition error_document (code message : string) : dict := [("code", JStr code); ("message", JStr message)].

Definition fail_work (c : credentials) (code message : string) : tx event :=
  raise_if (negb (CODE_fullmatch code)) (AssistantWorkError "assistant failure code is invalid") >>*
  raise_if (bad_message message) (AssistantWorkError "assistant failure message is invalid") >>*
  let error := error_document code message in
  let* now := lift (now_of (c_now c)) in
  transaction (
    let* d := get in
    match works d !! c_work c with
    | None => raise (AssistantWorkStateError "assistant work is not active")
    | Some row =>
        raise_if (negb (mem (state row) ["invoking"; "delivering"])) (AssistantWorkStateError "assistant work is not active") >>*
        leased c (state row) >>*
        update_work (c_work c) (set_failure (canonical error) ∘ set_state "failed" now) >>*
        update_attempt (Some (c_attempt c)) (fun _ => true) (fail_with (canonical error) ∘ finish_at now ∘ become "failed") >>*
        record_event (c_work c) (Some (c_attempt c)) "attempt.failed" error now
    end).

(** ** Cancelling *)

Definition cancel_error (code message : string) : answer dict :=
  refuse_if (negb (CODE_fullmatch code)) (AssistantWorkError "assistant cancellation code is invalid") >>?
  refuse_if (bad_message message) (AssistantWorkError "assistant cancellation message is invalid") >>?
  Ok (error_document code message).

(** [request_cancel]: queued work is cancelled, other work is answered with its state. *)
Definition request_cancel (id code message : string) (clock : Z) : tx string :=
  let* error := lift (cancel_error code message) in
  let* now := lift (now_of clock) in
  transaction (
    let* d := get in
    match works d !! id with
    | None => raise (AssistantWorkError "assistant work was not found")
    | Some row =>
        if is_state "queued" row then
          update_work id (in_work_state "queued" (set_failure (canonical error) ∘ set_state "cancelled" now)) >>*
          record_event id None "attempt.interrupted" [("reason", JStr code); ("cancelled", JBool true)] now >>*
          ret "cancelled"
        else if is_state "invoking" row then ret "requested"
        else if is_state "cancelled" row then ret "cancelled"
        else ret "not_cancellable"
    end).

(** The clock is read for each of them. *)
Fixpoint cancel_each (ids : list string) (clock : nat -> Z) : tx unit :=
  match ids with
  | [] => ret tt
  | id :: rest =>
      request_cancel id "provider_disconnected" "Provider disconnected before this queued request began." (clock 0)
      >>* cancel_each rest (clock ∘ S)
  end.

(** The queued work is read first; then each cancellation is a transaction of its own. *)
Definition queued_ids (d : database) : list string := work_id <$> List.filter (is_state "queued") (snd <$> map_to_list (works d)).

Definition cancel_queued_for_disconnect (clock : nat -> Z) : tx nat :=
  let* ids := gets queued_ids in
  cancel_each ids clock >>*
  ret (length ids).

Definition CLEANUPS : list string := ["terminated"; "killed"; "already_exited"; "forced_kill"; "finished_before_cancel"].

Definition mark_cancelled (c : credentials) (code message cleanup : string) : tx event :=
  let* error := lift (cancel_error code message) in
  raise_if (negb (mem cleanup CLEANUPS)) (AssistantWorkError "assistant cancellation cleanup is unverified") >>*
  let* now := lift (now_of (c_now c)) in
  transaction (
    leased c "invoking" >>*
    update_work (c_work c) (in_work_state "invoking" (set_failure (canonical error) ∘ set_state "cancelled" now)) >>*
    update_attempt (Some (c_attempt c)) (in_state "running")
      (fail_with (canonical (error ++ [("cleanup", JStr cleanup)])) ∘ finish_at now ∘ become "interrupted") >>*
    record_event (c_work c) (Some (c_attempt c)) "attempt.interrupted"
      [("reason", JStr code); ("cancelled", JBool true); ("cleanup", JStr cleanup)] now).

(** ** Redelivery *)

Definition MAX_AUTOMATIC_DELIVERY_RETRIES : nat := 3.

Definition is_retry (e : event) : bool :=
  bool_decide (event_type e = "attempt.interrupted")
  && match loads (event_payload e) with Some (JObj d) => bool_decide (key_json "retryableDelivery" d = JBool true) | _ => false end.

Definition retries (id : string) (d : database) : nat := length (List.filter is_retry (journal id d)).

(** [requeue_delivery] answers the state the work is left in, with the retries counted. *)
Definition requeue_delivery (c : credentials) (code message : string) : tx (string * nat) :=
  raise_if (bad_message message) (AssistantWorkError "assistant delivery failure message is invalid") >>*
  let* now := lift (now_of (c_now c)) in
  transaction (
    let* w := leased c "delivering" in
    raise_if (negb (bool_decide (is_Some (provider_result w)))) (AssistantWorkStateError "provider result must remain durable before redelivery") >>*
    let* n := gets (retries (c_work c)) in
    let failure := error_document code message in
    let count := JInt (Z.of_nat (S n)) in
    if MAX_AUTOMATIC_DELIVERY_RETRIES <=? S n then
      update_work (c_work c) (in_work_state "delivering" (set_failure (canonical failure) ∘ set_state "failed" now)) >>*
      update_attempt (Some (c_attempt c)) (in_state "delivering") (fail_with (canonical failure) ∘ finish_at now ∘ become "failed") >>*
      record_event (c_work c) (Some (c_attempt c)) "attempt.failed"
        (failure ++ [("deliveryRetriesExhausted", JBool true); ("retryCount", count)]) now >>*
      ret ("failed", S n)
    else
      update_work (c_work c) (in_work_state "delivering" (set_failure (canonical failure) ∘ set_state "result_ready" now)) >>*
      update_attempt (Some (c_attempt c)) (in_state "delivering") (fail_with (canonical failure) ∘ become "result_ready") >>*
      record_event (c_work c) (Some (c_attempt c)) "attempt.interrupted"
        [("reason", JStr code); ("retryableDelivery", JBool true); ("retryCount", count)] now >>*
      ret ("result_ready", S n)).

(** ** Reading *)

(** [event_journal], with the payloads as texts *)
Fixpoint gapless (expected : Z) (l : list event) : answer unit :=
  match l with
  | [] => Ok tt
  | e :: rest =>
      if (event_sequence e =? expected)%Z then gapless (expected + 1) rest
      else refused "assistant event journal has a sequence gap"
  end.

Definition sequence_le (a b : event) : Prop := (event_sequence a <= event_sequence b)%Z.

#[export] Instance sequence_le_dec : RelDecision sequence_le.
Proof. intros a b. unfold sequence_le. apply _. Defined.

Definition event_journal (id : string) (after_sequence limit : Z) (d : database) : answer (list event) :=
  identifier id "work_id" >>?
  refuse_if (after_sequence <? 0)%Z (AssistantWorkError "after_sequence is invalid") >>?
  refuse_if (negb ((1 <=? limit) && (limit <=? 1000))%Z) (AssistantWorkError "event limit is invalid") >>?
  let rows := take (Z.to_nat limit)
                (merge_sort sequence_le (List.filter (fun e => (after_sequence <? event_sequence e)%Z) (journal id d))) in
  gapless (after_sequence + 1) rows >>? Ok rows.

(** ** What every work satisfies *)

Definition count (type : string) (l : list event) : nat := length (List.filter (fun e => bool_decide (event_type e = type)) l).
Definition starts : list event -> nat := count "attempt.started".
Definition stored : list event -> nat := count "provider.result_stored".
Definition replies : list event -> nat := count "reply.persisted".
Definition retried (l : list event) : nat := length (List.filter is_retry l).

Definition sealed (r : string * string) : Prop := exists d, r = (canonical d, canonical_digest (JObj d)).

Record row_ok (w : work) (l : list event) : Prop := {
  r_once : starts l <= 1;
  r_count : attempt_count w = Z.of_nat (starts l);
  r_waiting : state w = "queued" -> starts l = 0;
  r_started : mem (state w) ["invoking"; "result_ready"; "delivering"; "completed"] = true -> starts l = 1;
  r_stored : stored l = match provider_result w with Some _ => 1 | None => 0 end;
  r_result : mem (state w) ["result_ready"; "delivering"; "completed"] = true -> is_Some (provider_result w);
  r_no_result : mem (state w) ["queued"; "invoking"] = true -> provider_result w = None;
  r_sealed : forall r, provider_result w = Some r -> sealed r;
  r_replies : replies l = if bool_decide (state w = "completed") then 1 else 0;
  r_fresh : mem (state w) ["queued"; "invoking"] = true -> retried l = 0;
  r_retries : retried l < MAX_AUTOMATIC_DELIVERY_RETRIES;
  r_active : mem (state w) ["invoking"; "result_ready"; "delivering"] = true -> active_attempt_id w = Some (attempt_id_of (work_id w) 1);
}.

(** A result is stored only of a started attempt, and a reply recorded only of a stored
    result. *)
Definition in_order (l : list event) : Prop := forall l1 e l2, l = l1 ++ e :: l2 ->
  (event_type e = "provider.result_stored" -> starts l1 = 1) /\ (event_type e = "reply.persisted" -> stored l1 = 1).

Definition numbered (l : list event) : Prop := event_sequence <$> l = seqZ 1 (Z.of_nat (length l)).

Record inv (d : database) : Prop := {
  i_keys : forall id w, works d !! id = Some w -> work_id w = id;
  i_owned : forall e, e ∈ events d -> is_Some (works d !! event_work e);
  i_rows : forall id w, works d !! id = Some w -> row_ok w (journal id d);
  i_order : forall id, in_order (journal id d);
  i_numbered : forall id, numbered (journal id d);
}.

(** ** How a work may change *)

Definition NEXT (s : string) : list string :=
  if bool_decide (s = "queued") then ["invoking"; "cancelled"]
  else if bool_decide (s = "invoking") then ["result_ready"; "failed"; "cancelled"]
  else if bool_decide (s = "result_ready") then ["delivering"]
  else if bool_decide (s = "delivering") then ["result_ready"; "completed"; "failed"]
  else [].

Definition facts (w : work) : string * string * string * string * string * string * Z * string :=
  (work_id w, instance_id w, application_id w, conversation_id w, message_id w, participant_id w, source_sequence w, created_at w).

Record legal (w w' : work) : Prop := {
  l_facts : facts w' = facts w;
  l_path : rtc (fun s t => t ∈ NEXT s) (state w) (state w');
  l_ended : NEXT (state w) = [] -> w' = w;
  l_result : is_Some (provider_result w) -> provider_result w' = provider_result w;
}.

#[export] Instance legal_preorder : PreOrder legal.
Proof.
  split.
  - intros w. constructor; [done|constructor|done|done].
  - intros w1 w2 w3 [F1 P1 E1 R1] [F2 P2 E2 R2]. constructor.
    + congruence.
    + by etrans.
    + intros H. specialize (E1 H). subst w2. by apply E2.
    + intros H. rewrite <-R1 in * by done. by apply R2.
Qed.

(** Every work stays and changes legally; the journal only grows. *)
Record evolves (d d' : database) : Prop := {
  e_works : forall id w, works d !! id = Some w -> exists w', works d' !! id = Some w' /\ legal w w';
  e_events : events d `prefix_of` events d';
}.

#[export] Instance evolves_preorder : PreOrder evolves.
Proof.
  split.
  - intros d. constructor; [|done]. intros id w H. by exists w.
  - intros d1 d2 d3 [W1 E1] [W2 E2]. constructor; [|by etrans].
    intros id w (w2 & H2 & L2)%W1. destruct (W2 _ _ H2) as (w3 & H3 & L3). exists w3. split; [done|]. by etrans.
Qed.

Definition moved (d d' : database) : Prop := inv d' /\ evolves d d'.

Lemma moved_refl d : inv d -> moved d d.
Proof. by split. Qed.

(** *** Journals *)

Lemma count_snoc type l e : count type (l ++ [e]) = count type l + if bool_decide (event_type e = type) then 1 else 0.
Proof. unfold count. rewrite List.filter_app, length_app. cbn. by destruct (bool_decide _). Qed.

Lemma retried_snoc l e : retried (l ++ [e]) = retried l + if is_retry e then 1 else 0.
Proof. unfold retried. rewrite List.filter_app, length_app. cbn. by destruct (is_retry e). Qed.

Lemma numbered_max l : numbered l -> foldr (fun e n => Z.max (event_sequence e) n) 0%Z l = Z.of_nat (length l).
Proof.
  intros H.
  assert (G : forall k l, event_sequence <$> l = seqZ k (Z.of_nat (length l)) -> (1 <= k)%Z ->
            foldr (fun e n => Z.max (event_sequence e) n) 0%Z l = if bool_decide (l = []) then 0%Z else (k + Z.of_nat (length l) - 1)%Z).
  { clear. intros k l. revert k. induction l as [|e l IH]; intros k H Hk; [done|]. cbn [length] in H. rewrite fmap_cons, seqZ_cons in H by lia.
    injection H as He H. rewrite Nat2Z.inj_succ, Z.pred_succ in H. cbn [foldr]. rewrite (IH _ H) by lia.
    case_bool_decide; [subst; cbn; lia|]. case_bool_decide; [done|]. cbn [length]. destruct l; [done|]. cbn [length]. lia. }
  rewrite (G 1%Z l H) by lia. case_bool_decide; [by subst|lia].
Qed.

Lemma numbered_snoc l e : numbered l -> event_sequence e = (Z.of_nat (length l) + 1)%Z -> numbered (l ++ [e]).
Proof.
  unfold numbered. intros H He. rewrite fmap_app, length_app, H. cbn [length]. rewrite Nat2Z.inj_add, seqZ_app by lia.
  f_equal. cbn. by rewrite He, Z.add_comm.
Qed.

Lemma in_order_snoc l e : in_order l -> (event_type e = "provider.result_stored" -> starts l = 1) ->
  (event_type e = "reply.persisted" -> stored l = 1) -> in_order (l ++ [e]).
Proof.
  intros H H1 H2 l1 e' l2 E. destruct l2 as [|x l2 _] using rev_ind.
  - apply app_inj_tail in E as [-> ->]. done.
  - rewrite app_comm_cons, app_assoc in E. apply app_inj_tail in E as [E _]. by apply (H l1 e' l2).
Qed.

(** *** One step of one work *)

Record appended (id : string) (type : string) (payload : dict) (n : Z) (e : event) : Prop := {
  a_work : event_work e = id;
  a_sequence : event_sequence e = n;
  a_type : event_type e = type;
  a_payload : event_payload e = canonical payload;
}.

Definition after (f : work -> work) (id : string) (a : gmap string attempt) (new : list event) (d : database) : database :=
  {| works := alter f id (works d); attempts := a; events := events d ++ new |}.

Lemma journal_after f id a new d k : journal k (after f id a new d) = journal k d ++ filter (fun e => event_work e = k) new.
Proof. unfold journal. cbn. by rewrite filter_app. Qed.

Lemma alter_evolves f id d w a new : works d !! id = Some w -> legal w (f w) -> evolves d (after f id a new d).
Proof.
  intros Hw Hl. constructor; [|by exists new]. intros k v Hv. cbn. destruct (decide (k = id)) as [->|Hne].
  - exists (f w). rewrite lookup_alter_eq, Hw. simplify_eq. done.
  - exists v. by rewrite lookup_alter_ne.
Qed.

Lemma works_after f id d w k v : works d !! id = Some w -> alter f id (works d) !! k = Some v ->
  (k = id /\ v = f w) \/ (k <> id /\ works d !! k = Some v).
Proof.
  intros Hw H. destruct (decide (k = id)) as [->|Hne].
  - rewrite lookup_alter_eq, Hw in H. injection H as <-. by left.
  - rewrite lookup_alter_ne in H by done. by right.
Qed.

(** A work changes and its journal is extended. *)
Lemma advance d id w f a type payload e : inv d -> works d !! id = Some w -> appended id type payload (next_sequence id d) e -> legal w (f w) ->
  row_ok (f w) (journal id d ++ [e]) -> (type = "provider.result_stored" -> starts (journal id d) = 1) ->
  (type = "reply.persisted" -> stored (journal id d) = 1) -> moved d (after f id a [e] d).
Proof.
  intros Hi Hw [Ew Es Et _] Hl Hr Hs1 Hs2. split; [|by apply (alter_evolves f id d w)].
  assert (Hj : forall k, journal k (after f id a [e] d) = journal k d ++ if decide (k = id) then [e] else []).
  { intros k. rewrite journal_after. f_equal. rewrite filter_cons, filter_nil, Ew. by destruct (decide (id = k)), (decide (k = id)). }
  constructor.
  - intros k v Hv. destruct (works_after _ _ _ _ _ _ Hw Hv) as [[-> ->]|[_ Hv']]; [|by apply (i_keys _ Hi)].
    pose proof (l_facts _ _ Hl) as F. unfold facts in F. injection F as -> _ _ _ _ _ _ _. by eapply i_keys.
  - intros e' He'. cbn. assert (Hd : forall k, is_Some (works d !! k) -> is_Some (alter f id (works d) !! k)).
    { intros k Hk. destruct (decide (k = id)) as [->|?]; [rewrite lookup_alter_eq; by apply fmap_is_Some|by rewrite lookup_alter_ne]. }
    apply Hd. apply elem_of_app in He' as [He'|He']; [by apply (i_owned _ Hi)|]. apply list_elem_of_singleton in He' as ->. rewrite Ew. by exists w.
  - intros k v Hv. destruct (works_after _ _ _ _ _ _ Hw Hv) as [[-> ->]|[Hne Hv']]; rewrite Hj.
    + by rewrite decide_True.
    + rewrite decide_False, app_nil_r by done. by apply (i_rows _ Hi).
  - intros k. rewrite Hj. destruct (decide (k = id)) as [->|?]; [|rewrite app_nil_r; apply (i_order _ Hi)].
    apply in_order_snoc; [apply (i_order _ Hi)|by rewrite Et..].
  - intros k. rewrite Hj. destruct (decide (k = id)) as [->|?]; [|rewrite app_nil_r; apply (i_numbered _ Hi)].
    apply numbered_snoc; [apply (i_numbered _ Hi)|]. rewrite Es. unfold next_sequence. by rewrite (numbered_max _ (i_numbered _ Hi id)).
Qed.

(** A work changes without an event. *)
Lemma advance_silently d id w f a : inv d -> works d !! id = Some w -> legal w (f w) -> row_ok (f w) (journal id d) ->
  moved d (after f id a [] d).
Proof.
  intros Hi Hw Hl Hr. split; [|by apply (alter_evolves f id d w)].
  assert (Hj : forall k, journal k (after f id a [] d) = journal k d) by (intros k; rewrite journal_after, filter_nil; apply app_nil_r).
  constructor.
  - intros k v Hv. destruct (works_after _ _ _ _ _ _ Hw Hv) as [[-> ->]|[_ Hv']]; [|by apply (i_keys _ Hi)].
    pose proof (l_facts _ _ Hl) as F. unfold facts in F. injection F as -> _ _ _ _ _ _ _. by eapply i_keys.
  - intros e'. cbn. rewrite app_nil_r. intros He'. destruct (i_owned _ Hi _ He') as [v Hv].
    destruct (decide (event_work e' = id)) as [->|?]; [rewrite lookup_alter_eq; by apply fmap_is_Some|rewrite lookup_alter_ne by done; by exists v].
  - intros k v Hv. destruct (works_after _ _ _ _ _ _ Hw Hv) as [[-> ->]|[Hne Hv']]; rewrite Hj; [done|by apply (i_rows _ Hi)].
  - intros k. rewrite Hj. apply (i_order _ Hi).
  - intros k. rewrite Hj. apply (i_numbered _ Hi).
Qed.

(** ** Each command *)

Lemma wp_update_work (Q : unit -> database -> Prop) (R : work_error -> database -> Prop) id f d :
  Q tt (set_works (alter f id (works d)) d) -> wp (update_work id f) Q R d.
Proof. done. Qed.

Lemma wp_update_attempt (Q : unit -> database -> Prop) (R : work_error -> database -> Prop) id p f d :
  (forall a, Q tt (set_attempts a d)) -> wp (update_attempt id p f) Q R d.
Proof.
  intros H. destruct id as [id|]; [apply H|]. specialize (H (attempts d)). by destruct d.
Qed.

Lemma wp_record_event (Q : event -> database -> Prop) (R : work_error -> database -> Prop) id aid type payload now d :
  (forall e, appended id type payload (next_sequence id d) e -> Q e (set_events (events d ++ [e]) d)) -> (forall e, R e d) ->
  wp (record_event id aid type payload now) Q R d.
Proof. intros HQ HR. unfold record_event. repeat wp_step; first [apply HR|by apply HQ]. Qed.

Lemma wp_atomic {A} (Q : A -> database -> Prop) (R : work_error -> database -> Prop) (body : tx A) d :
  wp body Q (fun _ _ => True) d -> (forall e, R e d) -> wp (transaction body) Q R d.
Proof. unfold wp, transaction. destruct (body d) as [d' [a|e]]; auto. Qed.

(** A caller holds the lease of a work in the given state. *)
Lemma wp_lease_held (Q : work -> database -> Prop) (R : work_error -> database -> Prop) c st d :
  (forall w, works d !! c_work c = Some w -> state w = st -> Q w d) -> (forall e, R e d) -> wp (leased c st) Q R d.
Proof.
  intros HQ HR. unfold leased, check_lease. repeat wp_step; try apply HR. destruct (works d !! c_work c) as [w|] eqn:Hw; [|apply HR].
  wp_step; [apply HR|]. destruct (lease w) as [[[o h] x]|]; [|apply HR]. repeat wp_step; try apply HR.
  unfold is_state in *. split_bool. by apply HQ.
Qed.

Lemma in_work_state_is s F w : state w = s -> in_work_state s F w = F w.
Proof. intros <-. unfold in_work_state, is_state. by rewrite bool_decide_eq_true_2. Qed.

Lemma not_retry e : event_type e <> "attempt.interrupted" -> is_retry e = false.
Proof. intros H. unfold is_retry. by rewrite bool_decide_eq_false_2. Qed.

(** [row_step Hr Hs Ht] keeps [row_ok] when a work in the state of [Hs] records an event of the
    type of [Ht]. *)
Ltac closed_mem :=
  repeat match goal with
  | H : mem _ _ = true -> _ |- _ => first [specialize (H eq_refl) | clear H]
  | H : mem _ _ = true |- _ => first [discriminate H | clear H]
  end.

Ltac fields :=
  cbn [state attempt_count provider_result active_attempt_id work_id set_failure set_state set_lease set_attempt set_result set_reply compose].

Ltac results :=
  repeat match goal with
  | H : is_Some (provider_result ?w) |- _ => let r := fresh "r" in destruct H as [r H]; rewrite ?H in *
  | H : provider_result ?w = None |- _ => progress rewrite H in *
  end.

Ltac row_finish :=
  intros; closed_mem; unfold MAX_AUTOMATIC_DELIVERY_RETRIES in *; results; repeat case_bool_decide; try discriminate;
  first [done | lia | congruence | by auto | by destruct (is_retry _); lia | idtac].

Ltac row_step Hr Hs Ht :=
  let H := fresh in pose proof Hr as H; destruct H; rewrite Hs in *; constructor; unfold starts, stored, replies in *;
  rewrite ?count_snoc, ?retried_snoc, ?Ht; rewrite ?(not_retry _) by (by rewrite Ht); fields; rewrite ?Hs; row_finish.

(** The same when it records no event *)
Ltac row_silent Hr Hs :=
  let H := fresh in pose proof Hr as H; destruct H; rewrite Hs in *; constructor; fields; row_finish.

(** *** The moves of a work *)

Lemma legal_move w w' s : state w = s -> facts w' = facts w -> state w' ∈ NEXT s ->
  (is_Some (provider_result w) -> provider_result w' = provider_result w) -> legal w w'.
Proof.
  intros <- Hf Hs Hr. constructor; [done|by apply rtc_once| |done]. intros H. rewrite H in Hs. by apply not_elem_of_nil in Hs.
Qed.

Ltac in_next := apply mem_true; vm_compute; reflexivity.

Section operations.
Context (d : database) (Hi : inv d).

Local Abbreviation keeps m := (wp m (fun _ d' => moved d d') (fun _ d' => moved d d') d).

Ltac work_step :=
  match goal with
  | |- wp (update_work _ _) _ _ _ => apply wp_update_work
  | |- wp (update_attempt _ _ _) _ _ _ => apply wp_update_attempt; intros ?
  | |- wp (record_event _ _ _ _ _) _ _ _ => apply wp_record_event; [intros ? ?|done]
  | |- _ => wp_step
  end.
Ltac begin := repeat (wp_step; try by apply moved_refl); apply wp_atomic; [|intros _; by apply moved_refl].

(** [advances Hw Hs]: the work of [Hw], which is in the state of [Hs], moves with the event just
    recorded. *)
Ltac advances Hw Hs :=
  match type of Hw with works _ !! ?id = Some ?w =>
  match goal with Ha : appended id _ _ _ ?e |- _ =>
    eapply (advance d id w _ _ _ _ _ Hi Hw Ha);
    rewrite ?(in_work_state_is _ _ _ Hs);
    [eapply legal_move; [exact Hs|done|in_next|fields; intros; results; try done]
    |row_step (i_rows _ Hi _ _ Hw) Hs (a_type _ _ _ _ _ Ha)
    |..]; try done
  end end.

Lemma record_process_identity_keeps c process runtime : keeps (record_process_identity c process runtime).
Proof.
  unfold record_process_identity. begin. wp_step. apply wp_lease_held; [|done]. intros w Hw Hs. repeat work_step.
  assert (E : forall a e, set_events (events d ++ [e]) (set_attempts a d) = after (fun w => w) (c_work c) a [e] d).
  { intros a' e'. unfold after, set_events, set_attempts. f_equal. by rewrite alter_id. }
  cbn. rewrite E. match goal with Ha : appended _ _ _ _ ?e |- _ => eapply (advance d (c_work c) w _ _ _ _ _ Hi Hw Ha);
    [reflexivity|row_step (i_rows _ Hi _ _ Hw) Hs (a_type _ _ _ _ _ Ha)|..] end; try done.
Qed.

Lemma has_started st w id : works d !! id = Some w -> state w = st -> mem st ["invoking"; "result_ready"; "delivering"; "completed"] = true ->
  starts (journal id d) = 1.
Proof. intros Hw <- H. exact (r_started _ _ (i_rows _ Hi _ _ Hw) H). Qed.

Lemma has_stored w id r : works d !! id = Some w -> provider_result w = Some r -> stored (journal id d) = 1.
Proof. intros Hw Hp. rewrite (r_stored _ _ (i_rows _ Hi _ _ Hw)). by rewrite Hp. Qed.

Lemma has_no_result st w id : works d !! id = Some w -> state w = st -> mem st ["queued"; "invoking"] = true -> provider_result w = None.
Proof. intros Hw <- H. exact (r_no_result _ _ (i_rows _ Hi _ _ Hw) H). Qed.

Lemma has_result st w id : works d !! id = Some w -> state w = st -> mem st ["result_ready"; "delivering"; "completed"] = true ->
  is_Some (provider_result w).
Proof. intros Hw <- H. exact (r_result _ _ (i_rows _ Hi _ _ Hw) H). Qed.

Lemma store_provider_result_keeps c result : keeps (store_provider_result c result).
Proof.
  unfold store_provider_result. begin. wp_step. apply wp_lease_held; [|done]. intros w Hw Hs. repeat work_step.
  pose proof (has_no_result _ _ _ Hw Hs eq_refl) as Hn. pose proof (has_started _ _ _ Hw Hs eq_refl) as Hd1.
  advances Hw Hs. eexists. by simplify_eq.
Qed.

Lemma record_reply_keeps c reply : keeps (record_reply c reply).
Proof.
  unfold record_reply. begin. wp_step. apply wp_lease_held; [|done]. intros w Hw Hs. destruct (provider_result w) as [[text digest]|] eqn:Hp; [|done].
  repeat work_step. pose proof (has_stored _ _ _ Hw Hp) as Hd1. pose proof (has_started _ _ _ Hw Hs eq_refl) as Hd2. advances Hw Hs.
Qed.

Lemma fail_work_keeps c code message : keeps (fail_work c code message).
Proof.
  unfold fail_work. begin. repeat work_step. destruct (works d !! c_work c) as [w|] eqn:Hw; [|done].
  repeat work_step; [done|]. apply wp_lease_held; [|done]. intros w' Hw' Hs. simplify_eq. repeat work_step.
  split_bool. apply mem_true in H2. assert (Hst : state w = "invoking" \/ state w = "delivering") by set_solver.
  destruct Hst as [Hs'|Hs']; advances Hw Hs'.
Qed.

Lemma request_cancel_keeps id code message clock : keeps (request_cancel id code message clock).
Proof.
  unfold request_cancel. begin. repeat work_step. destruct (works d !! id) as [w|] eqn:Hw; [|done].
  repeat work_step; try by apply moved_refl. unfold is_state in *. split_bool.
  pose proof (has_no_result _ _ _ Hw H1 eq_refl) as Hn. advances Hw H1.
Qed.

Lemma mark_cancelled_keeps c code message cleanup : keeps (mark_cancelled c code message cleanup).
Proof.
  unfold mark_cancelled. begin. wp_step. apply wp_lease_held; [|done]. intros w Hw Hs. repeat work_step.
  pose proof (has_no_result _ _ _ Hw Hs eq_refl) as Hn. advances Hw Hs.
Qed.

Lemma requeue_delivery_keeps c code message : keeps (requeue_delivery c code message).
Proof.
  unfold requeue_delivery. begin. wp_step. apply wp_lease_held; [|done]. intros w Hw Hs. repeat work_step.
  1: done.
  all: pose proof (has_started _ _ _ Hw Hs eq_refl) as Hd1.
  1: advances Hw Hs.
  unfold retries in *. change (length (List.filter is_retry (journal (c_work c) d))) with (retried (journal (c_work c) d)) in *.
  match goal with H : (MAX_AUTOMATIC_DELIVERY_RETRIES <=? _) = false |- _ => apply Nat.leb_gt in H end.
  advances Hw Hs.
Qed.

(** The row the next claim is of *)
Lemma select_elem p w : w ∈ select p d -> works d !! work_id w = Some w /\ p w = true.
Proof.
  unfold select. rewrite merge_sort_Permutation. intros H%list_elem_of_In%filter_In. destruct H as [H Hp]. split; [|done].
  apply list_elem_of_In, list_elem_of_fmap in H as ([k v] & -> & H%elem_of_map_to_list). cbn. by rewrite (i_keys _ Hi _ _ H).
Qed.

Lemma candidate_is w ph : candidate d = Some (w, ph) -> works d !! work_id w = Some w /\
  (ph = "deliver" /\ state w = "result_ready" \/ ph = "invoke" /\ state w = "queued").
Proof.
  unfold candidate. destruct (select (is_state "result_ready") d) as [|v l] eqn:E1.
  - destruct (select (is_state "queued") d) as [|v l] eqn:E2; [done|]. intros [= <- <-].
    destruct (select_elem (is_state "queued") v) as [H Hs]; [rewrite E2; by left|]. unfold is_state in Hs. split_bool. auto.
  - intros [= <- <-]. destruct (select_elem (is_state "result_ready") v) as [H Hs]; [rewrite E1; by left|].
    unfold is_state in Hs. split_bool. auto.
Qed.

Definition now_in (s id : string) (d' : database) : Prop := exists w, works d' !! id = Some w /\ state w = s.

Lemma start_delivery_keeps w owner hash expires now : works d !! work_id w = Some w -> state w = "result_ready" ->
  wp (start_delivery w owner hash expires now) (fun _ d' => moved d d' /\ now_in "delivering" (work_id w) d') (fun _ _ => True) d.
Proof.
  intros Hw Hs. unfold start_delivery. repeat work_step; [done|]. pose proof (has_result _ _ _ Hw Hs eq_refl) as Hr.
  split; [advances Hw Hs|]. unfold now_in. cbn. rewrite lookup_alter_eq, Hw. cbn. rewrite (in_work_state_is _ _ _ Hs). by eexists.
Qed.

Lemma start_invocation_keeps w owner hash expires now : works d !! work_id w = Some w -> state w = "queued" ->
  wp (start_invocation w owner hash expires now) (fun _ d' => moved d d' /\ now_in "invoking" (work_id w) d') (fun _ _ => True) d.
Proof.
  intros Hw Hs. unfold start_invocation, insert_attempt. repeat work_step; [done|].
  pose proof (has_no_result _ _ _ Hw Hs eq_refl) as Hn. pose proof (r_waiting _ _ (i_rows _ Hi _ _ Hw) Hs) as Hz.
  pose proof (r_count _ _ (i_rows _ Hi _ _ Hw)) as Hc. rewrite Hz in Hc. unfold starts in Hz.
  split; [advances Hw Hs; by rewrite Hc|]. unfold now_in. cbn. rewrite lookup_alter_eq, Hw. cbn.
  rewrite (in_work_state_is _ _ _ Hs). by eexists.
Qed.

(** A claim to invoke starts the first attempt; a claim to deliver is of a stored result. *)
Definition claim_ok (d' : database) (w : work) (ph : string) : Prop :=
  (ph = "invoke" /\ starts (journal (work_id w) d) = 0 /\ starts (journal (work_id w) d') = 1)
  \/ (ph = "deliver" /\ is_Some (provider_result w)).

Lemma claim_row_keeps owner token epoch expires now :
  wp (claim_row owner token epoch expires now)
     (fun r d' => moved d d' /\ match r with Some (Some w, ph, _, _) => claim_ok d' w ph | _ => True end) (fun _ d' => moved d d') d.
Proof.
  unfold claim_row. apply wp_atomic; [|intros _; by apply moved_refl]. repeat work_step.
  destruct (candidate d) as [[w ph]|] eqn:Hc; [|split; [by apply moved_refl|done]].
  assert (G : forall s d', moved d d' -> now_in s (work_id w) d' -> exists v, works d' !! work_id w = Some v /\ work_id v = work_id w /\
              row_ok v (journal (work_id w) d') /\ state v = s).
  { intros s d' [Hi' _] (v & Hv & Hs). exists v. split; [done|]. split; [by apply (i_keys _ Hi')|]. split; [by apply (i_rows _ Hi')|done]. }
  apply candidate_is in Hc as [Hw [[-> Hs]|[-> Hs]]]; wp_step.
  - rewrite bool_decide_eq_false_2 by done. eapply wp_mono; [by apply start_delivery_keeps| |done].
    intros [aid n] d' [Hm Hd]. wp_step. wp_step. destruct (G _ _ Hm Hd) as (v & Hv & Hk & Hr & Hst). rewrite Hv. cbn. split; [done|]. right.
    split; [done|]. by apply (r_result _ _ Hr); rewrite Hst.
  - rewrite bool_decide_eq_true_2 by done. eapply wp_mono; [by apply start_invocation_keeps| |done].
    intros [aid n] d' [Hm Hd]. wp_step. wp_step. destruct (G _ _ Hm Hd) as (v & Hv & Hk & Hr & Hst). rewrite Hv. cbn. split; [done|]. left.
    rewrite Hk. split; [done|]. split; [by apply (r_waiting _ _ (i_rows _ Hi _ _ Hw))|]. by apply (r_started _ _ Hr); rewrite Hst.
Qed.

Lemma claim_after_keeps owner n token clock :
  wp (claim_after owner n token clock)
     (fun o d' => moved d d' /\ match o with Some c => claim_ok d' (claimed c) (phase c) | None => True end) (fun _ d' => moved d d') d.
Proof.
  unfold claim_after. wp_step. wp_step; [|by apply moved_refl]. wp_step. wp_step; [|by apply moved_refl]. wp_step.
  eapply wp_mono; [apply claim_row_keeps| |done]. intros [[[[[w|] ph] aid] k]|] d' [Hm Hc]; [|done|done].
  repeat wp_step; done.
Qed.

(** One round of the reconciliation changes its own row alone. *)
Lemma reconcile_one_keeps now w : works d !! work_id w = Some w -> state w = "invoking" \/ state w = "delivering" ->
  wp (reconcile_one now w) (fun _ d' => moved d d' /\ forall k, k <> work_id w -> works d' !! k = works d !! k) (fun _ _ => True) d.
Proof.
  intros Hw Hst. unfold reconcile_one. generalize UNKNOWN_OUTCOME as outcome. intros outcome. repeat work_step; unfold is_state in *; split_bool.
  - match goal with H : state w = _ |- _ => pose proof (has_no_result _ _ _ Hw H eq_refl) as Hn; split; [advances Hw H|] end.
    intros k Hk. cbn. by rewrite lookup_alter_ne.
  - destruct Hst as [?|Hs]; [done|]. split; [|intros k Hk; cbn; by rewrite lookup_alter_ne].
    pose proof (has_result _ _ _ Hw Hs eq_refl) as Hr.
    assert (E : forall f a, set_attempts a (set_works (alter f (work_id w) (works d)) d) = after f (work_id w) a [] d).
    { intros f a'. unfold after, set_attempts, set_works. cbn. by rewrite app_nil_r. }
    rewrite E. eapply advance_silently; [done..| |].
    + eapply legal_move; [exact Hs|done|in_next|done].
    + row_silent (i_rows _ Hi _ _ Hw) Hs.
Qed.

Lemma journal_none id : works d !! id = None -> journal id d = [].
Proof.
  intros H. destruct (journal id d) as [|e l] eqn:E; [done|]. exfalso.
  assert (He : e ∈ journal id d) by (rewrite E; by left). apply list_elem_of_filter in He as [He Hin].
  apply (i_owned _ Hi) in Hin as [w Hw]. by rewrite He, H in Hw.
Qed.

(** A work is added, with the first event of its journal. *)
Lemma moved_insert m now payload e : works d !! work_id_of m = None -> appended (work_id_of m) "work.queued" payload (next_sequence (work_id_of m) d) e ->
  moved d (set_events (events d ++ [e]) (set_works (<[work_id_of m := new_work m now]> (works d)) d)).
Proof.
  intros Hw [Ew Es Et _]. pose proof (journal_none _ Hw) as Hj. set (id := work_id_of m) in *. set (d' := set_events _ _).
  assert (Hj' : forall k, journal k d' = if decide (k = id) then [e] else journal k d).
  { intros k. unfold journal, d'. cbn. rewrite filter_app, filter_cons, filter_nil, Ew. fold (journal k d).
    rewrite (decide_ext (id = k) (k = id)) by done.
    destruct (decide (k = id)) as [->|?]; [by rewrite Hj|apply app_nil_r]. }
  split; [constructor|constructor].
  - intros k v Hk. cbn in Hk. apply lookup_insert_Some in Hk as [[Hk <-]|[_ H]]; [done|by apply (i_keys _ Hi)].
  - intros e' He'. cbn. apply elem_of_app in He' as [He'|He'].
    + apply (i_owned _ Hi) in He' as [v Hv]. rewrite lookup_insert_ne by congruence. by exists v.
    + apply list_elem_of_singleton in He' as ->. rewrite Ew, lookup_insert_eq. by eexists.
  - intros k v Hk. cbn in Hk. apply lookup_insert_Some in Hk as [[Hk <-]|[Hne H]]; rewrite Hj'.
    + rewrite decide_True by done. constructor; unfold starts, stored, replies, count, retried; cbn; rewrite ?(not_retry e), ?Et by (by rewrite Et); cbn; first [done | vm_compute; lia].
    + rewrite decide_False by done. by apply (i_rows _ Hi).
  - intros k. rewrite Hj'. destruct (decide (k = id)); [|apply (i_order _ Hi)].
    apply (in_order_snoc [] e); [|by rewrite Et..]. intros l1 x l2 Hl. by destruct l1.
  - intros k. rewrite Hj'. destruct (decide (k = id)); [|apply (i_numbered _ Hi)].
    apply (numbered_snoc [] e); [done|]. rewrite Es. unfold next_sequence. by rewrite Hj.
  - intros k v Hv. exists v. cbn. rewrite lookup_insert_ne by congruence. done.
  - by exists [e].
Qed.

Lemma enqueue_keeps m clock : keeps (enqueue m clock).
Proof.
  unfold enqueue. begin. repeat work_step. destruct (by_message (m_message m) d) as [w|].
  - repeat work_step; by try apply moved_refl.
  - repeat work_step; [done..|]. set (p := [_; _; _]). set (d1 := set_works _ _).
    assert (G : wp (record_event (work_id_of m) None "work.queued" p a0) (fun _ d' => moved d d') (fun _ _ => True) d1).
    { apply wp_record_event; [|done]. intros e He. apply (moved_insert _ _ p); [|done]. split_bool. by apply eq_None_not_Some. }
    unfold wp in *. by destruct (record_event _ _ _ p a0 d1) as [d' [e|[]]].
Qed.
End operations.

(** *** Several transactions *)

Lemma moved_trans d1 d2 d3 : moved d1 d2 -> moved d2 d3 -> moved d1 d3.
Proof. intros [_ E1] [Hi E2]. split; [done|by etrans]. Qed.

Definition keeps {A} (m : tx A) : Prop := forall d, inv d -> wp m (fun _ d' => moved d d') (fun _ d' => moved d d') d.

Lemma seq_keeps {A B} (m : tx A) (k : A -> tx B) : keeps m -> (forall a, keeps (k a)) -> keeps (bind m k).
Proof.
  intros Hm Hk d Hi. apply wp_bind. eapply wp_mono; [by apply Hm| |done]. intros a d1 H1.
  eapply wp_mono; [apply Hk, H1|..]; intros ? ?; by apply moved_trans.
Qed.

Lemma ret_keeps {A} (a : A) : keeps (ret a : tx A).
Proof. intros d Hi. by apply moved_refl. Qed.

Lemma cancel_each_keeps ids : forall clock, keeps (cancel_each ids clock).
Proof.
  induction ids as [|id ids IH]; intros clock; [exact (ret_keeps tt)|].
  apply seq_keeps; [intros d Hi; by apply request_cancel_keeps|intros _; apply IH].
Qed.

Lemma cancel_queued_keeps clock : keeps (cancel_queued_for_disconnect clock).
Proof.
  apply seq_keeps; [intros d Hi; wp_step; by apply moved_refl|]. intros ids.
  apply seq_keeps; [apply cancel_each_keeps|intros _; apply ret_keeps].
Qed.

(** The rows of a reconciliation are all there when it comes to them. *)
Lemma each_work_keeps now l : forall d, inv d -> NoDup (work_id <$> l) ->
  (forall w, w ∈ l -> works d !! work_id w = Some w /\ (state w = "invoking" \/ state w = "delivering")) ->
  wp (each_work (reconcile_one now) l) (fun _ d' => moved d d') (fun _ _ => True) d.
Proof.
  induction l as [|w l IH]; intros d Hi Hn Hl; [by apply moved_refl|]. apply NoDup_cons in Hn as [Hw Hn]. cbn. wp_step.
  destruct (Hl w) as [H Hs]; [by left|]. eapply wp_mono; [by apply reconcile_one_keeps| |done]. intros u d1 [Hm Hd1].
  eapply wp_mono; [apply IH; [apply Hm|done|]| |done].
  - intros v Hv. destruct (Hl v) as [Hv1 Hv2]; [by right|]. split; [|done]. rewrite Hd1; [done|].
    intros Heq. apply Hw. rewrite <-Heq. by apply list_elem_of_fmap_2.
  - intros ? d2. by apply moved_trans.
Qed.

Lemma select_NoDup p d : inv d -> NoDup (work_id <$> select p d).
Proof.
  intros Hi. unfold select. rewrite merge_sort_Permutation.
  assert (E : forall l : list (string * work), Forall (fun kw => work_id kw.2 = kw.1) l -> NoDup l.*1 ->
              NoDup (work_id <$> List.filter p (snd <$> l))).
  { clear. induction l as [|[k w] l IH]; intros Hk Hn; [by apply NoDup_nil_2|]. apply Forall_cons in Hk as [Hk1 Hk2]. apply NoDup_cons in Hn as [Hn1 Hn2].
    cbn. destruct (p w); [|by apply IH]. apply NoDup_cons. split; [|by apply IH]. cbn in Hk1. rewrite Hk1. intros Hin. apply Hn1.
    apply list_elem_of_fmap in Hin as (v & -> & Hv). apply list_elem_of_In, filter_In in Hv as [Hv _].
    apply list_elem_of_In, list_elem_of_fmap in Hv as (kv & -> & Hv). rewrite (proj1 (Forall_forall _ _) Hk2 _ Hv). exact (list_elem_of_fmap_2 fst l kv Hv). }
  apply E; [|apply NoDup_fst_map_to_list]. apply Forall_forall. intros [k w] H. apply elem_of_map_to_list in H. cbn. by apply (i_keys _ Hi).
Qed.

Lemma reconcile_keeps clock : keeps (reconcile_expired_leases clock).
Proof.
  intros d Hi. unfold reconcile_expired_leases. do 2 (wp_step; wp_step; [|by apply moved_refl]).
  apply wp_atomic; [|intros _; by apply moved_refl]. repeat wp_step. eapply wp_mono; [apply (each_work_keeps _ _ d Hi)| |done].
  - by apply select_NoDup.
  - intros w Hw. apply select_elem in Hw as [Hw Hp]; [|done]. split; [done|]. unfold is_state in Hp. apply andb_true_iff in Hp as [Hp _].
    apply orb_true_iff in Hp as [Hp|Hp]; split_bool; auto.
  - done.
Qed.

Lemma starts_grow d d' id : evolves d d' -> starts (journal id d) <= starts (journal id d').
Proof.
  intros [_ [l He]]. unfold journal. rewrite He, filter_app. unfold starts, count. rewrite List.filter_app, length_app. lia.
Qed.

Lemma claim_next_keeps worker n token clock1 clock2 d : inv d ->
  wp (claim_next worker n token clock1 clock2)
     (fun o d' => moved d d' /\ match o with Some c => claim_ok d d' (claimed c) (phase c) | None => True end) (fun _ d' => moved d d') d.
Proof.
  intros Hi. unfold claim_next. wp_step. wp_step; [|by apply moved_refl]. wp_step. wp_step; [by apply moved_refl|]. wp_step.
  eapply wp_mono; [exact (reconcile_keeps clock1 d Hi)| |done]. intros u d1 H1.
  eapply wp_mono; [apply claim_after_keeps, H1| |intros ? ?; by apply moved_trans].
  intros o d2 [H2 Hc]. split; [exact (moved_trans _ _ _ H1 H2)|]. destruct o as [c|]; [|done]. destruct Hc as [(? & ? & ?)|?]; [|by right].
  left. split; [done|]. split; [|done]. pose proof (starts_grow _ _ (work_id (claimed c)) (proj2 H1)). lia.
Qed.

(** ** Histories *)

(** A call on the store by any of the processes that share it *)
Inductive work_call :=
| Enqueue (m : message) (clock : Z)
| Reconcile (clock : Z)
| ClaimNext (worker : string) (lease_seconds : Z) (token : string) (clock1 clock2 : Z)
| ClaimAfter (owner : string) (lease_seconds : Z) (token : string) (clock : Z)
| RecordProcessIdentity (c : credentials) (process runtime : dict)
| StoreProviderResult (c : credentials) (result : dict)
| RecordReply (c : credentials) (reply : string)
| Fail_ (c : credentials) (code message : string)
| RequestCancel (id code message : string) (clock : Z)
| CancelQueued (clock : nat -> Z)
| MarkCancelled (c : credentials) (code message cleanup : string)
| RequeueDelivery (c : credentials) (code message : string).

Definition quietly {A} (m : tx A) : tx (option AssistantClaim) := m >>* ret None.

(** What a call does, with the claim it answers, if any *)
Definition perform (call : work_call) : tx (option AssistantClaim) :=
  match call with
  | Enqueue m clock => quietly (enqueue m clock)
  | Reconcile clock => quietly (reconcile_expired_leases clock)
  | ClaimNext worker n token clock1 clock2 => claim_next worker n token clock1 clock2
  | ClaimAfter owner n token clock => claim_after owner n token clock
  | RecordProcessIdentity c process runtime => quietly (record_process_identity c process runtime)
  | StoreProviderResult c result => quietly (store_provider_result c result)
  | RecordReply c reply => quietly (record_reply c reply)
  | Fail_ c code message => quietly (fail_work c code message)
  | RequestCancel id code message clock => quietly (request_cancel id code message clock)
  | CancelQueued clock => quietly (cancel_queued_for_disconnect clock)
  | MarkCancelled c code message cleanup => quietly (mark_cancelled c code message cleanup)
  | RequeueDelivery c code message => quietly (requeue_delivery c code message)
  end.

Definition is_claim (call : work_call) : bool := match call with ClaimNext _ _ _ _ _ | ClaimAfter _ _ _ _ => true | _ => false end.

(** The database after the calls, and the claims answered, in order *)
Fixpoint history (calls : list work_call) (d : database) : database * list AssistantClaim :=
  match calls with
  | [] => (d, [])
  | call :: rest =>
      let '(d1, o) := perform call d in
      let '(d2, l) := history rest d1 in
      (d2, match o with Ok (Some c) => c :: l | _ => l end)
  end.

Lemma quietly_performs {A} (m : tx A) d : inv d -> keeps m ->
  wp (quietly m) (fun o d' => moved d d' /\ match o with Some c => claim_ok d d' (claimed c) (phase c) | None => True end) (fun _ d' => moved d d') d.
Proof. intros Hi Hm. unfold quietly. wp_step. eapply wp_mono; [by apply Hm| |done]. intros ? d1 H1. by split. Qed.

Lemma perform_keeps call d : inv d ->
  wp (perform call) (fun o d' => moved d d' /\ match o with Some c => claim_ok d d' (claimed c) (phase c) | None => True end) (fun _ d' => moved d d') d.
Proof.
  intros Hi. destruct call; cbn [perform]; try (apply quietly_performs; [done|]).
  3: by apply claim_next_keeps.
  3: by apply claim_after_keeps.
  2: apply reconcile_keeps.
  7: apply cancel_queued_keeps.
  all: intros d' Hi'; auto using enqueue_keeps, record_process_identity_keeps, store_provider_result_keeps, record_reply_keeps, fail_work_keeps,
    request_cancel_keeps, mark_cancelled_keeps, requeue_delivery_keeps.
Qed.

Lemma history_moves calls : forall d, inv d -> moved d (history calls d).1.
Proof.
  induction calls as [|call calls IH]; intros d Hi; [by apply moved_refl|]. cbn. pose proof (perform_keeps call d Hi) as H. unfold wp in H.
  destruct (perform call d) as [d1 o]. assert (Hm : moved d d1) by (by destruct o as [x|e]; [destruct H|]).
  specialize (IH d1 (proj1 Hm)). destruct (history calls d1) as [d2 l]. by eapply moved_trans.
Qed.

(** What the claims of a history say of the state in which it began *)
Lemma history_claims calls : forall d, inv d ->
  (forall c, c ∈ (history calls d).2 -> (phase c = "invoke" /\ starts (journal (work_id (claimed c)) d) = 0) \/ (phase c = "deliver" /\ is_Some (provider_result (claimed c)))) /\
  (forall l1 c l2, (history calls d).2 = l1 ++ c :: l2 -> phase c = "invoke" -> forall c', c' ∈ l2 -> work_id (claimed c') = work_id (claimed c) ->
    phase c' = "deliver" /\ is_Some (provider_result (claimed c'))).
Proof.
  induction calls as [|call calls IH]; intros d Hi; [split; [by intros c ?%not_elem_of_nil|by intros [] ???]|]. cbn.
  pose proof (perform_keeps call d Hi) as H. unfold wp in H. destruct (perform call d) as [d1 o].
  assert (Hm : moved d d1) by (by destruct o as [x|e]; [destruct H|]).
  destruct (IH d1 (proj1 Hm)) as [IH1 IH2]. destruct (history calls d1) as [d2 l]. cbn in *.
  assert (G : forall c, c ∈ l -> (phase c = "invoke" /\ starts (journal (work_id (claimed c)) d) = 0) \/ (phase c = "deliver" /\ is_Some (provider_result (claimed c)))).
  { intros c [[Hp Hz]|Hd]%IH1; [left|by right]. split; [done|]. pose proof (starts_grow _ _ (work_id (claimed c)) (proj2 Hm)). lia. }
  destruct o as [[c|]|e]; try done. destruct H as [_ Hc]. split.
  - intros c' [->|Hin]%elem_of_cons; [|by apply G]. destruct Hc as [(? & ? & ?)|?]; auto.
  - intros [|x l1] c0 l2 E Hp c' Hin Hid; [|injection E as <- E; by apply (IH2 l1 c0 l2)].
    injection E as <- <-. destruct Hc as [(_ & _ & Hz)|[? _]]; [|congruence].
    destruct (IH1 c' Hin) as [[_ Hz']|?]; [|done]. rewrite Hid in Hz'. lia.
Qed.

Lemma inv_empty : inv empty_store.
Proof.
  constructor.
  - intros id w H. cbn in H. by rewrite lookup_empty in H.
  - intros e H. cbn in H. by apply not_elem_of_nil in H.
  - intros id w H. cbn in H. by rewrite lookup_empty in H.
  - intros id l1 e l2 H. by destruct l1.
  - done.
Qed.

(** ** The journal as it is read *)

Lemma numbered_lookup l i e : numbered l -> l !! i = Some e -> event_sequence e = (Z.of_nat i + 1)%Z.
Proof.
  intros H Hl. assert (E : (event_sequence <$> l) !! i = Some (event_sequence e)) by (by rewrite list_lookup_fmap, Hl).
  rewrite H in E. apply lookup_seqZ in E as [E _]. lia.
Qed.

Lemma filter_above k l : numbered l -> List.filter (fun e => (Z.of_nat k <? event_sequence e)%Z) l = drop k l.
Proof.
  intros H. rewrite <-(take_drop k l) at 1. rewrite List.filter_app, filter_none, filter_all; [done|..].
  - intros e [i Hl]%list_elem_of_lookup. rewrite lookup_drop in Hl. apply Z.ltb_lt. rewrite (numbered_lookup _ _ _ H Hl). lia.
  - intros e [i Hl]%list_elem_of_lookup. apply lookup_take_Some in Hl as [Hl Hlt]. apply Z.ltb_ge. rewrite (numbered_lookup _ _ _ H Hl). lia.
Qed.

Lemma seqZ_drop k : forall (l : list event) n, event_sequence <$> l = seqZ n (Z.of_nat (length l)) ->
  event_sequence <$> drop k l = seqZ (n + Z.of_nat k) (Z.of_nat (length (drop k l))).
Proof.
  induction k as [|k IH]; intros l n H; [by rewrite Z.add_0_r|]. destruct l as [|e l]; [done|].
  cbn [length] in H. rewrite fmap_cons, seqZ_cons in H by lia. injection H as _ H. rewrite Nat2Z.inj_succ, Z.pred_succ in H.
  cbn [drop]. rewrite (IH _ _ H). f_equal. lia.
Qed.

Lemma seqZ_Sorted : forall (l : list event) n, event_sequence <$> l = seqZ n (Z.of_nat (length l)) -> Sorted sequence_le l.
Proof.
  induction l as [|e l IH]; intros n H; [done|]. cbn [length] in H. rewrite fmap_cons, seqZ_cons in H by lia. injection H as He H.
  rewrite Nat2Z.inj_succ, Z.pred_succ in H. constructor; [by eapply IH|]. destruct l as [|e' l]; [done|]. constructor.
  cbn [length] in H. rewrite fmap_cons, seqZ_cons in H by lia. injection H as He' _. unfold sequence_le. lia.
Qed.

Lemma numbered_sorted k l : numbered l -> merge_sort sequence_le (drop k l) = drop k l.
Proof.
  intros H. assert (Htr : Transitive sequence_le) by (intros ???; unfold sequence_le; lia).
  assert (Hto : Total sequence_le) by (intros ??; unfold sequence_le; lia).
  apply (Sorted_unique_strong sequence_le).
  - intros x y Hx Hy ??. rewrite merge_sort_Permutation in Hx. apply list_elem_of_lookup in Hx as [i Hx], Hy as [j Hy].
    rewrite lookup_drop in Hx, Hy. unfold sequence_le in *. rewrite (numbered_lookup _ _ _ H Hx), (numbered_lookup _ _ _ H Hy) in *.
    assert (i = j) as -> by lia. congruence.
  - apply Sorted_merge_sort, _.
  - by eapply seqZ_Sorted, seqZ_drop.
  - apply merge_sort_Permutation.
Qed.

Lemma numbered_gapless l : forall k n, event_sequence <$> l = seqZ k (Z.of_nat (length l)) -> gapless k (take n l) = Ok tt.
Proof.
  induction l as [|e l IH]; intros k n H; [by rewrite take_nil|]. destruct n as [|n]; [done|].
  cbn [length] in H. rewrite fmap_cons, seqZ_cons in H by lia. injection H as He H. rewrite Nat2Z.inj_succ, Z.pred_succ in H.
  cbn. rewrite He, Z.eqb_refl. by apply IH.
Qed.

(** In a reachable store the journal is answered as it was written. *)
Lemma journal_is_read id after_sequence limit d : inv d -> ID_search id = true -> (0 <= after_sequence)%Z -> (1 <= limit <= 1000)%Z ->
  event_journal id after_sequence limit d = Ok (take (Z.to_nat limit) (drop (Z.to_nat after_sequence) (journal id d))).
Proof.
  intros Hi Hid Ha Hl. pose proof (i_numbered _ Hi id) as Hn. unfold event_journal, identifier. rewrite Hid. cbn [obind].
  rewrite (proj2 (Z.ltb_ge _ _) Ha), (proj2 (Z.leb_le 1 limit)), (proj2 (Z.leb_le limit 1000)) by lia. cbn [negb andb refuse_if obind].
  destruct (Z_of_nat_complete _ Ha) as [k ->]. rewrite Nat2Z.id.
  rewrite (filter_above _ _ Hn), (numbered_sorted _ _ Hn). rewrite numbered_gapless; [done|].
  rewrite (seqZ_drop _ _ _ Hn). f_equal. lia.
Qed.

(** ** The properties *)

(** C33 However the processes that share the store interleave their calls, a message is handed
    to a provider at most once: after a claim has started the invocation of a work, every later
    claim of that work is for the delivery of the result that was stored. *)
Theorem invoked_at_most_once (calls : list work_call) (l1 l2 : list AssistantClaim) (c c' : AssistantClaim) :
  (history calls empty_store).2 = l1 ++ c :: l2 -> phase c = "invoke" -> c' ∈ l2 -> work_id (claimed c') = work_id (claimed c) ->
  phase c' = "deliver" /\ is_Some (provider_result (claimed c')).
Proof. intros E Hp Hin Hid. by apply (proj2 (history_claims calls _ inv_empty) l1 c l2). Qed.

(** C34 In every reachable store the journal of a work is numbered from 1 without a gap; its
    result is stored after its one attempt has started and its reply recorded after the result
    is stored, each at most once; fewer than three deliveries are retried.  From there on the
    journal is only extended, and a work keeps its facts and its result, moves along the
    permitted states and never changes again once it is completed, failed or cancelled. *)
Theorem work_history_is_legal (calls more : list work_call) :
  inv (history calls empty_store).1 /\ evolves (history calls empty_store).1 (history more (history calls empty_store).1).1.
Proof.
  pose proof (history_moves calls _ inv_empty) as [Hi _]. split; [done|]. by destruct (history_moves more _ Hi).
Qed.

(** *** An example *)

Definition hello : message :=
  {| m_instance := "instance.a"; m_application := "app.chat"; m_conversation := "conversation.1"; m_message := "message.1";
     m_participant := "person.1"; m_sequence := 1 |}.

Definition T0 : Z := 1767225600 * SECOND.
Definition at_ (seconds : Z) : Z := (T0 + seconds * SECOND)%Z.
Definition token1 : string := "first-token-of-thirty-two-letters-and-more".
Definition token2 : string := "second-token-of-thirty-two-letters-and-more".

Definition answer1 : dict :=
  [("assistantText", JStr "Hello."); ("runtime", JObj []); ("adapter", JObj []); ("provider", JObj []); ("model", JObj []); ("usage", JObj [])].

Definition showing (token : string) (seconds : Z) : credentials :=
  {| c_work := work_id_of hello; c_attempt := attempt_id_of (work_id_of hello) 1; c_token := token; c_now := at_ seconds; c_then := at_ seconds |}.

(** A message is queued, invoked, its result stored; the first delivery fails, the second is
    lost, and the third is recorded. *)
Definition conversation : list work_call :=
  [Enqueue hello (at_ 0); ClaimNext "worker.1" 120 token1 (at_ 1) (at_ 1);
   StoreProviderResult (showing token1 20) answer1;
   ClaimNext "worker.1" 120 token2 (at_ 30) (at_ 30);
   RequeueDelivery (showing token2 40) "delivery_failed" "The channel was closed.";
   ClaimNext "worker.1" 120 token2 (at_ 50) (at_ 50);
   ClaimNext "worker.1" 120 token1 (at_ 300) (at_ 300);
   RecordReply (showing token1 310) "message.2"].

Definition outline (p : database * list AssistantClaim) : list (string * Z) * list string * list string :=
  ((fun e => (event_type e, event_sequence e)) <$> events p.1, phase <$> p.2, state <$> (snd <$> map_to_list (works p.1))).

Example conversation_goes : outline (history conversation empty_store) =
  ([("work.queued", 1%Z); ("attempt.started", 2%Z); ("provider.result_stored", 3%Z); ("delivery.started", 4%Z);
    ("attempt.interrupted", 5%Z); ("delivery.started", 6%Z); ("delivery.started", 7%Z); ("reply.persisted", 8%Z)],
   ["invoke"; "deliver"; "deliver"; "deliver"], ["completed"]).
Proof. by vm_compute. Qed.

(** A worker that is lost while it invokes leaves its work failed; it is not claimed again. *)
Example lost_invocation : outline (history [Enqueue hello (at_ 0); ClaimNext "worker.1" 120 token1 (at_ 1) (at_ 1);
    ClaimNext "worker.2" 120 token2 (at_ 200) (at_ 200); StoreProviderResult (showing token1 210) answer1] empty_store) =
  ([("work.queued", 1%Z); ("attempt.started", 2%Z); ("attempt.interrupted", 3%Z)], ["invoke"], ["failed"]).
Proof. by vm_compute. Qed.

(** The third delivery that fails is the last. *)
Example retries_run_out : outline (history
    ([Enqueue hello (at_ 0); ClaimNext "worker.1" 120 token1 (at_ 1) (at_ 1); StoreProviderResult (showing token1 2) answer1]
     ++ concat (replicate 4 [ClaimNext "worker.1" 120 token1 (at_ 3) (at_ 3); RequeueDelivery (showing token1 4) "delivery_failed" "Closed."]))
    empty_store) =
  ([("work.queued", 1%Z); ("attempt.started", 2%Z); ("provider.result_stored", 3%Z); ("delivery.started", 4%Z);
    ("attempt.interrupted", 5%Z); ("delivery.started", 6%Z); ("attempt.interrupted", 7%Z); ("delivery.started", 8%Z);
    ("attempt.failed", 9%Z)], ["invoke"; "deliver"; "deliver"; "deliver"], ["failed"]).
Proof. by vm_compute. Qed.

Lemma invoked_at_most_once_witness : exists c c' l, (history conversation empty_store).2 = c :: c' :: l /\ phase c = "invoke" /\
  phase c' = "deliver" /\ is_Some (provider_result (claimed c')).
Proof.
  destruct (history conversation empty_store).2 as [|c [|c' l]] eqn:E; [vm_compute in E; discriminate E..|]. exists c, c', l.
  assert (F : phase c = "invoke" /\ work_id (claimed c') = work_id (claimed c)) by (vm_compute in E; by injection E as <- <- _).
  destruct F as [F1 F2]. split; [done|]. split; [done|].
  apply (invoked_at_most_once conversation [] (c' :: l) c c'); [exact E|exact F1|by left|exact F2].
Defined.
