(* ===== verification/PreviewRoutes.v ===== *)
(** * Preview routes (packages/preview-gateway, contracts.py and registry.py)

    The registry of the routes that lead from a capsule's service to a local upstream: one
    JSON file for every route, a directory of chained receipts for each, and recovery
    markers.  Files are kept as [json.loads] returns them; a write may fail before or after
    it took effect, which is also what a crash leaves.  A mutation holds the lock of the
    registry, so a call is one step; a call that finds the lock taken does nothing.  The
    clock is a stream of readings, in microseconds from the year one. *)

From S2P Require Import Prelude Instants Json Contracts.

Inductive gateway_error :=
| PreviewGatewayError (code message : string)
| OverflowError
| OSError.

Abbreviation answer := (outcome gateway_error).

Definition refused {A} (code message : string) : answer A := Raise (PreviewGatewayError code message).
Definition refused_if (b : bool) (code message : string) : answer unit := refuse_if b (PreviewGatewayError code message).
Definition invalid_route {A} (label : string) : answer A := refused "preview_route_invalid" (label +:+ " is invalid").

(** ** Contracts *)

Definition ROUTE_SCHEMA : string := "stateport.preview-route/v1".
Definition RECEIPT_SCHEMA : string := "stateport.preview-route-receipt/v1".
Definition RECOVERY_SCHEMA : string := "stateport.preview-route-recovery/v1".

Definition hex_id (prefix s : string) : bool :=
  startswith prefix s && (py_len s =? py_len prefix + 24)%Z && all_chars is_hex (String.substring (String.length prefix) 24 s).

Definition ROUTE_ID (s : string) : bool := hex_id "route_" s.
Definition RECEIPT_ID (s : string) : bool := hex_id "receipt_" s.

Definition CAPSULE_ID (s : string) : bool :=
  match s with
  | EmptyString => false
  | String c rest => is_alnum c && all_chars (fun c => is_alnum c || one_of "._:-" c) rest && (1 <=? py_len rest)%Z && (py_len rest <=? 127)%Z
  end.

Definition SERVICE_ID (s : string) : bool :=
  match s with
  | EmptyString => false
  | String c rest => is_lower c && all_chars (fun c => is_lower c || is_digit c || one_of "-" c) rest && (py_len rest <=? 63)%Z
  end.

Definition ACTOR (s : string) : bool :=
  match s with
  | EmptyString => false
  | String c rest => is_alnum c && all_chars (fun c => is_alnum c || one_of "._-" c) rest && (py_len rest <=? 127)%Z
  end.

Definition RECEIPT_EVENTS : list string := ["registered"; "rewritten"; "revoked"].
Definition RECOVERY_STATUS : string := "recovery_required".
Definition RESERVED_DESTINATIONS : list string :=
  ["api"; "control-plane"; "engine"; "engine-socket"; "health"; "metadata"; "session"; "v1"].
Definition MAX_ACTIVE_ROUTES : nat := 64.
Definition MAX_TTL_SECONDS : Z := 30 * 86400.
Definition UPSTREAM_HOST : string := "127.0.0.1".

(** [parse_timestamp]: the time, if [value] is the text of a whole UTC second *)
Definition parse_timestamp (value : json) (label : string) : answer Z :=
  match value with
  | JStr s =>
      match parse_instant s with
      | Some {| dt_local := t; dt_offset := Some offset |} =>
          if (offset =? 0)%Z && (t mod SECOND =? 0)%Z && bool_decide (s = utc_seconds t) then Ok t else invalid_route label
      | _ => invalid_route label
      end
  | _ => invalid_route label
  end.

Definition bounded_text (value : json) (label : string) (maximum : Z) : answer string :=
  match value with
  | JStr s =>
      if bool_decide (s = "") || (maximum <? py_len s)%Z || any_char (fun c => one_of (String "010" (String "013" "")) c) s
      then invalid_route label else Ok s
  | _ => invalid_route label
  end.

Definition identifier (value : json) (label : string) (pattern : string -> bool) : answer string :=
  match value with
  | JStr s => if pattern s then Ok s else invalid_route label
  | _ => invalid_route label
  end.

Definition destination (selected : string) : answer string :=
  refused_if (mem (lower selected) RESERVED_DESTINATIONS) "preview_destination_refused"
    "preview destinations may not name StatePort engine, metadata, or control-plane surfaces" >>?
  Ok selected.

Definition capsule_id (value : json) : answer string := let? s := identifier value "preview capsule id" CAPSULE_ID in destination s.
Definition service_id (value : json) : answer string := let? s := identifier value "preview service id" SERVICE_ID in destination s.
Definition revision_digest (value : json) : answer string := identifier value "preview revision digest" DIGEST_fullmatch.
Definition actor_id (value : json) : answer string := identifier value "preview receipt actor" ACTOR.

Definition bounded_int (value : json) (label : string) (maximum : Z) : answer Z :=
  match value with
  | JInt n => if (1 <=? n)%Z && (n <=? maximum)%Z then Ok n else invalid_route label
  | _ => invalid_route label
  end.

Definition upstream_port (value : json) : answer Z := bounded_int value "preview upstream port" 65535.
Definition ttl_seconds (value : json) : answer Z := bounded_int value "preview route ttl" MAX_TTL_SECONDS.

(** [route_digest] and [receipt_digest] leave out their own field. *)
Definition digest_without (field : string) (d : dict) : string := canonical_digest (JObj (dict_filter (fun k => negb (bool_decide (k = field))) d)).
Definition route_digest (route : dict) : string := digest_without "routeDigest" route.
Definition receipt_digest (receipt : dict) : string := digest_without "receiptDigest" receipt.

Definition ROUTE_FIELDS : list string :=
  ["schema"; "routeId"; "capsuleId"; "serviceId"; "revisionDigest"; "upstream"; "createdAt"; "expiresAt"; "revokedAt"; "revocationReason"; "routeDigest"].

Definition is_null (v : json) : bool := match v with JNull => true | _ => false end.
Definition is_str (v : json) (s : string) : bool := py_eqb v (JStr s).

Definition validate_upstream (value : json) : answer unit :=
  match value with
  | JObj upstream =>
      refused_if (negb (same_set (dict_keys upstream) ["host"; "port"])) "preview_route_invalid" "preview upstream is malformed" >>?
      refused_if (negb (is_str (key_json "host" upstream) UPSTREAM_HOST)) "preview_upstream_refused" "preview upstreams are loopback-only" >>?
      upstream_port (key_json "port" upstream) >>? Ok tt
  | _ => refused "preview_route_invalid" "preview upstream is malformed"
  end.

Definition validate_revocation (revoked_at reason : json) : answer unit :=
  if is_null revoked_at
  then refused_if (negb (is_null reason)) "preview_route_invalid" "preview revocation state is inconsistent"
  else parse_timestamp revoked_at "preview revocation timestamp" >>? bounded_text reason "preview revocation reason" 256 >>? Ok tt.

Definition validate_route_document (value : json) : answer dict :=
  match value with
  | JObj d =>
      refused_if (negb (same_set (dict_keys d) ROUTE_FIELDS)) "preview_route_invalid" "preview route has unknown or missing fields" >>?
      refused_if (negb (is_str (key_json "schema" d) ROUTE_SCHEMA)) "preview_route_invalid" "preview route schema is unsupported" >>?
      identifier (key_json "routeId" d) "preview route id" ROUTE_ID >>?
      capsule_id (key_json "capsuleId" d) >>?
      service_id (key_json "serviceId" d) >>?
      revision_digest (key_json "revisionDigest" d) >>?
      validate_upstream (key_json "upstream" d) >>?
      parse_timestamp (key_json "createdAt" d) "preview route creation timestamp" >>?
      parse_timestamp (key_json "expiresAt" d) "preview route expiry timestamp" >>?
      validate_revocation (key_json "revokedAt" d) (key_json "revocationReason" d) >>?
      refused_if (negb (is_str (key_json "routeDigest" d) (route_digest d))) "preview_route_invalid" "preview route digest does not match" >>?
      Ok d
  | _ => refused "preview_route_invalid" "preview route must be an object"
  end.

Definition broken_chain {A} (message : string) : answer A := refused "receipt_chain_invalid" message.
Definition broken_if (b : bool) (message : string) : answer unit := refused_if b "receipt_chain_invalid" message.

Definition RECEIPT_FIELDS : list string :=
  ["schema"; "receiptId"; "routeId"; "sequence"; "event"; "actor"; "createdAt"; "data"; "previousReceiptDigest"; "receiptDigest"].

Definition in_events (v : json) : bool := match v with JStr s => mem s RECEIPT_EVENTS | _ => false end.
Definition is_object (v : json) : bool := match v with JObj _ => true | _ => false end.

(** An event that cannot be hashed makes the code raise [TypeError]; no receipt has one. *)
Definition validate_receipt_document (value : json) : answer dict :=
  match value with
  | JObj d =>
      broken_if (negb (same_set (dict_keys d) RECEIPT_FIELDS)) "preview receipt has unknown or missing fields" >>?
      broken_if (negb (is_str (key_json "schema" d) RECEIPT_SCHEMA)) "preview receipt schema is unsupported" >>?
      identifier (key_json "receiptId" d) "preview receipt id" RECEIPT_ID >>?
      identifier (key_json "routeId" d) "preview route id" ROUTE_ID >>?
      broken_if (match key_json "sequence" d with JInt n => (n <? 1)%Z | _ => true end) "preview receipt sequence is invalid" >>?
      broken_if (negb (in_events (key_json "event" d))) "preview receipt event is unsupported" >>?
      actor_id (key_json "actor" d) >>?
      parse_timestamp (key_json "createdAt" d) "preview receipt timestamp" >>?
      broken_if (negb (is_object (key_json "data" d))) "preview receipt data is malformed" >>?
      (if is_null (key_json "previousReceiptDigest" d) then Ok ""
       else identifier (key_json "previousReceiptDigest" d) "preview previous receipt digest" DIGEST_fullmatch) >>?
      broken_if (negb (is_str (key_json "receiptDigest" d) (receipt_digest d))) "preview receipt digest does not match" >>?
      Ok d
  | _ => broken_chain "preview receipt must be an object"
  end.

Definition RECOVERY_FIELDS : list string := ["schema"; "routeId"; "routeDigest"; "status"; "reason"; "detectedAt"].

Definition validate_recovery_document (value : json) : answer dict :=
  match value with
  | JObj d =>
      broken_if (negb (same_set (dict_keys d) RECOVERY_FIELDS) || negb (is_str (key_json "schema" d) RECOVERY_SCHEMA)) "preview recovery record is malformed" >>?
      identifier (key_json "routeId" d) "preview recovery route id" ROUTE_ID >>?
      (if is_null (key_json "routeDigest" d) then Ok ""
       else identifier (key_json "routeDigest" d) "preview recovery route digest" DIGEST_fullmatch) >>?
      broken_if (negb (is_str (key_json "status" d) RECOVERY_STATUS)) "preview recovery status is unsupported" >>?
      bounded_text (key_json "reason" d) "preview recovery reason" 1024 >>?
      parse_timestamp (key_json "detectedAt" d) "preview recovery timestamp" >>?
      Ok d
  | _ => broken_chain "preview recovery record must be an object"
  end.

Definition differ (a b : json) : bool := negb (py_eqb a b).
Definition data_of (receipt : dict) : dict := match key_json "data" receipt with JObj d => d | _ => [] end.

Definition validate_receipt_route_binding (route receipt : dict) : answer unit :=
  let data := data_of receipt in
  let unbound := fun k k' => differ (key_json k data) (key_json k' route) in
  let event := key_json "event" receipt in
  broken_if (differ (key_json "routeId" receipt) (key_json "routeId" route)) "preview receipt route binding is invalid" >>?
  broken_if (negb (is_object (key_json "data" receipt)) || unbound "routeDigest" "routeDigest") "preview receipt route digest is not bound" >>?
  (if is_str event "registered" || is_str event "rewritten" then
     broken_if (unbound "revisionDigest" "revisionDigest") "preview receipt revision is not bound" >>?
     broken_if (unbound "upstream" "upstream") "preview receipt upstream is not bound"
   else Ok tt) >>?
  (if is_str event "registered" then
     broken_if (unbound "capsuleId" "capsuleId" || unbound "serviceId" "serviceId" || unbound "expiresAt" "expiresAt")
       "preview registration receipt fields are not bound"
   else if is_str event "revoked" then
     broken_if (is_null (key_json "revokedAt" route) || unbound "reason" "revocationReason") "preview revocation receipt fields are not bound"
   else Ok tt).

(** ** The registry *)

Inductive write_fault := Lost | Late.

Record gateway := {
  routes : gmap string json;                     (* routes/<id>.json *)
  receipts_of : gmap string (gmap string json);  (* receipts/<route>/<id>.json *)
  recoveries : gmap string json;                 (* recovery/<id>.json *)
  faults : list (option write_fault);            (* what happens to the next writes *)
  clock : nat -> Z;                              (* the readings of the clock *)
  readings : nat;                                (* how many were taken *)
}.

Abbreviation call := (M gateway gateway_error).

Definition set_routes (r : gmap string json) (g : gateway) : gateway :=
  {| routes := r; receipts_of := receipts_of g; recoveries := recoveries g; faults := faults g; clock := clock g; readings := readings g |}.
Definition set_receipts (r : gmap string (gmap string json)) (g : gateway) : gateway :=
  {| routes := routes g; receipts_of := r; recoveries := recoveries g; faults := faults g; clock := clock g; readings := readings g |}.
Definition set_recoveries (r : gmap string json) (g : gateway) : gateway :=
  {| routes := routes g; receipts_of := receipts_of g; recoveries := r; faults := faults g; clock := clock g; readings := readings g |}.
Definition set_faults (f : list (option write_fault)) (g : gateway) : gateway :=
  {| routes := routes g; receipts_of := receipts_of g; recoveries := recoveries g; faults := f; clock := clock g; readings := readings g |}.
Definition tick (g : gateway) : gateway :=
  {| routes := routes g; receipts_of := receipts_of g; recoveries := recoveries g; faults := faults g; clock := clock g; readings := S (readings g) |}.

Definition new_registry (faults_ : list (option write_fault)) (clock_ : nat -> Z) : gateway :=
  {| routes := ∅; receipts_of := ∅; recoveries := ∅; faults := faults_; clock := clock_; readings := 0 |}.

(** [_atomic_json]: the write [f], or what is left of it when it fails *)
Definition atomic_json (f : gateway -> gateway) : call unit :=
  let* g := get in
  match faults g with
  | Some Lost :: rest => put (set_faults rest g) >>* raise OSError
  | Some Late :: rest => put (f (set_faults rest g)) >>* raise OSError
  | _ => put (f (set_faults (tail (faults g)) g))
  end.

(** [_now] *)
Definition now_ : call Z :=
  let* g := get in
  let t := clock g (readings g) in
  put (tick g) >>* ret (t - t mod SECOND)%Z.

Definition sorted_names {A} (m : gmap string A) : list string := merge_sort String.le (map fst (map_to_list m)).

(** [_load_route] *)
Definition load_route (g : gateway) (id : string) : answer dict :=
  match routes g !! id with
  | None => refused "preview_route_not_found" "preview route is missing or unsafe"
  | Some v => validate_route_document v
  end.

(** *** Receipts *)

Fixpoint validate_all (l : list json) : answer (list dict) :=
  match l with
  | [] => Ok []
  | v :: rest => let? d := validate_receipt_document v in let? ds := validate_all rest in Ok (d :: ds)
  end.

Definition sequence_of (receipt : dict) : Z := match key_json "sequence" receipt with JInt n => n | _ => 0%Z end.
Definition earlier (a b : dict) : Prop := (sequence_of a <= sequence_of b)%Z.

#[export] Instance earlier_dec : RelDecision earlier.
Proof. intros a b. unfold earlier. apply _. Defined.

Fixpoint chained (index : Z) (previous : json) (chain : list dict) : answer unit :=
  match chain with
  | [] => Ok tt
  | receipt :: rest =>
      broken_if (negb (sequence_of receipt =? index)%Z || differ (key_json "previousReceiptDigest" receipt) previous)
        "preview receipt chain is broken" >>?
      chained (index + 1) (key_json "receiptDigest" receipt) rest
  end.

Definition directory (g : gateway) (id : string) : gmap string json := default ∅ (receipts_of g !! id).

Definition receipts (g : gateway) (id : string) : answer (list dict) :=
  let files := directory g id in
  let? all := validate_all (map (fun k => default JNull (files !! k)) (sorted_names files)) in
  let chain := merge_sort earlier all in
  chained 1 JNull chain >>?
  Ok chain.

(** [_route_has_receipt_unlocked]: a broken chain is no receipt, but a receipt that is bound to
    another version of the route raises. *)
Definition route_has_receipt (g : gateway) (route : dict) : answer bool :=
  match receipts g (py_str (key_json "routeId" route)) with
  | Raise (PreviewGatewayError _ _) => Ok false
  | Raise e => Raise e
  | Ok chain =>
      match last chain with
      | None => Ok false
      | Some receipt => validate_receipt_route_binding route receipt >>? Ok true
      end
  end.

(** [_append_receipt_unlocked] *)
Definition append_receipt (id event actor digest : string) (data : dict) (token : string) : call dict :=
  let* g := get in
  let* existing := lift (receipts g id) in
  let* now := now_ in
  let receipt :=
    [("schema", JStr RECEIPT_SCHEMA); ("receiptId", JStr ("receipt_" +:+ token)); ("routeId", JStr id);
     ("sequence", JInt (Z.of_nat (length existing) + 1)); ("event", JStr event); ("actor", JStr actor);
     ("createdAt", JStr (utc_seconds now)); ("data", JObj (dict_set "routeDigest" (JStr digest) data));
     ("previousReceiptDigest", match last existing with None => JNull | Some r => key_json "receiptDigest" r end)] in
  let* validated := lift (validate_receipt_document (JObj (dict_set "receiptDigest" (JStr (receipt_digest receipt)) receipt))) in
  modify (fun g => set_receipts (<[id := directory g id]> (receipts_of g)) g) >>*
  atomic_json (fun g => set_receipts (<[id := <["receipt_" +:+ token := norm (JObj validated)]> (directory g id)]> (receipts_of g)) g) >>*
  ret validated.

(** *** Recovery *)

Definition mark_recovery (id : string) (digest : json) (reason : string) : call dict :=
  let* now := now_ in
  let* record := lift (validate_recovery_document (JObj
    [("schema", JStr RECOVERY_SCHEMA); ("routeId", JStr id); ("routeDigest", digest); ("status", JStr RECOVERY_STATUS);
     ("reason", JStr (String.substring 0 1024 reason)); ("detectedAt", JStr (utc_seconds now))])) in
  atomic_json (fun g => set_recoveries (<[id := norm (JObj record)]> (recoveries g)) g) >>*
  ret record.

(** The first loop of [_recover_unlocked] *)
Fixpoint recover_routes (ids : list string) : call (list dict) :=
  match ids with
  | [] => ret []
  | id :: rest =>
      let* g := get in
      match load_route g id with
      | Raise _ => recover_routes rest
      | Ok route =>
          let* receipted := lift (route_has_receipt g route) in
          if receipted then recover_routes rest
          else let* marker := mark_recovery id (key_json "routeDigest" route) "route exists without a matching durable receipt" in
               let* more := recover_routes rest in ret (marker :: more)
      end
  end.

(** The second *)
Fixpoint recover_receipts (ids : list string) : call (list dict) :=
  match ids with
  | [] => ret []
  | id :: rest =>
      let* g := get in
      if bool_decide (is_Some (routes g !! id)) then recover_receipts rest
      else
        let digest := match receipts g id with Ok chain => match last chain with Some r => key_json "routeDigest" (data_of r) | None => JNull end
                                             | Raise _ => JNull end in
        let* marker := mark_recovery id digest "receipt exists without a durable route" in
        let* more := recover_receipts rest in ret (marker :: more)
  end.

Definition recover_unlocked : call (list dict) :=
  let* ids := gets (fun g => sorted_names (routes g)) in
  let* first := recover_routes ids in
  let* dirs := gets (fun g => sorted_names (receipts_of g)) in
  let* second := recover_receipts dirs in
  ret (first ++ second).

Definition recovered (g : gateway) (route : dict) : bool := bool_decide (is_Some (recoveries g !! py_str (key_json "routeId" route))).

(** [_all_routes] *)
Fixpoint routes_among (g : gateway) (ids : list string) : answer (list dict) :=
  match ids with
  | [] => Ok []
  | id :: rest =>
      let? route := load_route g id in
      let? receipted := if recovered g route then Ok false else route_has_receipt g route in
      let? more := routes_among g rest in
      Ok (if (receipted : bool) then route :: more else more)
  end.

Definition all_routes (g : gateway) : answer (list dict) := routes_among g (sorted_names (routes g)).

(** [_status] *)
Definition status (route : dict) (now : Z) : answer string :=
  if negb (is_null (key_json "revokedAt" route)) then Ok "revoked"
  else let? expires := parse_timestamp (key_json "expiresAt" route) "preview route expiry timestamp" in
       Ok (if (expires <=? now)%Z then "expired" else "active").

Fixpoint active_among (now : Z) (l : list dict) : answer (list dict) :=
  match l with
  | [] => Ok []
  | route :: rest =>
      let? s := status route now in
      let? more := active_among now rest in
      Ok (if bool_decide (s = "active") then route :: more else more)
  end.

Definition binds (capsule service : string) (route : dict) : bool :=
  is_str (key_json "capsuleId" route) capsule && is_str (key_json "serviceId" route) service.

(** [quote(s, safe="")] of an identifier, which is ASCII *)
Definition upper_hex (n : Z) : string := String (if (n <? 10)%Z then ascii_of_N (Z.to_N (48 + n)) else ascii_of_N (Z.to_N (55 + n))) "".

Fixpoint quote_path (s : string) : string :=
  match s with
  | EmptyString => EmptyString
  | String c rest => (if is_alnum c || one_of "_.-~" c then String c "" else "%" +:+ upper_hex (code c / 16) +:+ upper_hex (code c mod 16)) +:+ quote_path rest
  end.

(** [_projection] *)
Definition projection (route : dict) (now : Z) : answer dict :=
  let? s := status route now in
  Ok (dict_set "previewPath"
        (if bool_decide (s = "active")
         then JStr ("/preview/" +:+ quote_path (py_str (key_json "capsuleId" route)) +:+ "/" +:+ quote_path (py_str (key_json "serviceId" route)) +:+ "/")
         else JNull)
        (dict_set "status" (JStr s) route)).

(** *** Mutations *)

Definition store_route (route : dict) : call dict :=
  let* validated := lift (validate_route_document (JObj route)) in
  atomic_json (fun g => set_routes (<[py_str (key_json "routeId" validated) := norm (JObj validated)]> (routes g)) g) >>*
  ret validated.

Definition sealed_route (route : dict) : dict := dict_set "routeDigest" (JStr (route_digest route)) route.

Definition receipted (route : dict) (event actor : string) (data : dict) (token : string) : call dict :=
  append_receipt (py_str (key_json "routeId" route)) event actor (py_str (key_json "routeDigest" route)) data token.

Definition result_of (route receipt : dict) (now : Z) : call dict :=
  let* p := lift (projection route now) in ret [("route", JObj p); ("receipt", JObj receipt)].

Definition upstream_of (port : Z) : json := JObj [("host", JStr UPSTREAM_HOST); ("port", JInt port)].

Definition new_route (id capsule service revision : string) (port now expires : Z) : dict :=
  sealed_route
    [("schema", JStr ROUTE_SCHEMA); ("routeId", JStr id); ("capsuleId", JStr capsule); ("serviceId", JStr service);
     ("revisionDigest", JStr revision); ("upstream", upstream_of port); ("createdAt", JStr (utc_seconds now));
     ("expiresAt", JStr (utc_seconds expires)); ("revokedAt", JNull); ("revocationReason", JNull)].

Record registration := {
  q_capsule : json;
  q_service : json;
  q_revision : json;
  q_port : json;
  q_ttl : json;
  q_actor : json;
}.

Definition check_budget (capsule service : string) (active : list dict) : answer unit :=
  refused_if (existsb (binds capsule service) active) "preview_route_conflict"
    "an active preview route already binds this capsule and service" >>?
  refused_if (MAX_ACTIVE_ROUTES <=? length active) "preview_route_budget_exceeded" "the active preview route budget is exhausted".

Definition register (q : registration) (token receipt_token : string) : call dict :=
  let* capsule := lift (capsule_id (q_capsule q)) in
  let* service := lift (service_id (q_service q)) in
  let* revision := lift (revision_digest (q_revision q)) in
  let* port := lift (upstream_port (q_port q)) in
  let* ttl := lift (ttl_seconds (q_ttl q)) in
  let* actor := lift (actor_id (q_actor q)) in
  let* now := now_ in
  recover_unlocked >>*
  let* g := get in
  let* all := lift (all_routes g) in
  let* active := lift (active_among now all) in
  lift (check_budget capsule service active) >>*
  let expires := (now + ttl * SECOND)%Z in
  raise_if (LAST_INSTANT <=? expires)%Z OverflowError >>*
  let* route := store_route (new_route ("route_" +:+ token) capsule service revision port now expires) in
  let* receipt := receipted route "registered" actor
    [("capsuleId", JStr capsule); ("serviceId", JStr service); ("revisionDigest", JStr revision); ("upstream", key_json "upstream" route);
     ("expiresAt", key_json "expiresAt" route)] receipt_token in
  result_of route receipt now.

(** The route a rewrite or a revocation is for: it has its receipt, and nobody changed it
    since it was reviewed. *)
Definition reviewed_route (id expected : string) : call dict :=
  let* g := get in
  let* current := lift (load_route g id) in
  let* has_receipt := lift (route_has_receipt g current) in
  raise_if (negb has_receipt) (PreviewGatewayError "preview_route_recovery_required" "preview route requires receipt recovery") >>*
  raise_if (negb (is_str (key_json "routeDigest" current) expected))
    (PreviewGatewayError "preview_route_conflict" "preview route changed since review; refresh before retrying") >>*
  ret current.

Definition rewrite_ (id : string) (revision_digest_ upstream_port_ expected_ actor_ : json) (receipt_token : string) : call dict :=
  let* expected := lift (revision_digest expected_) in
  let* revision := lift (revision_digest revision_digest_) in
  let* port := lift (upstream_port upstream_port_) in
  let* actor := lift (actor_id actor_) in
  let* now := now_ in
  recover_unlocked >>*
  let* current := reviewed_route id expected in
  let* s := lift (status current now) in
  raise_if (bool_decide (s = "revoked")) (PreviewGatewayError "preview_route_revoked" "a revoked preview route cannot be rewritten") >>*
  raise_if (bool_decide (s = "expired")) (PreviewGatewayError "preview_route_expired" "an expired preview route cannot be rewritten") >>*
  let* route := store_route (sealed_route (dict_set "upstream" (upstream_of port) (dict_set "revisionDigest" (JStr revision) current))) in
  let* receipt := receipted route "rewritten" actor
    [("previousRevisionDigest", key_json "revisionDigest" current); ("previousUpstream", key_json "upstream" current);
     ("previousRouteDigest", key_json "routeDigest" current); ("revisionDigest", JStr revision); ("upstream", key_json "upstream" route)]
    receipt_token in
  result_of route receipt now.

Definition revoke (id : string) (reason_ expected_ actor_ : json) (receipt_token : string) : call dict :=
  let* expected := lift (revision_digest expected_) in
  let* reason := lift (bounded_text reason_ "preview revocation reason" 256) in
  let* actor := lift (actor_id actor_) in
  recover_unlocked >>*
  let* current := reviewed_route id expected in
  raise_if (negb (is_null (key_json "revokedAt" current))) (PreviewGatewayError "preview_route_revoked" "the preview route is already revoked") >>*
  let* now := now_ in
  let* route := store_route (sealed_route (dict_set "revocationReason" (JStr reason) (dict_set "revokedAt" (JStr (utc_seconds now)) current))) in
  let* receipt := receipted route "revoked" actor [("reason", JStr reason)] receipt_token in
  let* later := now_ in
  result_of route receipt later.

(** *** Reading *)

Definition recover : call (list dict) := recover_unlocked.

Definition recovery_status (id : string) : call (option dict) :=
  let* g := get in
  match recoveries g !! id with
  | None => ret None
  | Some v => let* d := lift (validate_recovery_document v) in ret (Some d)
  end.

Definition resolve (capsule_ service_ : json) : call dict :=
  let* capsule := lift (capsule_id capsule_) in
  let* service := lift (service_id service_) in
  recover_unlocked >>*
  let* now := now_ in
  let* g := get in
  let* all := lift (all_routes g) in
  match last (List.filter (binds capsule service) all) with
  | None => raise (PreviewGatewayError "preview_route_not_found" "no preview route binds this capsule and service")
  | Some route =>
      let* s := lift (status route now) in
      raise_if (bool_decide (s = "revoked")) (PreviewGatewayError "preview_route_revoked" "the preview route for this destination was revoked") >>*
      raise_if (bool_decide (s = "expired")) (PreviewGatewayError "preview_route_expired" "the preview route for this destination expired") >>*
      ret route
  end.

Definition get_route (id : string) : call dict :=
  recover_unlocked >>*
  let* g := get in
  let* route := lift (load_route g id) in
  let* has_receipt := lift (route_has_receipt g route) in
  raise_if (negb has_receipt) (PreviewGatewayError "preview_route_recovery_required" "preview route requires receipt recovery") >>*
  let* now := now_ in
  lift (projection route now).

Fixpoint projections (now : Z) (l : list dict) : answer (list dict) :=
  match l with
  | [] => Ok []
  | route :: rest => let? p := projection route now in let? more := projections now rest in Ok (p :: more)
  end.

Definition list_routes : call (list dict) :=
  recover_unlocked >>*
  let* now := now_ in
  let* g := get in
  let* all := lift (all_routes g) in
  lift (projections now all).

(** ** What the calls do to the files *)

(** Recovery only adds markers and reads the clock. *)
Record marks (g g' : gateway) : Prop := {
  k_routes : routes g' = routes g;
  k_receipts : receipts_of g' = receipts_of g;
  k_recoveries : forall id, is_Some (recoveries g !! id) -> is_Some (recoveries g' !! id);
  k_clock : clock g' = clock g;
  k_readings : readings g <= readings g';
}.

#[export] Instance marks_preorder : PreOrder marks.
Proof.
  split; [by constructor|]. intros g1 g2 g3 [? ? ? ? ?] [? ? ? ? ?]. constructor; [congruence|congruence|by auto|congruence|lia].
Qed.

Definition id_of (route : dict) : string := py_str (key_json "routeId" route).

(** The file of one route is replaced by [d], and then a receipt is added; or the call stopped
    on the way. *)
Record changed (token : string) (d : dict) (g g' : gateway) : Prop := {
  c_routes : forall k, k <> id_of d -> routes g' !! k = routes g !! k;
  c_receipts : forall k, k <> id_of d -> receipts_of g' !! k = receipts_of g !! k;
  c_recoveries : recoveries g' = recoveries g;
  c_clock : clock g' = clock g;
  c_readings : readings g <= readings g';
  c_own : routes g' !! id_of d = routes g !! id_of d /\ receipts_of g' !! id_of d = receipts_of g !! id_of d
          \/ validate_route_document (JObj d) = Ok d /\ routes g' !! id_of d = Some (norm (JObj d));
  c_grows : forall m, receipts_of g !! id_of d = Some m ->
            exists m', receipts_of g' !! id_of d = Some m' /\ (m' = m \/ exists v, m' = <["receipt_" +:+ token := v]> m);
}.

Lemma changed_here token d g g' : routes g' = routes g -> receipts_of g' = receipts_of g -> recoveries g' = recoveries g ->
  clock g' = clock g -> readings g <= readings g' -> changed token d g g'.
Proof. intros H1 H2 ? ? ?. constructor; rewrite ?H1, ?H2; try done; [by left|]. intros m Hm. exists m. auto. Qed.

(** *** Commands *)

Lemma wp_atomic_json (Q : unit -> gateway -> Prop) (R : gateway_error -> gateway -> Prop) f g :
  (forall l, R OSError (set_faults l g)) -> (forall l, R OSError (f (set_faults l g))) -> (forall l, Q tt (f (set_faults l g))) ->
  wp (atomic_json f) Q R g.
Proof. intros H1 H2 H3. unfold atomic_json. wp_step. wp_step. destruct (faults g) as [|[[]|] l]; repeat wp_step; auto. Qed.

Lemma wp_now (Q : Z -> gateway -> Prop) (R : gateway_error -> gateway -> Prop) g :
  Q (clock g (readings g) - clock g (readings g) mod SECOND)%Z (tick g) -> wp now_ Q R g.
Proof. intros H. unfold now_. by repeat wp_step. Qed.

Lemma marks_tick g : marks g (tick g).
Proof. constructor; cbn; auto. Qed.

Local Abbreviation marking m g := (wp m (fun _ g' => marks g g') (fun _ g' => marks g g') g).

Lemma mark_recovery_marks id digest reason g : marking (mark_recovery id digest reason) g.
Proof.
  unfold mark_recovery. wp_step. apply wp_now. wp_step. wp_step; [|by apply marks_tick]. wp_step.
  apply wp_atomic_json; intros l; repeat wp_step; constructor; cbn; auto; intros k Hk; destruct (decide (k = id)) as [->|?];
    rewrite ?lookup_insert_eq, ?lookup_insert_ne by done; first [by eexists|done].
Qed.

Lemma marking_seq {A B} (m : call A) (k : A -> call B) g : marking m g -> (forall a g', marks g g' -> marking (k a) g') -> marking (bind m k) g.
Proof.
  intros Hm Hk. wp_step. eapply wp_mono; [exact Hm| |done]. intros a g1 H1. eapply wp_mono; [by apply Hk|..]; intros ? g2 H2; by transitivity g1.
Qed.

Lemma marking_ret {A} (a : A) g : marking (ret a : call A) g.
Proof. apply wp_ret. reflexivity. Qed.

Lemma marking_lift {A} (o : answer A) g : marking (lift o) g.
Proof. apply wp_lift; intros; reflexivity. Qed.

Lemma recover_routes_marks ids : forall g, marking (recover_routes ids) g.
Proof.
  induction ids as [|id ids IH]; intros g; [apply marking_ret|]. cbn. wp_step. wp_step. destruct (load_route g id) as [route|]; [|apply IH].
  apply marking_seq; [apply marking_lift|]. intros [] g1 _; [apply IH|]. apply marking_seq; [apply mark_recovery_marks|]. intros marker g2 _.
  apply marking_seq; [apply IH|]. intros. apply marking_ret.
Qed.

Lemma recover_receipts_marks ids : forall g, marking (recover_receipts ids) g.
Proof.
  induction ids as [|id ids IH]; intros g; [apply marking_ret|]. cbn. wp_step. wp_step. wp_step; [apply IH|].
  apply marking_seq; [apply mark_recovery_marks|]. intros marker g2 _. apply marking_seq; [apply IH|]. intros. apply marking_ret.
Qed.

Lemma recover_marks g : marking recover_unlocked g.
Proof.
  unfold recover_unlocked. apply marking_seq; [by apply wp_gets|]. intros ids g1 _. apply marking_seq; [apply recover_routes_marks|].
  intros first g2 _. apply marking_seq; [by apply wp_gets|]. intros dirs g3 _. apply marking_seq; [apply recover_receipts_marks|].
  intros. apply marking_ret.
Qed.

Lemma validated_route v d : validate_route_document v = Ok d -> v = JObj d.
Proof. unfold validate_route_document. destruct v; try done. intros H. inv_ok. done. Qed.

(** After the route was written, its receipts may grow by the new one. *)
Lemma changed_written token d g g' : validate_route_document (JObj d) = Ok d -> routes g' = <[id_of d := norm (JObj d)]> (routes g) ->
  recoveries g' = recoveries g -> clock g' = clock g -> readings g <= readings g' ->
  (receipts_of g' = receipts_of g \/ exists m, (m = directory g (id_of d) \/ exists v, m = <["receipt_" +:+ token := v]> (directory g (id_of d)))
                                            /\ receipts_of g' = <[id_of d := m]> (receipts_of g)) ->
  changed token d g g'.
Proof.
  intros Hv H1 H2 H3 H4 H5. constructor; try done.
  - intros k Hk. by rewrite H1, lookup_insert_ne.
  - intros k Hk. destruct H5 as [->|(m & _ & ->)]; [done|by rewrite lookup_insert_ne].
  - right. by rewrite H1, lookup_insert_eq.
  - intros m Hm. destruct H5 as [->|(m' & Hm' & ->)]; [by eauto|]. exists m'. rewrite lookup_insert_eq. split; [done|].
    unfold directory in Hm'. by rewrite Hm in Hm'.
Qed.

Lemma wp_change {A} (Q : A -> gateway -> Prop) (R : gateway_error -> gateway -> Prop) d event actor data token (k : dict -> dict -> call A) g :
  (forall receipt g', changed token d g g' -> wp (k d receipt) Q R g') -> (forall e g', changed token d g g' -> R e g') ->
  wp (let* route := store_route d in let* receipt := receipted route event actor (data route) token in k route receipt) Q R g.
Proof.
  intros HQ HR. wp_step. unfold store_route. wp_step. wp_step; [|apply HR; by apply changed_here].
  match goal with H : validate_route_document _ = Ok ?x |- _ => pose proof (validated_route _ _ H) as E; injection E as <-; rename H into Hv end.
  wp_step. apply wp_atomic_json; intros l; [apply HR; by apply changed_here|apply HR, changed_written; auto|]. wp_step. wp_step.
  unfold receipted, append_receipt. wp_step. wp_step. fold (id_of d). wp_step. wp_step; [|apply HR, changed_written; auto].
  wp_step. apply wp_now. wp_step. wp_step; [|apply HR, changed_written; cbn; auto].
  wp_step. wp_step. wp_step.
  apply wp_atomic_json; intros l'; [apply HR|apply HR|wp_step; apply HQ]; (apply changed_written; [done..|cbn; auto|]); right; cbn.
  - exists (directory g (id_of d)). auto.
  - exists (<["receipt_" +:+ token := norm (JObj a0)]> (directory g (id_of d))). split; [right; by eexists|].
    rewrite insert_insert_eq. do 2 f_equal. unfold directory. cbn. by rewrite lookup_insert_eq.
  - exists (<["receipt_" +:+ token := norm (JObj a0)]> (directory g (id_of d))). split; [right; by eexists|].
    rewrite insert_insert_eq. do 2 f_equal. unfold directory. cbn. by rewrite lookup_insert_eq.
Qed.

(** ** The steps of the registry

    Every call is one of these steps: it only marks, or it adds one route that passed the
    checks, or it replaces one route that was loaded with its receipt and was not revoked. *)

Inductive request :=
| Register (q : registration) (token receipt_token : string)
| Rewrite (id : string) (revision port expected actor : json) (receipt_token : string)
| Revoke (id : string) (reason expected actor : json) (receipt_token : string)
| Recover
| RecoveryStatus (id : string)
| Resolve (capsule service : json)
| GetRoute (id : string)
| ListRoutes.

Definition quietly {A} (m : call A) : call unit := m >>* ret tt.

Definition perform (r : request) : call unit :=
  match r with
  | Register q token receipt_token => quietly (register q token receipt_token)
  | Rewrite id revision port expected actor receipt_token => quietly (rewrite_ id revision port expected actor receipt_token)
  | Revoke id reason expected actor receipt_token => quietly (revoke id reason expected actor receipt_token)
  | Recover => quietly recover
  | RecoveryStatus id => quietly (recovery_status id)
  | Resolve capsule service => quietly (resolve capsule service)
  | GetRoute id => quietly (get_route id)
  | ListRoutes => quietly list_routes
  end.

Definition gateway_step (g : gateway) (r : request) : gateway := fst (perform r g).

Definition receipt_token_of (r : request) : option string :=
  match r with
  | Register _ _ t | Rewrite _ _ _ _ _ t | Revoke _ _ _ _ t => Some t
  | _ => None
  end.

Definition IDENTITY : list string := ["routeId"; "capsuleId"; "serviceId"; "createdAt"; "expiresAt"].

Definition seconds (t : Z) : Z := (t - t mod SECOND)%Z.

Inductive stepped : request -> gateway -> gateway -> Prop :=
| only_marks r g g' : marks g g' -> stepped r g g'
| adds q token receipt_token g g1 g' n all active capsule service d :
    marks g g1 -> n < readings g1 -> all_routes g1 = Ok all -> active_among (seconds (clock g1 n)) all = Ok active ->
    check_budget capsule service active = Ok tt ->
    id_of d = "route_" +:+ token -> key_json "routeId" d = JStr (id_of d) -> key_json "capsuleId" d = JStr capsule -> key_json "serviceId" d = JStr service ->
    wf_json (JObj d) -> changed receipt_token d g1 g' -> stepped (Register q token receipt_token) g g'
| replaces r receipt_token g g1 g' id current d :
    receipt_token_of r = Some receipt_token -> marks g g1 -> load_route g1 id = Ok current -> route_has_receipt g1 current = Ok true ->
    key_json "revokedAt" current = JNull -> (forall k, k ∈ IDENTITY -> key_json k d = key_json k current) ->
    (wf_json (JObj current) -> wf_json (JObj d)) -> changed receipt_token d g1 g' -> stepped r g g'.

Local Abbreviation steps m r g := (wp m (fun _ g' => stepped r g g') (fun _ g' => stepped r g g') g).

Lemma marking_steps {A} (m : call A) r g : wp m (fun _ g' => marks g g') (fun _ g' => marks g g') g -> steps m r g.
Proof. intros H. eapply wp_mono; [exact H|..]; intros ? ? ?; by apply only_marks. Qed.

Lemma marking_if b e g : wp (raise_if b e : call unit) (fun _ g' => marks g g') (fun _ g' => marks g g') g.
Proof. apply wp_raise_if; reflexivity. Qed.

Ltac reads := repeat (apply marking_seq; [first [apply marking_lift|apply recover_marks|apply marking_if|by apply wp_get|by apply wp_now, marks_tick]|intros ? ? _]);
  first [apply marking_lift|apply marking_ret|apply recover_marks|idtac].

Lemma resolve_marks capsule service g : wp (resolve capsule service) (fun _ g' => marks g g') (fun _ g' => marks g g') g.
Proof.
  unfold resolve. reads. destruct (last _) as [route|]; [|by apply wp_raise]. reads.
Qed.

Lemma get_route_marks id g : wp (get_route id) (fun _ g' => marks g g') (fun _ g' => marks g g') g.
Proof. unfold get_route. reads. Qed.

Lemma list_routes_marks g : wp list_routes (fun _ g' => marks g g') (fun _ g' => marks g g') g.
Proof. unfold list_routes. reads. Qed.

Lemma recovery_status_marks id g : wp (recovery_status id) (fun _ g' => marks g g') (fun _ g' => marks g g') g.
Proof. unfold recovery_status. apply marking_seq; [by apply wp_get|]. intros g0 g1 _. destruct (_ !! id); reads. Qed.

(** [after_recovery]: the calls go on after their recovery. *)
Lemma wp_recovered {A} (Q : A -> gateway -> Prop) (R : gateway_error -> gateway -> Prop) (k : list dict -> call A) g :
  (forall l g1, marks g g1 -> wp (k l) Q R g1) -> (forall e g1, marks g g1 -> R e g1) -> wp (bind recover_unlocked k) Q R g.
Proof. intros HQ HR. wp_step. eapply wp_mono; [apply recover_marks|auto|auto]. Qed.

Lemma key_set_eq k v d : key_json k (dict_set k v d) = v.
Proof. unfold key_json. by rewrite dict_get_set_eq. Qed.

Lemma key_set_ne k k' v d : k <> k' -> key_json k (dict_set k' v d) = key_json k d.
Proof. intros H. unfold key_json. by rewrite dict_get_set_ne. Qed.

Lemma reviewed_route_is (Q : dict -> gateway -> Prop) (R : gateway_error -> gateway -> Prop) id expected g :
  (forall current, load_route g id = Ok current -> route_has_receipt g current = Ok true -> Q current g) -> (forall e, R e g) ->
  wp (reviewed_route id expected) Q R g.
Proof.
  intros HQ HR. unfold reviewed_route. repeat wp_step; try apply HR. split_bool. subst. by apply HQ.
Qed.

Lemma sealed_key k d : k <> "routeDigest" -> key_json k (sealed_route d) = key_json k d.
Proof. intros H. by apply key_set_ne. Qed.

Lemma wp_result (Q : dict -> gateway -> Prop) (R : gateway_error -> gateway -> Prop) route receipt now g :
  (forall x, Q x g) -> (forall e, R e g) -> wp (result_of route receipt now) Q R g.
Proof. intros HQ HR. unfold result_of. by repeat wp_step. Qed.

Lemma wf_new_route id capsule service revision port now expires : wf_json (JObj (new_route id capsule service revision port now expires)).
Proof.
  unfold new_route, sealed_route. apply wf_dict_set; [|constructor]. apply wf_json_obj. split; [apply (bool_decide_unpack _); vm_compute; exact I|].
  repeat (constructor; [cbn [snd]; try (by constructor); by apply wf_jsonb_wf|]). constructor.
Qed.

Lemma register_steps q token receipt_token g : steps (register q token receipt_token) (Register q token receipt_token) g.
Proof.
  unfold register. do 6 (wp_step; wp_step; [|by apply only_marks]). wp_step. apply wp_now.
  apply wp_recovered; [|intros e g1 Hm; apply only_marks; etrans; [apply marks_tick|done]].
  intros l g1 Hm. assert (Hm' : marks g g1) by (etrans; [apply marks_tick|done]). wp_step. wp_step.
  do 3 (wp_step; wp_step; [|by apply only_marks]). wp_step. wp_step; [by apply only_marks|].
  set (now := (_ - _)%Z) in *. set (d := new_route _ _ _ _ _ _ _). pose (r := readings g).
  assert (Hadd : forall g', changed receipt_token d g1 g' -> stepped (Register q token receipt_token) g g').
  { intros g' Hc. eapply (adds _ _ _ g g1 g' (readings g) _ _ a a0 d); try done.
    - destruct Hm as [_ _ _ _ Hr]. cbn in Hr. lia.
    - unfold seconds. by rewrite (k_clock _ _ Hm').
    - by destruct a7.
    - apply wf_new_route. }
  apply (wp_change _ _ d _ _ (fun route => [("capsuleId", _); ("serviceId", _); ("revisionDigest", _); ("upstream", key_json "upstream" route); ("expiresAt", key_json "expiresAt" route)]));
    [|by auto]. intros receipt g' Hc. apply wp_result; auto.
Qed.

Lemma not_revoked route now s : status route now = Ok s -> s <> "revoked" -> key_json "revokedAt" route = JNull.
Proof. unfold status. destruct (key_json "revokedAt" route); [done|..]; cbn; congruence. Qed.

Lemma rewrite_steps id revision port expected actor receipt_token g :
  steps (rewrite_ id revision port expected actor receipt_token) (Rewrite id revision port expected actor receipt_token) g.
Proof.
  unfold rewrite_. do 4 (wp_step; wp_step; [|by apply only_marks]). wp_step. apply wp_now.
  apply wp_recovered; [|intros e g1 Hm; apply only_marks; etrans; [apply marks_tick|done]].
  intros l g1 Hm. assert (Hm' : marks g g1) by (etrans; [apply marks_tick|done]). wp_step.
  apply reviewed_route_is; [|intros; by apply only_marks]. intros current Hl Hr. wp_step. wp_step; [|by apply only_marks].
  wp_step. wp_step; [by apply only_marks|]. wp_step. wp_step; [by apply only_marks|]. split_bool.
  assert (Hn : key_json "revokedAt" current = JNull) by by eapply not_revoked.
  set (d := sealed_route _).
  assert (Hadd : forall g', changed receipt_token d g1 g' -> stepped (Rewrite id revision port expected actor receipt_token) g g').
  { intros g' Hc. eapply (replaces _ _ g g1 g' id current d); try done.
    - intros k Hk. unfold d. rewrite sealed_key, !key_set_ne; [done|..]; intros ->; apply mem_true in Hk; by vm_compute in Hk.
    - intros Hw. unfold d, sealed_route. do 3 (apply wf_dict_set; [|by apply wf_jsonb_wf]). exact Hw. }
  apply (wp_change _ _ d _ _ (fun route => [("previousRevisionDigest", _); ("previousUpstream", _); ("previousRouteDigest", _); ("revisionDigest", _);
                                            ("upstream", key_json "upstream" route)])); [|by auto].
  intros receipt g' Hc. apply wp_result; auto.
Qed.

Lemma changed_tick token d g g' : changed token d g g' -> changed token d g (tick g').
Proof. intros [? ? ? ? ? ? ?]. constructor; cbn; auto. Qed.

Lemma revoke_steps id reason expected actor receipt_token g :
  steps (revoke id reason expected actor receipt_token) (Revoke id reason expected actor receipt_token) g.
Proof.
  unfold revoke. do 3 (wp_step; wp_step; [|by apply only_marks]). apply wp_recovered; [|intros e g1 Hm; by apply only_marks].
  intros l g1 Hm. wp_step. apply reviewed_route_is; [|intros; by apply only_marks]. intros current Hl Hr. wp_step.
  wp_step; [by apply only_marks|]. split_bool. wp_step. apply wp_now.
  assert (Hn : key_json "revokedAt" current = JNull) by (by destruct (key_json "revokedAt" current)).
  set (d := sealed_route _).
  assert (Hadd : forall g', changed receipt_token d (tick g1) g' -> stepped (Revoke id reason expected actor receipt_token) g g').
  { intros g' Hc. eapply (replaces _ _ g (tick g1) g' id current d); try done.
    - etrans; [exact Hm|apply marks_tick].
    - intros k Hk. unfold d. rewrite sealed_key, !key_set_ne; [done|..]; intros ->; apply mem_true in Hk; by vm_compute in Hk.
    - intros Hw. unfold d, sealed_route. do 3 (apply wf_dict_set; [|by apply wf_jsonb_wf]). exact Hw. }
  apply (wp_change _ _ d _ _ (fun _ => [("reason", _)])); [|by auto]. intros receipt g' Hc. wp_step. apply wp_now, wp_result.
  - intros _. by apply Hadd, changed_tick.
  - intros _. by apply Hadd, changed_tick.
Qed.

(** Every call is a step, however it ends. *)
Lemma gateway_steps g r : stepped r g (gateway_step g r).
Proof.
  assert (G : forall {A} (m : call A), steps m r g -> stepped r g (fst (quietly m g))).
  { intros A m H. unfold quietly. apply (wp_final (m >>* ret tt) (fun g' => stepped r g g')). wp_step. by eapply wp_mono. }
  destruct r; cbn; apply G; auto using register_steps, rewrite_steps, revoke_steps, marking_steps, recover_marks, recovery_status_marks,
    resolve_marks, get_route_marks, list_routes_marks.
Qed.

(** ** Served routes *)

(** The route of a file, when it is one that requests are led by *)
Definition serves (g : gateway) (id : string) : option dict :=
  match load_route g id with
  | Ok route => if recovered g route then None else match route_has_receipt g route with Ok true => Some route | _ => None end
  | Raise _ => None
  end.

Definition active (t : Z) (route : dict) : Prop := status route t = Ok "active".

#[export] Instance active_dec t route : Decision (active t route).
Proof.
  unfold active. destruct (status route t) as [s|e]; [|by right]. destruct (decide (s = "active")) as [->|Hne]; [by left|right].
  intros H. apply Hne. by injection H.
Defined.

Definition same_pair (a b : dict) : Prop :=
  key_json "capsuleId" a = key_json "capsuleId" b /\ key_json "serviceId" a = key_json "serviceId" b.

(** Files hold well-formed documents, and a valid one is in its own file. *)
Definition in_place (g : gateway) : Prop :=
  forall id v, routes g !! id = Some v -> wf_json v /\ forall d, validate_route_document v = Ok d -> key_json "routeId" d = JStr id.

Definition at_most_one (t : Z) (g : gateway) : Prop :=
  forall id1 id2 d1 d2, serves g id1 = Some d1 -> serves g id2 = Some d2 -> active t d1 -> active t d2 -> same_pair d1 d2 -> id1 = id2.

Definition is_active (t : Z) (g : gateway) (id : string) : bool :=
  match serves g id with Some d => bool_decide (active t d) | None => false end.

Definition active_ids (t : Z) (g : gateway) : gset string := filter (fun id => is_active t g id = true) (dom (routes g)).

Definition within_budget (t : Z) (g : gateway) : Prop := size (active_ids t g) <= MAX_ACTIVE_ROUTES.

Lemma serves_inv g id d : serves g id = Some d <->
  load_route g id = Ok d /\ recovered g d = false /\ route_has_receipt g d = Ok true.
Proof.
  unfold serves. split.
  - destruct (load_route g id) as [r|]; [|done]. destruct (recovered g r) eqn:E; [done|].
    destruct (route_has_receipt g r) as [[]|] eqn:E2; try done. by intros [= <-].
  - intros (-> & -> & ->). done.
Qed.

Lemma load_route_Ok g id d : load_route g id = Ok d -> routes g !! id = Some (JObj d) /\ validate_route_document (JObj d) = Ok d.
Proof.
  unfold load_route. destruct (routes g !! id) as [v|]; [|done]. intros H. pose proof (validated_route _ _ H) as ->. done.
Qed.

Lemma loaded_id g id d : in_place g -> load_route g id = Ok d -> key_json "routeId" d = JStr id.
Proof. intros Hp [Hr Hv]%load_route_Ok. by apply (Hp _ _ Hr). Qed.

Lemma active_ids_elem t g id : id ∈ active_ids t g <-> exists d, serves g id = Some d /\ active t d.
Proof.
  unfold active_ids, is_active. rewrite elem_of_filter. split.
  - intros [H _]. destruct (serves g id) as [d|]; [|done]. apply bool_decide_eq_true in H. by exists d.
  - intros (d & H & Ha). rewrite H. split; [by apply bool_decide_eq_true_2|]. apply serves_inv in H as [H _]. apply load_route_Ok in H as [H _].
    apply elem_of_dom. by eexists.
Qed.

(** What is served depends on the files of the route alone. *)
Lemma serves_frame g g' id d : in_place g -> routes g' !! id = routes g !! id -> receipts_of g' !! id = receipts_of g !! id ->
  (forall k, is_Some (recoveries g !! k) -> is_Some (recoveries g' !! k)) -> serves g' id = Some d -> serves g id = Some d.
Proof.
  intros Hp Hr Hc Hm (Hl & Hn & Ht)%serves_inv. assert (Hl' : load_route g id = Ok d) by (unfold load_route in *; by rewrite Hr in Hl).
  apply serves_inv. split; [done|]. pose proof (loaded_id _ _ _ Hp Hl') as Hid. unfold recovered, route_has_receipt, receipts, directory in *.
  rewrite Hid in *. cbn [py_str] in *. rewrite Hc in Ht. split; [|done].
  apply bool_decide_eq_false in Hn. apply bool_decide_eq_false. auto.
Qed.

(** When no more is served and active than before *)
Definition fewer (t : Z) (g g' : gateway) : Prop :=
  forall id d', serves g' id = Some d' -> active t d' -> exists d, serves g id = Some d /\ active t d /\ same_pair d d'.

Lemma fewer_keeps t g g' : fewer t g g' -> at_most_one t g -> within_budget t g -> at_most_one t g' /\ within_budget t g'.
Proof.
  intros Hf Hu Hb. split.
  - intros id1 id2 d1 d2 H1 H2 A1 A2 [P1 P2]. destruct (Hf _ _ H1 A1) as (e1 & S1 & B1 & [Q1 Q2]), (Hf _ _ H2 A2) as (e2 & S2 & B2 & [R1 R2]).
    apply (Hu id1 id2 e1 e2); try done. split; congruence.
  - unfold within_budget in *. etrans; [|exact Hb]. apply subseteq_size. intros id (d & Hs & Ha)%active_ids_elem.
    apply active_ids_elem. destruct (Hf _ _ Hs Ha) as (d' & ? & ? & _). by exists d'.
Qed.

Lemma marks_fewer t g g' : in_place g -> marks g g' -> fewer t g g'.
Proof.
  intros Hp [H1 H2 H3 _ _] id d Hs Ha. exists d. split; [|done]. apply (serves_frame g g'); [done|by rewrite H1|by rewrite H2|done|done].
Qed.

Lemma marks_in_place g g' : in_place g -> marks g g' -> in_place g'.
Proof. intros Hp [H _ _ _ _]. unfold in_place. by rewrite H. Qed.

(** *** A replaced route *)

Lemma normed_key k (d : dict) : wf_json (JObj d) -> key_json k (sort_fields (norm_fields d)) = norm (key_json k d).
Proof. intros [H _]%wf_json_obj. unfold key_json. rewrite dict_get_sort_norm by done. by destruct (dict_get k d). Qed.

Lemma identifier_text v label p s : identifier v label p = Ok s -> v = JStr s.
Proof. unfold identifier. destruct v; try done. destruct (p _); [by intros [= ->]|done]. Qed.

Lemma parse_timestamp_Ok v label t : parse_timestamp v label = Ok t -> exists s, v = JStr s.
Proof. unfold parse_timestamp. destruct v; try done. by eexists. Qed.

(** The identity of a valid route is made of texts. *)
Lemma identity_text d k : validate_route_document (JObj d) = Ok d -> k ∈ IDENTITY -> exists s, key_json k d = JStr s.
Proof.
  intros H Hk. unfold validate_route_document, capsule_id, service_id in H. inv_ok.
  unfold IDENTITY in Hk. rewrite !elem_of_cons in Hk.
  destruct Hk as [->|[->|[->|[->|[->|Hk]]]]]; [eauto using identifier_text..| | |by apply not_elem_of_nil in Hk];
    eapply parse_timestamp_Ok; eassumption.
Qed.

Lemma changed_in_place token d g g' : in_place g -> changed token d g g' -> wf_json (JObj d) -> key_json "routeId" d = JStr (id_of d) -> in_place g'.
Proof.
  intros Hp Hc Hw Hid id v Hv. destruct (decide (id = id_of d)) as [->|Hne].
  - destruct (c_own _ _ _ _ Hc) as [[Hr _]|[Hd Hr]]; [rewrite Hr in Hv; by apply Hp|]. assert (v = norm (JObj d)) as -> by congruence.
    split; [by apply norm_wf|]. intros e He. apply validated_route in He. rewrite norm_obj in He.
    assert (e = sort_fields (norm_fields d)) as -> by congruence. by rewrite normed_key, Hid.
  - rewrite (c_routes _ _ _ _ Hc) in Hv by done. by apply Hp.
Qed.

Lemma changed_others token d g g' id e : in_place g -> changed token d g g' -> id <> id_of d -> serves g' id = Some e -> serves g id = Some e.
Proof.
  intros Hp Hc Hne. apply serves_frame; [done|by apply (c_routes _ _ _ _ Hc)|by apply (c_receipts _ _ _ _ Hc)|].
  intros k. by rewrite (c_recoveries _ _ _ _ Hc).
Qed.

Lemma changed_own token d g g' e : in_place g -> changed token d g g' -> wf_json (JObj d) -> serves g' (id_of d) = Some e ->
  serves g (id_of d) = Some e \/ validate_route_document (JObj d) = Ok d /\ forall k, key_json k e = norm (key_json k d).
Proof.
  intros Hp Hc Hw Hs. destruct (c_own _ _ _ _ Hc) as [[Hr Hrc]|[Hv Hr]].
  - left. apply (serves_frame g g'); [done..| |done]. intros k. by rewrite (c_recoveries _ _ _ _ Hc).
  - right. split; [done|]. apply serves_inv in Hs as [Hl _]. apply load_route_Ok in Hl as [Hl _]. rewrite Hr, norm_obj in Hl.
    assert (e = sort_fields (norm_fields d)) as -> by congruence. intros k. by apply normed_key.
Qed.

Lemma active_inv t d : active t d <-> key_json "revokedAt" d = JNull /\
  exists e, parse_timestamp (key_json "expiresAt" d) "preview route expiry timestamp" = Ok e /\ (t < e)%Z.
Proof.
  unfold active, status. split.
  - destruct (key_json "revokedAt" d); cbn; try done. destruct (parse_timestamp _ _) as [e|]; [|done]. cbn.
    destruct (e <=? t)%Z eqn:E; [done|]. intros _. split; [done|]. exists e. split_bool. done.
  - intros [-> (e & -> & Ht)]. cbn. by rewrite (proj2 (Z.leb_gt e t)).
Qed.

Lemma active_before t now d : active t d -> (now <= t)%Z -> active now d.
Proof. rewrite !active_inv. intros [? (e & ? & ?)] ?. split; [done|]. exists e. split; [done|lia]. Qed.

Lemma replaced_fewer t token current d g g' id : in_place g -> load_route g id = Ok current -> route_has_receipt g current = Ok true ->
  key_json "revokedAt" current = JNull -> (forall k, k ∈ IDENTITY -> key_json k d = key_json k current) -> wf_json (JObj d) ->
  changed token d g g' -> fewer t g g'.
Proof.
  intros Hp Hl Hr Hn Hk Hw Hc i e Hs Ha. pose proof (loaded_id _ _ _ Hp Hl) as Hid.
  assert (Hd : id_of d = id) by (unfold id_of; rewrite Hk, Hid by (by left); done).
  destruct (decide (i = id)) as [->|Hne]; [|exists e; split; [|done]; by apply (changed_others token d g g'); rewrite ?Hd].
  pose proof (proj1 (serves_inv _ _ _) Hs) as (Hl' & Hrec & _).
  rewrite <-Hd in Hs. destruct (changed_own _ _ _ _ _ Hp Hc Hw Hs) as [Hold|[Hv Hkeys]]; [rewrite Hd in Hold; by exists e|].
  assert (Hsame : forall k, k ∈ IDENTITY -> key_json k e = key_json k current).
  { intros k Hin. destruct (identity_text _ _ Hv Hin) as [s Hs2]. rewrite Hkeys, <-Hk, Hs2 by done. done. }
  exists current. split.
  - apply serves_inv. split; [done|]. split; [|done]. unfold recovered in *. rewrite Hsame in Hrec by (by left).
    by rewrite (c_recoveries _ _ _ _ Hc) in Hrec.
  - split; [|split; symmetry; apply Hsame; apply mem_true; reflexivity].
    apply active_inv in Ha as (_ & x & Hx & Ht). apply active_inv. split; [done|]. exists x. rewrite Hsame in Hx by (apply mem_true; reflexivity). done.
Qed.

(** *** An added route *)

Lemma sorted_names_elem {A} (m : gmap string A) k : k ∈ sorted_names m <-> is_Some (m !! k).
Proof.
  unfold sorted_names. rewrite merge_sort_Permutation. split.
  - intros ([k' v] & -> & H%elem_of_map_to_list)%list_elem_of_fmap. by exists v.
  - intros [v H]. apply list_elem_of_fmap. exists (k, v). split; [done|]. by apply elem_of_map_to_list.
Qed.

Lemma sorted_names_NoDup {A} (m : gmap string A) : NoDup (sorted_names m).
Proof. unfold sorted_names. rewrite merge_sort_Permutation. apply NoDup_fst_map_to_list. Qed.

Lemma active_among_Ok now l : forall a, active_among now l = Ok a -> a = List.filter (fun d => bool_decide (active now d)) l.
Proof.
  induction l as [|d l IH]; intros a H; [by injection H as <-|]. cbn in H. apply obind_Ok in H as (s & Hs & H). apply obind_Ok in H as (m & Hm & H).
  apply IH in Hm as ->. cbn. injection H as <-. rewrite (bool_decide_ext (active now d) (s = "active")); [done|].
  unfold active. rewrite Hs. split; congruence.
Qed.

(** The routes of [_all_routes] are those that are served. *)
Lemma routes_among_served g ids : forall l, routes_among g ids = Ok l ->
  (forall d, d ∈ l <-> exists id, id ∈ ids /\ serves g id = Some d) /\
  forall now, length (List.filter (fun d => bool_decide (active now d)) l) = length (List.filter (is_active now g) ids).
Proof.
  induction ids as [|id ids IH]; intros l H.
  - injection H as <-. split; [|done]. intros d. split; [by intros ?%not_elem_of_nil|by intros (? & ?%not_elem_of_nil & _)].
  - cbn in H. apply obind_Ok in H as (d & Hl & H). apply obind_Ok in H as (b & Hb & H). apply obind_Ok in H as (more & Hm & H).
    injection H as <-. destruct (IH _ Hm) as [IH1 IH2].
    assert (Hs : serves g id = if b then Some d else None).
    { unfold serves. rewrite Hl. destruct (recovered g d); [by injection Hb as <-|]. rewrite Hb. by destruct b. }
    split.
    + intros e. destruct b; [rewrite elem_of_cons, IH1|rewrite IH1]; setoid_rewrite elem_of_cons.
      * split; [intros [->|(i & ? & ?)]; eauto|intros (i & [->|?] & Hi); [left; congruence|right; eauto]].
      * split; [intros (i & ? & ?); eauto|intros (i & [->|?] & Hi); [congruence|eauto]].
    + intros now. cbn [List.filter]. unfold is_active at 1. rewrite Hs. destruct b; cbn [List.filter]; [|apply IH2].
      destruct (bool_decide _); cbn [length]; by rewrite IH2.
Qed.

Lemma active_count now g all act : all_routes g = Ok all -> active_among now all = Ok act -> length act = size (active_ids now g).
Proof.
  intros Ha Hact. apply active_among_Ok in Hact as ->. destruct (routes_among_served _ _ _ Ha) as [_ ->].
  assert (E : active_ids now g = list_to_set (List.filter (is_active now g) (sorted_names (routes g)))).
  { apply set_eq. intros id. rewrite elem_of_list_to_set. unfold active_ids. rewrite elem_of_filter, elem_of_dom, <-sorted_names_elem.
    rewrite !list_elem_of_In, filter_In. tauto. }
  rewrite E, size_list_to_set; [done|]. pose proof (sorted_names_NoDup (routes g)) as Hn. clear -Hn.
  induction (sorted_names (routes g)) as [|x l IH]; [constructor|]. apply NoDup_cons in Hn as [Hx Hn]. cbn. destruct (is_active now g x); [|by apply IH].
  apply NoDup_cons. split; [|by apply IH]. rewrite list_elem_of_In, filter_In, <-list_elem_of_In. tauto.
Qed.

Lemma added_keeps t now token d g g' all act capsule service : in_place g -> (now <= t)%Z ->
  all_routes g = Ok all -> active_among now all = Ok act -> check_budget capsule service act = Ok tt ->
  key_json "capsuleId" d = JStr capsule -> key_json "serviceId" d = JStr service -> wf_json (JObj d) -> changed token d g g' ->
  at_most_one t g -> within_budget t g -> at_most_one t g' /\ within_budget t g'.
Proof.
  intros Hp Ht Hall Hact Hcheck Hcap Hsrv Hw Hc Hu Hb.
  unfold check_budget, refused_if in Hcheck. apply obind_Ok in Hcheck as (? & Hfree%refuse_if_Ok & Hroom%refuse_if_Ok).
  assert (Hother : forall id e, id <> id_of d -> serves g' id = Some e -> serves g id = Some e) by (intros; by eapply changed_others).
  assert (Hclash : forall id e, serves g id = Some e -> active t e -> key_json "capsuleId" e = JStr capsule -> key_json "serviceId" e = JStr service -> False).
  { intros id e Hs Ha H1 H2. apply not_true_iff_false in Hfree. apply Hfree, existsb_exists. exists e. split.
    - apply active_among_Ok in Hact as ->. apply filter_In. split; [|apply bool_decide_eq_true_2; by apply (active_before t)].
      apply list_elem_of_In. apply (routes_among_served _ _ _ Hall). exists id. split; [|done]. apply serves_inv in Hs as [Hl _].
      apply load_route_Ok in Hl as [Hl _]. apply sorted_names_elem. by eexists.
    - unfold binds, is_str. by rewrite H1, H2, !py_eqb_refl. }
  assert (Hnew : forall e, serves g' (id_of d) = Some e -> active t e -> serves g (id_of d) = Some e \/
            key_json "capsuleId" e = JStr capsule /\ key_json "serviceId" e = JStr service).
  { intros e Hs Ha. destruct (changed_own _ _ _ _ _ Hp Hc Hw Hs) as [?|[_ Hk]]; [by left|right]. by rewrite !Hk, Hcap, Hsrv. }
  assert (Hone : forall id e e', id <> id_of d -> serves g' id = Some e -> serves g' (id_of d) = Some e' -> active t e -> active t e' -> same_pair e e' -> False).
  { intros id e e' Hne Hs Hs' Ha Ha' [P1 P2]. apply Hother in Hs; [|done]. destruct (Hnew _ Hs' Ha') as [Ho|[K1 K2]].
    - apply Hne. by apply (Hu id (id_of d) e e').
    - apply (Hclash id e); [done|done|congruence..]. }
  split.
  - intros i1 i2 d1 d2 H1 H2 A1 A2 P. destruct (decide (i1 = id_of d)) as [->|N1], (decide (i2 = id_of d)) as [->|N2]; [done|..].
    + exfalso. apply (Hone i2 d2 d1); try done. by destruct P; split.
    + exfalso. by apply (Hone i1 d1 d2).
    + apply (Hu i1 i2 d1 d2); auto.
  - unfold within_budget. apply Nat.leb_gt in Hroom. rewrite (active_count _ _ _ _ Hall Hact) in Hroom.
    trans (size ({[id_of d]} ∪ active_ids now g)).
    + apply subseteq_size. intros id (e & Hs & Ha)%active_ids_elem. apply elem_of_union. destruct (decide (id = id_of d)) as [->|Hne]; [left; set_solver|].
      right. apply active_ids_elem. exists e. split; [auto|by apply (active_before t)].
    + rewrite size_union_alt, size_singleton. pose proof (subseteq_size (active_ids now g ∖ {[id_of d]}) (active_ids now g)) as Hsz.
      specialize (Hsz ltac:(set_solver)). lia.
Qed.

(** ** Histories *)

Lemma stepped_clock r g g' : stepped r g g' -> clock g' = clock g /\ readings g <= readings g'.
Proof.
  intros H. destruct H as [r g g' Hm|q t rt g g1 g' n all act c s d Hm _ _ _ _ _ _ _ _ _ Hc|r rt g g1 g' id cur d _ Hm _ _ _ _ _ Hc].
  - split; apply Hm.
  - rewrite (c_clock _ _ _ _ Hc), (k_clock _ _ Hm). pose proof (k_readings _ _ Hm). pose proof (c_readings _ _ _ _ Hc). split; [done|lia].
  - rewrite (c_clock _ _ _ _ Hc), (k_clock _ _ Hm). pose proof (k_readings _ _ Hm). pose proof (c_readings _ _ _ _ Hc). split; [done|lia].
Qed.

Lemma seconds_le t : (seconds t <= t)%Z.
Proof. unfold seconds. pose proof (Z.mod_pos_bound t SECOND ltac:(done)). lia. Qed.

Definition exclusive (t : Z) (g : gateway) : Prop := in_place g /\ at_most_one t g /\ within_budget t g.

Lemma stepped_exclusive t r g g' : stepped r g g' -> (forall n, n < readings g' -> (clock g n <= t)%Z) -> exclusive t g -> exclusive t g'.
Proof.
  intros H Ht (Hp & Hu & Hb). pose proof (stepped_clock _ _ _ H) as [_ Hrd].
  assert (Hmarks : forall g1, marks g g1 -> exclusive t g1).
  { intros g1 Hm. split; [by eapply marks_in_place|]. eapply fewer_keeps; [by apply marks_fewer|done..]. }
  destruct H as [r g g' Hm|q tk rt g g1 g' n all act c s d Hm Hn Hall Hact Hck Hid Hid' Hcap Hsrv Hw Hc|r rt g g1 g' id cur d _ Hm Hl Hrc Hnull Hk Hwf Hc].
  - by apply Hmarks.
  - destruct (Hmarks _ Hm) as (Hp1 & Hu1 & Hb1). split; [by eapply changed_in_place|].
    apply (added_keeps t (seconds (clock g1 n)) rt d g1 g' all act c s); try done. etrans; [apply seconds_le|].
    rewrite (k_clock _ _ Hm). apply Ht. pose proof (c_readings _ _ _ _ Hc). lia.
  - destruct (Hmarks _ Hm) as (Hp1 & Hu1 & Hb1). pose proof (loaded_id _ _ _ Hp1 Hl) as Hid.
    assert (Hw : wf_json (JObj d)) by (apply Hwf; apply load_route_Ok in Hl as [Hl _]; by apply (Hp1 _ _ Hl)).
    assert (Hd : id_of d = id) by (unfold id_of; rewrite Hk, Hid by (by left); done).
    split; [apply (changed_in_place rt d g1); [done..|]; by rewrite Hk, Hid, Hd by (by left)|].
    eapply fewer_keeps; [by eapply replaced_fewer|done..].
Qed.

Definition run (g : gateway) (tr : list request) : gateway := run_trace gateway_step g tr.

Lemma run_clock tr : forall g, clock (run g tr) = clock g /\ readings g <= readings (run g tr).
Proof.
  induction tr as [|r tr IH]; intros g; [done|]. change (run g (r :: tr)) with (run (gateway_step g r) tr).
  destruct (stepped_clock _ _ _ (gateway_steps g r)) as [H1 H2].
  destruct (IH (gateway_step g r)) as [H3 H4]. split; [congruence|lia].
Qed.

Lemma run_exclusive t tr : forall g, (forall n, n < readings (run g tr) -> (clock g n <= t)%Z) -> exclusive t g -> exclusive t (run g tr).
Proof.
  induction tr as [|r tr IH]; intros g Ht He; [done|]. change (run g (r :: tr)) with (run (gateway_step g r) tr) in *. pose proof (gateway_steps g r) as Hs.
  destruct (stepped_clock _ _ _ Hs) as [H1 H2], (run_clock tr (gateway_step g r)) as [H3 H4].
  apply IH; [intros n Hn; rewrite H1; by apply Ht|]. eapply stepped_exclusive; [exact Hs| |done]. intros n Hn. apply Ht. lia.
Qed.

Lemma new_exclusive t f c : exclusive t (new_registry f c).
Proof.
  assert (H : forall id, serves (new_registry f c) id = None) by (intros id; unfold serves, load_route; cbn; by rewrite lookup_empty).
  split; [|split].
  - intros id v Hv. cbn in Hv. by rewrite lookup_empty in Hv.
  - intros i1 i2 d1 d2 H1. by rewrite H in H1.
  - unfold within_budget. assert (E : active_ids t (new_registry f c) = ∅).
    { apply set_eq. intros id. rewrite active_ids_elem, H, elem_of_empty. split; [by intros (? & ? & _)|done]. }
    rewrite E, size_empty. lia.
Qed.

(** C37 A destination has one active route.  Whatever calls any number of processes make on a
    new registry, and whichever writes fail or are cut off by a crash: at any time that no
    reading of the clock has passed, at most one route that is served and active binds a
    capsule and a service, and at most sixty-four routes are active. *)
Theorem one_active_route (f : list (option write_fault)) (c : nat -> Z) (tr : list request) (t : Z) :
  (forall n, n < readings (run (new_registry f c) tr) -> (c n <= t)%Z) ->
  at_most_one t (run (new_registry f c) tr) /\ within_budget t (run (new_registry f c) tr).
Proof.
  intros Ht. destruct (run_exclusive t tr (new_registry f c)) as (_ & Hu & Hb); [exact Ht|apply new_exclusive|done].
Qed.

(** ** What stays *)

(** A file stays as it is, or a route that was not revoked is replaced by a version of the
    same identity. *)
Inductive kept : json -> json -> Prop :=
| unchanged v : kept v v
| replaced d d' : validate_route_document (JObj d) = Ok d -> key_json "revokedAt" d = JNull ->
    (forall k, k ∈ IDENTITY -> key_json k d' = key_json k d) -> kept (JObj d) (JObj d').

(** Receipts are never replaced. *)
Record evolves (g g' : gateway) : Prop := {
  e_routes : forall id v, routes g !! id = Some v -> exists v', routes g' !! id = Some v' /\ rtc kept v v';
  e_receipts : forall id m, receipts_of g !! id = Some m -> exists m', receipts_of g' !! id = Some m' /\ m ⊆ m';
}.

#[export] Instance evolves_preorder : PreOrder evolves.
Proof.
  split.
  - intros g. constructor; [intros id v H; by exists v|intros id m H; by exists m].
  - intros g1 g2 g3 [R1 C1] [R2 C2]. constructor.
    + intros id v (v2 & H2 & K2)%R1. destruct (R2 _ _ H2) as (v3 & H3 & K3). exists v3. split; [done|by etrans].
    + intros id m (m2 & H2 & K2)%C1. destruct (C2 _ _ H2) as (m3 & H3 & K3). exists m3. split; [done|by etrans].
Qed.

Definition unused (token : string) (g : gateway) : Prop := forall id m, receipts_of g !! id = Some m -> m !! ("receipt_" +:+ token) = None.

(** The random tokens of a call name no file that is there already. *)
Definition fresh (g : gateway) (r : request) : Prop :=
  (forall t, receipt_token_of r = Some t -> unused t g) /\
  match r with Register _ token _ => routes g !! ("route_" +:+ token) = None | _ => True end.

Fixpoint fresh_along (g : gateway) (tr : list request) : Prop :=
  match tr with
  | [] => True
  | r :: rest => fresh g r /\ fresh_along (gateway_step g r) rest
  end.

Lemma marks_evolves g g' : marks g g' -> evolves g g'.
Proof. intros [H1 H2 _ _ _]. constructor; rewrite ?H1, ?H2; [intros id v H; by exists v|intros id m H; by exists m]. Qed.

Lemma changed_evolves token d g g' : changed token d g g' -> unused token g ->
  (forall v, routes g !! id_of d = Some v -> rtc kept v (norm (JObj d))) -> evolves g g'.
Proof.
  intros Hc Hu Hk. constructor.
  - intros id v Hv. destruct (decide (id = id_of d)) as [->|Hne]; [|exists v; by rewrite (c_routes _ _ _ _ Hc)].
    destruct (c_own _ _ _ _ Hc) as [[Hr _]|[_ Hr]]; rewrite Hr; [by exists v|]. eexists. split; [done|by apply Hk].
  - intros id m Hm. destruct (decide (id = id_of d)) as [->|Hne]; [|exists m; by rewrite (c_receipts _ _ _ _ Hc)].
    destruct (c_grows _ _ _ _ Hc _ Hm) as (m' & Hm' & [->|[v ->]]); [by exists m|]. eexists. split; [done|].
    apply insert_subseteq. by apply (Hu (id_of d)).
Qed.

Lemma stepped_evolves r g g' : stepped r g g' -> in_place g -> fresh g r -> evolves g g'.
Proof.
  intros H Hp [Hf1 Hf2].
  assert (Hun : forall g1 t, marks g g1 -> unused t g -> unused t g1) by (intros g1 t Hm Hu id m; rewrite (k_receipts _ _ Hm); apply Hu).
  destruct H as [r g g' Hm|q tk rt g g1 g' n all act c s d Hm Hn Hall Hact Hck Hid Hid' Hcap Hsrv Hw Hc|r rt g g1 g' id cur d Hrt Hm Hl Hrc Hnull Hk Hwf Hc].
  - by apply marks_evolves.
  - etrans; [by apply marks_evolves|]. apply (changed_evolves rt d); [done|by apply Hun; auto|]. intros v Hv. exfalso.
    rewrite Hid, (k_routes _ _ Hm) in Hv. congruence.
  - etrans; [by apply marks_evolves|]. apply (changed_evolves rt d); [done|by apply Hun; auto|].
    pose proof (marks_in_place _ _ Hp Hm) as Hp1. pose proof (loaded_id _ _ _ Hp1 Hl) as Hid. apply load_route_Ok in Hl as [Hl Hv'].
    assert (Hd : id_of d = id) by (unfold id_of; rewrite Hk, Hid by (by left); done).
    rewrite Hd. intros v Hv. assert (v = JObj cur) as -> by congruence. rewrite norm_obj. apply rtc_once, replaced; [done..|].
    intros k Hin. destruct (Hp1 _ _ Hl) as [Hwc _]. rewrite normed_key by auto. rewrite Hk by done.
    destruct (identity_text _ _ Hv' Hin) as [s ->]. done.
Qed.

Lemma stepped_in_place r g g' : stepped r g g' -> in_place g -> in_place g'.
Proof.
  intros H Hp.
  destruct H as [r g g' Hm|q tk rt g g1 g' n all act c s d Hm Hn Hall Hact Hck Hid Hid' Hcap Hsrv Hw Hc|r rt g g1 g' id cur d Hrt Hm Hl Hrc Hnull Hk Hwf Hc].
  - by eapply marks_in_place.
  - eapply changed_in_place; [by eapply marks_in_place|done..].
  - pose proof (marks_in_place _ _ Hp Hm) as Hp1. pose proof (loaded_id _ _ _ Hp1 Hl) as Hid. apply load_route_Ok in Hl as [Hl _].
    destruct (Hp1 _ _ Hl) as [Hwc _]. apply (changed_in_place rt d g1); [done..|by auto|].
    unfold id_of. rewrite Hk, Hid by (by left). done.
Qed.

Lemma run_evolves tr : forall g, in_place g -> fresh_along g tr -> evolves g (run g tr).
Proof.
  induction tr as [|r tr IH]; intros g Hp Hf; [reflexivity|]. destruct Hf as [Hf1 Hf2]. change (run g (r :: tr)) with (run (gateway_step g r) tr).
  pose proof (gateway_steps g r) as Hs. etrans; [by eapply stepped_evolves|]. apply IH; [by eapply stepped_in_place|done].
Qed.

Lemma run_in_place tr : forall g, in_place g -> in_place (run g tr).
Proof. intros g Hp. unfold run. apply run_trace_invariant; [|done]. intros g' r H. by eapply stepped_in_place; [apply gateway_steps|]. Qed.

Lemma revoked_stays v v' d : rtc kept v v' -> v = JObj d -> key_json "revokedAt" d <> JNull -> v' = v.
Proof. intros H. induction H as [v|v v1 v' [w|e e' _ Hn _] _ IH]; intros E Hr; [done|by apply IH|]. injection E as ->. done. Qed.

Lemma identity_stays v v' : rtc kept v v' -> forall d k, v = JObj d -> k ∈ IDENTITY -> exists d', v' = JObj d' /\ key_json k d' = key_json k d.
Proof.
  intros H. induction H as [v|v v1 v' [w|e e' _ _ Hk] _ IH]; intros d k E Hin; [by exists d|by apply IH|].
  injection E as ->. destruct (IH e' k eq_refl Hin) as (d' & -> & Hd'). exists d'. split; [done|]. by rewrite Hd', Hk.
Qed.

(** C38 What a route was is not rewritten.  As long as random tokens do not collide, in any
    further history of a registry no route and no receipt disappears, a receipt is never
    replaced, a route keeps its identifier, capsule, service, creation and expiry, and the
    file of a revoked route never changes again. *)
Theorem route_history_is_kept (f : list (option write_fault)) (c : nat -> Z) (before after : list request) id d :
  fresh_along (run (new_registry f c) before) after ->
  routes (run (new_registry f c) before) !! id = Some (JObj d) ->
  (exists d', routes (run (run (new_registry f c) before) after) !! id = Some (JObj d') /\
    (forall k, k ∈ IDENTITY -> key_json k d' = key_json k d) /\ (key_json "revokedAt" d <> JNull -> d' = d)) /\
  (forall route m, receipts_of (run (new_registry f c) before) !! route = Some m ->
     exists m', receipts_of (run (run (new_registry f c) before) after) !! route = Some m' /\ m ⊆ m').
Proof.
  intros Hf Hv. set (g := run (new_registry f c) before) in *.
  assert (Hp : in_place g) by apply run_in_place, (new_exclusive 0 f c).
  destruct (run_evolves after g Hp Hf) as [Er Ec]. split; [|exact Ec].
  destruct (Er _ _ Hv) as (v' & Hv' & Hk). destruct (identity_stays _ _ Hk d "routeId" eq_refl) as (d' & -> & _); [by left|].
  exists d'. split; [done|]. split.
  - intros k Hin. destruct (identity_stays _ _ Hk d k eq_refl Hin) as (e & E & He). injection E as <-. done.
  - intros Hr. pose proof (revoked_stays _ _ d Hk eq_refl Hr) as E. by injection E.
Qed.

(** *** A resolved route *)

Lemma is_str_eq v s : is_str v s = true -> v = JStr s.
Proof. unfold is_str, py_eqb. intros H%bool_decide_eq_true. symmetry in H. by apply py_eq_str_l in H. Qed.

Lemma refused_if_Ok b code message u : refused_if b code message = Ok u -> b = false.
Proof. by intros H%refuse_if_Ok. Qed.

Lemma upstream_loopback v u : validate_upstream v = Ok u -> exists up port, v = JObj up /\ key_json "host" up = JStr UPSTREAM_HOST /\
  key_json "port" up = JInt port /\ (1 <= port <= 65535)%Z.
Proof.
  unfold validate_upstream, upstream_port, bounded_int. destruct v as [| | | | |up]; try done. intros H.
  apply obind_Ok in H as (? & _ & H). apply obind_Ok in H as (? & Hh%refused_if_Ok%negb_false_iff%is_str_eq & H).
  apply obind_Ok in H as (? & Hp & _). destruct (key_json "port" up) as [| |n| | |] eqn:Hn; try done.
  destruct ((1 <=? n)%Z && (n <=? 65535)%Z) eqn:E; [|done]. split_bool. exists up, n. done.
Qed.

Lemma valid_route d : validate_route_document (JObj d) = Ok d ->
  (exists u, validate_upstream (key_json "upstream" d) = Ok u) /\ key_json "routeDigest" d = JStr (route_digest d).
Proof.
  intros H. unfold validate_route_document in H. do 6 apply obind_Ok in H as (? & _ & H). apply obind_Ok in H as (u & Hu & H).
  do 3 apply obind_Ok in H as (? & _ & H). apply obind_Ok in H as (? & Hd%refused_if_Ok%negb_false_iff%is_str_eq & _). eauto.
Qed.

(** What a route with a receipt is bound by *)
Lemma receipt_binds g route : route_has_receipt g route = Ok true -> key_json "routeDigest" route = JStr (route_digest route) ->
  exists chain receipt, receipts g (id_of route) = Ok chain /\ last chain = Some receipt /\
    key_json "routeDigest" (data_of receipt) = JStr (route_digest route).
Proof.
  unfold route_has_receipt. fold (id_of route). destruct (receipts g (id_of route)) as [chain|[]]; try done.
  destruct (last chain) as [receipt|] eqn:El; [|done]. intros H Hd. exists chain, receipt. split; [done|]. split; [done|].
  apply obind_Ok in H as (? & H & _). unfold validate_receipt_route_binding in H. apply obind_Ok in H as (? & _ & H).
  apply obind_Ok in H as (? & Hb%refused_if_Ok & _). apply orb_false_iff in Hb as [_ Hb]. unfold differ in Hb. apply negb_false_iff in Hb.
  rewrite Hd in Hb. by apply is_str_eq.
Qed.

Lemma destination_Ok v label p s : (let? x := identifier v label p in destination x) = Ok s -> v = JStr s.
Proof. intros H. apply obind_Ok in H as (x & Hx%identifier_text & H). apply obind_Ok in H as (? & _ & [= ->]). done. Qed.

Lemma active_status route now s : status route now = Ok s -> s <> "revoked" -> s <> "expired" -> active now route.
Proof.
  unfold active, status. destruct (negb _); [congruence|]. intros H. apply obind_Ok in H as (e & -> & H). cbn.
  destruct (e <=? now)%Z; [congruence|done].
Qed.

(** C39 A resolved route leads where it was registered to lead.  What [resolve] answers is the
    file of a route that is served, has not expired or been revoked, and binds the capsule and
    service asked for; its upstream is a port of the loopback address, and its content is
    bound by digest to the last receipt of an unbroken chain. *)
Theorem resolved_route_is_live (g g' : gateway) (capsule service : json) (route : dict) :
  resolve capsule service g = (g', Ok route) ->
  exists now id chain receipt up port,
    serves g' id = Some route /\ active now route /\ key_json "capsuleId" route = capsule /\ key_json "serviceId" route = service /\
    key_json "upstream" route = JObj up /\ key_json "host" up = JStr UPSTREAM_HOST /\ key_json "port" up = JInt port /\ (1 <= port <= 65535)%Z /\
    receipts g' (id_of route) = Ok chain /\ last chain = Some receipt /\
    key_json "routeDigest" (data_of receipt) = JStr (route_digest route).
Proof.
  intros H. unfold resolve in H. apply bind_Ok in H as (s1 & ? & [-> Hcap]%lift_Ok & H). apply bind_Ok in H as (s2 & ? & [-> Hsrv]%lift_Ok & H).
  apply bind_Ok in H as (g1 & l & _ & H). apply bind_Ok in H as (g2 & now & _ & H). apply bind_Ok in H as (? & ? & [-> ->]%get_Ok & H).
  apply bind_Ok in H as (? & all & [-> Hall]%lift_Ok & H).
  destruct (last _) as [found|] eqn:Hlast; [|done]. apply bind_Ok in H as (? & s & [-> Hs]%lift_Ok & H).
  apply bind_Ok in H as (? & ? & [-> Hs1]%raise_if_Ok & H). apply bind_Ok in H as (? & ? & [-> Hs2]%raise_if_Ok & H). apply ret_Ok in H as [-> ->].
  apply last_Some_elem_of in Hlast. apply list_elem_of_In, filter_In in Hlast as [Hin Hb]. apply list_elem_of_In in Hin.
  apply (routes_among_served _ _ _ Hall) in Hin as (id & _ & Hserve).
  pose proof Hserve as Hserve'. apply serves_inv in Hserve' as (Hl & _ & Hrc). apply load_route_Ok in Hl as [_ Hv].
  destruct (valid_route _ Hv) as [[u Hu] Hd]. destruct (upstream_loopback _ _ Hu) as (up & port & ? & ? & ? & ?).
  destruct (receipt_binds _ _ Hrc Hd) as (chain & receipt & ? & ? & ?). exists now, id, chain, receipt, up, port.
  apply andb_true_iff in Hb as [Hb1%is_str_eq Hb2%is_str_eq]. apply destination_Ok in Hcap as ->, Hsrv as ->.
  split_and!; try done; [|by apply H2..]. apply bool_decide_eq_false in Hs1, Hs2. by eapply active_status.
Qed.

(** ** A torn route

    The route is written before its receipt.  A crash between the two leaves a route without
    receipt when it was new, which is marked for recovery; but when it was rewritten or
    revoked, its last receipt is bound to the version before, [_route_has_receipt_unlocked]
    raises, and so does the recovery with which every call begins. *)

Definition torn (g : gateway) (id : string) : Prop := exists d e, load_route g id = Ok d /\ route_has_receipt g d = Raise e.

Lemma torn_marks g g' id : marks g g' -> torn g id -> torn g' id.
Proof.
  intros [H1 H2 _ _ _] (d & e & Hl & Hr). exists d, e. unfold load_route, route_has_receipt, receipts, directory in *. by rewrite H1, H2.
Qed.

Lemma recover_routes_torn ids id : id ∈ ids -> forall g, torn g id -> exists g' e, recover_routes ids g = (g', Raise e) /\ marks g g'.
Proof.
  induction ids as [|i ids IH]; [by intros ?%not_elem_of_nil|]. intros Hin g Ht. cbn [recover_routes]. rewrite bind_get.
  destruct (decide (i = id)) as [->|Hne].
  - destruct Ht as (d & e & -> & Hr). unfold bind, lift. rewrite Hr. exists g, e. split; [done|reflexivity].
  - apply elem_of_cons in Hin as [?|Hin]; [congruence|]. destruct (load_route g i) as [d|]; [|by apply IH].
    destruct (route_has_receipt g d) as [[]|e]; [rewrite bind_lift_ok; by apply IH|rewrite bind_lift_ok|exists g, e; by split]. pose proof (mark_recovery_marks i (key_json "routeDigest" d) "route exists without a matching durable receipt" g) as Hm.
    unfold wp in Hm. unfold bind at 1. destruct (mark_recovery _ _ _ g) as [g1 [m|e]]; [|exists g1, e; by split].
    destruct (IH Hin g1 (torn_marks _ _ _ Hm Ht)) as (g2 & e & E & Hm2). exists g2, e. unfold bind. rewrite E. split; [done|by etrans].
Qed.

Lemma recover_torn g id : torn g id -> exists g' e, recover_unlocked g = (g', Raise e) /\ marks g g'.
Proof.
  intros Ht. assert (Hin : id ∈ sorted_names (routes g)).
  { destruct Ht as (d & _ & [Hr _]%load_route_Ok & _). apply sorted_names_elem. by eexists. }
  destruct (recover_routes_torn _ _ Hin g Ht) as (g' & e & E & Hm). exists g', e. split; [|done].
  unfold recover_unlocked. rewrite bind_gets. by apply bind_raises.
Qed.

(** What raises in a torn registry, leaving it torn *)
Definition stuck {A} (id : string) (m : call A) : Prop := forall g, torn g id -> exists g' e, m g = (g', Raise e) /\ torn g' id.

Lemma stuck_recovery {A} id (k : list dict -> call A) : stuck id (bind recover_unlocked k).
Proof.
  intros g Ht. destruct (recover_torn g id Ht) as (g' & e & E & Hm). exists g', e. split; [by apply bind_raises|by eapply torn_marks].
Qed.

Lemma stuck_after {A B} id (m : call B) (k : B -> call A) : (forall g, wp m (fun _ g' => marks g g') (fun _ g' => marks g g') g) ->
  (forall b, stuck id (k b)) -> stuck id (bind m k).
Proof.
  intros Hm Hk g Ht. specialize (Hm g). unfold wp in Hm. unfold bind. destruct (m g) as [g1 [b|e]].
  - apply Hk. by eapply torn_marks.
  - exists g1, e. split; [done|by eapply torn_marks].
Qed.

Lemma stuck_first {A B} id (m : call B) (k : B -> call A) : stuck id m -> stuck id (bind m k).
Proof. intros Hm g Ht. destruct (Hm g Ht) as (g' & e & E & H). exists g', e. split; [by apply bind_raises|done]. Qed.

Ltac stuck_step := first [apply stuck_recovery | apply stuck_after; [intros ?; first [apply marking_lift|by apply wp_now, marks_tick]|intros ?]].

Lemma perform_torn r id g : torn g id -> (forall k, r <> RecoveryStatus k) -> exists g' e, perform r g = (g', Raise e) /\ torn g' id.
Proof.
  intros Ht Hr. revert g Ht. change (stuck id (perform r)). destruct r; cbn [perform]; try (by exfalso; eapply Hr); apply stuck_first.
  - unfold register. repeat stuck_step.
  - unfold rewrite_. repeat stuck_step.
  - unfold revoke. repeat stuck_step.
  - intros g Ht. destruct (recover_torn g id Ht) as (g' & e & E & Hm). exists g', e. split; [done|by eapply torn_marks].
  - unfold resolve. repeat stuck_step.
  - unfold get_route. repeat stuck_step.
  - unfold list_routes. repeat stuck_step.
Qed.

Lemma run_torn id tr : forall g, torn g id -> torn (run g tr) id.
Proof.
  induction tr as [|r tr IH]; intros g Ht; [done|]. change (run g (r :: tr)) with (run (gateway_step g r) tr). apply IH.
  assert (Hd : (exists k, r = RecoveryStatus k) \/ forall k, r <> RecoveryStatus k) by (destruct r; eauto; right; congruence).
  destruct Hd as [[k ->]|Hr].
  - unfold gateway_step. cbn [perform]. apply (wp_final (quietly (recovery_status k)) (fun g' => torn g' id)). unfold quietly. wp_step.
    eapply wp_mono; [apply recovery_status_marks|..].
    + intros o g1 Hm. exact (torn_marks _ _ _ Hm Ht).
    + intros e g1 Hm. exact (torn_marks _ _ _ Hm Ht).
  - destruct (perform_torn r id g Ht Hr) as (g' & e & E & H). unfold gateway_step. by rewrite E.
Qed.

(** C40 A crash between a rewrite or a revocation and its receipt locks the registry.  Once the
    last receipt of a route is not bound to its content, every later call but the reading of
    a recovery marker raises, [recover] included, and nothing these calls do repairs it. *)
Theorem torn_route_locks_registry (g : gateway) (id : string) (tr : list request) (r : request) :
  torn g id -> (forall k, r <> RecoveryStatus k) -> exists g' e, perform r (run g tr) = (g', Raise e).
Proof. intros Ht Hr. destruct (perform_torn r id (run g tr) (run_torn id tr g Ht) Hr) as (g' & e & H & _). by exists g', e. Qed.

(** *** Examples *)

Definition hex24 (c : ascii) : string := String.concat "" (repeat (String c "") 24).
Definition digest_of (c : ascii) : json := JStr ("sha256:" +:+ String.concat "" (repeat (String c "") 64)).
Definition rid (c : ascii) : string := "route_" +:+ hex24 c.
Definition T0 : Z := 63900000000 * SECOND.
Definition steady (n : nat) : Z := (T0 + Z.of_nat n * SECOND)%Z.
Definition CAPSULE : json := JStr "capsule:demo:001".
Definition OPERATOR : json := JStr "operator".

Definition demo : registration :=
  {| q_capsule := CAPSULE; q_service := JStr "web"; q_revision := digest_of "a"; q_port := JInt 3000; q_ttl := JInt 3600; q_actor := OPERATOR |}.

Definition digest_at (id : string) (g : gateway) : json := match load_route g id with Ok d => key_json "routeDigest" d | Raise _ => JNull end.

Definition first_route : list request := [Register demo (hex24 "f") (hex24 "1")].
Definition g1 : gateway := run (new_registry [] steady) first_route.
Definition second_route : list request :=
  [Revoke (rid "f") (JStr "done") (digest_at (rid "f") g1) OPERATOR (hex24 "2"); Register demo (hex24 "0") (hex24 "3")].

Definition listed (g : gateway) : answer (list (json * json)) :=
  let? l := snd (list_routes g) in Ok ((fun d => (key_json "routeId" d, key_json "status" d)) <$> l).

Example route_is_listed : listed g1 = Ok [(JStr (rid "f"), JStr "active")].
Proof. vm_compute. reflexivity. Qed.

(** [resolve] takes the last route of the destination, in the order of the random identifiers,
    although an active one is there. *)
Example active_route_is_missed : (listed (run g1 second_route), snd (resolve CAPSULE (JStr "web") (run g1 second_route))) =
  (Ok [(JStr (rid "0"), JStr "active"); (JStr (rid "f"), JStr "revoked")],
   refused "preview_route_revoked" "the preview route for this destination was revoked").
Proof. vm_compute. reflexivity. Qed.

(** A crash after the route of a registration was written is recovered from. *)
Example crashed_registration : let g := run (new_registry [None; Some Lost] steady) (first_route ++ [Recover]) in
  (listed g, map fst (map_to_list (recoveries g)), listed (run g [Register demo (hex24 "0") (hex24 "3")])) =
  (Ok [], [rid "f"], Ok [(JStr (rid "0"), JStr "active")]).
Proof. vm_compute. reflexivity. Qed.

(** A crash after the route of a rewrite was written *)
Definition crash : request := Rewrite (rid "f") (digest_of "b") (JInt 3001) (digest_at (rid "f") g1) OPERATOR (hex24 "2").
Definition g_torn : gateway := gateway_step (set_faults [None; Some Lost] g1) crash.

Definition tornb (g : gateway) (id : string) : bool :=
  match load_route g id with Ok d => match route_has_receipt g d with Raise _ => true | Ok _ => false end | Raise _ => false end.

Lemma tornb_torn g id : tornb g id = true -> torn g id.
Proof. unfold tornb, torn. destruct (load_route g id) as [d|]; [|done]. destruct (route_has_receipt g d) as [|e] eqn:E; [done|]. eauto. Qed.

Definition unusedb (token : string) (g : gateway) : bool :=
  forallb (fun im => negb (bool_decide (is_Some (snd im !! ("receipt_" +:+ token))))) (map_to_list (receipts_of g)).

Lemma unusedb_unused token g : unusedb token g = true -> unused token g.
Proof.
  intros H id m Hm. apply eq_None_not_Some. apply (bool_decide_eq_false (is_Some _)), negb_true_iff.
  exact (proj1 (forallb_forall _ _) H (id, m) (proj1 (list_elem_of_In _ _) (proj2 (elem_of_map_to_list _ _ _) Hm))).
Qed.

(** *** The properties at these inputs *)

Definition later : Z := (T0 + 1000 * SECOND)%Z.

Lemma one_active_route_witness : at_most_one later (run (new_registry [] steady) (first_route ++ second_route)) /\
  within_budget later (run (new_registry [] steady) (first_route ++ second_route)).
Proof.
  apply (one_active_route [] steady (first_route ++ second_route) later).
  assert (E : readings (run (new_registry [] steady) (first_route ++ second_route)) <= 100) by (apply Nat.leb_le; vm_compute; reflexivity).
  intros n Hn. unfold steady, later, T0, SECOND. lia.
Defined.

Lemma route_history_is_kept_witness : exists d d', routes g1 !! rid "f" = Some (JObj d) /\
  routes (run g1 second_route) !! rid "f" = Some (JObj d') /\ (forall k, k ∈ IDENTITY -> key_json k d' = key_json k d).
Proof.
  destruct (routes g1 !! rid "f") as [[| | | | |d]|] eqn:E; try (vm_compute in E; discriminate E).
  destruct (route_history_is_kept [] steady first_route second_route (rid "f") d) as [(d' & H1 & H2 & _) _].
  - split; [split; [intros t [= <-]; apply unusedb_unused; vm_compute; reflexivity|exact I]|].
    split; [split; [intros t [= <-]; apply unusedb_unused; vm_compute; reflexivity|vm_compute; reflexivity]|exact I].
  - exact E.
  - exists d, d'. split; [reflexivity|]. split; [exact H1|exact H2].
Defined.

Lemma resolved_route_is_live_witness : exists g' route now id, resolve CAPSULE (JStr "web") g1 = (g', Ok route) /\ serves g' id = Some route /\ active now route.
Proof.
  destruct (resolve CAPSULE (JStr "web") g1) as [g' [route|e]] eqn:E.
  - destruct (resolved_route_is_live g1 g' CAPSULE (JStr "web") route E) as (now & id & chain & receipt & up & port & H1 & H2 & _).
    exists g', route, now, id. split; [reflexivity|]. split; [exact H1|exact H2].
  - assert (H : match snd (resolve CAPSULE (JStr "web") g1) with Ok _ => true | Raise _ => false end = true) by (vm_compute; reflexivity).
    rewrite E in H. discriminate H.
Defined.

Lemma torn_route_locks_registry_witness : torn g_torn (rid "f") /\ exists g' e, perform Recover (run g_torn second_route) = (g', Raise e).
Proof.
  assert (Ht : torn g_torn (rid "f")) by (apply tornb_torn; vm_compute; reflexivity).
  split; [exact Ht|]. apply (torn_route_locks_registry g_torn (rid "f") second_route Recover Ht). intros k H. discriminate H.
Defined.
